(* ===== verification/_CoqProject ===== *)
-Q . S2P
Prelude.v
Double.v
Cxx.v
CStdlib.v
JsonReader.v
MarketConfig.v
Config.v
Effects.v
Backoff.v
RowClock.v
KObject.v
TpPublisher.v
TpSession.v
TradeGap.v
Scheduler.v
BookSide.v
RestClient.v
SnapshotWorker.v
OrderBook.v
OrderBookSpec.v
BookProps.v
BookLive.v
BookRanges.v
Rows.v
Delivery.v
Shutdown.v
QuoteHandler.v
QuoteHandlerProps.v
QuoteShutdown.v
QuoteChain.v
QuoteLive.v
TradeBackfill.v
TradeBackfillProps.v
TradeBackfillLive.v
TradeLedger.v
TradeHandler.v
TradeHandlerProps.v
TpMemory.v
TradeRestart.v
TickerPlant.v
TpLine.v
TickerLog.v
SimWorld.v
QuoteExample.v
TradeShutdown.v
TradeExample.v
SimPublisher.v
SimPublisherProps.v
