(* ===== verification/Prelude.v ===== *)
(** * t2s feed handlers

    A model of the C++ feed handlers of t2s (src/cpp) and the theorems that make
    them correct. Four binaries share one code base: trade and quote handlers,
    each for Binance spot and futures. A handler reads trade or depth events from
    a WebSocket, builds kdb+ rows and publishes them to a tickerplant (TP), and
    must neither lose, repeat, reorder nor invent data, whatever connection
    breaks, whenever it is restarted, and however the exchange answers.

    ** Parts and files

    Foundations. This file: record update, list lemmas. [Double]: IEEE doubles
    with the order facts and the tactic [dorder]. [Cxx]: std::lower_bound and
    std::sort. [CStdlib]: strtod, std::stoi, std::to_string. [Effects]: the monad
    of a handler's methods (own members, outside world, [None] for a retry loop
    out of fuel), the classes of the outside ([Host]: clocks and jitter,
    [WebSocket], [Background]: how many steps the worker thread takes next), and
    the triples by which properties of primitive steps extend to methods.

    Components, one file each, operations named as in the source:
    - json_reader.hpp: [JsonReader], over rapidjson as the class [JsonLib].
    - config.hpp and the four main files: [Config]; market_config.hpp: [MarketConfig].
    - sleepWithBackoff of all three users, and the process's shutdown flag: [Backoff].
    - row_clock.hpp: [RowClock]. trade_row.hpp, quote_row.hpp: [Rows].
    - k_object.hpp and fh_stats.hpp: [KObject] (values as the type [K]; the
      reference counts of KOwned in its module [Ownership]).
    - tp_publisher.hpp: [TpPublisher], over the C API as the class [TpLink].
    - trade_gap.hpp: [TradeGap]. trade_backfill.hpp: [TradeBackfill].
    - snapshot_scheduler.hpp: [Scheduler]. snapshot_worker.hpp: [SnapshotWorker].
    - rest_client.hpp: [RestClient], over the HTTPS exchange as the class [HttpLib].
    - order_book_manager.hpp: [BookSide] (one side) and [OrderBook] (a symbol's
      book: a state machine INIT, SYNCING, VALID, INVALID; and the manager).
    - quote_feed_handler.cpp/.hpp: [QuoteHandler]. trade_feed_handler.cpp/.hpp:
      [TradeHandler]. Both are compositions of the components above, with the
      whole loop of [run]: connect, read, process, publish, reconnect, shut down.
    - tools/sim_trade_publisher.cpp: [SimPublisher], the test publisher.

    State is passed explicitly: a C++ object is a record, a member function takes
    and returns it. The two threads of a handler (the main loop and the snapshot
    or backfill worker) share only bounded queues, each operation of which holds a
    mutex; the worker's steps are functions, and [Background] says how many of them
    happen at each turn of the main loop, for every schedule.

    ** Specifications and what is proved

    - Delivery. [TpSession] is the contract of the tickerplant: what it has logged,
      which connection still delivers, and what [.tp.registerSession] answers.
      Against it the publisher's rows reach TP's log in order and once each, across
      any number of lost connections; rows the ring no longer had are counted.
      The contract asks of a handler what ours do: rows as wide as announced, sent in
      an open session, and a next number above all that is logged.
      [Delivery] adds the interface [TpQuiet] (everything else a handler does leaves
      the session alone) and the invariant both handlers keep, [published_rows].
    - Books. [OrderBookSpec] takes the exchange's book at every update id as given.
      Every reachable book is exact inside its horizon, a valid quote shows the
      best levels at the update id it carries, the initial synchronisation is the
      exchange's documented procedure, a background refresh is transparent, and
      published ranges chain ([BookProps]). [BookLive]: with an unbroken stream
      nothing is refused, and a book goes live. [BookRanges] is the invariant behind
      the rows' id ranges, about any data.
    - Quotes end to end. [QuoteHandlerProps]: the rows in TP's log are numbered
      without a hole and, when valid, exact. [QuoteChain]: whatever the data's
      content, between two valid rows of a symbol no update id is missing unless an
      invalid row marks it. It uses that the shutdown flag, once cleared, stays
      cleared (class [FlagStays] in [Shutdown]): TP is given up only then, and a
      reconnect marks holes only while TP is connected.
    - Trades end to end. [TradeBackfillProps]: the backfill refines an automaton that
      serves gaps oldest first, ids in order, each once. [TradeLedger] is the
      bookkeeping; [TradeHandlerProps]: every id is published, owed by an open gap, or
      given up in an event; detected events are exactly the stream's gaps.
      [TpMemory] is what the tickerplant's q code (tp.q) remembers of a trade table;
      [TradeRestart]: with that, any number of restarts of the handler lose no trade.
    - The tickerplant. [TickerPlant] is tp.q's code for one table: registrations, rows,
      gap events, midnight, exit and restart, with the state in memory, in the logs
      and in the session file. It answers registrations as a specification of
      sessions says, and tells of trades what its logs hold, over any sequence of
      operations and restarts that the code provides for. [TpLine] is a connection to
      it and discharges [TpSession], TP's midnights and restarts included; at its end
      are two restarts the code does not provide for, in which rows are lost or
      logged twice, and a row that TP could not write. [TickerLog] is what TP keeps on
      disk of all tables: the numbers it stamps rows with are never used twice, and a
      reader that seeks through the index reads what the whole log holds, though any
      write may be refused and TP may die in it.
    - Liveness and termination. A symbol never waits for a lost snapshot for ever
      ([QuoteLive]): what waits has a start the timeout finds. Both [run] loops return
      once the shutdown flag is cleared ([Shutdown], [QuoteShutdown],
      [TradeShutdown]); the backfill recovers a gap that the exchange serves
      ([TradeBackfillLive]).
    - The rest: rate limits and backoff bounds, error paths of the parsers and of
      the configuration, row layouts, clock correction and its 64-bit bounds,
      ownership of kdb+ objects.

    [SimWorld] is a concrete outside, with that tickerplant, that satisfies every
    interface; [QuoteExample], [TradeExample] and the witnesses beside the theorems run
    the handlers on it.

    ** Bounds and fuel

    The loops of the source that can retry for ever take fuel: [connect_loop],
    [run_loop], [message_loop]. Each iteration reads the shutdown flag, so fuel above
    the number of times it is still read as set is enough; that is a theorem about
    each of them, not an assumption. [pump_loop] has the source's own guard of
    100000 iterations. Loops over data recurse on the data. Integers are [Z]: the
    counters and ids of a run stay far below 2^63, and where the code computes with
    values from outside (row times) the absence of overflow is a theorem. Prices and
    request weights are doubles with their rounding.

    ** Not modelled, and why

    Logging (logger.hpp, the log lines, shouldLogParseFailure, and the periodic
    STATS line) and the socket options (socket_utils.hpp): no state of the program
    depends on them. TLS, HTTP and WebSocket framing (Boost.Beast, OpenSSL), the
    JSON parser (rapidjson) and kdb+'s C API are third-party code: classes, with the
    laws the theorems use. Of the tickerplant the sessions, the trade state, the row
    numbers, the logs and their index are modelled; publication, clock skew, disk
    space, incidents and status, the other kdb+ processes, shell scripts and tests
    are not: no handler, row or log depends on them. *)

From stdpp Require Export base list gmap strings.
From Stdlib Require Export ZArith Lia.
From Stdlib Require Import Sorted.

(** ** Functional record update

    [r <| field := v |>] and [r <| field ::= f |>] stand for an assignment to
    one member of a C++ object. A record opts in with an [Eta] instance that
    rebuilds it from its projections. *)

Class Eta (R : Type) := eta : R -> R.
Class Setter {R T : Type} (p : R -> T) := modify : (T -> T) -> R -> R.
Arguments modify {R T} p {_} f r.

Ltac build_setter :=
  match goal with
  | |- @Setter ?R ?T ?p =>
      let e := constr:(_ : Eta R) in
      let g := constr:(fun (f : T -> T) (r : R) =>
        ltac:(let b := eval hnf in (e r) in
              match eval pattern (p r) in b with
              | ?F _ => let t := eval cbv beta in (F (f (p r))) in exact t
              end)) in
      exact g
  end.
#[export] Hint Extern 0 (Setter _) => build_setter : typeclass_instances.

Declare Scope rec_scope.
Delimit Scope rec_scope with rec.
Notation "r <| p := v |>" := (modify p (fun _ => v) r)
  (at level 1, left associativity, p at next level, v at level 200) : rec_scope.
Notation "r <| p ::= f |>" := (modify p f r)
  (at level 1, left associativity, p at next level, f at level 200) : rec_scope.

(** ** Tactics *)

(** Case analysis on the innermost condition of the goal, or of a hypothesis. *)
Ltac case_goal :=
  match goal with
  | |- context [match ?c with _ => _ end] =>
      lazymatch c with
      | context [match _ with _ => _ end] => fail
      | _ => let E := fresh "E" in destruct c eqn:E
      end
  end.
Ltac case_hyp H :=
  match type of H with
  | context [match ?c with _ => _ end] =>
      lazymatch c with
      | context [match _ with _ => _ end] => fail
      | _ => let E := fresh "E" in destruct c eqn:E
      end
  end.

(** Turn boolean facts about numbers and connectives into propositions. *)
Create Rewrite HintDb boolspec.
#[export] Hint Rewrite Bool.andb_true_iff Bool.andb_false_iff Bool.orb_true_iff
  Bool.orb_false_iff Bool.negb_true_iff Bool.negb_false_iff
  Z.eqb_eq Z.eqb_neq Z.ltb_lt Z.ltb_ge Z.leb_le Z.leb_gt Z.gtb_ltb Z.geb_leb
  Nat.eqb_eq Nat.eqb_neq Nat.ltb_lt Nat.ltb_ge Nat.leb_le Nat.leb_gt : boolspec.
Ltac bools := autorewrite with boolspec in *.

(** ** 64-bit signed integers

    [long long] and [std::int64_t] values are integers; where an operation could
    leave this range (undefined behaviour in C++), a bounds theorem says when it
    does not. *)

Definition i64_min : Z := (-9223372036854775808)%Z.
Definition i64_max : Z := 9223372036854775807%Z.
Definition in_i64 (z : Z) : Prop := (i64_min <= z <= i64_max)%Z.

(** The kdb+ null long, [0x8000000000000000ULL] read as signed. *)
Definition null_long : Z := i64_min.

(** Nanoseconds between the Unix and the kdb+ epoch. *)
Definition kdb_epoch_offset_ns : Z := 946684800000000000%Z.

(** ** Lists *)

(** The newest [n] elements of a sequence that grows at its end: what a
    bounded drop-oldest buffer holds. *)
Definition lastn {A} (n : nat) (l : list A) : list A := drop (length l - n) l.

Section lastn.
Context {A : Type}.
Implicit Types l : list A.

Lemma lastn_all n l : length l <= n -> lastn n l = l.
Proof. intros H. unfold lastn. by replace (length l - n) with 0 by lia. Qed.

Lemma length_lastn n l : length (lastn n l) = Nat.min n (length l).
Proof. unfold lastn. rewrite length_drop. lia. Qed.

Lemma lastn_snoc n l x : lastn (S n) (l ++ [x]) = lastn n l ++ [x].
Proof.
  unfold lastn. rewrite length_app. simpl.
  replace (length l + 1 - S n) with (length l - n) by lia.
  rewrite drop_app_le by lia. done.
Qed.

Lemma lastn_lastn n m l : n <= m -> lastn n (lastn m l) = lastn n l.
Proof.
  intros H. unfold lastn. rewrite length_drop, drop_drop. f_equal. lia.
Qed.

Lemma lastn_suffix n l : lastn n l `suffix_of` l.
Proof. exists (take (length l - n) l). unfold lastn. by rewrite take_drop. Qed.
End lastn.

Lemma lookup_last_cons {A} (l : list A) (x : A) i :
  (l ++ [x]) !! i = if decide (i = length l) then Some x else l !! i.
Proof.
  case_decide as E.
  - subst. by rewrite lookup_app_r, Nat.sub_diag by lia.
  - destruct (decide (i < length l)) as [H|H].
    + by rewrite lookup_app_l by lia.
    + rewrite lookup_ge_None_2 by (rewrite length_app; simpl; lia).
      by rewrite lookup_ge_None_2 by lia.
Qed.

Lemma sublist_full {A} (l k : list A) : l `sublist_of` k -> length k <= length l -> l = k.
Proof.
  induction 1 as [|x l k _ IH|x l k Hs IH]; cbn; intros H; [done|f_equal; apply IH; lia|].
  apply sublist_length in Hs. lia.
Qed.

Lemma sublist_Forall {A} (P : A -> Prop) (l k : list A) : l `sublist_of` k -> Forall P k -> Forall P l.
Proof. induction 1 as [|x l k _ IH|x l k _ IH]; rewrite ?Forall_cons; intuition. Qed.

Lemma sublist_fmap {A B} (f : A -> B) (l k : list A) :
  l `sublist_of` k -> (f <$> l) `sublist_of` (f <$> k).
Proof. induction 1; cbn; by constructor. Qed.

Lemma Forall_snoc {A} (P : A -> Prop) (l : list A) x : Forall P (l ++ [x]) <-> Forall P l /\ P x.
Proof. by rewrite Forall_app, Forall_singleton. Qed.

(** [std::vector::empty] and [std::deque::empty]. *)
Definition is_empty {A} (l : list A) : bool := match l with [] => true | _ => false end.

Lemma delete_middle_eq {A} (l1 l2 : list A) x : delete (length l1) (l1 ++ x :: l2) = l1 ++ l2.
Proof. induction l1 as [|y l1 IH]; cbn; [done|]. by f_equal. Qed.

Lemma alter_middle_eq {A} (f : A -> A) (l1 l2 : list A) x :
  alter f (length l1) (l1 ++ x :: l2) = l1 ++ f x :: l2.
Proof. induction l1 as [|y l1 IH]; cbn; [done|]. by f_equal. Qed.

(** Elements equal under a test: list equality as C++'s [std::vector ==]. *)
Fixpoint list_eqb {A} (eqb : A -> A -> bool) (l k : list A) : bool :=
  match l, k with
  | [], [] => true
  | x :: l', y :: k' => eqb x y && list_eqb eqb l' k'
  | _, _ => false
  end.

(** Consecutive elements are related. *)
Definition adjacent {A} (R : A -> A -> Prop) (l : list A) : Prop :=
  forall i x y, l !! i = Some x -> l !! S i = Some y -> R x y.

Lemma adjacent_snoc {A} (R : A -> A -> Prop) (l : list A) y :
  adjacent R l -> (forall x, last l = Some x -> R x y) -> adjacent R (l ++ [y]).
Proof.
  intros Hl Hy i x z Hx. rewrite lookup_last_cons. case_decide as E.
  - intros [= <-]. apply Hy. rewrite last_lookup, <-E. cbn. rewrite lookup_app_l in Hx by lia. done.
  - intros Hz. apply (Hl i); [|done]. apply lookup_lt_Some in Hz as Hlt.
    rewrite lookup_app_l in Hx by lia. done.
Qed.
