(* ===== verification/Double.v ===== *)
(** * C++ [double]: IEEE 754 binary64

    Prices, quantities and request-weight tokens are C++ doubles. They are
    modelled by the Standard Library's [spec_float] with binary64 precision, so
    comparison and arithmetic are executable and round as the hardware does:
    NaN is unordered, the two zeros are equal. The section on the order gives
    the facts the order books rely on, and the tactic [dorder] that decides
    comparisons. *)

From S2P Require Import Prelude.
From Stdlib Require Import Floats.SpecFloat.

Open Scope Z_scope.

Abbreviation double := spec_float.

Definition prec64 : Z := 53.
Definition emax64 : Z := 1024.

Definition dlt (x y : double) : bool := SFltb x y.
Definition dgt (x y : double) : bool := SFltb y x.
Definition dle (x y : double) : bool := SFleb x y.
Definition dge (x y : double) : bool := SFleb y x.
Definition deq (x y : double) : bool := SFeqb x y.

Definition dadd : double -> double -> double := SFadd prec64 emax64.
Definition dsub : double -> double -> double := SFsub prec64 emax64.
Definition dmul : double -> double -> double := SFmul prec64 emax64.
Definition ddiv : double -> double -> double := SFdiv prec64 emax64.

(** [static_cast<double>] of an integer. *)
Definition d_of_Z (z : Z) : double := binary_normalize prec64 emax64 z 0 false.

(** [static_cast<std::int64_t>]: truncation toward zero of a finite value
    (other values are undefined in C++ and mapped to 0). *)
Definition Z_of_d (x : double) : Z :=
  match x with
  | S754_finite s m e =>
      let a := if e <? 0 then Z.pos m / 2 ^ (- e) else Z.pos m * 2 ^ e in
      if s then - a else a
  | _ => 0
  end.

(** A decimal literal [n / 10^k]. *)
Definition d_dec (n : Z) (k : N) : double := ddiv (d_of_Z n) (d_of_Z (10 ^ Z.of_N k)).

Definition d0 : double := S754_zero false.
Definition dnan : double := S754_nan.

(** [std::min] and [std::max]: the first argument unless the second is
    strictly smaller (larger). *)
Definition dmin (a b : double) : double := if dlt b a then b else a.
Definition dmax (a b : double) : double := if dlt a b then b else a.

(** ** The order

    The rank of a double: its class (infinities, sign), then its exponent and
    mantissa. On numbers the comparison is the lexicographic order of ranks. *)

Definition kn (x : double) : Z := match x with S754_nan => 1 | _ => 0 end.
Definition k1 (x : double) : Z :=
  match x with
  | S754_infinity s => if s then -2 else 2
  | S754_finite s _ _ => if s then -1 else 1
  | _ => 0
  end.
Definition k2 (x : double) : Z :=
  match x with S754_finite s _ e => if s then - e else e | _ => 0 end.
Definition k3 (x : double) : Z :=
  match x with S754_finite s m _ => if s then Z.neg m else Z.pos m | _ => 0 end.

Definition notnan (x : double) : Prop := kn x = 0.

#[global] Instance notnan_dec x : Decision (notnan x).
Proof. unfold notnan. apply _. Defined.

Lemma SFcompare_rank x y :
  notnan x -> notnan y ->
  SFcompare x y =
    Some (match k1 x ?= k1 y with
          | Eq => match k2 x ?= k2 y with Eq => k3 x ?= k3 y | c => c end
          | c => c
          end).
Proof.
  unfold notnan.
  destruct x as [sx|sx| |sx mx ex], y as [sy|sy| |sy my ey]; cbn; intros Hx Hy;
    try discriminate; try destruct sx; try destruct sy; try reflexivity.
  rewrite Z.compare_opp, (Z.compare_antisym ex ey).
    destruct (ex ?= ey); reflexivity.
Qed.

Lemma SFcompare_nan x y : ~ (notnan x /\ notnan y) -> SFcompare x y = None.
Proof. unfold notnan. destruct x, y; cbn; intros H; try reflexivity; exfalso; lia. Qed.

Definition rank_lt (x y : double) : Prop :=
  k1 x < k1 y \/ (k1 x = k1 y /\ (k2 x < k2 y \/ (k2 x = k2 y /\ k3 x < k3 y))).
Definition rank_eq (x y : double) : Prop := k1 x = k1 y /\ k2 x = k2 y /\ k3 x = k3 y.

Ltac rank_cases x y :=
  destruct (Z.compare_spec (k1 x) (k1 y)), (Z.compare_spec (k2 x) (k2 y)),
    (Z.compare_spec (k3 x) (k3 y)).

Lemma dlt_rank x y : dlt x y = true <-> notnan x /\ notnan y /\ rank_lt x y.
Proof.
  unfold dlt, SFltb.
  destruct (decide (notnan x)) as [Hx|Hx], (decide (notnan y)) as [Hy|Hy];
    [|rewrite SFcompare_nan by tauto; intuition discriminate..].
  rewrite SFcompare_rank by done. unfold rank_lt.
  rank_cases x y; split; try discriminate; try (intros _; repeat split; auto; lia);
    intros (_ & _ & H'); reflexivity || (exfalso; lia).
Qed.

Lemma deq_rank x y : deq x y = true <-> notnan x /\ notnan y /\ rank_eq x y.
Proof.
  unfold deq, SFeqb.
  destruct (decide (notnan x)) as [Hx|Hx], (decide (notnan y)) as [Hy|Hy];
    [|rewrite SFcompare_nan by tauto; intuition discriminate..].
  rewrite SFcompare_rank by done. unfold rank_eq.
  rank_cases x y; split; try discriminate; try (intros _; repeat split; auto; lia);
    intros (_ & _ & H'); reflexivity || (exfalso; lia).
Qed.

Lemma dle_rank x y :
  dle x y = true <-> notnan x /\ notnan y /\ (rank_lt x y \/ rank_eq x y).
Proof.
  unfold dle, SFleb.
  destruct (decide (notnan x)) as [Hx|Hx], (decide (notnan y)) as [Hy|Hy];
    [|rewrite SFcompare_nan by tauto; intuition discriminate..].
  rewrite SFcompare_rank by done. unfold rank_lt, rank_eq.
  rank_cases x y; split; try discriminate; try (intros _; repeat split; auto; lia);
    intros (_ & _ & H'); reflexivity || (exfalso; lia).
Qed.

(** [dorder] decides a comparison from the comparisons in the context: every
    boolean test becomes a statement about ranks, and [lia] does the rest. *)
Ltac dorder :=
  unfold dgt, dge in *;
  repeat match goal with
  | H : _ = false |- _ => apply Bool.not_true_iff_false in H
  | |- _ = false => apply Bool.not_true_iff_false
  end;
  rewrite ?dlt_rank, ?deq_rank, ?dle_rank in *;
  unfold rank_lt, rank_eq, notnan in *;
  cbn [kn k1 k2 k3 d0] in *; lia.

Lemma dlt_irrefl x : dlt x x = false.
Proof. dorder. Qed.
Lemma dlt_trans x y z : dlt x y = true -> dlt y z = true -> dlt x z = true.
Proof. intros. dorder. Qed.
Lemma dlt_total x y : notnan x -> notnan y ->
  dlt x y = true \/ deq x y = true \/ dlt y x = true.
Proof. intros. dorder. Qed.
Lemma deq_refl x : notnan x -> deq x x = true.
Proof. intros. dorder. Qed.
Lemma deq_sym x y : deq x y = deq y x.
Proof. apply Bool.eq_iff_eq_true. dorder. Qed.
Lemma deq_trans x y z : deq x y = true -> deq y z = true -> deq x z = true.
Proof. intros. dorder. Qed.

Example dlt_ex : dlt (d_dec 1 1) (d_dec 25 2) = true /\ deq (S754_zero true) d0 = true
  /\ deq dnan dnan = false /\ Z_of_d (d_dec (-75) 1) = -7.
Proof. vm_compute. done. Qed.

(** ** Signs

    A double with no minus sign; zeros of either sign count. *)

Definition nonneg (x : double) : Prop :=
  match x with S754_finite s _ _ | S754_infinity s => s = false | _ => True end.

Lemma binary_round_aux_nonneg m e l : nonneg (binary_round_aux prec64 emax64 false m e l).
Proof.
  unfold binary_round_aux. destruct (shr_fexp _ _ _ _ _) as [mrs e1].
  destruct (shr_fexp _ _ _ _ _) as [mrs2 e2]. destruct (shr_m mrs2); cbn; [done| |done].
  by destruct (_ <=? _).
Qed.

Lemma dmul_nonneg x y : nonneg x -> nonneg y -> nonneg (dmul x y).
Proof.
  destruct x as [sx|sx| |sx mx ex], y as [sy|sy| |sy my ey]; cbn [nonneg dmul SFmul]; try done;
    unfold dmul; cbn [SFmul]; intros Hx Hy; try (by cbn; rewrite ?Hx, ?Hy).
  subst. apply binary_round_aux_nonneg.
Qed.

Lemma d_of_Z_nonneg z : 0 <= z -> nonneg (d_of_Z z).
Proof.
  intros H. destruct z as [|p|p]; [done| |lia]. unfold d_of_Z, binary_normalize, binary_round.
  destruct (shl_align _ _ _) as [m e]. apply binary_round_aux_nonneg.
Qed.

Lemma Z_of_d_nonneg x : nonneg x -> 0 <= Z_of_d x.
Proof.
  destruct x as [s|s| |s m e]; cbn; try lia. intros ->. destruct (Z.ltb_spec e 0).
  - apply Z.div_pos; [lia|]. apply Z.pow_pos_nonneg; lia.
  - pose proof (Z.pow_nonneg 2 e). nia.
Qed.
