(* ===== verification/Cxx.v ===== *)
(** * The C++ standard algorithms the books use

    [std::lower_bound] as the binary search of the library, with its result on
    a partitioned range, and [std::sort] as an executable sort together with the
    theorem that on pairwise comparable elements every correct sort returns the
    same vector, so nothing depends on which algorithm the library picks. *)

From S2P Require Import Prelude.
From Stdlib Require Import Sorting.Permutation Sorted.

(** ** [std::lower_bound] *)

Section lower_bound.
Context {A : Type} (before : A -> bool).

(** One loop of the library's search: [first] and [len] delimit what is left. *)
Fixpoint lower_bound_loop (fuel : nat) (l : list A) (first len : nat) : nat :=
  match fuel with
  | O => first
  | S fuel' =>
      if (len =? 0)%nat then first
      else
        let half := (len / 2)%nat in
        let middle := (first + half)%nat in
        match l !! middle with
        | Some x =>
            if before x then lower_bound_loop fuel' l (S middle) (len - half - 1)
            else lower_bound_loop fuel' l first half
        | None => first
        end
  end.

Definition lower_bound (l : list A) : nat :=
  lower_bound_loop (S (length l)) l 0 (length l).

(** The range is partitioned: elements that satisfy [before] come first. *)
Definition split_by (l1 l2 : list A) : Prop :=
  Forall (fun x => before x = true) l1 /\ Forall (fun x => before x = false) l2.

Lemma lower_bound_loop_split fuel l1 l2 first len :
  split_by l1 l2 ->
  len < fuel -> first <= length l1 <= first + len -> first + len <= length (l1 ++ l2) ->
  lower_bound_loop fuel (l1 ++ l2) first len = length l1.
Proof.
  intros [H1 H2]. revert first len.
  induction fuel as [|fuel IH]; intros first len Hf Hb Hl; [lia|]. cbn [lower_bound_loop].
  destruct (Nat.eqb_spec len 0) as [->|Hlen]; [lia|].
  pose proof (Nat.div_lt len 2 ltac:(lia) ltac:(lia)).
  set (half := len / 2) in *.
  destruct (lookup_lt_is_Some_2 (l1 ++ l2) (first + half)) as [x Hx]; [lia|].
  rewrite Hx. destruct (decide (first + half < length l1)) as [Hm|Hm].
  - rewrite lookup_app_l in Hx by done.
    rewrite (Forall_lookup_1 _ _ _ _ H1 Hx). apply IH; lia.
  - rewrite lookup_app_r in Hx by lia.
    rewrite (Forall_lookup_1 _ _ _ _ H2 Hx). apply IH; lia.
Qed.

Lemma lower_bound_split l1 l2 : split_by l1 l2 -> lower_bound (l1 ++ l2) = length l1.
Proof.
  intros H. apply lower_bound_loop_split; rewrite ?length_app; try done; lia.
Qed.
End lower_bound.

(** ** [std::sort] *)

Section sort.
Context {A : Type} (cmp : A -> A -> bool).
Local Abbreviation lt a b := (cmp a b = true).

Fixpoint sort_insert (x : A) (l : list A) : list A :=
  match l with
  | [] => [x]
  | y :: l' => if cmp x y then x :: l else y :: sort_insert x l'
  end.

Fixpoint std_sort (l : list A) : list A :=
  match l with [] => [] | x :: l' => sort_insert x (std_sort l') end.

Lemma sort_insert_perm x l : Permutation (sort_insert x l) (x :: l).
Proof.
  induction l as [|y l IH]; cbn; [done|].
  destruct (cmp x y); [done|]. rewrite IH. apply Permutation_swap.
Qed.

Lemma std_sort_perm l : Permutation (std_sort l) l.
Proof. induction l as [|x l IH]; cbn; [done|]. by rewrite sort_insert_perm, IH. Qed.

(** Any two elements at different positions are ordered one way or the other. *)
Definition comparable (l : list A) : Prop := ForallOrdPairs (fun a b => lt a b \/ lt b a) l.

Lemma comparable_perm l k : Permutation l k -> comparable l -> comparable k.
Proof.
  unfold comparable. induction 1 as [|x l k Hp IH|x y l|l k m _ IH1 _ IH2];
    intros H; [done| | |by auto].
  - inversion_clear H as [|? ? Hx Hl]. constructor; [by rewrite <-Hp|auto].
  - inversion_clear H as [|? ? Hy Hl]. inversion_clear Hl as [|? ? Hx Hl'].
    inversion_clear Hy as [|? ? Hyx Hyl].
    constructor; [constructor; [tauto|done]|by constructor].
Qed.

Hypothesis cmp_trans : forall a b c, lt a b -> lt b c -> lt a c.

Lemma sort_insert_sorted x l :
  Forall (fun y => lt x y \/ lt y x) l -> StronglySorted (fun a b => lt a b) l ->
  StronglySorted (fun a b => lt a b) (sort_insert x l).
Proof.
  induction l as [|y l IH]; intros Hc Hs; cbn; [by repeat constructor|].
  inversion_clear Hc as [|? ? Hxy Hl]. apply StronglySorted_inv in Hs as [Hs Hy].
  destruct (cmp x y) eqn:E.
  - repeat constructor; [done..|]. eapply Forall_impl; [exact Hy|]. eauto.
  - constructor; [by auto|]. rewrite sort_insert_perm. constructor; [|done].
    destruct Hxy; congruence.
Qed.

Lemma std_sort_sorted l :
  comparable l -> StronglySorted (fun a b => lt a b) (std_sort l).
Proof.
  induction 1 as [|x l Hx Hl IH]; cbn; [constructor|].
  apply sort_insert_sorted; [by rewrite std_sort_perm|done].
Qed.

Hypothesis cmp_irrefl : forall a, cmp a a = false.

Lemma sorted_perm_unique l k :
  StronglySorted (fun a b => lt a b) l -> StronglySorted (fun a b => lt a b) k ->
  Permutation l k -> l = k.
Proof.
  revert k. induction l as [|x l IH]; intros k Hl Hk Hp.
  - by apply Permutation_nil_l in Hp.
  - destruct k as [|y k]; [by apply Permutation_nil_r in Hp|].
    apply StronglySorted_inv in Hl as [Hl Hx], Hk as [Hk Hy].
    assert (x = y) as ->.
    { assert (x ∈ y :: k) as Hin by (rewrite <-Hp; left).
      assert (y ∈ x :: l) as Hin' by (rewrite Hp; left).
      apply elem_of_cons in Hin as [Hin|Hin]; [done|].
      apply elem_of_cons in Hin' as [Hin'|Hin']; [done|].
      pose proof (proj1 (Forall_forall _ _) Hy x Hin) as H1.
      pose proof (proj1 (Forall_forall _ _) Hx y Hin') as H2. cbn in *.
      pose proof (cmp_trans _ _ _ H1 H2). pose proof (cmp_irrefl y). congruence. }
    f_equal. apply IH; try done. by apply Permutation_cons_inv in Hp.
Qed.

Lemma std_sort_unique l k :
  comparable l -> StronglySorted (fun a b => lt a b) k -> Permutation k l ->
  k = std_sort l.
Proof.
  intros Hc Hs Hp. apply sorted_perm_unique; [done|by apply std_sort_sorted|].
  by rewrite std_sort_perm.
Qed.
End sort.

(** ** Strictly sorted lists *)

Section sorted.
Context {A : Type} (R : A -> A -> Prop).

Lemma sorted_app_iff l k :
  StronglySorted R (l ++ k) <->
  StronglySorted R l /\ StronglySorted R k /\ Forall (fun x => Forall (R x) k) l.
Proof.
  induction l as [|x l IH]; cbn.
  - split; [intros; repeat split; [constructor|done|constructor]|tauto].
  - split.
    + intros [H Hx]%StronglySorted_inv. apply Forall_app in Hx as [Hxl Hxk].
      apply IH in H as (Hl & Hk & Hlk).
      split; [by constructor|]. split; [done|by constructor].
    + intros (Hl & Hk & Hlk). apply StronglySorted_inv in Hl as [Hl Hx].
      inversion_clear Hlk. constructor; [by apply IH|]. by apply Forall_app.
Qed.

Lemma sorted_drop n l : StronglySorted R l -> StronglySorted R (drop n l).
Proof. rewrite <-(take_drop n l) at 1. rewrite sorted_app_iff. tauto. Qed.
End sorted.

Example lower_bound_ex : lower_bound (fun x => x <? 7)%nat [1; 3; 5; 7; 9] = 3.
Proof. reflexivity. Qed.
Example std_sort_ex : std_sort Nat.ltb [3; 1; 2] = [1; 2; 3].
Proof. reflexivity. Qed.
