(* ===== verification/CStdlib.v ===== *)
(** * The C and C++ library functions the parsers call

    [strtod] with its end pointer and its [ERANGE], [std::stoi], [std::to_string],
    and [std::atoll]. Decimal numbers are rounded once, from the exact rational,
    as glibc does. *)

From S2P Require Import Prelude Double.
From stdpp Require Export pretty.
From Stdlib Require Import Ascii Floats.SpecFloat.

Open Scope Z_scope.

Abbreviation chars := (list ascii).
Definition chars_of (s : string) : chars := String.list_ascii_of_string s.

(** ** Characters (the "C" locale) *)

Definition code (c : ascii) : Z := Z.of_nat (nat_of_ascii c).
Definition isspace (c : ascii) : bool := (code c =? 32) || ((9 <=? code c) && (code c <=? 13)).
Definition digit (c : ascii) : option Z :=
  if (48 <=? code c) && (code c <=? 57) then Some (code c - 48) else None.
Definition tolower (c : ascii) : ascii :=
  if (65 <=? code c) && (code c <=? 90) then ascii_of_nat (Z.to_nat (code c + 32)) else c.
Definition toupper (c : ascii) : ascii :=
  if (97 <=? code c) && (code c <=? 122) then ascii_of_nat (Z.to_nat (code c - 32)) else c.
Definition hex_digit (c : ascii) : option Z :=
  match digit c with
  | Some d => Some d
  | None => let c := code (tolower c) in if (97 <=? c) && (c <=? 102) then Some (c - 87) else None
  end.

(** What a [const char*] shows of the string: up to the first NUL. *)
Fixpoint c_str (s : chars) : chars :=
  match s with c :: s' => if code c =? 0 then [] else c :: c_str s' | [] => [] end.

Definition lower (s : string) : string := String.string_of_list_ascii (tolower <$> chars_of s).
Definition upper (s : string) : string := String.string_of_list_ascii (toupper <$> chars_of s).

Fixpoint skip_spaces (s : chars) : chars :=
  match s with c :: s' => if isspace c then skip_spaces s' else s | [] => [] end.

(** An optional sign: true is minus. *)
Definition take_sign (s : chars) : bool * chars :=
  match s with
  | c :: s' => if Ascii.eqb c "-" then (true, s') else if Ascii.eqb c "+" then (false, s') else (false, s)
  | [] => (false, s)
  end.

(** Digits in a base: the value accumulated, how many, and the rest. *)
Fixpoint take_digits (dig : ascii -> option Z) (base acc : Z) (n : Z) (s : chars) : Z * Z * chars :=
  match s with
  | c :: s' => match dig c with Some d => take_digits dig base (acc * base + d) (n + 1) s' | None => (acc, n, s) end
  | [] => (acc, n, s)
  end.

(** A keyword, whatever its case. *)
Fixpoint take_word (w s : chars) : option chars :=
  match w, s with
  | [], _ => Some s
  | c :: w', d :: s' => if Ascii.eqb c (tolower d) then take_word w' s' else None
  | _ :: _, [] => None
  end.

(** ** Rounding *)

(** The double nearest to [num / den] ([den > 0], [num > 0]), ties to even. *)
Definition round_ratio (neg : bool) (num den : positive) : double :=
  let '(m, e, l) := SFdiv_core_binary prec64 emax64 (Zpos num) 0 (Zpos den) 0 in
  binary_round_aux prec64 emax64 neg m e l.

(** [ERANGE]: the rounded value overflows, or is below the normal range and not
    exactly the number that was written. *)
Definition erange (num den : positive) (x : double) : bool :=
  match x with
  | S754_infinity _ => true
  | S754_zero _ => true
  | S754_finite _ m e =>
      (Zpos m <? 2 ^ 52) && negb (Zpos m * Zpos den =? Zpos num * 2 ^ (- e))
  | S754_nan => false
  end.

(** [num * 10^e10], where more than [400] digits on either side of the point
    cannot be a finite double or differ from zero. *)
Definition scale10 (neg : bool) (num digits e10 : Z) : double * bool :=
  match num with
  | Zpos p =>
      if 400 <? e10 then (S754_infinity neg, true)
      else if e10 + digits <? -400 then (S754_zero neg, true)
      else
        let '(n, d) := if 0 <=? e10 then (Z.to_pos (Zpos p * 10 ^ e10), 1%positive)
                       else (p, Z.to_pos (10 ^ (- e10))) in
        let x := round_ratio neg n d in (x, erange n d x)
  | _ => (S754_zero neg, false)
  end.

(** [num * 2^e2], for hexadecimal input. *)
Definition scale2 (neg : bool) (num digits e2 : Z) : double * bool :=
  match num with
  | Zpos p =>
      if 2000 <? e2 then (S754_infinity neg, true)
      else if e2 + 4 * digits <? -2000 then (S754_zero neg, true)
      else
        let '(n, d) := if 0 <=? e2 then (Z.to_pos (Zpos p * 2 ^ e2), 1%positive)
                       else (p, Z.to_pos (2 ^ (- e2))) in
        let x := round_ratio neg n d in (x, erange n d x)
  | _ => (S754_zero neg, false)
  end.

(** ** [strtod] *)

(** An exponent part is only taken when it has a digit. *)
Definition take_exponent (mark : ascii) (s : chars) : Z * chars :=
  match s with
  | c :: s' =>
      if Ascii.eqb (tolower c) mark then
        let '(neg, s2) := take_sign s' in
        let '(e, n, rest) := take_digits digit 10 0 0 s2 in
        if n =? 0 then (0, s) else ((if neg then - e else e), rest)
      else (0, s)
  | [] => (0, s)
  end.

(** Digits, an optional point and more digits: value, digits in all, digits
    after the point, rest. *)
Definition take_mantissa (dig : ascii -> option Z) (base : Z) (s : chars) : Z * Z * Z * chars :=
  let '(i, n, s1) := take_digits dig base 0 0 s in
  match s1 with
  | c :: s2 =>
      if Ascii.eqb c "." then
        let '(f, m, s3) := take_digits dig base i 0 s2 in
        if n + m =? 0 then (i, 0, 0, s) else (f, n + m, m, s3)
      else (i, n, 0, s1)
  | [] => (i, n, 0, s1)
  end.

(** [nan(chars)]: the parenthesis is taken when it closes. *)
Fixpoint close_paren (s : chars) : option chars :=
  match s with
  | c :: s' => if Ascii.eqb c ")" then Some s' else close_paren s'
  | [] => None
  end.

(** The number after blanks and sign. *)
Definition strtod_body (neg : bool) (s : chars) : option (double * bool * chars) :=
  match take_word (chars_of "infinity") s with
  | Some rest => Some (S754_infinity neg, false, rest)
  | None =>
  match take_word (chars_of "inf") s with
  | Some rest => Some (S754_infinity neg, false, rest)
  | None =>
  match take_word (chars_of "nan") s with
  | Some rest =>
      let rest := match rest with
                  | c :: r => if Ascii.eqb c "(" then default rest (close_paren r) else rest
                  | [] => rest end in
      Some (S754_nan, false, rest)
  | None =>
      let decimal :=
        let '(m, n, f, rest) := take_mantissa digit 10 s in
        if n =? 0 then None
        else let '(e, rest) := take_exponent "e" rest in
             let '(x, er) := scale10 neg m n (e - f) in Some (x, er, rest) in
      match take_word (chars_of "0x") s with
      | Some h =>
          let '(m, n, f, rest) := take_mantissa hex_digit 16 h in
          if n =? 0 then decimal
          else let '(e, rest) := take_exponent "p" rest in
               let '(x, er) := scale2 neg m n (e - 4 * f) in Some (x, er, rest)
      | None => decimal
      end
  end end end.

(** [strtod(s, &end)]: [None] when nothing was converted ([end == s]); else the
    value, whether [errno] is [ERANGE], and what [end] points to. *)
Definition strtod (s : string) : option (double * bool * chars) :=
  let '(neg, body) := take_sign (skip_spaces (c_str (chars_of s))) in strtod_body neg body.

(** The test every caller makes: [end == s || errno == ERANGE]. *)
Definition strtod_ok (s : string) : option double :=
  match strtod s with
  | Some (x, false, _) => Some x
  | _ => None
  end.

(** The other test, [end != s && *end == '\0']: the whole string, whatever [errno]. *)
Definition strtod_full (s : string) : option double :=
  match strtod s with
  | Some (x, _, []) => Some x
  | _ => None
  end.

(** ** [std::stoi], [std::to_string], [std::atoll] and [std::atoi] *)

(** [None]: the call throws ([invalid_argument] or [out_of_range]). *)
Definition stoi (s : string) : option Z :=
  let '(neg, body) := take_sign (skip_spaces (c_str (chars_of s))) in
  let '(v, n, _) := take_digits digit 10 0 0 body in
  let v := if neg then - v else v in
  if n =? 0 then None
  else if (-2147483648 <=? v) && (v <=? 2147483647) then Some v else None.

Definition to_string (z : Z) : string := pretty z.

(** [strtoll] in base 10: saturates, and is 0 where no digit is. *)
Definition atoll (s : string) : Z :=
  let '(neg, body) := take_sign (skip_spaces (c_str (chars_of s))) in
  let '(v, _, _) := take_digits digit 10 0 0 body in
  Z.max (- 2 ^ 63) (Z.min (2 ^ 63 - 1) (if neg then - v else v)).

(** The conversion to [int]: modulo 2^32. *)
Definition to_int (v : Z) : Z := (v + 2 ^ 31) mod 2 ^ 32 - 2 ^ 31.
Definition atoi (s : string) : Z := to_int (atoll s).

(** ** Examples *)

Example strtod_price : strtod_ok "50000.12" = Some (d_dec 5000012 2) /\
  strtod_ok "0.00000001" = Some (d_dec 1 8) /\ strtod_ok "-1.5e3" = Some (d_of_Z (-1500)) /\
  strtod_ok "0x1p4" = Some (d_of_Z 16).
Proof. vm_compute. done. Qed.
Example strtod_rejects : strtod_ok "" = None /\ strtod_ok "abc" = None /\ strtod_ok "1e400" = None /\
  strtod_ok "1e-400" = None /\ strtod_ok "." = None.
Proof. vm_compute. done. Qed.
Example strtod_accepts : strtod_ok "1.5abc" = Some (d_dec 15 1) /\ strtod_ok " 2" = Some (d_of_Z 2) /\
  strtod_ok "nan" = Some dnan /\ strtod_full "1.5abc" = None /\ strtod_full "1.5" = Some (d_dec 15 1).
Proof. vm_compute. done. Qed.
Example stoi_ex : stoi "60" = Some 60 /\ stoi " -7x" = Some (-7) /\ stoi "x" = None /\
  stoi "2147483648" = None /\ to_string (-12) = "-12".
Proof. vm_compute. done. Qed.
Example atoll_ex : atoll "12:34" = 12 /\ atoll "-3x" = -3 /\ atoll "x" = 0 /\
  atoll "99999999999999999999" = 2 ^ 63 - 1 /\ atoi "4294967297" = 1.
Proof. vm_compute. done. Qed.
