(* ===== verification/JsonReader.v ===== *)
(** * Typed JSON access (json_reader.hpp)

    The parser is rapidjson, which the program only calls: the class [JsonLib]
    is the part of its interface used here. [JsonReader] reads fields with a
    first-error-wins message; [parseLevelPair] reads one price level. A small
    tree of JSON values instantiates the class for the witnesses. *)

From S2P Require Import Prelude Double CStdlib.

Open Scope Z_scope.
Local Open Scope rec_scope.

(** A parsed document, or the parser's error text; [IsObject] with
    [HasMember]/[operator[]]; [IsString] with [GetString]; and so on. *)
Class JsonLib (V : Type) := {
  json_parse : string -> V + string;
  as_object : V -> option (string -> option V);
  as_string : V -> option string;
  as_int64 : V -> option Z;
  as_int : V -> option Z;
  as_bool : V -> option bool;
  as_array : V -> option (list V)
}.

Record JsonReader (V : Type) := mkReader { r_v : option (string -> option V); r_err : string }.
Arguments mkReader {V} r_v r_err.
Arguments r_v {V} j.
Arguments r_err {V} j.
#[export] Instance eta_JsonReader V : Eta (JsonReader V) := fun r => mkReader (r_v r) (r_err r).

Section reader.
Context {V : Type} `{JsonLib V}.

Definition poisoned : JsonReader V := mkReader None "".

Definition bind_reader (v : V) : JsonReader V :=
  match as_object v with
  | Some o => mkReader (Some o) ""
  | None => mkReader None "expected JSON object"
  end.

Definition hasError (r : JsonReader V) : bool := negb (String.eqb (r_err r) "").
Definition lastError (r : JsonReader V) : string := r_err r.

Definition setError (msg : string) (r : JsonReader V) : JsonReader V :=
  if String.eqb (r_err r) "" then r <| r_err := msg |> else r.

(** The shape all accessors share: the member, then its type. *)
Definition access {A} (what : string) (get : V -> option A) (wrong : string -> V -> string)
    (key : string) (r : JsonReader V) : option A * JsonReader V :=
  match r_v r with
  | None => (None, r)
  | Some o =>
      match o key with
      | None => (None, setError ("missing " +:+ what +:+ ": " +:+ key) r)
      | Some f =>
          match get f with
          | Some x => (Some x, r)
          | None => (None, setError (wrong key f) r)
          end
      end
  end.
Definition not_a (what : string) (key : string) (_ : V) : string := (what +:+ ": " +:+ key)%string.

Definition string_ : string -> JsonReader V -> option string * JsonReader V :=
  access "string" as_string (not_a "not a string").
Definition int64 : string -> JsonReader V -> option Z * JsonReader V :=
  access "int64" as_int64 (not_a "not an int64").
Definition integer : string -> JsonReader V -> option Z * JsonReader V :=
  access "int" as_int (not_a "not an int").
Definition boolean : string -> JsonReader V -> option bool * JsonReader V :=
  access "bool" as_bool (not_a "not a bool").
Definition array : string -> JsonReader V -> option (list V) * JsonReader V :=
  access "array" as_array (not_a "not an array").

Definition priceString : string -> JsonReader V -> option double * JsonReader V :=
  access "string" (fun f => match as_string f with Some s => strtod_ok s | None => None end)
    (fun key f =>
       match as_string f with
       | None => "not a string: " +:+ key
       | Some s => "strtod failed for " +:+ key +:+ ": '" +:+ s +:+ "'"
       end)%string.

(** [obj]: a reader for a nested object, and this one with its error. *)
Definition obj (key : string) (r : JsonReader V) : JsonReader V * JsonReader V :=
  match r_v r with
  | None => (mkReader None (r_err r), r)
  | Some o =>
      match o key with
      | None => let r := setError ("missing object: " +:+ key) r in (mkReader None (r_err r), r)
      | Some inner =>
          match as_object inner with
          | None => let r := setError ("not an object: " +:+ key) r in (mkReader None (r_err r), r)
          | Some _ => (bind_reader inner, r)
          end
      end
  end.

Definition parseLevelPair (lvl : V) : option (double * double) :=
  match as_array lvl with
  | Some (v0 :: v1 :: _) =>
      match as_string v0, as_string v1 with
      | Some p, Some q =>
          match strtod_ok p with
          | Some price => match strtod_ok q with Some qty => Some (price, qty) | None => None end
          | None => None
          end
      | _, _ => None
      end
  | _ => None
  end.
End reader.

(** ** First error wins *)

(** One field read, of any type; the value is only kept as present or not. *)
Inductive field :=
  | FString (key : string) | FInt64 (key : string) | FInt (key : string)
  | FBool (key : string) | FArray (key : string) | FPrice (key : string).

Section first_error.
Context {V : Type} `{JsonLib V}.

Definition present {A} (x : option A * JsonReader V) : bool * JsonReader V :=
  (bool_decide (is_Some (fst x)), snd x).
Definition read_field (f : field) (r : JsonReader V) : bool * JsonReader V :=
  match f with
  | FString k => present (string_ k r)
  | FInt64 k => present (int64 k r)
  | FInt k => present (integer k r)
  | FBool k => present (boolean k r)
  | FArray k => present (array k r)
  | FPrice k => present (priceString k r)
  end.
Fixpoint read_fields (fs : list field) (r : JsonReader V) : list bool * JsonReader V :=
  match fs with
  | [] => ([], r)
  | f :: rest =>
      let '(b, r) := read_field f r in
      let '(bs, r) := read_fields rest r in (b :: bs, r)
  end.

Lemma String_append_nonempty c a (b : string) : String.eqb (String c a +:+ b) "" = false.
Proof. done. Qed.

Lemma access_spec {A} what (get : V -> option A) wrong key o e :
  (forall k f, wrong k f <> ""%string) ->
  let '(x, r') := access what get wrong key (mkReader (Some o) e) in
  r_v r' = Some o /\
  match x with
  | Some _ => r_err r' = e
  | None => r_err r' <> ""%string /\ (e <> ""%string -> r_err r' = e)
  end.
Proof.
  intros Hw. unfold access. cbn [r_v].
  assert (forall m, m <> ""%string ->
    r_v (setError m (mkReader (Some o) e)) = Some o /\
    r_err (setError m (mkReader (Some o) e)) <> ""%string /\
    (e <> ""%string -> r_err (setError m (mkReader (Some o) e)) = e)) as Hset.
  { intros m Hm. unfold setError. cbn [r_err]. destruct (String.eqb_spec e ""); cbn; auto. done. }
  destruct (o key) as [f|]; [|by apply Hset]. destruct (get f); [done|]. apply Hset, Hw.
Qed.

Lemma access_Some {A} what (get : V -> option A) wrong key o e x r' :
  access what get wrong key (mkReader (Some o) e) = (Some x, r') ->
  exists f, o key = Some f /\ get f = Some x.
Proof.
  unfold access. cbn [r_v]. destruct (o key) as [f|]; [|done].
  destruct (get f) eqn:E; [|done]. intros [= -> _]. eauto.
Qed.

(** A run of accesses on one reader: what each leaves behind. *)
Lemma access_reader {A} what (get : V -> option A) wrong key o e :
  (forall k f, wrong k f <> ""%string) ->
  exists x e', access what get wrong key (mkReader (Some o) e) = (x, mkReader (Some o) e') /\
    (x = None -> e' <> ""%string) /\ (e <> ""%string -> e' = e) /\ (forall y, x = Some y -> e' = e).
Proof.
  intros Hw. pose proof (access_spec what get wrong key o e Hw) as Ha.
  destruct (access what get wrong key (mkReader (Some o) e)) as [x [v' e']]. cbn [r_v r_err] in Ha.
  destruct Ha as [-> Ha]. exists x, e'. split; [done|]. destruct x; [subst e'|destruct Ha]; done.
Qed.

Lemma not_a_nonempty what (key : string) (f : V) : what <> ""%string -> not_a what key f <> ""%string.
Proof. unfold not_a. by destruct what. Qed.

Lemma read_field_spec f o e :
  let '(b, r') := read_field f (mkReader (Some o) e) in
  r_v r' = Some o /\ (if b then r_err r' = e else r_err r' <> ""%string /\ (e <> ""%string -> r_err r' = e)).
Proof.
  assert (forall A what (get : V -> option A) wrong key, (forall k v, wrong k v <> ""%string) ->
    let '(b, r') := present (access what get wrong key (mkReader (Some o) e)) in
    r_v r' = Some o /\ (if b then r_err r' = e else r_err r' <> ""%string /\ (e <> ""%string -> r_err r' = e))) as Hp.
  { intros A what get wrong key Hw. pose proof (access_spec what get wrong key o e Hw) as Ha.
    destruct (access _ _ _ _ _) as [[x|] r']; exact Ha. }
  destruct f; apply Hp; try (intros k v; discriminate).
  intros k v. by destruct (as_string v).
Qed.

Lemma read_fields_spec fs o e :
  let '(bs, r') := read_fields fs (mkReader (Some o) e) in
  r_v r' = Some o /\ (e <> ""%string -> r_err r' = e) /\
  (r_err r' = ""%string <-> e = ""%string /\ Forall (fun b => b = true) bs).
Proof.
  revert e. induction fs as [|f fs IH]; intros e; cbn [read_fields].
  { repeat split; auto. by intros []. }
  pose proof (read_field_spec f o e) as Hf.
  destruct (read_field f (mkReader (Some o) e)) as [b [v1 e1]]. cbn [r_v r_err] in Hf.
  destruct Hf as [-> Hf]. specialize (IH e1). destruct (read_fields fs _) as [bs r'].
  destruct IH as (Hv & Hk & Hiff). split; [done|]. destruct b.
  - subst e1. split; [done|]. rewrite Hiff, Forall_cons. tauto.
  - destruct Hf as [Hne Hf]. split; [intros He; rewrite Hk by done; by apply Hf|].
    rewrite Hiff, Forall_cons. split; [by intros [? _]|]. by intros (_ & ? & _).
Qed.

(** C33: errors are sticky and first-wins. Reading any sequence of fields of
    an object, the reader reports no error exactly when every read returned
    a value, so a caller that checks [hasError] once at the end may use all
    of them; and once set, the error is not overwritten. *)
Theorem first_error_wins fs1 fs2 o :
  let '(bs1, r1) := read_fields fs1 (mkReader (Some o) "") in
  let '(bs2, r2) := read_fields fs2 r1 in
  (hasError r2 = false <-> Forall (fun b => b = true) (bs1 ++ bs2)) /\
  (hasError r1 = true -> lastError r2 = lastError r1).
Proof.
  pose proof (read_fields_spec fs1 o "") as H1.
  destruct (read_fields fs1 _) as [bs1 [v1 e1]]. cbn [r_v r_err] in H1. destruct H1 as (-> & _ & Hi1).
  pose proof (read_fields_spec fs2 o e1) as H2.
  destruct (read_fields fs2 _) as [bs2 r2]. destruct H2 as (_ & Hk & Hi2).
  unfold hasError, lastError. cbn [r_err]. split.
  - rewrite Bool.negb_false_iff, String.eqb_eq, Hi2, Hi1, Forall_app. tauto.
  - rewrite Bool.negb_true_iff, String.eqb_neq. apply Hk.
Qed.
End first_error.

(** ** A concrete JSON tree, for the witnesses *)

#[warnings="-register-all"]
Inductive json :=
  | JObject (members : list (string * json))
  | JArray (elems : list json)
  | JString (s : string)
  | JInt (z : Z)
  | JBool (b : bool)
  | JNull.

Definition j_member (ms : list (string * json)) (key : string) : option json :=
  snd <$> List.find (fun m => String.eqb (fst m) key) ms.

(** Documents for the witnesses are looked up rather than parsed. *)
#[export] Instance json_lib (docs : list (string * json)) : JsonLib json := {
  json_parse s := match List.find (fun d => String.eqb (fst d) s) docs with
                  | Some d => inl (snd d) | None => inr "Invalid value."%string end;
  as_object v := match v with JObject ms => Some (j_member ms) | _ => None end;
  as_string v := match v with JString s => Some s | _ => None end;
  as_int64 v := match v with JInt z => if bool_decide (i64_min <= z <= i64_max) then Some z else None | _ => None end;
  as_int v := match v with JInt z => if bool_decide (-2147483648 <= z <= 2147483647) then Some z else None | _ => None end;
  as_bool v := match v with JBool b => Some b | _ => None end;
  as_array v := match v with JArray l => Some l | _ => None end
}.
