(* ===== verification/MarketConfig.v ===== *)
(** * Per-market wiring (market_config.hpp)

    The configuration records of the trade and quote handlers with their spot
    defaults, the two exchange-dependent enumerations, and the combined-stream
    path of the WebSocket URL. *)

From S2P Require Import Prelude.
From Stdlib Require Import Ascii.

Open Scope Z_scope.

Inductive TradeSchema := SpotTrade | FuturesAggTrade.
#[export] Instance TradeSchema_eq_dec : EqDecision TradeSchema.
Proof. solve_decision. Defined.

Record MarketConfig := mkMarketConfig {
  mc_host : string;
  mc_port : string;
  mc_streamSuffix : string;
  mc_tpTable : string;
  mc_schema : TradeSchema;
  mc_backfillEnabled : bool;
  mc_backfillRestHost : string;
  mc_backfillRestPort : string;
  mc_backfillRestPath : string;
  mc_backfillWeight : Z;
  mc_backfillWeightLimit : Z;
  mc_backfillMaxGapIds : Z;
  mc_clockLagMs : Z
}.
#[export] Instance eta_MarketConfig : Eta MarketConfig := fun m =>
  mkMarketConfig (mc_host m) (mc_port m) (mc_streamSuffix m) (mc_tpTable m) (mc_schema m)
    (mc_backfillEnabled m) (mc_backfillRestHost m) (mc_backfillRestPort m)
    (mc_backfillRestPath m) (mc_backfillWeight m) (mc_backfillWeightLimit m)
    (mc_backfillMaxGapIds m) (mc_clockLagMs m).

Definition default_MarketConfig : MarketConfig := {|
  mc_host := "stream.binance.com"; mc_port := "9443"; mc_streamSuffix := "@trade";
  mc_tpTable := "trade_binance"; mc_schema := SpotTrade;
  mc_backfillEnabled := false; mc_backfillRestHost := "api.binance.com";
  mc_backfillRestPort := "443"; mc_backfillRestPath := "/api/v3/historicalTrades";
  mc_backfillWeight := 25; mc_backfillWeightLimit := 6000; mc_backfillMaxGapIds := 500000;
  mc_clockLagMs := 2000
|}.

(** Which exchange rule keeps the local book in step with the diff stream. *)
Inductive DepthSync := Spot | Futures.
#[export] Instance DepthSync_eq_dec : EqDecision DepthSync.
Proof. solve_decision. Defined.

Record QuoteMarketConfig := mkQuoteMarketConfig {
  qc_wsHost : string;
  qc_wsPort : string;
  qc_wsPathPrefix : string;
  qc_streamSuffix : string;
  qc_restHost : string;
  qc_restPort : string;
  qc_restPath : string;
  qc_snapshotLimit : Z;
  qc_snapshotWeight : Z;
  qc_weightLimitPerMin : Z;
  qc_tpTable : string;
  qc_healthName : string;
  qc_sync : DepthSync;
  qc_depth : Z;
  qc_publishTransactTime : bool;
  qc_clockLagMs : Z
}.

Definition default_QuoteMarketConfig : QuoteMarketConfig := {|
  qc_wsHost := "stream.binance.com"; qc_wsPort := "9443"; qc_wsPathPrefix := "";
  qc_streamSuffix := "@depth@100ms";
  qc_restHost := "api.binance.com"; qc_restPort := "443"; qc_restPath := "/api/v3/depth";
  qc_snapshotLimit := 1000; qc_snapshotWeight := 50; qc_weightLimitPerMin := 6000;
  qc_tpTable := "quote_binance"; qc_healthName := "quote_fh"; qc_sync := Spot;
  qc_depth := 5; qc_publishTransactTime := false; qc_clockLagMs := 2000
|}.

(** The loop of [buildStreamPath] from index [i] on. *)
Fixpoint streamPath_loop (i : nat) (symbols : list string) (suffix path : string) : string :=
  match symbols with
  | [] => path
  | s :: rest =>
      let path := if (0 <? i)%nat then (path +:+ "/")%string else path in
      streamPath_loop (S i) rest suffix (path +:+ (s +:+ suffix))%string
  end.

Definition buildStreamPath (symbols : list string) (streamSuffix : string) : string :=
  streamPath_loop 0 symbols streamSuffix "/stream?streams=".

(** ** Reading a stream path back *)

(** Split at every ['/']. *)
Fixpoint split_slash (s : string) : list string :=
  match s with
  | EmptyString => [EmptyString]
  | String c s' =>
      if Ascii.eqb c "/"%char then EmptyString :: split_slash s'
      else match split_slash s' with
           | [] => [String c EmptyString]
           | w :: ws => String c w :: ws
           end
  end.

Definition no_slash (s : string) : Prop := split_slash s = [s].

Lemma append_cons c (a b : string) : (String c a +:+ b = String c (a +:+ b))%string.
Proof. reflexivity. Qed.

Lemma slash_app (a : string) : ("/" +:+ a = String "/" a)%string.
Proof. reflexivity. Qed.

Lemma split_slash_app a s : no_slash a ->
  split_slash (a +:+ String "/" s) = a :: split_slash s.
Proof.
  unfold no_slash. induction a as [|c a IH]; intros H; cbn in *; [done|].
  destruct (Ascii.eqb c "/") eqn:E; [by destruct a; simplify_eq|].
  destruct (split_slash a) as [|w ws] eqn:Ea; cbn in *; simplify_eq.
  rewrite append_cons. cbn. by rewrite E, IH.
Qed.

(** What follows the first symbol of the path. *)
Fixpoint path_tail (symbols : list string) (suffix : string) : string :=
  match symbols with
  | [] => ""
  | s :: rest => ("/" +:+ (s +:+ suffix) +:+ path_tail rest suffix)%string
  end.

Lemma string_app_assoc (a b c : string) : (a +:+ b +:+ c = (a +:+ b) +:+ c)%string.
Proof. induction a as [|x a IH]; [done|]. by rewrite !append_cons, IH. Qed.

Lemma string_app_nil_r (a : string) : (a +:+ "" = a)%string.
Proof. induction a as [|x a IH]; [done|]. by rewrite !append_cons, IH. Qed.

Lemma streamPath_loop_tail i symbols suffix path :
  streamPath_loop (S i) symbols suffix path = (path +:+ path_tail symbols suffix)%string.
Proof.
  revert i path. induction symbols as [|s symbols IH]; intros i path; cbn [streamPath_loop path_tail].
  - by rewrite string_app_nil_r.
  - rewrite IH. cbn [Nat.ltb Nat.leb]. by rewrite <-!string_app_assoc.
Qed.

Lemma split_path_tail a symbols suffix :
  no_slash a -> Forall (fun s => no_slash (s +:+ suffix)%string) symbols ->
  split_slash (a +:+ path_tail symbols suffix)%string =
    a :: ((fun s => s +:+ suffix)%string <$> symbols).
Proof.
  intros Ha H. revert a Ha. induction H as [|s symbols Hs _ IH]; intros a Ha; cbn [path_tail fmap list_fmap].
  - by rewrite string_app_nil_r.
  - rewrite slash_app, split_slash_app by done. f_equal. by apply IH.
Qed.

(** The path lists exactly the configured streams: after the fixed prefix,
    splitting at the slashes gives one [symbol ++ suffix] per symbol. *)
Definition stream_path_lists (symbols : list string) (suffix : string) (path : string) : Prop :=
  exists q, path = ("/stream?streams=" +:+ q)%string /\
    (symbols = [] -> q = "") /\
    (symbols <> [] -> split_slash q = (fun s => s +:+ suffix)%string <$> symbols).

(** C40: the combined-stream path carries every configured stream once, in
    order: reading it back at the slashes returns [symbol ++ suffix] for each
    symbol, provided no symbol or suffix holds a slash itself. *)
Theorem buildStreamPath_lists symbols suffix :
  Forall (fun s => no_slash (s +:+ suffix)%string) symbols ->
  stream_path_lists symbols suffix (buildStreamPath symbols suffix).
Proof.
  intros H. unfold buildStreamPath. destruct symbols as [|s symbols].
  { exists "". by rewrite string_app_nil_r. }
  inversion_clear H as [|? ? Hs Hl]. cbn [streamPath_loop Nat.ltb Nat.leb].
  rewrite streamPath_loop_tail. exists ((s +:+ suffix) +:+ path_tail symbols suffix)%string.
  rewrite <-string_app_assoc. split; [done|]. split; [done|]. intros _.
  by apply split_path_tail.
Qed.

Lemma buildStreamPath_lists_witness :
  Forall (fun s => no_slash (s +:+ "@trade")%string) ["btcusdt"; "ethusdt"] /\
  stream_path_lists ["btcusdt"; "ethusdt"] "@trade" (buildStreamPath ["btcusdt"; "ethusdt"] "@trade").
Proof.
  assert (Forall (fun s => no_slash (s +:+ "@trade")%string) ["btcusdt"; "ethusdt"]) as H
    by (repeat constructor).
  split; [exact H | exact (buildStreamPath_lists _ _ H)].
Defined.

Example path_ex2 : buildStreamPath ["btcusdt"; "ethusdt"] "@trade" =
  "/stream?streams=btcusdt@trade/ethusdt@trade".
Proof. reflexivity. Qed.
Example path_ex0 : buildStreamPath [] "@trade" = "/stream?streams=".
Proof. reflexivity. Qed.
