(* ===== verification/Config.v ===== *)
(** * Configuration and entry points (config.hpp, the four main files)

    [FeedHandlerConfig::load] with the shared file, as a function of the files
    and the environment variable it reads; the market wiring each binary derives
    from it; and the [main] functions up to the handler they construct. Console
    messages and the logger are not modelled. *)

From S2P Require Import Prelude Double CStdlib JsonReader MarketConfig.
From Stdlib Require Import Ascii.

Open Scope Z_scope.
Local Open Scope rec_scope.

Record FeedHandlerConfig := mkFhConfig {
  fc_symbols : list string;
  fc_tpHost : string;
  fc_tpPort : Z;
  fc_initialBackoffMs : Z;
  fc_maxBackoffMs : Z;
  fc_marketHost : string;
  fc_marketPort : string;
  fc_marketStreamSuffix : string;
  fc_marketTpTable : string;
  fc_marketSchema : string;
  fc_hasMarketBlock : bool;
  fc_backfillEnabled : bool;
  fc_backfillRestHost : string;
  fc_backfillRestPath : string;
  fc_backfillWeight : Z;
  fc_backfillWeightLimit : Z;
  fc_backfillMaxGapIds : Z;
  fc_marketPathPrefix : string;
  fc_restHost : string;
  fc_restPort : string;
  fc_restPath : string;
  fc_snapshotLimit : Z;
  fc_snapshotWeight : Z;
  fc_weightLimitPerMin : Z;
  fc_quoteDepth : Z;
  fc_sharedConfigPath : string;
  fc_clockLagMs : Z;
  fc_logLevel : string;
  fc_logFile : string
}.
#[export] Instance eta_FeedHandlerConfig : Eta FeedHandlerConfig := fun c =>
  mkFhConfig (fc_symbols c) (fc_tpHost c) (fc_tpPort c) (fc_initialBackoffMs c) (fc_maxBackoffMs c)
    (fc_marketHost c) (fc_marketPort c) (fc_marketStreamSuffix c) (fc_marketTpTable c) (fc_marketSchema c)
    (fc_hasMarketBlock c) (fc_backfillEnabled c) (fc_backfillRestHost c) (fc_backfillRestPath c)
    (fc_backfillWeight c) (fc_backfillWeightLimit c) (fc_backfillMaxGapIds c) (fc_marketPathPrefix c)
    (fc_restHost c) (fc_restPort c) (fc_restPath c) (fc_snapshotLimit c) (fc_snapshotWeight c)
    (fc_weightLimitPerMin c) (fc_quoteDepth c) (fc_sharedConfigPath c) (fc_clockLagMs c) (fc_logLevel c)
    (fc_logFile c).

Definition default_FeedHandlerConfig : FeedHandlerConfig :=
  mkFhConfig [] "localhost" 5010 1000 8000 "stream.binance.com" "9443" "@trade" "trade_binance" "spot_trade"
    false false "" "" 0 0 500000 "" "" "443" "" 0 0 0 5 "" 2000 "info" "".

Definition MIN_CLOCK_LAG_MS : Z := 100.
Definition MAX_CLOCK_LAG_MS : Z := 3600000.
Definition MIN_QUOTE_DEPTH : Z := 1.
Definition MAX_QUOTE_DEPTH : Z := 50.

(** The two inputs: the environment and the file system. *)
Class Environment := {
  getenv : string -> option string;
  read_file : string -> option string
}.

(** [handlerConfigPath.substr(0, find_last_of('/'))], or "." without a slash. *)
Fixpoint last_slash (s : chars) : option chars :=
  match s with
  | [] => None
  | c :: s =>
      match last_slash s with
      | Some d => Some (c :: d)
      | None => if Ascii.eqb c "/"%char then Some [] else None
      end
  end.
Definition dirOf (path : string) : string :=
  match last_slash (chars_of path) with
  | Some d => String.string_of_list_ascii d
  | None => "."
  end.

(** What [main] does before the handler runs: [Exit 1], a rapidjson assertion,
    or the handler it constructs. *)
Inductive Startup (H : Type) := Exit (code : Z) | Crash | Start (h : H).
Arguments Exit {H} code.
Arguments Crash {H}.
Arguments Start {H} h.

Section load.
Context `{Environment} {V : Type} `{JsonLib V}.

Definition sharedPathFor (handlerConfigPath : string) : string :=
  match getenv "T2S_SHARED_CONFIG" with
  | Some env => if String.eqb env "" then (dirOf handlerConfigPath +:+ "/shared.json")%string else env
  | None => (dirOf handlerConfigPath +:+ "/shared.json")%string
  end.

(** [o.HasMember(k) && o[k].IsX()] with [o[k].GetX()]. *)
Definition member {A} (get : V -> option A) (o : string -> option V) (k : string) : option A :=
  match o k with Some v => get v | None => None end.

(** [if (present and of the type) field = value;] *)
Definition set_if {A} (v : option A) (f : A -> FeedHandlerConfig -> FeedHandlerConfig)
    (c : FeedHandlerConfig) : FeedHandlerConfig :=
  match v with Some x => f x c | None => c end.

(** The symbols up to the first bad one are in the list when it fails. *)
Fixpoint read_symbols (vs : list V) (c : FeedHandlerConfig) : bool * FeedHandlerConfig :=
  match vs with
  | [] => (true, c)
  | v :: vs =>
      match as_string v with
      | None => (false, c)
      | Some s =>
          if String.eqb s "" then (false, c)
          else read_symbols vs (c <| fc_symbols ::= fun l => l ++ [lower s] |>)
      end
  end.

Definition read_clock_lag (o : string -> option V) (c : FeedHandlerConfig) : bool * FeedHandlerConfig :=
  match o "clock_lag_ms"%string with
  | None => (true, c)
  | Some v =>
      match as_int64 v with
      | None => (false, c)
      | Some ms =>
          let c := c <| fc_clockLagMs := ms |> in
          if (ms <? MIN_CLOCK_LAG_MS) || (MAX_CLOCK_LAG_MS <? ms) then (false, c) else (true, c)
      end
  end.

Definition loadShared (handlerConfigPath : string) (c : FeedHandlerConfig) : bool * FeedHandlerConfig :=
  let c := c <| fc_sharedConfigPath := sharedPathFor handlerConfigPath |> in
  match read_file (fc_sharedConfigPath c) with
  | None => (false, c)
  | Some text =>
      match json_parse text with
      | inr _ => (false, c)
      | inl doc =>
          match as_object doc with
          | None => (false, c)
          | Some o =>
              match member as_array o "symbols" with
              | None | Some [] => (false, c)
              | Some vs =>
                  let '(ok, c) := read_symbols vs (c <| fc_symbols := [] |>) in
                  if negb ok then (false, c)
                  else
                    match member as_int o "quote_depth" with
                    | None => (false, c)
                    | Some d =>
                        let c := c <| fc_quoteDepth := d |> in
                        if (d <? MIN_QUOTE_DEPTH) || (MAX_QUOTE_DEPTH <? d) then (false, c)
                        else read_clock_lag o c
                    end
              end
          end
      end
  end.

(** A nested block that is an object. *)
Definition block (o : string -> option V) (k : string) : option (string -> option V) :=
  member as_object o k.

Definition read_tickerplant (o : string -> option V) (c : FeedHandlerConfig) : FeedHandlerConfig :=
  match block o "tickerplant" with
  | None => c
  | Some t =>
      let c := set_if (member as_string t "host") (fun v c => c <| fc_tpHost := v |>) c in
      set_if (member as_int t "port") (fun v c => c <| fc_tpPort := v |>) c
  end.

Definition read_reconnect (o : string -> option V) (c : FeedHandlerConfig) : FeedHandlerConfig :=
  match block o "reconnect" with
  | None => c
  | Some t =>
      let c := set_if (member as_int t "initial_backoff_ms") (fun v c => c <| fc_initialBackoffMs := v |>) c in
      set_if (member as_int t "max_backoff_ms") (fun v c => c <| fc_maxBackoffMs := v |>) c
  end.

Definition read_market (o : string -> option V) (c : FeedHandlerConfig) : FeedHandlerConfig :=
  match block o "market" with
  | None => c
  | Some m =>
      let c := c <| fc_hasMarketBlock := true |> in
      let c := set_if (member as_string m "path_prefix") (fun v c => c <| fc_marketPathPrefix := v |>) c in
      let c := set_if (member as_string m "rest_host") (fun v c => c <| fc_restHost := v |>) c in
      let c := set_if (member as_string m "rest_port") (fun v c => c <| fc_restPort := v |>) c in
      let c := set_if (member as_string m "rest_path") (fun v c => c <| fc_restPath := v |>) c in
      let c := set_if (member as_int m "snapshot_limit") (fun v c => c <| fc_snapshotLimit := v |>) c in
      let c := set_if (member as_int m "snapshot_weight") (fun v c => c <| fc_snapshotWeight := v |>) c in
      let c := set_if (member as_int m "weight_limit_per_min") (fun v c => c <| fc_weightLimitPerMin := v |>) c in
      let c := set_if (member as_string m "host") (fun v c => c <| fc_marketHost := v |>) c in
      let c := set_if (member as_string m "port") (fun v c => c <| fc_marketPort := v |>) c in
      let c := set_if (member as_string m "stream_suffix") (fun v c => c <| fc_marketStreamSuffix := v |>) c in
      let c := set_if (member as_string m "tp_table") (fun v c => c <| fc_marketTpTable := v |>) c in
      set_if (member as_string m "schema") (fun v c => c <| fc_marketSchema := v |>) c
  end.

Definition read_backfill_fields (b : string -> option V) (c : FeedHandlerConfig) : FeedHandlerConfig :=
  let c := c <| fc_backfillEnabled :=
             negb (match member as_bool b "enabled" with Some e => negb e | None => false end) |> in
  let c := set_if (member as_string b "rest_host") (fun v c => c <| fc_backfillRestHost := v |>) c in
  let c := set_if (member as_string b "rest_path") (fun v c => c <| fc_backfillRestPath := v |>) c in
  let c := set_if (member as_int b "request_weight") (fun v c => c <| fc_backfillWeight := v |>) c in
  let c := set_if (member as_int b "weight_limit_per_min") (fun v c => c <| fc_backfillWeightLimit := v |>) c in
  set_if (member as_int64 b "max_gap_ids") (fun v c => c <| fc_backfillMaxGapIds := v |>) c.

(** False: enabled, but incomplete. *)
Definition read_backfill (o : string -> option V) (c : FeedHandlerConfig) : bool * FeedHandlerConfig :=
  match block o "backfill" with
  | None => (true, c)
  | Some b =>
      let c := read_backfill_fields b c in
      let bad := String.eqb (fc_backfillRestHost c) "" || String.eqb (fc_backfillRestPath c) "" ||
                 (fc_backfillWeight c <=? 0) || (fc_backfillWeightLimit c <=? 0) ||
                 (fc_backfillMaxGapIds c <=? 0) in
      (negb (fc_backfillEnabled c && bad), c)
  end.

Definition read_logging (o : string -> option V) (c : FeedHandlerConfig) : FeedHandlerConfig :=
  match block o "logging" with
  | None => c
  | Some l =>
      let c := set_if (member as_string l "level") (fun v c => c <| fc_logLevel := v |>) c in
      set_if (member as_string l "file") (fun v c => c <| fc_logFile := v |>) c
  end.

(** [None]: rapidjson's assertion in [HasMember], which needs an object. *)
Definition load (filepath : string) (c : FeedHandlerConfig) : option (bool * FeedHandlerConfig) :=
  match read_file filepath with
  | None => Some (false, c)
  | Some text =>
      match json_parse text with
      | inr _ => Some (false, c)
      | inl doc =>
          match as_object doc with
          | None => None
          | Some o =>
              match o "symbols"%string with
              | Some _ => Some (false, c)
              | None =>
                  let '(ok, c) := loadShared filepath c in
                  if negb ok then Some (false, c)
                  else
                    let '(ok, c) := read_backfill o (read_market o (read_reconnect o (read_tickerplant o c))) in
                    if negb ok then Some (false, c) else Some (true, read_logging o c)
              end
          end
      end
  end.

(** ** The market wiring of each binary *)

(** Trade binaries: an unknown schema is spot. *)
Definition buildMarketConfig (c : FeedHandlerConfig) : MarketConfig :=
  let d := default_MarketConfig in
  let en := fc_backfillEnabled c in
  mkMarketConfig (fc_marketHost c) (fc_marketPort c) (fc_marketStreamSuffix c) (fc_marketTpTable c)
    (if String.eqb (fc_marketSchema c) "futures_agg_trade" then FuturesAggTrade else SpotTrade)
    en
    (if en then fc_backfillRestHost c else mc_backfillRestHost d)
    (mc_backfillRestPort d)
    (if en then fc_backfillRestPath c else mc_backfillRestPath d)
    (if en then fc_backfillWeight c else mc_backfillWeight d)
    (if en then fc_backfillWeightLimit c else mc_backfillWeightLimit d)
    (if en then fc_backfillMaxGapIds c else mc_backfillMaxGapIds d)
    (fc_clockLagMs c).

(** The futures binary's own copy, assignment by assignment. "The bodies will
    always be the same", its comment says; they are. *)
Definition fut_buildMarketConfig (c : FeedHandlerConfig) : MarketConfig :=
  let m := default_MarketConfig in
  let m := m <| mc_host := fc_marketHost c |> in
  let m := m <| mc_port := fc_marketPort c |> in
  let m := m <| mc_streamSuffix := fc_marketStreamSuffix c |> in
  let m := m <| mc_tpTable := fc_marketTpTable c |> in
  let m := m <| mc_schema := if String.eqb (fc_marketSchema c) "futures_agg_trade" then FuturesAggTrade
                             else SpotTrade |> in
  let m := m <| mc_clockLagMs := fc_clockLagMs c |> in
  let m := m <| mc_backfillEnabled := fc_backfillEnabled c |> in
  if fc_backfillEnabled c then
    let m := m <| mc_backfillRestHost := fc_backfillRestHost c |> in
    let m := m <| mc_backfillRestPath := fc_backfillRestPath c |> in
    let m := m <| mc_backfillWeight := fc_backfillWeight c |> in
    let m := m <| mc_backfillWeightLimit := fc_backfillWeightLimit c |> in
    m <| mc_backfillMaxGapIds := fc_backfillMaxGapIds c |>
  else m.
Lemma both_build_the_same c : fut_buildMarketConfig c = buildMarketConfig c.
Proof. unfold fut_buildMarketConfig, buildMarketConfig. by destruct (fc_backfillEnabled c). Qed.

(** A text in double quotes. *)
Definition quoted (s : string) : string := (String "034"%char s +:+ String "034"%char "")%string.

(** Quote binaries: [inr] is the error text. *)
Definition quote_buildMarketConfig (c : FeedHandlerConfig) : QuoteMarketConfig + string :=
  if negb (fc_hasMarketBlock c) then inr ("config has no " +:+ quoted "market" +:+ " block")%string
  else
    let build sync :=
      if String.eqb (fc_restHost c) "" || String.eqb (fc_restPath c) ""
      then inr "market.rest_host and market.rest_path are required"%string
      else if (fc_snapshotLimit c <=? 0) || (fc_snapshotWeight c <=? 0) || (fc_weightLimitPerMin c <=? 0)
      then inr "market.snapshot_limit, market.snapshot_weight and market.weight_limit_per_min are required"%string
      else
        let fut := bool_decide (sync = Futures) in
        inl (mkQuoteMarketConfig (fc_marketHost c) (fc_marketPort c) (fc_marketPathPrefix c)
               (fc_marketStreamSuffix c) (fc_restHost c) (fc_restPort c) (fc_restPath c) (fc_snapshotLimit c)
               (fc_snapshotWeight c) (fc_weightLimitPerMin c) (fc_marketTpTable c)
               (if fut then "quote_fh_fut" else "quote_fh")%string sync (fc_quoteDepth c) fut (fc_clockLagMs c)) in
    if String.eqb (fc_marketSchema c) "spot_depth" then build Spot
    else if String.eqb (fc_marketSchema c) "futures_depth" then build Futures
    else inr ("market.schema must be " +:+ quoted "spot_depth" +:+ " or " +:+ quoted "futures_depth" +:+
               ", got " +:+ quoted (fc_marketSchema c))%string.

(** ** The entry points

    The exit code after the run is 2 when TP rejected the handler. *)

Definition configPathOf (args : list string) (dflt : string) : string :=
  match args with p :: _ => p | [] => dflt end.

Definition exitCode (fatal : string) : Z := if String.eqb fatal "" then 0 else 2.

Definition quote_main (args : list string) (defaultConfigPath requiredSchema : string)
    : Startup (FeedHandlerConfig * QuoteMarketConfig) :=
  match load (configPathOf args defaultConfigPath) default_FeedHandlerConfig with
  | None => Crash
  | Some (false, _) => Exit 1
  | Some (true, c) =>
      if negb (String.eqb (fc_marketSchema c) requiredSchema) then Exit 1
      else match quote_buildMarketConfig c with inr _ => Exit 1 | inl m => Start (c, m) end
  end.
Definition quote_fh_main (args : list string) := quote_main args "config/quote_feed_handler.json" "spot_depth".
Definition quote_fh_fut_main (args : list string) :=
  quote_main args "config/quote_feed_handler_fut.json" "futures_depth".

(** The futures binary only warns when the config says spot. *)
Definition trade_main (build : FeedHandlerConfig -> MarketConfig) (args : list string) (defaultConfigPath : string)
    : Startup (FeedHandlerConfig * MarketConfig) :=
  match load (configPathOf args defaultConfigPath) default_FeedHandlerConfig with
  | None => Crash
  | Some (false, _) => Exit 1
  | Some (true, c) => if is_empty (fc_symbols c) then Exit 1 else Start (c, build c)
  end.
Definition trade_fh_main (args : list string) := trade_main buildMarketConfig args "config/trade_feed_handler.json".
Definition trade_fh_fut_main (args : list string) :=
  trade_main fut_buildMarketConfig args "config/trade_feed_handler_fut.json".
End load.

(** ** What a loaded configuration guarantees *)

Definition good_symbol (s : string) : Prop := s <> ""%string /\ lower s = s.
Definition backfill_complete (c : FeedHandlerConfig) : Prop :=
  fc_backfillRestHost c <> ""%string /\ fc_backfillRestPath c <> ""%string /\
  0 < fc_backfillWeight c /\ 0 < fc_backfillWeightLimit c /\ 0 < fc_backfillMaxGapIds c.
Record config_ok (c : FeedHandlerConfig) : Prop := {
  ok_symbols : fc_symbols c <> [] /\ Forall good_symbol (fc_symbols c);
  ok_depth : MIN_QUOTE_DEPTH <= fc_quoteDepth c <= MAX_QUOTE_DEPTH;
  ok_clock : MIN_CLOCK_LAG_MS <= fc_clockLagMs c <= MAX_CLOCK_LAG_MS;
  ok_backfill : fc_backfillEnabled c = true -> backfill_complete c
}.

Lemma tolower_idem a : tolower (tolower a) = tolower a.
Proof. destruct a as [[] [] [] [] [] [] [] []]; vm_compute; reflexivity. Qed.

Lemma lower_good s : s <> ""%string -> good_symbol (lower s).
Proof.
  intros Hs. unfold good_symbol, lower, chars_of. split; [by destruct s|].
  rewrite String.list_ascii_of_string_of_list_ascii. f_equal. rewrite <-list_fmap_compose.
  apply list_fmap_ext. intros i a _. apply tolower_idem.
Qed.

Section loaded.
Context `{Environment} {V : Type} `{JsonLib V}.

Lemma read_symbols_ok vs c c' :
  read_symbols vs c = (true, c') -> Forall good_symbol (fc_symbols c) ->
  Forall good_symbol (fc_symbols c') /\ length (fc_symbols c') = (length (fc_symbols c) + length vs)%nat /\
  fc_clockLagMs c' = fc_clockLagMs c /\ fc_backfillEnabled c' = fc_backfillEnabled c.
Proof.
  revert c. induction vs as [|v vs IH]; intros c; cbn [read_symbols].
  { intros [= <-] Hc. cbn [length]. split; [done|]. split; [lia|done]. }
  destruct (as_string v) as [s|]; [|done]. destruct (String.eqb_spec s ""); [done|].
  intros Hr Hc. apply IH in Hr as (H1 & H2 & H3 & H4).
  - split; [done|]. split; [|done]. rewrite H2. cbn [fc_symbols modify eta_FeedHandlerConfig].
    rewrite length_app. cbn. lia.
  - cbn [fc_symbols modify eta_FeedHandlerConfig]. apply Forall_app. split; [done|].
    constructor; [by apply lower_good|constructor].
Qed.

Lemma read_clock_lag_ok o c c' :
  read_clock_lag o c = (true, c') ->
  MIN_CLOCK_LAG_MS <= fc_clockLagMs c <= MAX_CLOCK_LAG_MS ->
  MIN_CLOCK_LAG_MS <= fc_clockLagMs c' <= MAX_CLOCK_LAG_MS /\ fc_symbols c' = fc_symbols c /\
  fc_quoteDepth c' = fc_quoteDepth c /\ fc_backfillEnabled c' = fc_backfillEnabled c.
Proof.
  unfold read_clock_lag. intros H1 Hc. destruct (o _) as [v|]; [|by injection H1 as <-].
  destruct (as_int64 v) as [ms|]; [|done].
  destruct (Z.ltb_spec ms MIN_CLOCK_LAG_MS), (Z.ltb_spec MAX_CLOCK_LAG_MS ms); try done.
  injection H1 as <-. done.
Qed.

Lemma loadShared_ok path c c' :
  loadShared path c = (true, c') ->
  MIN_CLOCK_LAG_MS <= fc_clockLagMs c <= MAX_CLOCK_LAG_MS -> fc_backfillEnabled c = false -> config_ok c'.
Proof.
  unfold loadShared. intros Hl Hc Hb. destruct (read_file _) as [text|]; [|done].
  destruct (json_parse text) as [doc|]; [|done]. destruct (as_object doc) as [o|]; [|done].
  destruct (member as_array o "symbols") as [vs|]; [|done]. destruct vs as [|v vs]; [done|].
  destruct (read_symbols _ _) as [[] c1] eqn:Es; cbn [negb] in Hl; [|done].
  destruct (member as_int o "quote_depth") as [d|]; [|done].
  destruct (Z.ltb_spec d MIN_QUOTE_DEPTH), (Z.ltb_spec MAX_QUOTE_DEPTH d); try done.
  apply read_symbols_ok in Es as (S1 & S2 & S3 & S4); [|constructor].
  apply read_clock_lag_ok in Hl as (L1 & L2 & L3 & L4).
  2: { cbn [fc_clockLagMs modify eta_FeedHandlerConfig] in *. by rewrite S3. }
  cbn [fc_symbols fc_quoteDepth fc_backfillEnabled modify eta_FeedHandlerConfig] in *.
  constructor; [|by rewrite L3|done|].
  - rewrite L2. split; [|done]. intros E. rewrite E in S2. cbn in S2. lia.
  - rewrite L4, S4, Hb. done.
Qed.

Lemma set_if_inv {A} (P : FeedHandlerConfig -> Prop) (v : option A) f c :
  (forall x c, P c -> P (f x c)) -> P c -> P (set_if v f c).
Proof. destruct v; cbn; auto. Qed.

Lemma config_ok_same c c' :
  fc_symbols c' = fc_symbols c -> fc_quoteDepth c' = fc_quoteDepth c -> fc_clockLagMs c' = fc_clockLagMs c ->
  fc_backfillEnabled c' = fc_backfillEnabled c -> (backfill_complete c -> backfill_complete c') ->
  config_ok c -> config_ok c'.
Proof. intros E1 E2 E3 E4 E5 []. constructor; rewrite ?E1, ?E2, ?E3, ?E4; auto. Qed.

Ltac keeps_config :=
  repeat first [case_match; [|done] | apply set_if_inv; [intros ? x ?; by apply (config_ok_same x)|]];
  try done; match goal with Hc : config_ok ?x |- _ => by apply (config_ok_same x) end.

Lemma read_tickerplant_ok o c : config_ok c -> config_ok (read_tickerplant o c).
Proof. intros Hc. unfold read_tickerplant. keeps_config. Qed.
Lemma read_reconnect_ok o c : config_ok c -> config_ok (read_reconnect o c).
Proof. intros Hc. unfold read_reconnect. keeps_config. Qed.
Lemma read_market_ok o c : config_ok c -> config_ok (read_market o c).
Proof. intros Hc. unfold read_market. keeps_config. Qed.
Lemma read_logging_ok o c : config_ok c -> config_ok (read_logging o c).
Proof. intros Hc. unfold read_logging. keeps_config. Qed.

(** The fields the backfill block does not touch. *)
Definition basics (c : FeedHandlerConfig) : list string * Z * Z := (fc_symbols c, fc_quoteDepth c, fc_clockLagMs c).

Lemma read_backfill_ok o c c' : read_backfill o c = (true, c') -> config_ok c -> config_ok c'.
Proof.
  unfold read_backfill. intros Hr Hc. destruct (block o "backfill") as [b|]; [|by injection Hr as <-].
  assert (basics (read_backfill_fields b c) = basics c) as HB.
  { unfold read_backfill_fields. by repeat (apply (set_if_inv (fun y => basics y = basics c)); [done|]). }
  revert Hr HB. generalize (read_backfill_fields b c). intros c1 [= Hb <-] [= E1 E2 E3].
  destruct Hc as [O1 O2 O3 _]. constructor; rewrite ?E1, ?E2, ?E3; try done.
  intros Hen. rewrite Hen in Hb. cbn [andb] in Hb. apply negb_true_iff in Hb.
  apply orb_false_iff in Hb as [Hb H5]. apply orb_false_iff in Hb as [Hb H4].
  apply orb_false_iff in Hb as [Hb H3]. apply orb_false_iff in Hb as [H1%String.eqb_neq H2%String.eqb_neq].
  unfold backfill_complete. bools. done.
Qed.

Lemma load_ok path c :
  load path default_FeedHandlerConfig = Some (true, c) -> config_ok c.
Proof.
  unfold load. intros Hl. destruct (read_file path) as [text|]; [|done].
  destruct (json_parse text) as [doc|]; [|done]. destruct (as_object doc) as [o|]; [|done].
  destruct (o "symbols"%string); [done|].
  destruct (loadShared path default_FeedHandlerConfig) as [[] c1] eqn:Es; cbn [negb] in Hl; [|done].
  destruct (read_backfill _ _) as [[] c2] eqn:Eb; cbn [negb] in Hl; [|done]. injection Hl as <-.
  apply read_logging_ok. apply read_backfill_ok in Eb; [done|].
  apply read_market_ok, read_reconnect_ok, read_tickerplant_ok.
  by apply (loadShared_ok path default_FeedHandlerConfig).
Qed.
End loaded.


(** A trade handler with backfill enabled has an endpoint, positive
    weights and a positive cap; the market's other fields are the file's. *)
Theorem trade_backfill_configured `{Environment} `{JsonLib V} build args path c m :
  (forall c, build c = buildMarketConfig c) -> trade_main build args path = Start (c, m) ->
  mc_tpTable m = fc_marketTpTable c /\ mc_clockLagMs m = fc_clockLagMs c /\
  (mc_schema m = FuturesAggTrade <-> fc_marketSchema c = "futures_agg_trade"%string) /\
  (mc_backfillEnabled m = true ->
   mc_backfillRestHost m = fc_backfillRestHost c /\ mc_backfillRestHost m <> ""%string /\
   mc_backfillRestPath m <> ""%string /\ 0 < mc_backfillWeight m /\ 0 < mc_backfillWeightLimit m /\
   0 < mc_backfillMaxGapIds m).
Proof.
  intros Hbuild. unfold trade_main. destruct (load _ _) as [[[] c1]|] eqn:El; try done.
  destruct (is_empty (fc_symbols c1)); [done|]. intros [= <- <-]. rewrite Hbuild.
  apply load_ok in El as [_ _ _ Hb]. split; [done|]. split; [done|]. unfold buildMarketConfig.
  cbn [mc_schema mc_backfillEnabled mc_backfillRestHost mc_backfillRestPath mc_backfillWeight
       mc_backfillWeightLimit mc_backfillMaxGapIds]. split.
  - by destruct (String.eqb_spec (fc_marketSchema c1) "futures_agg_trade").
  - intros Hen. destruct (Hb Hen) as (H1 & H2 & H3 & H4 & H5). rewrite Hen. done.
Qed.

(** ** The repository's own configuration (src/config/) *)

Definition strs (l : list string) : json := JArray (JString <$> l).
Definition tp_json : json := JObject [("host", JString "localhost"); ("port", JInt 5010)]%string.
Definition reconnect_json : json := JObject [("initial_backoff_ms", JInt 1000); ("max_backoff_ms", JInt 8000)]%string.
Definition shared_json : json :=
  JObject [("symbols", strs ["btcusdt"; "ethusdt"; "solusdt"]); ("quote_depth", JInt 5);
           ("clock_lag_ms", JInt 2000)]%string.
Definition quote_fut_json : json :=
  JObject [("market", JObject [("host", JString "fstream.binance.com"); ("port", JString "443");
              ("path_prefix", JString "/public"); ("stream_suffix", JString "@depth@100ms");
              ("rest_host", JString "fapi.binance.com"); ("rest_path", JString "/fapi/v1/depth");
              ("snapshot_limit", JInt 1000); ("snapshot_weight", JInt 20);
              ("weight_limit_per_min", JInt 2400); ("tp_table", JString "quote_binance_fut");
              ("schema", JString "futures_depth")]);
           ("tickerplant", tp_json); ("reconnect", reconnect_json)]%string.
Definition trade_json : json :=
  JObject [("backfill", JObject [("enabled", JBool true); ("rest_host", JString "api.binance.com");
              ("rest_path", JString "/api/v3/historicalTrades"); ("request_weight", JInt 25);
              ("weight_limit_per_min", JInt 6000); ("max_gap_ids", JInt 500000)]);
           ("tickerplant", tp_json); ("reconnect", reconnect_json)]%string.
(** A market block without its table and stream. *)
Definition bare_json : json :=
  JObject [("market", JObject [("rest_host", JString "api.binance.com"); ("rest_path", JString "/api/v3/depth");
              ("snapshot_limit", JInt 4); ("snapshot_weight", JInt 5); ("weight_limit_per_min", JInt 6000);
              ("schema", JString "spot_depth")])]%string.

Definition ex_docs : list (string * json) :=
  [("shared", shared_json); ("quote_fut", quote_fut_json); ("trade", trade_json); ("bare", bare_json);
   ("list", JArray [])]%string.
Definition ex_files : list (string * string) :=
  [("config/shared.json", "shared"); ("config/quote_feed_handler_fut.json", "quote_fut");
   ("config/trade_feed_handler.json", "trade"); ("config/bare.json", "bare"); ("config/list.json", "list")]%string.
#[export] Instance ex_environment : Environment := {
  getenv _ := None;
  read_file p := snd <$> List.find (fun f => String.eqb (fst f) p) ex_files
}.

(** The same files with the list as the shared file. *)
Definition ex_env_list : Environment :=
  {| getenv _ := Some "config/list.json"%string; read_file := read_file |}.
Definition started {A} (s : Startup (FeedHandlerConfig * A)) (dflt : A) : FeedHandlerConfig * A :=
  match s with Start r => r | _ => (default_FeedHandlerConfig, dflt) end.
Definition ex_quote : FeedHandlerConfig * QuoteMarketConfig := Eval vm_compute in
  started (@quote_fh_fut_main _ _ (json_lib ex_docs) []) default_QuoteMarketConfig.
Definition ex_trade_start : FeedHandlerConfig * MarketConfig := Eval vm_compute in
  started (@trade_fh_main _ _ (json_lib ex_docs) []) default_MarketConfig.
Definition ex_bare : FeedHandlerConfig * QuoteMarketConfig := Eval vm_compute in
  started (@quote_main _ _ (json_lib ex_docs) ["config/bare.json"%string] "" "spot_depth") default_QuoteMarketConfig.


Lemma trade_backfill_configured_witness :
  @trade_main _ _ (json_lib ex_docs) buildMarketConfig [] "config/trade_feed_handler.json" =
    Start (fst ex_trade_start, snd ex_trade_start) /\ 
  mc_backfillEnabled (snd ex_trade_start) = true /\ mc_backfillRestHost (snd ex_trade_start) <> ""%string /\ 
  0 < mc_backfillMaxGapIds (snd ex_trade_start).
Proof.
  assert (@trade_main _ _ (json_lib ex_docs) buildMarketConfig [] "config/trade_feed_handler.json" =
    Start (fst ex_trade_start, snd ex_trade_start)) as E by (vm_compute; reflexivity).
  split; [exact E|]. split; [reflexivity|].
  destruct (@trade_backfill_configured _ _ (json_lib ex_docs) _ _ _ _ _ (fun c => eq_refl) E) as (_ & _ & _ & H1).
  destruct (H1 eq_refl) as (_ & H2 & _ & _ & _ & H3). split; [exact H2|exact H3].
Defined.

(** [load] on a file that is valid JSON but not an object runs into
    rapidjson's assertion, while the shared file with the same content is
    refused; and a quote handler starts without the market's table or stream, on
    the trade handler's default ones, and with a snapshot limit below the depth. *)
Theorem config_gaps :
  @load _ _ (json_lib ex_docs) "config/list.json" default_FeedHandlerConfig = None /\
  fst (@loadShared ex_env_list _ (json_lib ex_docs) "config/list.json" default_FeedHandlerConfig) = false /\
  let m := snd ex_bare in
  @quote_main _ _ (json_lib ex_docs) ["config/bare.json"%string] "" "spot_depth" = Start (fst ex_bare, m) /\
  qc_tpTable m = "trade_binance"%string /\ qc_streamSuffix m = "@trade"%string /\
  qc_snapshotLimit m < qc_depth m.
Proof. repeat (split; [vm_compute; reflexivity|]). reflexivity. Qed.
