(* ===== verification/Effects.v ===== *)
(** * Effects of the handlers

    A handler's method reads and writes its own members (the state [S]) and acts
    on the outside (the world [W]): clocks, the process, the tickerplant. [None]
    is a retry loop that ran out of fuel. [triple] and [ensures] carry assertions about
    the state and the world through a method, so that a property of the primitive
    steps extends to whole methods. *)

From S2P Require Import Prelude Double.

Open Scope Z_scope.

(** The clocks and the random device: [steady_clock] and [system_clock] in
    nanoseconds, and a jitter value in [[0,1)]. *)
Class Host (W : Type) := {
  steady_now : W -> Z * W;
  system_now : W -> Z * W;
  draw_jitter : W -> double * W
}.

(** The WebSocket (Boost.Beast over TLS): connecting, reading the next text
    message, closing. False and [None] stand for the exception Beast throws. *)
Class WebSocket (W : Type) := {
  ws_connect : string -> string -> string -> W -> bool * W;
  ws_read : W -> option string * W;
  ws_close : W -> W
}.

(** How a connection's loop ended: an exception, or the shutdown flag. *)
Inductive LoopEnd := Threw | Finished.

(** How many steps a worker thread takes before the handler's next step: any
    interleaving of the two threads is one such schedule. *)
Class Background (W : Type) := { worker_steps : W -> nat * W }.

Definition M (S W A : Type) : Type := S -> W -> option (A * S * W).

Section monad.
Context {S W : Type}.

Definition ret {A} (x : A) : M S W A := fun s w => Some (x, s, w).
Definition bind {A B} (m : M S W A) (k : A -> M S W B) : M S W B := fun s w =>
  match m s w with
  | Some (x, s, w) => k x s w
  | None => None
  end.
Definition gets {A} (f : S -> A) : M S W A := fun s w => Some (f s, s, w).
Definition puts (f : S -> S) : M S W unit := fun s w => Some (tt, f s, w).
Definition world {A} (f : W -> A * W) : M S W A := fun s w => let '(x, w) := f w in Some (x, s, w).
Definition when (b : bool) (m : M S W unit) : M S W unit := if b then m else ret tt.

(** One call per element, in order. *)
Fixpoint for_each {A} (l : list A) (f : A -> M S W unit) : M S W unit :=
  match l with [] => ret tt | x :: l' => bind (f x) (fun _ => for_each l' f) end.
End monad.

Declare Scope effect_scope.
Delimit Scope effect_scope with effect.
Notation "x <- m ;; k" := (bind m (fun x => k))
  (at level 100, m at next level, right associativity) : effect_scope.
Notation "m ;;; k" := (bind m (fun _ => k)) (at level 100, right associativity) : effect_scope.

(** ** Triples

    From states in [P], the method, if it returns, ends in [Q]. [ensures P m Q]
    is the common case: [P] is kept, and the value satisfies [Q]. That a method
    returns is a judgment of its own ([returns], in Shutdown). *)

Definition triple {S W A} (P : S -> W -> Prop) (m : M S W A) (Q : A -> S -> W -> Prop) : Prop :=
  forall s w x s' w', P s w -> m s w = Some (x, s', w') -> Q x s' w'.

Definition ensures {S W A} (P : S -> W -> Prop) (m : M S W A) (Q : A -> Prop) : Prop :=
  triple P m (fun x s w => P s w /\ Q x).

Definition anything {A} (_ : A) : Prop := True.

Section triple.
Context {S W : Type}.
Implicit Types P : S -> W -> Prop.

Lemma triple_bind {A B} P (m : M S W A) (k : A -> M S W B) R Q :
  triple P m R -> (forall x, triple (R x) (k x) Q) -> triple P (bind m k) Q.
Proof.
  intros Hm Hk s w y s' w' Hs. unfold bind. destruct (m s w) as [[[x s1] w1]|] eqn:E; [|done].
  intros E2. exact (Hk x _ _ _ _ _ (Hm _ _ _ _ _ Hs E) E2).
Qed.

Lemma triple_conseq {A} P P' (m : M S W A) (Q Q' : A -> S -> W -> Prop) :
  triple P' m Q' -> (forall s w, P s w -> P' s w) -> (forall x s w, Q' x s w -> Q x s w) -> triple P m Q.
Proof. intros H HP HQ s w x s' w' Hs E. eauto. Qed.

Lemma triple_pre {A} P P' (m : M S W A) (Q : A -> S -> W -> Prop) :
  triple P' m Q -> (forall s w, P s w -> P' s w) -> triple P m Q.
Proof. intros H HP s w x s' w' Hs E. exact (H _ _ _ _ _ (HP s w Hs) E). Qed.

Lemma triple_and {A} P P' (m : M S W A) (Q Q' : A -> S -> W -> Prop) :
  triple P m Q -> triple P' m Q' -> triple (fun s w => P s w /\ P' s w) m (fun x s w => Q x s w /\ Q' x s w).
Proof. intros H H' s w x s' w' [] E. eauto. Qed.

(** A fact that follows from the state is there for the rest of the proof. *)
Lemma triple_pure {A} P (m : M S W A) (Q : A -> S -> W -> Prop) (phi : Prop) :
  (forall s w, P s w -> phi) -> (phi -> triple P m Q) -> triple P m Q.
Proof. intros Hp H s w x s' w' Hs E. exact (H (Hp s w Hs) _ _ _ _ _ Hs E). Qed.

Lemma triple_ret {A} P (x : A) (Q : A -> S -> W -> Prop) :
  (forall s w, P s w -> Q x s w) -> triple P (ret x) Q.
Proof. intros H s w y s' w' Hs [= <- <- <-]. auto. Qed.

Lemma triple_gets {A} P (f : S -> A) (Q : A -> S -> W -> Prop) :
  (forall s w, P s w -> Q (f s) s w) -> triple P (gets f) Q.
Proof. intros H s w y s' w' Hs [= <- <- <-]. auto. Qed.

Lemma triple_puts P f (Q : unit -> S -> W -> Prop) :
  (forall s w, P s w -> Q tt (f s) w) -> triple P (puts f) Q.
Proof. intros H s w y s' w' Hs [= <- <- <-]. auto. Qed.

(** What holds after the calls made so far. *)
Lemma triple_for_each {A} (l : list A) (f : A -> M S W unit) (P : list A -> S -> W -> Prop) :
  (forall l1 x l2, l = l1 ++ x :: l2 -> triple (P l1) (f x) (fun _ => P (l1 ++ [x]))) ->
  triple (P []) (for_each l f) (fun _ => P l).
Proof.
  intros Hf. enough (forall l2 l1, l = l1 ++ l2 -> triple (P l1) (for_each l2 f) (fun _ => P l)) as Hall by (by apply Hall).
  intros l2. induction l2 as [|x l2 IH]; intros l1 E; cbn [for_each].
  - apply triple_ret. intros s w Hs. by rewrite E, app_nil_r.
  - apply (triple_bind _ _ _ (fun _ => P (l1 ++ [x]))); [by eapply Hf|]. intros _. apply IH. by rewrite <-app_assoc.
Qed.

Lemma ensures_triple {A B} P (m : M S W A) (k : A -> M S W B) (R : A -> Prop) Q :
  ensures P m R -> (forall x, R x -> triple P (k x) Q) -> triple P (bind m k) Q.
Proof.
  intros Hm Hk. apply (triple_bind _ _ _ _ _ Hm). intros x s w y s' w' [Hs Hx]. by apply Hk.
Qed.

(** What else is known beforehand is not needed. *)
Lemma ensures_drop {A} P (P' : S -> W -> Prop) (m : M S W A) (Q : A -> Prop) :
  ensures P m Q -> triple (fun s w => P s w /\ P' s w) m (fun _ => P).
Proof. intros H s w x s' w' [Hs _] E. by destruct (H _ _ _ _ _ Hs E). Qed.

Lemma ensures_ret {A} P (x : A) (Q : A -> Prop) : Q x -> ensures P (ret x) Q.
Proof. intros Hx. by apply triple_ret. Qed.

Lemma ensures_bind {A B} P (m : M S W A) (k : A -> M S W B) (Q : A -> Prop) (Q' : B -> Prop) :
  ensures P m Q -> (forall x, Q x -> ensures P (k x) Q') -> ensures P (bind m k) Q'.
Proof. apply ensures_triple. Qed.

Lemma ensures_weaken {A} P (m : M S W A) (Q Q' : A -> Prop) :
  ensures P m Q -> (forall x, Q x -> Q' x) -> ensures P m Q'.
Proof. intros H HQ. apply (triple_conseq _ _ _ _ _ H); [done|]. intros x s w []. auto. Qed.

Lemma ensures_gets {A} P (f : S -> A) (Q : A -> Prop) :
  (forall s w, P s w -> Q (f s)) -> ensures P (gets f) Q.
Proof. intros Hf. apply triple_gets. eauto. Qed.

Lemma ensures_world {A} P (f : W -> A * W) :
  (forall s w, P s w -> P s (snd (f w))) -> ensures P (world f) anything.
Proof.
  intros H s w y s' w' Hs. unfold world. specialize (H s w Hs). destruct (f w). intros [= <- <- <-]. done.
Qed.

Lemma ensures_puts P f : (forall s w, P s w -> P (f s) w) -> ensures P (puts f) anything.
Proof. intros H. apply triple_puts. intros s w Hs. split; [auto|done]. Qed.

Lemma ensures_when P b (m : M S W unit) : ensures P m anything -> ensures P (when b m) anything.
Proof. intros H. destruct b; [done|]. by apply ensures_ret. Qed.

Lemma ensures_for_each {A} P (l : list A) (f : A -> M S W unit) :
  (forall x, x ∈ l -> ensures P (f x) anything) -> ensures P (for_each l f) anything.
Proof.
  induction l as [|x l IH]; intros H; cbn; [by apply ensures_ret|].
  apply ensures_bind with (Q := anything); [apply H; by left|intros _ _].
  apply IH. intros y Hy. apply H. by right.
Qed.
End triple.

(** Walk through a method, forgetting the values; what a leaf needs is left to
    the caller. *)
Ltac ensures_step :=
  lazymatch goal with
  | |- ensures _ (bind _ _) _ => apply (ensures_bind _ _ _ anything); [|intros ? _]
  | |- ensures _ (when _ _) _ => apply ensures_when
  | |- ensures _ (for_each _ _) _ => apply ensures_for_each; intros ? _
  | |- ensures _ (world _) _ => apply ensures_world; try (intros; assumption)
  | |- ensures _ (ret _) _ => apply ensures_ret; try exact Logic.I
  | |- ensures _ (gets _) _ => apply ensures_gets; try (intros; exact Logic.I)
  | |- ensures _ (match ?x with _ => _ end) _ => destruct x
  end.
