(* ===== verification/Backoff.v ===== *)
(** * Waiting and shutting down

    The interface the handlers have to their process ([running_], the shutdown
    flag another thread may clear at any time, and sleeping), and the
    exponential backoff that TpPublisher, both feed handlers and the snapshot
    scheduler share. *)

From S2P Require Import Prelude.

Open Scope Z_scope.

(** ** The process *)

(** [W] is everything outside the program: other threads, the clock, peers.
    Reading the flag is an effect, since another thread may have cleared it. *)
Class Process (W : Type) := {
  is_running : W -> bool * W;
  stop_running : W -> W;
  sleep_ns : Z -> W -> W
}.
Definition sleep_ms {W} `{Process W} (ms : Z) : W -> W := sleep_ns (ms * 1000000).

(** A process that is shut down after finitely many reads of the flag, however
    its other operations go. *)
Class ShutsDown (W : Type) `{Process W} := {
  reads_left : W -> nat;
  reads_read w : fst (is_running w) = true -> (reads_left (snd (is_running w)) < reads_left w)%nat;
  reads_read_le w : (reads_left (snd (is_running w)) <= reads_left w)%nat;
  reads_sleep ns w : (reads_left (sleep_ns ns w) <= reads_left w)%nat;
  reads_stop w : (reads_left (stop_running w) <= reads_left w)%nat
}.

(** ** Backoff *)

(** [for (i = 0; i < attempt && delay < max; ++i) delay *= mult;] *)
Fixpoint backoff_loop (mult max : Z) (attempt : nat) (delay : Z) : Z :=
  match attempt with
  | O => delay
  | S a => if delay <? max then backoff_loop mult max a (delay * mult) else delay
  end.

Definition backoff_delay (mult initial max : Z) (attempt : nat) : Z :=
  Z.min (backoff_loop mult max attempt initial) max.

Section sleep.
Context {W : Type} `{Process W}.

(** [while (slept < delay && running_)], in steps of 100 ms; [fuel] bounds the
    iterations and [Z.to_nat delay] of them always suffice. *)
Fixpoint sleep_loop (fuel : nat) (slept delay : Z) (w : W) : W :=
  match fuel with
  | O => w
  | S fuel =>
      if slept <? delay then
        let '(r, w) := is_running w in
        if r then sleep_loop fuel (slept + 100) delay (sleep_ms 100 w) else w
      else w
  end.

(** [sleepWithBackoff]: false when the wait was cut short by a shutdown. *)
Definition sleepWithBackoff (mult initial max : Z) (attempt : nat) (w : W) : bool * W :=
  let delay := backoff_delay mult initial max attempt in
  is_running (sleep_loop (S (Z.to_nat delay)) 0 delay w).

(** More fuel changes nothing: the loop ends by itself. *)
Lemma sleep_loop_fuel f1 f2 slept delay w :
  (Z.to_nat (delay - slept) < f1)%nat -> (f1 <= f2)%nat ->
  sleep_loop f2 slept delay w = sleep_loop f1 slept delay w.
Proof.
  revert f2 slept w. induction f1 as [|f1 IH]; intros f2 slept w H1 H2; [lia|].
  destruct f2 as [|f2]; [lia|]. cbn [sleep_loop].
  destruct (Z.ltb_spec slept delay); [|done].
  destruct (is_running w) as [[] w']; [|done]. apply IH; lia.
Qed.

Lemma sleep_loop_reads `{!ShutsDown W} fuel slept delay w :
  (reads_left (sleep_loop fuel slept delay w) <= reads_left w)%nat.
Proof.
  revert slept w. induction fuel as [|fuel IH]; intros slept w; cbn [sleep_loop]; [done|].
  destruct (slept <? delay); [|done].
  pose proof (reads_read_le w). destruct (is_running w) as [[] w1]; cbn [snd] in *; [|done].
  pose proof (IH (slept + 100) (sleep_ms 100 w1)). pose proof (reads_sleep (100 * 1000000) w1). unfold sleep_ms in *. lia.
Qed.

Lemma sleepWithBackoff_reads `{!ShutsDown W} mult initial max n w :
  (reads_left (snd (sleepWithBackoff mult initial max n w)) <= reads_left w)%nat.
Proof.
  unfold sleepWithBackoff. set (d := backoff_delay _ _ _ _).
  pose proof (reads_read_le (sleep_loop (S (Z.to_nat d)) 0 d w)).
  pose proof (sleep_loop_reads (S (Z.to_nat d)) 0 d w). lia.
Qed.
End sleep.

Lemma backoff_loop_two max n d :
  0 < d -> Z.min (backoff_loop 2 max n d) max = Z.min (d * 2 ^ Z.of_nat n) max.
Proof.
  revert d. induction n as [|n IH]; intros d Hd; cbn [backoff_loop].
  { f_equal. cbn. lia. }
  rewrite Nat2Z.inj_succ, Z.pow_succ_r by lia.
  destruct (Z.ltb_spec d max).
  - rewrite IH by lia. f_equal. lia.
  - assert (1 <= 2 ^ Z.of_nat n) by (pose proof (Z.pow_pos_nonneg 2 (Z.of_nat n)); lia).
    rewrite !Z.min_r; [done|nia|lia].
Qed.

Lemma backoff_loop_bound max n d :
  0 < d <= max -> 0 < backoff_loop 2 max n d < 2 * max + 1.
Proof.
  revert d. assert (forall n d, 0 < d <= 2 * max -> 0 < backoff_loop 2 max n d < 2 * max + 1) as H.
  { clear n. intros n. induction n as [|n IH]; intros d Hd; cbn [backoff_loop]; [lia|].
    destruct (Z.ltb_spec d max); [|lia]. apply IH. lia. }
  intros d Hd. apply H. lia.
Qed.


