(* ===== verification/RowClock.v ===== *)
(** * The `time` of a row when the local clock lags (row_clock.hpp)

    [stampRowTime] decides one row, [RowClock] adds the memory of the latest
    event time, the counters and the lag episodes. C++'s [long long] division
    truncates, hence [Z.quot]. The log lines of row_clock_log.hpp are values. *)

From S2P Require Import Prelude.

Open Scope Z_scope.
Local Open Scope rec_scope.

Definition DEFAULT_CLOCK_LAG_MS : Z := 2000.

Inductive ClockEdge := EdgeNone | LagStarted | LagEnded.
#[export] Instance ClockEdge_eq_dec : EqDecision ClockEdge.
Proof. solve_decision. Defined.

Record RowStamp := mkRowStamp {
  timeUtcNs : Z;
  corrected : bool;
  lagMs : Z;
  edge : ClockEdge
}.
#[export] Instance eta_RowStamp : Eta RowStamp := fun s =>
  mkRowStamp (timeUtcNs s) (corrected s) (lagMs s) (edge s).
Definition empty_RowStamp : RowStamp := mkRowStamp 0 false 0 EdgeNone.

Definition hasEventTime (eventTimeMs : Z) : bool := 0 <? eventTimeMs.

Definition stampRowTime (recvTimeUtcNs eventTimeMs thresholdMs : Z) : RowStamp :=
  let s := empty_RowStamp <| timeUtcNs := recvTimeUtcNs |> in
  if negb (hasEventTime eventTimeMs) || (thresholdMs <=? 0) then s
  else
    let eventNs := eventTimeMs * 1000000 in
    let s := s <| lagMs := Z.quot (eventNs - recvTimeUtcNs) 1000000 |> in
    if thresholdMs * 1000000 <? eventNs - recvTimeUtcNs
    then s <| timeUtcNs := eventNs |> <| corrected := true |>
    else s.

Record RowClock := mkRowClock {
  thresholdMs_ : Z;
  lastEventMs_ : Z;
  correctedRows_ : Z;
  lagging_ : bool;
  episodeRows_ : Z;
  episodeMaxLagMs_ : Z;
  lastEpisodeRows_ : Z;
  lastEpisodeMaxLagMs_ : Z
}.
#[export] Instance eta_RowClock : Eta RowClock := fun c =>
  mkRowClock (thresholdMs_ c) (lastEventMs_ c) (correctedRows_ c) (lagging_ c) (episodeRows_ c)
    (episodeMaxLagMs_ c) (lastEpisodeRows_ c) (lastEpisodeMaxLagMs_ c).

Definition newRowClock (thresholdMs : Z) : RowClock := mkRowClock thresholdMs 0 0 false 0 0 0 0.

Definition noteEvent (eventTimeMs : Z) (c : RowClock) : RowClock :=
  if hasEventTime eventTimeMs then c <| lastEventMs_ := eventTimeMs |> else c.

Definition stamp (recvTimeUtcNs ownEventTimeMs : Z) (c : RowClock) : RowStamp * RowClock :=
  let c := noteEvent ownEventTimeMs c in
  let ref := if hasEventTime ownEventTimeMs then ownEventTimeMs else lastEventMs_ c in
  let s := stampRowTime recvTimeUtcNs ref (thresholdMs_ c) in
  if corrected s then
    let c := c <| correctedRows_ ::= Z.succ |> <| episodeRows_ ::= Z.succ |> in
    let c := if episodeMaxLagMs_ c <? lagMs s then c <| episodeMaxLagMs_ := lagMs s |> else c in
    if negb (lagging_ c) then (s <| edge := LagStarted |>, c <| lagging_ := true |>) else (s, c)
  else if lagging_ c && hasEventTime ref && (lagMs s <=? Z.quot (thresholdMs_ c) 2) then
    (s <| edge := LagEnded |>,
     c <| lagging_ := false |>
       <| lastEpisodeRows_ := episodeRows_ c |> <| lastEpisodeMaxLagMs_ := episodeMaxLagMs_ c |>
       <| episodeRows_ := 0 |> <| episodeMaxLagMs_ := 0 |>)
  else (s, c).

(** The line [logClockEdge] logs, with the numbers it prints. *)
Inductive ClockLog :=
  | LogLag (lag threshold : Z)
  | LogLagOver (rows maxLag correctedRows : Z).
Definition logClockEdge (s : RowStamp) (c : RowClock) : option ClockLog :=
  match edge s with
  | LagStarted => Some (LogLag (lagMs s) (thresholdMs_ c))
  | LagEnded => Some (LogLagOver (lastEpisodeRows_ c) (lastEpisodeMaxLagMs_ c) (correctedRows_ c))
  | EdgeNone => None
  end.

(** ** The rule *)

Lemma stampRowTime_cases recv ev th :
  let s := stampRowTime recv ev th in
  edge s = EdgeNone /\
  ((corrected s = true /\ timeUtcNs s = ev * 1000000 /\ 0 < ev /\ 0 < th /\
    recv + th * 1000000 < ev * 1000000 /\ lagMs s = Z.quot (ev * 1000000 - recv) 1000000) \/
   (corrected s = false /\ timeUtcNs s = recv /\
    (0 < ev -> 0 < th -> ev * 1000000 <= recv + th * 1000000))).
Proof.
  unfold stampRowTime, hasEventTime.
  destruct (Z.ltb_spec 0 ev), (Z.leb_spec th 0); cbn [negb orb]; cbn; try (split; [done|right; lia]).
  destruct (Z.ltb_spec (th * 1000000) (ev * 1000000 - recv)); cbn; split; try done; [left|right];
    repeat split; lia.
Qed.

Lemma noteEvent_fields e c :
  lastEventMs_ (noteEvent e c) = (if 0 <? e then e else lastEventMs_ c) /\
  thresholdMs_ (noteEvent e c) = thresholdMs_ c /\
  correctedRows_ (noteEvent e c) = correctedRows_ c /\
  lagging_ (noteEvent e c) = lagging_ c /\
  episodeRows_ (noteEvent e c) = episodeRows_ c /\
  episodeMaxLagMs_ (noteEvent e c) = episodeMaxLagMs_ c /\
  lastEpisodeRows_ (noteEvent e c) = lastEpisodeRows_ c /\
  lastEpisodeMaxLagMs_ (noteEvent e c) = lastEpisodeMaxLagMs_ c.
Proof. unfold noteEvent, hasEventTime. by case_match. Qed.

(** The event time a row is compared with. *)
Definition ref_time (own : Z) (c : RowClock) : Z := if 0 <? own then own else lastEventMs_ c.

(** What [stamp] does: the rule's answer, and one step of the lag state. *)
Lemma stamp_spec recv own c :
  let r := stampRowTime recv (ref_time own c) (thresholdMs_ c) in
  let '(s, c') := stamp recv own c in
  timeUtcNs s = timeUtcNs r /\ corrected s = corrected r /\ lagMs s = lagMs r /\
  thresholdMs_ c' = thresholdMs_ c /\ lastEventMs_ c' = ref_time own c /\
  correctedRows_ c' = correctedRows_ c + (if corrected r then 1 else 0) /\
  match edge s with
  | LagStarted => corrected r = true /\ lagging_ c = false /\ lagging_ c' = true
  | LagEnded => corrected r = false /\ lagging_ c = true /\ lagging_ c' = false
  | EdgeNone => lagging_ c' = lagging_ c /\ (corrected r = true -> lagging_ c = true)
  end /\
  match edge s with
  | LagEnded => episodeRows_ c' = 0 /\ episodeMaxLagMs_ c' = 0 /\
      lastEpisodeRows_ c' = episodeRows_ c /\ lastEpisodeMaxLagMs_ c' = episodeMaxLagMs_ c
  | _ => episodeRows_ c' = episodeRows_ c + (if corrected r then 1 else 0) /\
      episodeMaxLagMs_ c' = (if corrected r then Z.max (episodeMaxLagMs_ c) (lagMs r)
                             else episodeMaxLagMs_ c) /\
      lastEpisodeRows_ c' = lastEpisodeRows_ c /\ lastEpisodeMaxLagMs_ c' = lastEpisodeMaxLagMs_ c
  end.
Proof.
  cbv zeta. unfold stamp.
  destruct (noteEvent_fields own c) as (El & Et & Ec & Eg & Er & Em & Elr & Elm).
  set (n := noteEvent own c) in *. unfold hasEventTime.
  assert ((if 0 <? own then own else lastEventMs_ n) = ref_time own c) as ->
    by (rewrite El; unfold ref_time; by destruct (0 <? own)).
  rewrite Et, Eg. destruct (stampRowTime_cases recv (ref_time own c) (thresholdMs_ c)) as [Ee _].
  set (r := stampRowTime recv (ref_time own c) (thresholdMs_ c)) in *.
  destruct n as [nt nl nc ng nr nm nlr nlm]. cbn in El, Et, Ec, Eg, Er, Em, Elr, Elm. subst.
  destruct r as [rt rc rl re]. cbn in Ee. subst re.
  destruct rc; cbn [corrected lagMs edge timeUtcNs].
  - cbn. destruct (Z.ltb_spec (episodeMaxLagMs_ c) rl), (lagging_ c) eqn:Eg; cbn;
      rewrite ?Eg; repeat split; done || lia.
  - destruct (lagging_ c) eqn:Eg; cbn [andb]; [|cbn; rewrite ?Eg; repeat split; done || lia].
    destruct (_ && _); cbn; repeat split; done || lia.
Qed.

(** A row's `time` is the receive time unless the event time it is compared
    with is ahead of it by more than the threshold; then it is that event time.
    So the corrected rows are exactly those whose `time` differs from the
    receive time, and the row's own event time alone decides when it has one. *)
Theorem corrected_iff_time_differs recv own c s c' :
  stamp recv own c = (s, c') ->
  let ref := ref_time own c in
  let ahead := 0 < ref /\ 0 < thresholdMs_ c /\ recv + thresholdMs_ c * 1000000 < ref * 1000000 in
  (corrected s = true <-> timeUtcNs s <> recv) /\
  (corrected s = true <-> ahead) /\
  (timeUtcNs s = recv \/ timeUtcNs s = ref * 1000000) /\
  lastEventMs_ c' = ref.
Proof.
  intros E ref ahead. pose proof (stamp_spec recv own c) as H. rewrite E in H.
  destruct H as (-> & -> & _ & _ & -> & _).
  destruct (stampRowTime_cases recv (ref_time own c) (thresholdMs_ c))
    as [_ [(-> & -> & ? & ? & ? & _)|(-> & -> & H)]]; subst ref ahead.
  - split; [split; [lia|done]|]. split; [by repeat split|]. split; [by right|done].
  - assert (~ (0 < ref_time own c /\ 0 < thresholdMs_ c /\
               recv + thresholdMs_ c * 1000000 < ref_time own c * 1000000)) by lia.
    split; [by split|]. split; [by split|]. split; [by left|done].
Qed.

Lemma corrected_iff_time_differs_witness :
  let c := newRowClock DEFAULT_CLOCK_LAG_MS in
  let '(s, c') := stamp 1000000000 5000 c in
  stamp 1000000000 5000 c = (s, c') /\ corrected s = true /\ timeUtcNs s <> 1000000000 /\
  lastEventMs_ c' = 5000.
Proof.
  intros c. destruct (stamp 1000000000 5000 c) as [s c'] eqn:E.
  destruct (corrected_iff_time_differs _ _ _ _ _ E) as (H1 & H2 & _ & H4).
  split; [reflexivity|].
  assert (corrected s = true) as Hc by (apply H2; vm_compute; repeat split; discriminate || reflexivity).
  split; [exact Hc|]. split; [apply H1; exact Hc|]. rewrite H4. vm_compute. reflexivity.
Defined.

(** ** Episodes over a whole run *)

Definition stamp_step (acc : list RowStamp * RowClock) (row : Z * Z) : list RowStamp * RowClock :=
  let '(s, c) := stamp (fst row) (snd row) (snd acc) in (fst acc ++ [s], c).
Definition stamp_all (rows : list (Z * Z)) (th : Z) : list RowStamp * RowClock :=
  fold_left stamp_step rows ([], newRowClock th).

(** The stamps since the last one that ended an episode. *)
Definition since_end (ss : list RowStamp) : list RowStamp :=
  fold_left (fun acc s => if decide (edge s = LagEnded) then [] else acc ++ [s]) ss [].

Definition count_corrected (ss : list RowStamp) : Z := Z.of_nat (length (List.filter corrected ss)).
Definition max_lag (ss : list RowStamp) : Z :=
  fold_left (fun m s => if corrected s then Z.max m (lagMs s) else m) ss 0.

(** Edges alternate, starting with [LagStarted] when not lagging. *)
Fixpoint edges_from (lag : bool) (ss : list RowStamp) : option bool :=
  match ss with
  | [] => Some lag
  | s :: rest =>
      match edge s, lag with
      | EdgeNone, _ => edges_from lag rest
      | LagStarted, false => edges_from true rest
      | LagEnded, true => edges_from false rest
      | _, _ => None
      end
  end.

Lemma edges_from_snoc lag ss s :
  edges_from lag (ss ++ [s]) =
    match edges_from lag ss with Some l => edges_from l [s] | None => None end.
Proof.
  revert lag. induction ss as [|x ss IH]; intros lag; [done|]. cbn [app edges_from].
  destruct (edge x), lag; done || apply IH.
Qed.

Lemma since_end_snoc ss s :
  since_end (ss ++ [s]) = if decide (edge s = LagEnded) then [] else since_end ss ++ [s].
Proof. unfold since_end. by rewrite fold_left_app. Qed.
Lemma count_corrected_snoc ss s :
  count_corrected (ss ++ [s]) = count_corrected ss + (if corrected s then 1 else 0).
Proof.
  unfold count_corrected. rewrite List.filter_app, length_app. cbn [List.filter].
  destruct (corrected s); cbn [length]; lia.
Qed.
Lemma max_lag_snoc ss s :
  max_lag (ss ++ [s]) = if corrected s then Z.max (max_lag ss) (lagMs s) else max_lag ss.
Proof. unfold max_lag. by rewrite fold_left_app. Qed.

(** Over any sequence of rows the clock's counters are exact: corrected
    rows in total, rows and largest lag of the current episode; lag episodes
    start and end alternately, and the clock is lagging exactly while one is
    open. *)
Theorem clock_episodes rows th :
  let '(ss, c) := stamp_all rows th in
  correctedRows_ c = count_corrected ss /\
  episodeRows_ c = count_corrected (since_end ss) /\
  episodeMaxLagMs_ c = max_lag (since_end ss) /\
  edges_from false ss = Some (lagging_ c) /\ length ss = length rows.
Proof.
  unfold stamp_all. induction rows as [|row rows IH] using rev_ind; [done|].
  rewrite fold_left_app. cbn [fold_left].
  destruct (fold_left stamp_step rows ([], newRowClock th)) as [ss c].
  destruct IH as (Hc & Hr & Hm & He & Hl). unfold stamp_step. cbn [fst snd].
  pose proof (stamp_spec (fst row) (snd row) c) as H.
  destruct (stamp (fst row) (snd row) c) as [s c'].
  destruct H as (_ & Ec & El & _ & _ & Ecr & Eedge & Eep).
  rewrite edges_from_snoc, He, since_end_snoc, !count_corrected_snoc, Ec, !length_app, Hl, Ecr, Hc.
  cbn [edges_from length].
  destruct (edge s).
  - destruct Eep as (-> & -> & _), Eedge as [-> _]. rewrite decide_False by done.
    rewrite count_corrected_snoc, max_lag_snoc, Ec, El, Hr, Hm. done.
  - destruct Eep as (-> & -> & _), Eedge as (_ & -> & ->). rewrite decide_False by done.
    rewrite count_corrected_snoc, max_lag_snoc, Ec, El, Hr, Hm. done.
  - destruct Eep as (-> & -> & _), Eedge as (_ & -> & ->). by rewrite decide_True.
Qed.


