(* ===== verification/KObject.v ===== *)
(** * kdb+ objects (k_object.hpp, and the part of k.h the handlers use)

    [K] is the tree of a kdb+ value: the atoms, the typed vectors and the mixed
    list the handlers build or read. [KOwned] is modelled with its reference
    counts: wrappers are slots, every [r1] and [r0] is a change of a count, and
    the theorem is that wrappers account for every reference. *)

From S2P Require Import Prelude Double.

Open Scope Z_scope.

(** ** Values *)

#[warnings="-register-all"]
Inductive K :=
  | KBool (g : bool)
  | KInt (i : Z)
  | KLong (j : Z)
  | KFloat (f : double)
  | KSym (s : string)
  | KTimestamp (j : Z)
  | KList (k : list K)
  | KSymList (s : list string)
  | KLongList (j : list Z)
  | KError (s : string).

(** The type byte [t] of a [K]; an atom's is negative. *)
Definition KB : Z := 1.
Definition KI : Z := 6.
Definition KJ : Z := 7.
Definition KF : Z := 9.
Definition KS : Z := 11.
Definition KP : Z := 12.
Definition k_type (x : K) : Z :=
  match x with
  | KBool _ => - KB | KInt _ => - KI | KLong _ => - KJ | KFloat _ => - KF | KSym _ => - KS | KTimestamp _ => - KP
  | KList _ => 0 | KSymList _ => KS | KLongList _ => KJ | KError _ => -128
  end.

(** The element count [n]; only read on vectors and lists. *)
Definition k_n (x : K) : Z :=
  match x with
  | KList l => Z.of_nat (length l)
  | KSymList l => Z.of_nat (length l)
  | KLongList l => Z.of_nat (length l)
  | _ => 1
  end.

(** The atom constructors of the C API, [ktj(-KP, j)] and [knk(n, ...)]. *)
Definition kb (b : bool) : K := KBool b.
Definition ki (i : Z) : K := KInt i.
Definition kj (j : Z) : K := KLong j.
Definition kf (f : double) : K := KFloat f.
Definition ks (s : string) : K := KSym s.
Definition ktp (j : Z) : K := KTimestamp j.
Definition knk (l : list K) : K := KList l.

(** The elements of a mixed list. *)
Definition kK (x : K) : list K := match x with KList l => l | _ => [] end.

(** The columns of a row by type, for the statements about rows. *)
Definition k_types (x : K) : list Z := k_type <$> kK x.

Lemma k_types_n x ts : ts <> [] -> k_types x = ts -> k_n x = Z.of_nat (length ts).
Proof. intros Hts <-. unfold k_types in *. rewrite length_fmap. by destruct x. Qed.

(** The last column of a row: its fhSeqNo, in every layout. *)
Definition row_seq (x : K) : Z := match last (kK x) with Some (KLong n) => n | _ => 0 end.

(** ** Handler statistics (fh_stats.hpp) *)

(** [sendFhStats]: the message written to TP, if the handle is open. *)
Definition sendFhStats (tpHandle : Z) (table : string) (stats : list (string * Z))
    : option (Z * string * list K) :=
  if tpHandle <=? 0 then None
  else Some (- tpHandle, ".tp.fhStats", [ks table; KSymList (fst <$> stats); KLongList (snd <$> stats)]).

(** ** Ownership

    A heap of reference counts and a list of [KOwned] variables, each empty or
    holding an address. [raw] are the references outside any wrapper: fresh
    from the C API, released, or handed to a call that consumes them. *)

Module Ownership.

Record Heap := mkHeap { refs : gmap nat Z; slots : list (option nat); raw : list nat }.

Definition count (h : Heap) (a : nat) : Z := default 0 (refs h !! a).

Definition r1 (a : nat) (h : Heap) : Heap :=
  mkHeap (<[a := count h a + 1]> (refs h)) (slots h) (a :: raw h).

(** [r0] on an address without references is a double free. *)
Definition r0 (a : nat) (h : Heap) : option Heap :=
  if 0 <? count h a then Some (mkHeap (<[a := count h a - 1]> (refs h)) (slots h) (raw h)) else None.

Definition drop_slot (s : option nat) (h : Heap) : option Heap :=
  match s with Some a => r0 a h | None => Some h end.

(** One object leaves [raw]: it is handed to a wrapper or to a consumer. *)
Fixpoint remove1 (a : nat) (l : list nat) : list nat :=
  match l with
  | [] => []
  | x :: l' => if decide (x = a) then l' else x :: remove1 a l'
  end.

Definition get (i : nat) (h : Heap) : option nat := default None (slots h !! i).

(** [explicit KOwned(K k)], in a new variable. *)
Definition ctor (k : option nat) (h : Heap) : Heap :=
  mkHeap (refs h) (slots h ++ [k])
    (match k with Some a => remove1 a (raw h) | None => raw h end).

(** [KOwned(KOwned&& o)], in a new variable. *)
Definition move_ctor (o : nat) (h : Heap) : Heap :=
  mkHeap (refs h) (<[o := None]> (slots h) ++ [get o h]) (raw h).

Definition move_assign (i o : nat) (h : Heap) : option Heap :=
  if decide (i = o) then Some h
  else
    match drop_slot (get i h) h with
    | Some h' => Some (mkHeap (refs h') (<[o := None]> (<[i := get o h]> (slots h'))) (raw h'))
    | None => None
    end.

Definition release (i : nat) (h : Heap) : Heap :=
  mkHeap (refs h) (<[i := None]> (slots h))
    (match get i h with Some a => a :: raw h | None => raw h end).

(** [~KOwned]: the variable is dead afterwards, which an empty slot stands for. *)
Definition dtor (i : nat) (h : Heap) : option Heap :=
  match drop_slot (get i h) h with
  | Some h' => Some (mkHeap (refs h') (<[i := None]> (slots h')) (raw h'))
  | None => None
  end.

(** [share(KBorrowed b)], into a new variable. *)
Definition share (b : option nat) (h : Heap) : Heap :=
  match b with Some a => ctor (Some a) (r1 a h) | None => ctor None h end.

(** A fresh object from the C API, with one reference. *)
Definition alloc (a : nat) (h : Heap) : Heap :=
  mkHeap (<[a := 1]> (refs h)) (slots h) (a :: raw h).

(** A consuming call ([knk], an async send, [r0] on a raw reference). *)
Definition consume (a : nat) (h : Heap) : option Heap :=
  r0 a (mkHeap (refs h) (slots h) (remove1 a (raw h))).

Definition occ (a : nat) (l : list nat) : Z := Z.of_nat (length (List.filter (Nat.eqb a) l)).
Definition held (h : Heap) : list nat := omap id (slots h).

(** Every reference is held by exactly one wrapper or is raw. *)
Definition balanced (h : Heap) : Prop := forall a, count h a = occ a (held h) + occ a (raw h).

Inductive op :=
  | OCtor (a : nat) | OMoveCtor (o : nat) | OMove (i o : nat) | ORelease (i : nat)
  | ODtor (i : nat) | OShare (a : nat) | OAlloc (a : nat) | OConsume (a : nat).

(** The discipline the C API asks for: what is wrapped or consumed is a raw
    reference, what is shared is alive, what is allocated is new, and variables
    exist. *)
Definition allowed (o : op) (h : Heap) : Prop :=
  match o with
  | OCtor a | OConsume a => a ∈ raw h
  | OMoveCtor o => (o < length (slots h))%nat
  | OMove i o => (i < length (slots h))%nat /\ (o < length (slots h))%nat
  | ORelease i | ODtor i => (i < length (slots h))%nat
  | OShare a => 0 < count h a
  | OAlloc a => count h a = 0
  end.

Definition exec (o : op) (h : Heap) : option Heap :=
  match o with
  | OCtor a => Some (ctor (Some a) h)
  | OMoveCtor o => Some (move_ctor o h)
  | OMove i o => move_assign i o h
  | ORelease i => Some (release i h)
  | ODtor i => dtor i h
  | OShare a => Some (share (Some a) h)
  | OAlloc a => Some (alloc a h)
  | OConsume a => consume a h
  end.

Lemma occ_cons a x l : occ a (x :: l) = (if decide (x = a) then 1 else 0) + occ a l.
Proof.
  unfold occ. cbn [List.filter]. case_decide as E.
  - subst. rewrite Nat.eqb_refl. cbn [length]. lia.
  - rewrite (proj2 (Nat.eqb_neq a x)) by done. lia.
Qed.
Lemma occ_nil a : occ a [] = 0.
Proof. done. Qed.
Lemma occ_app a l k : occ a (l ++ k) = occ a l + occ a k.
Proof. unfold occ. rewrite List.filter_app, length_app. lia. Qed.
Lemma occ_nonneg a l : 0 <= occ a l.
Proof. unfold occ. lia. Qed.
Lemma occ_elem a l : a ∈ l -> 0 < occ a l.
Proof.
  induction 1 as [a l'|a y l' Hin IH]; rewrite occ_cons; [rewrite decide_True by done|case_decide];
    pose proof (occ_nonneg a l'); lia.
Qed.
Lemma occ_remove1 a x l : x ∈ l -> occ a (remove1 x l) = occ a l - (if decide (x = a) then 1 else 0).
Proof.
  intros H. induction l as [|y l IH]; [by apply elem_of_nil in H|].
  cbn [remove1]. rewrite occ_cons. destruct (decide (y = x)) as [->|Hy]; [lia|].
  rewrite occ_cons. apply elem_of_cons in H as [->|H]; [done|]. rewrite (IH H). lia.
Qed.

Definition occ_slot (a : nat) (s : option nat) : Z :=
  match s with Some b => if decide (b = a) then 1 else 0 | None => 0 end.

Lemma held_app h s r k : held (mkHeap h (s ++ [k]) r) = held (mkHeap h s r) ++ match k with Some a => [a] | None => [] end.
Proof. unfold held. cbn [slots]. rewrite omap_app. by destruct k. Qed.

Lemma occ_omap_cons a x s : occ a (omap id (x :: s)) = occ_slot a x + occ a (omap id s).
Proof. destruct x as [b|]; [|done]. change (omap id (Some b :: s)) with (b :: omap id s). by rewrite occ_cons. Qed.

(** Overwriting a slot trades its old reference for the new one. *)
Lemma occ_insert a i k s :
  (i < length s)%nat ->
  occ a (omap id (<[i := k]> s)) = occ a (omap id s) - occ_slot a (default None (s !! i)) + occ_slot a k.
Proof.
  revert i. induction s as [|x s IH]; intros i H; cbn [length] in H; [lia|].
  destruct i as [|i].
  - change (<[O := k]> (x :: s)) with (k :: s). rewrite !occ_omap_cons.
    change (default None ((x :: s) !! O)) with x. lia.
  - change (<[S i := k]> (x :: s)) with (x :: <[i := k]> s). rewrite !occ_omap_cons.
    change ((x :: s) !! S i) with (s !! i). rewrite (IH i) by lia. lia.
Qed.

Lemma count_insert h s r a b v :
  count (mkHeap (<[b := v]> h) s r) a = if decide (b = a) then v else count (mkHeap h s r) a.
Proof.
  unfold count. cbn [refs]. case_decide as E.
  - subst. by rewrite lookup_insert_eq.
  - by rewrite lookup_insert_ne.
Qed.

Lemma r0_balanced a h h' :
  r0 a h = Some h' -> slots h' = slots h /\ raw h' = raw h /\
  forall b, count h' b = count h b - (if decide (a = b) then 1 else 0).
Proof.
  unfold r0. destruct (0 <? count h a); [|done]. intros [= <-]. repeat (split; [done|]).
  intros b. rewrite count_insert. destruct h as [rf sl rw]. cbn. case_decide; subst; lia.
Qed.

Lemma r0_some a h : 0 < count h a -> exists h', r0 a h = Some h'.
Proof. intros H. unfold r0. rewrite (proj2 (Z.ltb_lt _ _) H). eauto. Qed.

(** A wrapper's reference can be released: it is counted. *)
Lemma drop_slot_some i h :
  balanced h -> (i < length (slots h))%nat ->
  exists h', drop_slot (get i h) h = Some h' /\ slots h' = slots h /\ raw h' = raw h /\
    forall b, count h' b = count h b - occ_slot b (get i h).
Proof.
  intros Hb Hi. unfold drop_slot. destruct (get i h) as [a|] eqn:E.
  - destruct (r0_some a h) as [h' Hh'].
    { rewrite Hb. assert (a ∈ held h) as Hin.
      { unfold held. apply list_elem_of_omap. exists (Some a). split; [|done].
        unfold get in E. destruct (slots h !! i) as [o|] eqn:Eo; [|done].
        cbn in E. subst. by eapply list_elem_of_lookup_2. }
      apply occ_elem in Hin. pose proof (occ_nonneg a (raw h)). lia. }
    exists h'. rewrite Hh'. by destruct (r0_balanced _ _ _ Hh') as (? & ? & ?).
  - exists h. repeat split. intros b. cbn. lia.
Qed.

Lemma get_eq i h : default None (slots h !! i) = get i h.
Proof. done. Qed.

Lemma dtor_balanced i h :
  balanced h -> (i < length (slots h))%nat -> exists h', dtor i h = Some h' /\ balanced h'.
Proof.
  intros Hb Hi. unfold dtor. destruct (drop_slot_some i h Hb Hi) as (h' & -> & Hs & Hr & Hc).
  eexists. split; [done|]. intros a. unfold held. cbn [slots raw].
  change (count (mkHeap _ _ _) a) with (count h' a).
  rewrite Hs, Hr, occ_insert, get_eq, Hc, (Hb a) by done. unfold held. cbn. lia.
Qed.

Lemma move_assign_balanced i o h :
  balanced h -> (i < length (slots h))%nat -> (o < length (slots h))%nat ->
  exists h', move_assign i o h = Some h' /\ balanced h'.
Proof.
  intros Hb Hi Ho. unfold move_assign. case_decide as E; [by eauto|].
  destruct (drop_slot_some i h Hb Hi) as (h' & -> & Hs & Hr & Hc).
  eexists. split; [done|]. intros a. unfold held. cbn [slots raw].
  change (count (mkHeap _ _ _) a) with (count h' a).
  rewrite Hs, Hr, occ_insert by (by rewrite length_insert).
  rewrite list_lookup_insert_ne, get_eq, occ_insert, get_eq, Hc, (Hb a) by done.
  unfold held. cbn. lia.
Qed.

(** C30: [KOwned] neither leaks nor double-frees. Whatever sequence of
    constructions, moves, releases, shares and destructions a program makes, if
    it hands the C API only references it has, every operation succeeds (no
    [r0] on a dead object) and each object's count stays exactly the number of
    wrappers and raw references that hold it. *)
Theorem kowned_accounts_for_every_reference o h :
  balanced h -> allowed o h -> exists h', exec o h = Some h' /\ balanced h'.
Proof.
  intros Hb Ha. destruct o as [a|o|i o|i|i|a|a|a]; cbn [exec allowed] in *.
  - eexists. split; [done|]. intros b. unfold ctor. rewrite held_app, occ_app, occ_cons.
    cbn [raw]. rewrite occ_remove1 by done. change (count (mkHeap _ _ _) b) with (count h b).
    rewrite occ_nil, (Hb b). change (held (mkHeap _ _ _)) with (held h). lia.
  - eexists. split; [done|]. intros b. unfold move_ctor. rewrite held_app, occ_app.
    unfold held. cbn [slots raw]. change (count (mkHeap _ _ _) b) with (count h b).
    rewrite occ_insert, get_eq, (Hb b) by done. unfold held.
    destruct (get o h) as [c|]; cbn [occ_slot]; rewrite ?occ_cons, ?occ_nil; lia.
  - destruct Ha. by apply move_assign_balanced.
  - eexists. split; [done|]. intros b. unfold release, held. cbn [slots raw].
    change (count (mkHeap _ _ _) b) with (count h b).
    rewrite occ_insert, get_eq, (Hb b) by done. unfold held.
    destruct (get i h) as [c|]; cbn [occ_slot]; rewrite ?occ_cons, ?occ_nil; lia.
  - by apply dtor_balanced.
  - eexists. split; [done|]. intros b. unfold share, ctor, r1. rewrite held_app. cbn [raw refs slots remove1].
    rewrite decide_True by done. rewrite occ_app, occ_cons.
    assert (forall s r, count (mkHeap (<[a := count h a + 1]> (refs h)) s r) b =
      count h b + (if decide (a = b) then 1 else 0)) as Hc.
    { intros s r. rewrite count_insert. unfold count. cbn [refs]. case_decide; subst; lia. }
    rewrite Hc, (Hb b), occ_nil. unfold held. cbn [slots]. lia.
  - eexists. split; [done|]. intros b. unfold alloc. rewrite count_insert.
    change (count (mkHeap (refs h) (slots h) (a :: raw h)) b) with (count h b).
    unfold held. cbn [slots raw]. rewrite occ_cons.
    pose proof (Hb b) as Hbb. unfold held in Hbb.
    pose proof (occ_nonneg b (omap id (slots h))). pose proof (occ_nonneg b (raw h)).
    case_decide; subst; lia.
  - assert (0 < count h a) as Hc.
    { rewrite Hb. apply occ_elem in Ha. pose proof (occ_nonneg a (held h)). lia. }
    destruct (r0_some a (mkHeap (refs h) (slots h) (remove1 a (raw h)))) as [h' Hh']; [done|].
    exists h'. split; [done|]. destruct (r0_balanced _ _ _ Hh') as (Hs & Hr & Hcnt).
    intros b. rewrite Hcnt. unfold held. rewrite Hs, Hr. cbn [slots raw].
    rewrite occ_remove1 by done. change (count (mkHeap _ _ _) b) with (count h b).
    rewrite (Hb b). unfold held. lia.
Qed.

Definition ex_heap : Heap := mkHeap {[ 7%nat := 2 ]} [Some 7%nat] [7%nat].
Lemma kowned_accounts_for_every_reference_witness :
  exists h', exec (OCtor 7) ex_heap = Some h' /\ balanced h' /\ slots h' = [Some 7%nat; Some 7%nat].
Proof.
  assert (balanced ex_heap) as Hb.
  { intros a. destruct (decide (a = 7%nat)) as [->|Ha]; [reflexivity|].
    unfold count, ex_heap, occ, held. cbn.
    rewrite lookup_singleton_ne by congruence. cbn.
    rewrite (proj2 (Nat.eqb_neq a 7) Ha). reflexivity. }
  destruct (kowned_accounts_for_every_reference (OCtor 7) ex_heap Hb (list_elem_of_here _ _)) as (h' & E & Hh').
  exists h'. split; [exact E|]. split; [exact Hh'|]. injection E as <-. reflexivity.
Defined.
End Ownership.
