(* ===== verification/TpPublisher.v ===== *)
(** * The connection to the tickerplant (tp_publisher.hpp)

    [ResendRing] and [TpPublisher]: connect, register the session, publish rows,
    resend after a lost connection. The tickerplant and the kdb+ C API are the
    environment: the operations of [TpLink]. State is passed explicitly; the
    retry loop of [connect] takes fuel, and every caller that reads its result
    asks for [Some]. *)

From S2P Require Import Prelude Double Backoff KObject.

Open Scope Z_scope.
Local Open Scope rec_scope.

(** ** The kdb+ C API *)

(** [khpu], the synchronous [k(h, f, ...)] ([None] is a null pointer: the
    connection is lost), the asynchronous [k(-h, f, ...)] (false is a null
    pointer) and [kclose]. *)
Class TpLink (W : Type) := {
  khpu : string -> Z -> W -> Z * W;
  k_call : Z -> string -> list K -> W -> option K * W;
  k_send : Z -> string -> list K -> W -> bool * W;
  kclose : Z -> W -> W
}.

(** ** The ring of published rows *)

Record ResendRing := mkRing { capacity_ : nat; rows_ : list (Z * K) }.
#[export] Instance eta_ResendRing : Eta ResendRing := fun r => mkRing (capacity_ r) (rows_ r).

Definition newRing (capacity : nat) : ResendRing :=
  mkRing (if (capacity =? 0)%nat then 1%nat else capacity) [].

(** [push] also returns the rows it releases with [r0]. *)
Definition ring_push (fhSeqNo : Z) (row : K) (r : ResendRing) : list K * ResendRing :=
  let '(freed, rows) :=
    if (capacity_ r <=? length (rows_ r))%nat
    then (match rows_ r with e :: _ => [snd e] | [] => [] end, tail (rows_ r))
    else ([], rows_ r) in
  (freed, r <| rows_ := rows ++ [(fhSeqNo, row)] |>).

Definition ring_clear (r : ResendRing) : list K * ResendRing :=
  (snd <$> rows_ r, r <| rows_ := [] |>).

Definition ring_empty (r : ResendRing) : bool := is_empty (rows_ r).
Definition oldestSeq (r : ResendRing) : Z := match rows_ r with e :: _ => fst e | [] => 0 end.
Definition newestSeq (r : ResendRing) : Z := match last (rows_ r) with Some e => fst e | None => 0 end.

(** [forEachAfter] with a callback that threads a state and may stop. *)
Fixpoint forEachAfter {S} (rows : list (Z * K)) (afterSeq : Z)
    (fn : Z -> K -> S -> bool * S) (s : S) : S :=
  match rows with
  | [] => s
  | (n, row) :: rest =>
      if afterSeq <? n then
        let '(go, s) := fn n row s in
        if go then forEachAfter rest afterSeq fn s else s
      else forEachAfter rest afterSeq fn s
  end.

Definition missingAfter (afterSeq : Z) (r : ResendRing) : Z :=
  match rows_ r with
  | [] => 0
  | e :: _ => let firstNeeded := afterSeq + 1 in
              if firstNeeded <? fst e then fst e - firstNeeded else 0
  end.

(** ** The publisher *)

Record TpPublisherConfig := mkTpConfig {
  tc_host : string;
  tc_port : Z;
  tc_table : string;
  tc_width : Z;
  tc_sessionId : Z;
  tc_ringSize : nat;
  tc_initialBackoffMs : Z;
  tc_maxBackoffMs : Z
}.
Definition default_TpPublisherConfig : TpPublisherConfig :=
  mkTpConfig "localhost" 5010 "" 0 0 4096 1000 8000.

Record TpPublisher := mkTp {
  tp_cfg : TpPublisherConfig;
  ring_ : ResendRing;
  handle_ : Z;
  fatalError_ : string;
  reconnects_ : Z;
  rowsResent_ : Z;
  rowsUnresendable_ : Z;
  lastReply_ : Z
}.
#[export] Instance eta_TpPublisher : Eta TpPublisher := fun p =>
  mkTp (tp_cfg p) (ring_ p) (handle_ p) (fatalError_ p) (reconnects_ p) (rowsResent_ p)
    (rowsUnresendable_ p) (lastReply_ p).

Definition newTpPublisher (cfg : TpPublisherConfig) : TpPublisher :=
  mkTp cfg (newRing (tc_ringSize cfg)) (-1) "" 0 0 0 (-1).

Inductive EventResult := Acked | ConnectionLost | Rejected.
#[export] Instance EventResult_eq_dec : EqDecision EventResult.
Proof. solve_decision. Defined.

Record OpenGap := mkOpenGap {
  og_sym : string; og_firstId : Z; og_lastId : Z; og_recovered : Z; og_recoveredThroughId : Z
}.
Record TradeState := mkTradeState {
  ts_ok : bool; ts_lastIds : list (string * Z); ts_openGaps : list OpenGap
}.
Definition no_TradeState : TradeState := mkTradeState false [] [].

Definition connected (p : TpPublisher) : bool := 0 <? handle_ p.

Section publisher.
Context {W : Type} `{Process W} `{TpLink W}.

Definition table (p : TpPublisher) : string := tc_table (tp_cfg p).

(** 1 registered (with what TP has logged), 0 connection lost, -1 rejected. *)
Definition registerSession (h nextFhSeqNo : Z) (p : TpPublisher) (w : W)
    : Z * Z * TpPublisher * W :=
  let '(r, w) := k_call h ".tp.registerSession"
    [ks (table p); kj (tc_sessionId (tp_cfg p)); kj nextFhSeqNo; kj (tc_width (tp_cfg p))] w in
  match r with
  | None => (0, -1, p, w)
  | Some (KError e) =>
      (-1, -1, p <| fatalError_ := ("registration rejected for " +:+ table p +:+ ": " +:+ e)%string |>, w)
  | Some r =>
      let lastLogged := match r with KLong j => j | _ => -1 end in
      (1, lastLogged, p <| lastReply_ := lastLogged |>, w)
  end.

(** The rows after [lastLogged] in the ring, sent again in order; false if
    the connection died. *)
Definition resend_rows (h lastLogged : Z) (tbl : string) (rows : list (Z * K)) (w : W) : bool * Z * W :=
  forEachAfter rows lastLogged (fun _ row '(ok, n, w) =>
    let '(res, w) := k_send h ".u.upd" [ks tbl; row] w in
    if res then (true, (ok, n + 1, w)) else (false, (false, n, w))) (true, 0, w).

Definition resend (h lastLogged : Z) (p : TpPublisher) (w : W) : bool * TpPublisher * W :=
  if (lastLogged <? 0) || ring_empty (ring_ p) || (newestSeq (ring_ p) <=? lastLogged)
  then (true, p, w)
  else
    let gone := missingAfter lastLogged (ring_ p) in
    let p := if 0 <? gone then p <| rowsUnresendable_ ::= Z.add gone |> else p in
    let '(ok, n, w) := resend_rows h lastLogged (table p) (rows_ (ring_ p)) w in
    if negb ok then (false, p, w)
    else (true, p <| rowsResent_ ::= Z.add n |>, w).

(** The end of one failed attempt: wait, then the next attempt. *)
Definition after_backoff (attempt : nat) (next : TpPublisher -> W -> option (bool * TpPublisher * W))
    (p : TpPublisher) (w : W) : option (bool * TpPublisher * W) :=
  let '(ok, w) := sleepWithBackoff 2 (tc_initialBackoffMs (tp_cfg p))
                    (tc_maxBackoffMs (tp_cfg p)) attempt w in
  if ok then next p w else Some (false, p, w).

(** [connect]: attempts until one works. [None] is out of fuel. *)
Fixpoint connect_loop (fuel : nat) (attempt : nat) (nextFhSeqNo : Z) (p : TpPublisher) (w : W)
    : option (bool * TpPublisher * W) :=
  match fuel with
  | O => None
  | S fuel =>
      let '(r, w) := is_running w in
      if negb r then Some (false, p, w)
      else
        let '(h, w) := khpu (tc_host (tp_cfg p)) (tc_port (tp_cfg p)) w in
        if 0 <? h then
          let '(reg, lastLogged, p, w) := registerSession h nextFhSeqNo p w in
          if reg <? 0 then Some (false, p, stop_running (kclose h w))
          else
            let '(ok, p, w) := if reg =? 1 then resend h lastLogged p w else (false, p, w) in
            if ok then Some (true, p <| handle_ := h |>, w)
            else after_backoff attempt (connect_loop fuel (S attempt) nextFhSeqNo) p (kclose h w)
        else after_backoff attempt (connect_loop fuel (S attempt) nextFhSeqNo) p w
  end.

Definition connect (fuel : nat) (nextFhSeqNo : Z) (p : TpPublisher) (w : W) :=
  connect_loop fuel 0 nextFhSeqNo p w.

(** A connection found dead. *)
Definition drop_connection (p : TpPublisher) (w : W) : TpPublisher * W :=
  (p <| handle_ := -1 |> <| reconnects_ ::= Z.succ |>, kclose (handle_ p) w).

Definition publish (fuel : nat) (row : K) (fhSeqNo : Z) (p : TpPublisher) (w : W)
    : option (bool * TpPublisher * W) :=
  let '(_, r) := ring_push fhSeqNo row (ring_ p) in
  let p := p <| ring_ := r |> in
  if 0 <? handle_ p then
    let '(sent, w) := k_send (handle_ p) ".u.upd" [ks (table p); row] w in
    if sent then Some (true, p, w)
    else
      let '(p, w) := drop_connection p w in
      connect fuel (fhSeqNo + 1) p w
  else connect fuel (fhSeqNo + 1) p w.

Definition sendEvent (tbl : string) (row : K) (p : TpPublisher) (w : W)
    : EventResult * TpPublisher * W :=
  if handle_ p <=? 0 then (ConnectionLost, p, w)
  else
    let '(r, w) := k_call (handle_ p) ".tp.event" [ks tbl; row] w in
    match r with
    | None => let '(p, w) := drop_connection p w in (ConnectionLost, p, w)
    | Some (KError _) => (Rejected, p, w)
    | Some _ => (Acked, p, w)
    end.

(** The reply of [.tp.tradeState]: seven vectors. Only the first two are
    checked to have equal lengths; the gap vectors are read at the indices of
    their first one (a shorter one is read out of range: 0 here). *)
Definition parseTradeState (r : K) : TradeState :=
  match r with
  | KList [syms; ids; gs; gf; gl; gr; gt] =>
      let lastIds :=
        match syms, ids with
        | KSymList s, KLongList i => if (length s =? length i)%nat then zip s i else []
        | _, _ => []
        end in
      let gaps :=
        match gs, gf, gl, gr, gt with
        | KSymList s, KLongList f, KLongList l, KLongList rc, KLongList t =>
            imap (fun i sym =>
              let at_ (v : list Z) := default 0 (v !! i) in
              mkOpenGap sym (at_ f) (at_ l) (at_ rc)
                (if at_ t =? null_long then 0 else at_ t)) s
        | _, _, _, _, _ => []
        end in
      mkTradeState true lastIds gaps
  | _ => no_TradeState
  end.

Definition tradeState (p : TpPublisher) (w : W) : TradeState * TpPublisher * W :=
  if handle_ p <=? 0 then (no_TradeState, p, w)
  else
    let '(r, w) := k_call (handle_ p) ".tp.tradeState" [ks (table p)] w in
    match r with
    | None => let '(p, w) := drop_connection p w in (no_TradeState, p, w)
    | Some (KError _) => (no_TradeState, p, w)
    | Some r => (parseTradeState r, p, w)
    end.

Definition close (p : TpPublisher) (w : W) : TpPublisher * W :=
  if 0 <? handle_ p then (p <| handle_ := -1 |>, kclose (handle_ p) w) else (p, w).
End publisher.
