(* ===== verification/TpSession.v ===== *)
(** * No row is lost between a handler and the tickerplant

    The tickerplant's side of a session is an interface ([TpSession]): what it
    has logged, which connection still delivers, and how the API calls change
    that, as [.tp.registerSession] and TCP document it. Against this interface
    the publisher delivers every row, in order and once, across any number of
    lost connections, as long as the ring reaches back far enough; what it could
    not resend it has counted. [TpLine] shows that tp.q is such a tickerplant. *)

From S2P Require Import Prelude Double Backoff KObject TpPublisher.

Open Scope Z_scope.
Local Open Scope rec_scope.

(** [t_last] is the last fhSeqNo TP has for the session (once registered),
    [t_log] the session's rows in TP's log, [t_up] the connections on which a
    row that is sent now will be logged. [seqOf] is the row's fhSeqNo column. *)
Class TpSession (W : Type) `{Process W} `{TpLink W} (cfg : TpPublisherConfig) (seqOf : K -> Z) := {
  t_last : W -> option Z;
  t_log : W -> list K;
  t_up : W -> Z -> Prop;
  t_same (w w' : W) : Prop :=
    t_last w' = t_last w /\ t_log w' = t_log w /\ forall h, t_up w' h -> t_up w h;
  law_running w : t_same w (snd (is_running w));
  law_stop w : t_same w (stop_running w);
  law_sleep ns w : t_same w (sleep_ns ns w);
  law_close h w : t_same w (kclose h w);
  (* a new connection may deliver; no other one comes back *)
  law_khpu host port w : let '(h, w') := khpu host port w in
    t_last w' = t_last w /\ t_log w' = t_log w /\ forall h', t_up w' h' -> h' = h \/ t_up w h';
  (* in an open session, a row as wide as registered is logged, or the connection
     it was lost on is dead for good; TP keeps the highest fhSeqNo *)
  law_send h row w l : t_last w = Some l -> k_n row = tc_width cfg ->
    let '(ok, w') := k_send h ".u.upd" [ks (tc_table cfg); row] w in
    (forall h', t_up w' h' -> t_up w h') /\ (ok = false -> ~ t_up w' h) /\
    ((t_up w h /\ t_log w' = t_log w ++ [row] /\ t_last w' = Some (Z.max (seqOf row) l)) \/
     (~ t_up w' h /\ t_log w' = t_log w /\ t_last w' = t_last w));
  (* a registration, by a handler that has sent all that TP has, opens the session
     or tells what it has logged *)
  law_register h next w : default (next - 1) (t_last w) <= next - 1 ->
    let '(r, w') := k_call h ".tp.registerSession"
        [ks (tc_table cfg); kj (tc_sessionId cfg); kj next; kj (tc_width cfg)] w in
    t_log w' = t_log w /\ (forall h', t_up w' h' -> t_up w h') /\
    match r with
    | None => t_last w' = t_last w \/ (t_last w = None /\ t_last w' = Some (next - 1))
    | Some (KError _) => t_last w' = t_last w
    | Some r => r = KLong (default (-1) (t_last w)) /\
                t_last w' = Some (default (next - 1) (t_last w))
    end
}.

Section session.
Context {W : Type} `{Process W} `{TpLink W} (cfg : TpPublisherConfig) (seqOf : K -> Z).
Context `{!TpSession W cfg seqOf}.

(** The rows published in the session: fhSeqNo [base + 1], [base + 2], ..., and
    as wide as TP was told. *)
Context (base : Z).
Hypothesis Hbase : 0 <= base.
Definition numbered (P : list K) : Prop :=
  forall i row, P !! i = Some row -> seqOf row = base + 1 + Z.of_nat i /\ k_n row = tc_width cfg.
Definition entries (P : list K) : list (Z * K) := imap (fun i row => (base + 1 + Z.of_nat i, row)) P.

(** TP has logged the rows up to fhSeqNo [l], of which at most [lost] are missing. *)
Definition logged (P : list K) (lost l : Z) (w : W) : Prop :=
  t_last w = Some l /\ base <= l <= base + Z.of_nat (length P) /\
  t_log w `sublist_of` take (Z.to_nat (l - base)) P /\
  l - base - Z.of_nat (length (t_log w)) <= lost.

Lemma logged_same P lost l w w' : t_same w w' -> logged P lost l w -> logged P lost l w'.
Proof. unfold logged, t_same. intros (-> & -> & _). done. Qed.

Lemma logged_mono P lost lost' l w : lost <= lost' -> logged P lost l w -> logged P lost' l w.
Proof. unfold logged. intros ? (? & ? & ? & ?). repeat (split; [done|]). lia. Qed.

Lemma logged_snoc P row lost l w : logged P lost l w -> logged (P ++ [row]) lost l w.
Proof.
  intros (Hl & Hb & Hs & Hc). split; [done|]. split; [rewrite length_app; lia|].
  split; [|done]. rewrite take_app_le by lia. done.
Qed.

(** One row on the wire: it is logged, or the connection is dead. *)
Lemma send_step P lost lost' l h k row w ok w' :
  numbered P -> logged P lost l w -> P !! k = Some row ->
  l <= base + Z.of_nat k -> lost + (base + Z.of_nat k - l) <= lost' ->
  k_send h ".u.upd" [ks (tc_table cfg); row] w = (ok, w') ->
  (forall h', t_up w' h' -> t_up w h') /\ (ok = false -> ~ t_up w' h) /\
  ((t_up w h /\ logged P lost' (base + Z.of_nat k + 1) w') \/ (~ t_up w' h /\ logged P lost l w')).
Proof.
  intros HP (Hl & Hb & Hs & Hc) Hk Hle Hlost E.
  destruct (HP _ _ Hk) as [Hseq Hwidth]. pose proof (law_send h row w l Hl Hwidth) as Hsend. rewrite E in Hsend.
  destruct Hsend as (Hup & Hok & [(Hw & Hlog & Hlast)|(Hw & Hlog & Hlast)]).
  - split; [done|]. split; [done|]. left. split; [done|].
    pose proof (lookup_lt_Some _ _ _ Hk) as Hlen.
    unfold logged. rewrite Hlast, Hlog, Hseq, length_app. cbn [length].
    split; [f_equal; lia|]. split; [lia|].
    replace (Z.to_nat (base + Z.of_nat k + 1 - base)) with (S k) by lia.
    rewrite (take_S_r _ _ _ Hk). split; [|lia].
    apply sublist_app; [|done]. etrans; [exact Hs|].
    replace (Z.to_nat (l - base)) with (Nat.min (Z.to_nat (l - base)) k) by lia.
    rewrite <-take_take. apply sublist_take.
  - split; [done|]. split; [done|]. right. split; [done|].
    unfold logged. by rewrite Hlast, Hlog.
Qed.

(** The callback of [resend]. *)
Definition send_one (h : Z) (tbl : string) (row : K) (st : bool * Z * W) : bool * (bool * Z * W) :=
  let '(ok, n, w) := st in
  let '(res, w) := k_send h ".u.upd" [ks tbl; row] w in
  if res then (true, (ok, n + 1, w)) else (false, (false, n, w)).

Lemma resend_rows_eq h L tbl rows w :
  resend_rows h L tbl rows w = forEachAfter rows L (fun _ row st => send_one h tbl row st) (true, 0, w).
Proof.
  unfold resend_rows. generalize (true, 0, w). induction rows as [|[n row] rows IH]; intros st; [done|].
  cbn [forEachAfter]. destruct (L <? n); [|apply IH]. destruct st as [[ok m] w1]. unfold send_one at 1.
  destruct (k_send h ".u.upd" [ks tbl; row] w1) as [[] w2]; [apply IH|done].
Qed.

Lemma entries_length P : length (entries P) = length P.
Proof. apply length_imap. Qed.

Lemma entries_drop P k :
  drop k (entries P) =
    match P !! k with Some row => (base + 1 + Z.of_nat k, row) :: drop (S k) (entries P) | None => [] end.
Proof.
  destruct (P !! k) as [row|] eqn:E.
  - apply drop_S. unfold entries. rewrite list_lookup_imap, E. done.
  - apply drop_ge. rewrite entries_length. by apply lookup_ge_None.
Qed.

(** Resending on a dead connection logs nothing. *)
Lemma resend_dead P h L lost l k n w ok n' w' :
  numbered P -> L < base + 1 + Z.of_nat k -> logged P lost l w -> l <= base + Z.of_nat k -> ~ t_up w h ->
  forEachAfter (drop k (entries P)) L (fun _ row st => send_one h (tc_table cfg) row st) (true, n, w)
    = (ok, n', w') ->
  (forall h', t_up w' h' -> t_up w h') /\ logged P lost l w' /\ ~ t_up w' h.
Proof.
  intros HP. remember (length P - k)%nat as m eqn:Em. revert k n w Em.
  induction m as [|m IH]; intros k n w Em HL Hlg Hlk Hup; rewrite entries_drop.
  { rewrite (proj2 (lookup_ge_None P k)) by lia. intros [= <- <- <-]. auto. }
  destruct (P !! k) as [row|] eqn:Ek; [|by intros [= <- <- <-]].
  cbn [forEachAfter]. rewrite (proj2 (Z.ltb_lt _ _)) by lia. unfold send_one at 1.
  destruct (k_send h ".u.upd" [ks (tc_table cfg); row] w) as [res w1] eqn:Es.
  destruct (send_step _ lost (lost + (base + Z.of_nat k - l)) l h k _ _ _ _ HP Hlg Ek Hlk ltac:(lia) Es)
    as (Hmono & _ & [[? _]|[Hup1 Hlg1]]); [done|].
  destruct res; [|by intros [= <- <- <-]].
  intros E. apply IH in E as (? & ? & ?); [|lia|lia|done|lia|done]. eauto.
Qed.

(** Resending the rows from index [k] on, when those before are accounted for. *)
Lemma resend_live P h L lost lost' l k n w ok n' w' :
  numbered P -> L < base + 1 + Z.of_nat k -> logged P lost l w -> (k <= length P)%nat ->
  l <= base + Z.of_nat k -> lost + (base + Z.of_nat k - l) <= lost' -> lost <= lost' ->
  ((k < length P)%nat \/ l = base + Z.of_nat k) ->
  forEachAfter (drop k (entries P)) L (fun _ row st => send_one h (tc_table cfg) row st) (true, n, w)
    = (ok, n', w') ->
  (forall h', t_up w' h' -> t_up w h') /\
  exists l', logged P lost' l' w' /\ (ok = true -> t_up w' h -> l' = base + Z.of_nat (length P)).
Proof.
  intros HP. remember (length P - k)%nat as m eqn:Em. revert k n l lost w Em.
  induction m as [|m IH]; intros k n l lost w Em HL Hlg Hk Hlk Hlost Hll Hend; rewrite entries_drop.
  { rewrite (proj2 (lookup_ge_None P k)) by lia. intros [= <- <- <-]. split; [done|].
    exists l. split; [by apply (logged_mono _ lost)|]. intros _ _. lia. }
  destruct (lookup_lt_is_Some_2 P k) as [row Ek]; [lia|]. rewrite Ek.
  cbn [forEachAfter]. rewrite (proj2 (Z.ltb_lt _ _)) by lia. unfold send_one at 1.
  destruct (k_send h ".u.upd" [ks (tc_table cfg); row] w) as [res w1] eqn:Es.
  destruct (send_step _ lost lost' l h k _ _ _ _ HP Hlg Ek Hlk Hlost Es)
    as (Hmono & Hres & [[Hup Hlg1]|[Hup1 Hlg1]]); destruct res.
  - intros E. apply (IH (S k) (n + 1) (base + Z.of_nat k + 1) lost') in E as (? & l' & ? & ?);
      [|lia|lia|done|lia|lia|lia|lia|lia]. split; [by auto|]. by exists l'.
  - intros [= <- <- <-]. split; [done|]. by exists (base + Z.of_nat k + 1).
  - intros E. apply (resend_dead P h L lost l (S k)) in E as (? & ? & ?); [|done|lia|done|lia|done].
    split; [by auto|]. exists l. split; [by apply (logged_mono _ lost)|done].
  - intros [= <- <- <-]. split; [done|]. exists l. split; [by apply (logged_mono _ lost)|done].
Qed.

(** Rows the handler knows to be logged are skipped. *)
Lemma forEachAfter_skip {S} P L k j (fn : Z -> K -> S -> bool * S) st :
  (k <= j)%nat -> base + Z.of_nat j <= L \/ (j = k) ->
  forEachAfter (drop k (entries P)) L fn st = forEachAfter (drop j (entries P)) L fn st.
Proof.
  intros Hkj HL. induction Hkj as [|j Hkj IH]; [done|].
  destruct HL as [HL|HL]; [|lia]. rewrite IH by lia. rewrite (entries_drop P j).
  destruct (P !! j) eqn:E; cbn [forEachAfter].
  - by rewrite (proj2 (Z.ltb_ge _ _)) by lia.
  - rewrite drop_ge; [done|]. rewrite entries_length. apply lookup_ge_None in E. lia.
Qed.

Lemma drop_entries_last P k : (k < length P)%nat ->
  fst <$> last (drop k (entries P)) = Some (base + Z.of_nat (length P)).
Proof.
  intros Hk. rewrite last_lookup, lookup_drop, length_drop, entries_length.
  replace (k + Nat.pred (length P - k))%nat with (Nat.pred (length P)) by lia.
  destruct (lookup_lt_is_Some_2 P (Nat.pred (length P))) as [row Hr]; [lia|].
  unfold entries. rewrite list_lookup_imap, Hr. cbn. f_equal. lia.
Qed.

(** What the publisher keeps about the rows [P]. *)
Record keeps (P : list K) (p : TpPublisher) : Prop := {
  keep_cfg : tp_cfg p = cfg;
  keep_cap : (0 < capacity_ (ring_ p))%nat;
  keep_ring : rows_ (ring_ p) = lastn (capacity_ (ring_ p)) (entries P);
  keep_lost : 0 <= rowsUnresendable_ p
}.

Lemma resend_spec P l h p w ok p' w' :
  numbered P -> keeps P p -> logged P (rowsUnresendable_ p) l w ->
  resend h l p w = (ok, p', w') ->
  keeps P p' /\ handle_ p' = handle_ p /\ rowsUnresendable_ p <= rowsUnresendable_ p' /\
  (forall h', t_up w' h' -> t_up w h') /\
  exists l', logged P (rowsUnresendable_ p') l' w' /\
    (ok = true -> t_up w' h -> l' = base + Z.of_nat (length P)).
Proof.
  intros HP [Hcfg Hcap Hring Hlost] Hlg. pose proof Hlg as (Hl & Hb & _).
  unfold resend, ring_empty, newestSeq, missingAfter. rewrite Hring. unfold lastn.
  rewrite entries_length. set (k0 := (length P - capacity_ (ring_ p))%nat).
  rewrite (proj2 (Z.ltb_ge l 0)) by lia. cbn [orb].
  destruct (decide (length P = 0)%nat) as [Hz|Hz].
  { assert (P = []) as -> by (by apply nil_length_inv). cbn. intros [= <- <- <-].
    split; [by constructor|]. split; [done|]. split; [lia|]. split; [done|]. exists l. split; [done|]. cbn in *. lia. }
  assert (k0 < length P)%nat as Hk0 by lia.
  assert (is_empty (drop k0 (entries P)) = false) as ->.
  { rewrite entries_drop. destruct (lookup_lt_is_Some_2 P k0 Hk0) as [? ->]. done. }
  pose proof (drop_entries_last P k0 Hk0) as Hlast.
  destruct (last (drop k0 (entries P))) as [e|]; [|done]. injection Hlast as ->.
  cbn [orb]. destruct (Z.leb_spec (base + Z.of_nat (length P)) l) as [Hle|Hgt].
  { intros [= <- <- <-].
    split; [by constructor|]. split; [done|]. split; [lia|]. split; [done|]. exists l. split; [done|]. lia. }
  set (j := Nat.max k0 (Z.to_nat (l - base))).
  assert (match drop k0 (entries P) with
          | [] => 0 | e :: _ => if l + 1 <? fst e then fst e - (l + 1) else 0 end
          = base + Z.of_nat j - l) as ->.
  { rewrite entries_drop. destruct (lookup_lt_is_Some_2 P k0 Hk0) as [? ->]. cbn [fst].
    destruct (Z.ltb_spec (l + 1) (base + 1 + Z.of_nat k0)); lia. }
  set (p1 := if 0 <? base + Z.of_nat j - l then _ else _).
  assert (keeps P p1 /\ handle_ p1 = handle_ p /\
    rowsUnresendable_ p1 = rowsUnresendable_ p + (base + Z.of_nat j - l) /\ tp_cfg p1 = cfg /\
    rows_ (ring_ p1) = drop k0 (entries P)) as (Hk1 & Hh1 & Hu1 & Hc1 & Hr1).
  { subst p1. destruct (Z.ltb_spec 0 (base + Z.of_nat j - l)); cbn;
      (split; [constructor; cbn; done || lia|]); rewrite ?Hring; unfold lastn;
      rewrite ?entries_length; repeat split; done || lia. }
  rewrite resend_rows_eq. unfold table. rewrite Hc1, Hr1.
  rewrite (forEachAfter_skip P l k0 j) by lia.
  destruct (forEachAfter _ _ _ _) as [[ok1 n1] w1] eqn:E.
  apply (resend_live P h l (rowsUnresendable_ p) (rowsUnresendable_ p1) l j) in E as (Hup & l' & Hl' & Hend);
    [|done|lia|done|lia|lia|lia|lia|by left; lia].
  destruct ok1; cbn [negb]; intros [= <- <- <-].
  - split; [by destruct Hk1; constructor|]. split; [done|]. split; [cbn; lia|]. split; [done|]. by exists l'.
  - split; [done|]. split; [done|]. split; [lia|]. split; [done|]. by exists l'.
Qed.

(** The session from the handler's start on: not registered yet, or logging. *)
Definition session_state (P : list K) (lost : Z) (w : W) : Prop :=
  (t_last w = None /\ P = [] /\ t_log w = []) \/ exists l, logged P lost l w.

Lemma session_state_same P lost w w' : t_same w w' -> session_state P lost w -> session_state P lost w'.
Proof.
  intros Hs [(H1 & H2 & H3)|[l Hl]]; [left|right].
  - destruct Hs as (-> & -> & _). done.
  - exists l. by apply (logged_same _ _ _ w).
Qed.

Lemma logged_nil lost w : 0 <= lost -> t_last w = Some base -> t_log w = [] -> logged [] lost base w.
Proof.
  intros ? H1 H2. unfold logged. rewrite H1, H2. cbn. repeat split; try lia.
  replace (base - base) with 0 by lia. done.
Qed.

Lemma registerSession_spec P h p w reg L p' w' :
  keeps P p -> session_state P (rowsUnresendable_ p) w ->
  registerSession h (base + 1 + Z.of_nat (length P)) p w = (reg, L, p', w') ->
  keeps P p' /\ handle_ p' = handle_ p /\ rowsUnresendable_ p' = rowsUnresendable_ p /\
  (forall h', t_up w' h' -> t_up w h') /\ session_state P (rowsUnresendable_ p) w' /\
  (reg = 1 -> exists l, logged P (rowsUnresendable_ p) l w' /\ (L = l \/ (L = -1 /\ P = []))).
Proof.
  intros [Hc Hcap Hr Hlost] Hss. unfold registerSession, table. rewrite Hc.
  assert (default (base + 1 + Z.of_nat (length P) - 1) (t_last w) <= base + 1 + Z.of_nat (length P) - 1) as Hnext.
  { destruct Hss as [(-> & _)|(l & -> & ? & _)]; cbn; lia. }
  pose proof (law_register h (base + 1 + Z.of_nat (length P)) w Hnext) as Hlaw.
  destruct (k_call _ _ _ _) as [r w1]. destruct Hlaw as (Hlog & Hup & Hreply).
  assert (forall l, logged P (rowsUnresendable_ p) l w -> t_last w1 = Some l ->
    logged P (rowsUnresendable_ p) l w1) as Hkeep.
  { unfold logged. rewrite Hlog. intros l (? & ? & ?) ->. auto. }
  assert (t_last w1 = t_last w \/
          (t_last w = None /\ t_last w1 = Some (base + Z.of_nat (length P)))) as Hlast.
  { assert (forall z, z = Some (default (base + 1 + Z.of_nat (length P) - 1) (t_last w)) ->
      z = t_last w \/ (t_last w = None /\ z = Some (base + Z.of_nat (length P)))) as Hd.
    { intros z ->. destruct (t_last w); cbn; [by left|right]. split; [done|]. f_equal. lia. }
    destruct r as [r|].
    - destruct r; try (by left); apply Hd; by destruct Hreply.
    - destruct Hreply as [?|[? E]]; [by left|right]. split; [done|]. rewrite E. f_equal. lia. }
  assert (session_state P (rowsUnresendable_ p) w1) as Hss1.
  { destruct Hss as [(H1 & -> & H3)|[l Hl]].
    - rewrite H1 in Hlast. cbn in Hlast. rewrite Z.add_0_r in Hlast.
      destruct Hlast as [Hn|[_ Hn]]; [left; by rewrite Hlog|right]. exists base.
      apply logged_nil; [done|done|by rewrite Hlog].
    - right. exists l. apply Hkeep; [done|]. pose proof Hl as (Hl' & _).
      destruct Hlast as [->|[? _]]; congruence. }
  assert (forall q, keeps P q -> keeps P (q <| lastReply_ := L |>) /\
     forall e, keeps P (q <| fatalError_ := e |>)) as Hkq.
  { intros q []. split; [|intros e]; by constructor. }
  assert (keeps P p) as Hkp by done. destruct (Hkq p Hkp) as [Hk1 Hk2].
  destruct r as [r|]; [|intros [= <- <- <- <-]; repeat (split; [done|]); done].
  destruct r; intros [= <- <- <- <-]; repeat (split; [done|]); try done;
    try (exfalso; destruct Hreply; congruence).
  intros _. destruct Hreply as [Hj Hreply]. injection Hj as Hj. subst j.
  destruct Hss as [(H1 & -> & H3)|[l Hl]].
  - exists base. rewrite H1 in *. cbn in *. split; [|by right].
    apply logged_nil; [done| |by rewrite Hlog]. rewrite Hreply. f_equal. lia.
  - exists l. pose proof Hl as (Hl' & _). rewrite Hl' in *. cbn in *. split; [by apply Hkeep|by left].
Qed.

Lemma t_same_refl w : t_same w w.
Proof. by split. Qed.
Lemma t_same_trans w1 w2 w3 : t_same w1 w2 -> t_same w2 w3 -> t_same w1 w3.
Proof. intros (E1 & E2 & H1) (E3 & E4 & H2). repeat split; [congruence..|auto]. Qed.

Lemma sleep_loop_same fuel slept delay w : t_same w (sleep_loop fuel slept delay w).
Proof.
  revert slept w. induction fuel as [|fuel IH]; intros slept w; cbn [sleep_loop]; [apply t_same_refl|].
  destruct (slept <? delay); [|apply t_same_refl].
  pose proof (law_running w) as Hr. destruct (is_running w) as [[] w1]; [|done].
  eapply t_same_trans; [exact Hr|]. eapply t_same_trans; [apply law_sleep|apply IH].
Qed.

Lemma sleepWithBackoff_same mult initial max n w :
  t_same w (snd (sleepWithBackoff mult initial max n w)).
Proof. unfold sleepWithBackoff. eapply t_same_trans; [apply sleep_loop_same|apply law_running]. Qed.

(** The whole state of a handler and its session with the rows [P]. *)
Record delivers (P : list K) (p : TpPublisher) (w : W) : Prop := {
  del_keeps : keeps P p;
  del_session : session_state P (rowsUnresendable_ p) w;
  del_up : 0 < handle_ p -> exists l, logged P (rowsUnresendable_ p) l w /\
    (t_up w (handle_ p) -> l = base + Z.of_nat (length P))
}.

(** Resending what a registration says is missing; a new session has nothing. *)
Lemma resend_registered P h l L p w ok p' w' :
  numbered P -> keeps P p -> logged P (rowsUnresendable_ p) l w -> L = l \/ (L = -1 /\ P = []) ->
  resend h L p w = (ok, p', w') ->
  keeps P p' /\ handle_ p' = handle_ p /\ rowsUnresendable_ p <= rowsUnresendable_ p' /\
  exists l', logged P (rowsUnresendable_ p') l' w' /\ (ok = true -> t_up w' h -> l' = base + Z.of_nat (length P)).
Proof.
  intros HP Hk Hl [->|[-> ->]] E.
  - apply (resend_spec P l) in E as (? & ? & ? & _ & ?); done.
  - injection E as <- <- <-. repeat (split; [done|]). exists l. split; [done|].
    destruct Hl as (_ & Hb & _). cbn in *. lia.
Qed.

Lemma delivers_down P p w : keeps P p -> session_state P (rowsUnresendable_ p) w -> handle_ p <= 0 -> delivers P p w.
Proof. intros ? ? ?. split; [done..|lia]. Qed.

Lemma session_state_khpu P k host port w h w' :
  khpu host port w = (h, w') -> session_state P k w -> session_state P k w'.
Proof.
  intros E. pose proof (law_khpu host port w) as Hkh. rewrite E in Hkh. destruct Hkh as (Hl & Hlog & _).
  unfold session_state, logged. by rewrite Hl, Hlog.
Qed.

Lemma connect_loop_spec P fuel attempt p w ok p' w' :
  numbered P -> keeps P p -> session_state P (rowsUnresendable_ p) w -> handle_ p <= 0 ->
  connect_loop fuel attempt (base + 1 + Z.of_nat (length P)) p w = Some (ok, p', w') ->
  delivers P p' w' /\ (ok = true -> 0 < handle_ p') /\ rowsUnresendable_ p <= rowsUnresendable_ p'.
Proof.
  intros HP. revert attempt p w. induction fuel as [|fuel IH]; intros attempt p w Hk Hs Hh E; [done|].
  cbn [connect_loop] in E.
  assert (forall b q v, keeps P q -> session_state P (rowsUnresendable_ q) v -> handle_ q <= 0 ->
    rowsUnresendable_ p <= rowsUnresendable_ q ->
    Some (false, q, v) = Some (b, p', w') ->
    delivers P p' w' /\ (b = true -> 0 < handle_ p') /\ rowsUnresendable_ p <= rowsUnresendable_ p') as Hstop.
  { intros b q v ? ? ? ? [= <- <- <-]. split; [by apply delivers_down|done]. }
  pose proof (law_running w) as Hrun. destruct (is_running w) as [r w1]; cbn [snd] in Hrun.
  pose proof (session_state_same _ _ _ _ Hrun Hs) as Hs1.
  destruct r; cbn [negb] in E; [|by apply Hstop in E].
  set (retry := after_backoff attempt _) in E.
  assert (forall q v, keeps P q -> session_state P (rowsUnresendable_ q) v -> handle_ q <= 0 ->
    rowsUnresendable_ p <= rowsUnresendable_ q -> retry q v = Some (ok, p', w') ->
    delivers P p' w' /\ (ok = true -> 0 < handle_ p') /\ rowsUnresendable_ p <= rowsUnresendable_ p') as Hretry.
  { intros q v Hkq Hsq Hhq Hu Er. unfold retry, after_backoff in Er.
    pose proof (sleepWithBackoff_same 2 (tc_initialBackoffMs (tp_cfg q)) (tc_maxBackoffMs (tp_cfg q)) attempt v) as Hsl.
    destruct (sleepWithBackoff _ _ _ _ v) as [[] v']; cbn [snd] in Hsl;
      pose proof (session_state_same _ _ _ _ Hsl Hsq) as Hsv.
    - apply IH in Er as (? & ? & ?); [|done..]. repeat (split; [done|]). lia.
    - by apply (Hstop ok q v'). }
  clearbody retry. destruct (khpu _ _ w1) as [h w2] eqn:Ekh.
  pose proof (session_state_khpu _ _ _ _ _ _ _ Ekh Hs1) as Hs2.
  destruct (Z.ltb_spec 0 h) as [Hpos|_]; [|by apply (Hretry p w2)].
  destruct (registerSession h _ p w2) as [[[reg L] p3] w3] eqn:Er.
  apply registerSession_spec in Er as (Hk3 & Hh3 & Hu3 & Hup3 & Hs3 & Hreg); [|done..].
  rewrite <-Hu3 in Hs3, Hreg.
  destruct (reg <? 0).
  { apply Hstop in E; [done|done| |lia|lia]. eapply session_state_same; [|exact Hs3].
    eapply t_same_trans; [apply law_close|apply law_stop]. }
  destruct (Z.eqb_spec reg 1) as [->|_].
  - destruct (Hreg eq_refl) as (l & Hl & HL).
    destruct (resend h L p3 w3) as [[okr p4] w4] eqn:E4.
    destruct (resend_registered P h l L p3 w3 okr p4 w4 HP Hk3 Hl HL E4) as (Hk4 & Hh4 & Hu4 & l' & Hl' & Hend).
    destruct okr.
    + injection E as <- <- <-. cbn [handle_ rowsUnresendable_ modify eta_TpPublisher]. split; [|split; [done|lia]].
      split; [by destruct Hk4; constructor|right; by exists l'|]. intros _. exists l'. split; [done|]. by apply Hend.
    + apply (Hretry p4 (kclose h w4)) in E; [done|done| |lia|lia].
      right. exists l'. by apply (logged_same _ _ _ w4); [apply law_close|].
  - apply (Hretry p3 (kclose h w3)) in E; [done|done| |lia|lia].
    eapply session_state_same; [apply law_close|done].
Qed.

(** ** Publishing *)

Lemma entries_snoc P row :
  entries (P ++ [row]) = entries P ++ [(base + 1 + Z.of_nat (length P), row)].
Proof. unfold entries. rewrite imap_app. cbn. by rewrite Nat.add_0_r. Qed.

Lemma ring_push_keeps P row p :
  keeps P p ->
  keeps (P ++ [row])
    (p <| ring_ := snd (ring_push (base + 1 + Z.of_nat (length P)) row (ring_ p)) |>).
Proof.
  intros [Hc Hcap Hr Hl]. unfold ring_push. rewrite Hr, length_lastn, entries_length.
  destruct (Nat.leb_spec (capacity_ (ring_ p)) (Nat.min (capacity_ (ring_ p)) (length P)));
    constructor; cbn; try done; rewrite entries_snoc; unfold lastn; rewrite length_app, entries_length; cbn [length].
  - set (k := (length P - capacity_ (ring_ p))%nat).
    replace (length P + 1 - capacity_ (ring_ p))%nat with (S k) by lia.
    rewrite drop_app_le by (rewrite entries_length; lia). f_equal.
    rewrite <-(drop_drop _ 1 k) || rewrite <-Nat.add_1_r, <-drop_drop.
    by destruct (drop k (entries P)).
  - rewrite drop_app_le by (rewrite entries_length; lia).
    by rewrite !(proj2 (Nat.sub_0_le _ _)) by lia.
Qed.

Lemma session_state_snoc P row lost w :
  t_last w <> None -> session_state P lost w -> session_state (P ++ [row]) lost w.
Proof. intros Hn [(? & _)|[l Hl]]; [done|]. right. exists l. by apply logged_snoc. Qed.

Lemma logged_last P lost l w : logged P lost l w -> t_last w <> None.
Proof. intros (-> & _). done. Qed.

(** The next row on the wire. *)
Lemma send_new P row lost l h w sent w' :
  numbered (P ++ [row]) -> logged P lost l w -> (t_up w h -> l = base + Z.of_nat (length P)) ->
  k_send h ".u.upd" [ks (tc_table cfg); row] w = (sent, w') ->
  exists l', logged (P ++ [row]) lost l' w' /\ (t_up w' h -> l' = base + Z.of_nat (length (P ++ [row]))).
Proof.
  intros HP Hl Hend Es. pose proof Hl as (_ & Hb & _).
  assert ((P ++ [row]) !! length P = Some row) as Hrow by (rewrite lookup_app_r, Nat.sub_diag; done).
  assert (length (P ++ [row]) = S (length P)) as Hlen by (rewrite length_app; cbn; lia).
  pose proof (law_send h row w l (proj1 Hl) (proj2 (HP _ _ Hrow))) as Hlaw. rewrite Es in Hlaw.
  destruct Hlaw as (_ & _ & [(Hup & _)|(Hup & Hlog & Hlast)]).
  - specialize (Hend Hup). subst l.
    destruct (send_step (P ++ [row]) lost lost (base + Z.of_nat (length P)) h (length P) row w sent w')
      as (_ & _ & [[_ ?]|[? ?]]); [done|by apply logged_snoc|done|lia|lia|done| |].
    + eexists. split; [done|]. lia.
    + by eexists.
  - exists l. split; [|done]. apply (logged_snoc _ row) in Hl. unfold logged. by rewrite Hlast, Hlog.
Qed.

Lemma publish_spec P row fuel p w ok p' w' :
  numbered (P ++ [row]) -> delivers P p w -> t_last w <> None ->
  publish fuel row (base + 1 + Z.of_nat (length P)) p w = Some (ok, p', w') ->
  delivers (P ++ [row]) p' w' /\ (ok = true -> 0 < handle_ p') /\ t_last w' <> None /\
  rowsUnresendable_ p <= rowsUnresendable_ p'.
Proof.
  intros HP [Hk Hs Hu] Hn. unfold publish.
  pose proof (ring_push_keeps P row p Hk) as Hk1.
  destruct (ring_push _ _ _) as [freed r]. cbn [snd] in Hk1.
  set (p1 := p <| ring_ := r |>) in *.
  assert (length (P ++ [row]) = S (length P)) as Hlen by (rewrite length_app; cbn; lia).
  assert (forall q v, keeps (P ++ [row]) q -> rowsUnresendable_ q = rowsUnresendable_ p ->
    session_state (P ++ [row]) (rowsUnresendable_ p) v -> t_last v <> None -> handle_ q <= 0 ->
    connect fuel (base + 1 + Z.of_nat (length P) + 1) q v = Some (ok, p', w') ->
    delivers (P ++ [row]) p' w' /\ (ok = true -> 0 < handle_ p') /\ t_last w' <> None /\
    rowsUnresendable_ p <= rowsUnresendable_ p') as Hconn.
  { intros q v Hkq Hu' Hsq Hnq Hhq E.
    replace (base + 1 + Z.of_nat (length P) + 1) with (base + 1 + Z.of_nat (length (P ++ [row]))) in E by lia.
    rewrite <-Hu' in Hsq |- *.
    apply connect_loop_spec in E as (Hd & Hok & Hle); [|done..].
    repeat (split; [done|]). split; [|done]. destruct Hd as [_ [(? & ? & _)|[l Hl]] _].
    - by destruct P.
    - by eapply logged_last. }
  change (handle_ p1) with (handle_ p). destruct (Z.ltb_spec 0 (handle_ p)) as [Hh|Hh].
  - destruct (Hu Hh) as (l & Hl & Hend). unfold table. rewrite (keep_cfg _ _ Hk1).
    destruct (k_send _ _ _ _) as [sent w1] eqn:Es.
    destruct (send_new P row _ l (handle_ p) w sent w1 HP Hl Hend Es) as (l' & Hl' & Hend').
    destruct sent.
    + intros [= <- <- <-]. split; [|split; [done|split; [by eapply logged_last|cbn; lia]]].
      split; [done|right; by exists l'|]. intros _. by exists l'.
    + cbn [drop_connection]. unfold drop_connection. intros E. eapply Hconn; [..|exact E].
      * by destruct Hk1; constructor.
      * done.
      * right. exists l'. by apply (logged_same _ _ _ w1); [apply law_close|].
      * destruct (law_close (handle_ p1) w1) as (-> & _). by eapply logged_last.
      * cbn. lia.
  - intros E. eapply Hconn; [..|exact E]; try done. by apply session_state_snoc.
Qed.

(** Rows published one after the other, as long as [publish] says so. *)
Fixpoint publish_all (fuel : nat) (rows : list K) (seq : Z) (p : TpPublisher) (w : W)
    : option (bool * TpPublisher * W) :=
  match rows with
  | [] => Some (true, p, w)
  | row :: rest =>
      match publish fuel row seq p w with
      | Some (true, p, w) => publish_all fuel rest (seq + 1) p w
      | r => r
      end
  end.

Lemma publish_all_spec P rows fuel p w p' w' :
  numbered (P ++ rows) -> delivers P p w -> t_last w <> None -> 0 < handle_ p ->
  publish_all fuel rows (base + 1 + Z.of_nat (length P)) p w = Some (true, p', w') ->
  delivers (P ++ rows) p' w' /\ 0 < handle_ p'.
Proof.
  revert P p w. induction rows as [|row rows IH]; intros P p w HP Hd Hn Hh E; cbn [publish_all] in E.
  { injection E as <- <-. by rewrite app_nil_r. }
  destruct (publish fuel row _ p w) as [[[[] p1] w1]|] eqn:Ep; [|done..].
  rewrite cons_middle, app_assoc in HP |- *.
  apply publish_spec in Ep as (Hd1 & Hh1 & Hn1 & _); [|by intros i x Hx; apply HP; by apply lookup_app_l_Some|done..].
  replace (base + 1 + Z.of_nat (length P) + 1) with (base + 1 + Z.of_nat (length (P ++ [row]))) in E
    by (rewrite length_app; cbn [length]; lia).
  apply (IH (P ++ [row])) in E; auto.
Qed.

(** C7: no row is lost. From a fresh handler's first connection on, whatever
    connections are lost in between, the rows TP has logged are the published
    ones in order and once each; at most [rowsUnresendable] of those before the
    last logged one are missing; if nothing was unresendable they are all there;
    and while the last connection delivers TP is up to date. *)
Theorem no_row_lost rows f1 f2 w0 p1 w1 p2 w2 :
  t_last w0 = None -> t_log w0 = [] -> numbered rows ->
  connect f1 (base + 1) (newTpPublisher cfg) w0 = Some (true, p1, w1) ->
  publish_all f2 rows (base + 1) p1 w1 = Some (true, p2, w2) ->
  exists l, t_last w2 = Some l /\ base <= l <= base + Z.of_nat (length rows) /\
    t_log w2 `sublist_of` take (Z.to_nat (l - base)) rows /\
    l - base - Z.of_nat (length (t_log w2)) <= rowsUnresendable_ p2 /\
    (rowsUnresendable_ p2 = 0 -> t_log w2 = take (Z.to_nat (l - base)) rows) /\
    (t_up w2 (handle_ p2) -> l = base + Z.of_nat (length rows)).
Proof.
  intros Hl0 Hlog0 HP Hc Hp.
  assert (keeps [] (newTpPublisher cfg)) as Hk0.
  { constructor; cbn; try done. unfold newRing. destruct (Nat.eqb_spec (tc_ringSize cfg) 0); cbn; lia. }
  unfold connect in Hc. replace (base + 1) with (base + 1 + Z.of_nat (length (@nil K))) in Hc, Hp by (cbn; lia).
  apply connect_loop_spec in Hc as (Hd & Hh & _); [|by intros ? ?|done|by left|done].
  specialize (Hh eq_refl). destruct (del_up _ _ _ Hd Hh) as (l1 & Hl1 & _).
  apply (publish_all_spec []) in Hp as [Hd2 Hh2]; [|done|done|by eapply logged_last|done].
  cbn [app] in Hd2. destruct (del_up _ _ _ Hd2 Hh2) as (l & (Hlast & Hb & Hs & Hlost) & Hend).
  exists l. repeat (split; [done|]). split; [|done]. intros Hz. rewrite Hz in Hlost.
  apply sublist_full; [done|].
  rewrite length_take in *. lia.
Qed.
End session.

(** ** Termination of [connect] *)

(** The C API does not undo a shutdown. *)
Class LinkReads (W : Type) `{ShutsDown W} `{TpLink W} := {
  reads_khpu host port w : (reads_left (snd (khpu host port w)) <= reads_left w)%nat;
  reads_call h f args w : (reads_left (snd (k_call h f args w)) <= reads_left w)%nat;
  reads_send h f args w : (reads_left (snd (k_send h f args w)) <= reads_left w)%nat;
  reads_close h w : (reads_left (kclose h w) <= reads_left w)%nat
}.

Section terminates.
Context {W : Type} `{LinkReads W}.

Lemma registerSession_reads h next p (w : W) :
  (reads_left (snd (registerSession h next p w)) <= reads_left w)%nat.
Proof.
  unfold registerSession.
  pose proof (reads_call h ".tp.registerSession"
    [ks (table p); kj (tc_sessionId (tp_cfg p)); kj next; kj (tc_width (tp_cfg p))] w) as Hr.
  destruct (k_call _ _ _ _) as [[[]|] w1]; exact Hr.
Qed.

Lemma resend_reads h L p (w : W) : (reads_left (snd (resend h L p w)) <= reads_left w)%nat.
Proof.
  unfold resend. destruct (_ || _); [done|]. set (p1 := if _ <? _ then _ else _).
  assert (forall rows (st : bool * Z * W),
    (reads_left (snd (forEachAfter rows L (fun _ row '(ok, n, w) =>
       let '(res, w) := k_send h ".u.upd" [ks (table p1); row] w in
       if res then (true, (ok, (n + 1)%Z, w)) else (false, (false, n, w))) st)) <= reads_left (snd st))%nat) as Hrows.
  { induction rows as [|[n row] rows IH]; intros [[ok m] v]; cbn [forEachAfter]; [done|].
    destruct (L <? n); [|apply IH].
    pose proof (reads_send h ".u.upd" [ks (table p1); row] v) as Hs.
    destruct (k_send _ _ _ v) as [[] v1]; cbn [snd] in *; [|done].
    specialize (IH (ok, m + 1, v1)). cbn [snd] in IH. lia. }
  unfold resend_rows. specialize (Hrows (rows_ (ring_ p1)) (true, 0, w)).
  destruct (forEachAfter _ _ _ _) as [[ok n] w1]. cbn [snd] in *. by destruct ok.
Qed.

Lemma connect_loop_returns fuel attempt next p (w : W) :
  (reads_left w < fuel)%nat ->
  exists ok p' w', connect_loop fuel attempt next p w = Some (ok, p', w') /\ (reads_left w' <= reads_left w)%nat.
Proof.
  revert attempt p w. induction fuel as [|fuel IH]; intros attempt p w Hf; [lia|].
  cbn [connect_loop]. pose proof (reads_read w) as Hr. pose proof (reads_read_le w) as Hle.
  destruct (is_running w) as [[] w1]; cbn [fst snd negb] in *; [|by eexists _, _, _]. specialize (Hr eq_refl).
  assert (forall q v, (reads_left v <= reads_left w1)%nat ->
    exists ok p' w', after_backoff attempt (connect_loop fuel (S attempt) next) q v = Some (ok, p', w') /\
      (reads_left w' <= reads_left w)%nat) as Hretry.
  { intros q v Hv. unfold after_backoff.
    pose proof (sleepWithBackoff_reads 2 (tc_initialBackoffMs (tp_cfg q)) (tc_maxBackoffMs (tp_cfg q)) attempt v).
    destruct (sleepWithBackoff _ _ _ _ v) as [[] v1]; cbn [snd] in *; [|eexists _, _, _; split; [done|lia]].
    destruct (IH (S attempt) q v1) as (ok & p' & w' & E & ?); [lia|]. exists ok, p', w'. split; [done|lia]. }
  pose proof (reads_khpu (tc_host (tp_cfg p)) (tc_port (tp_cfg p)) w1) as Hk.
  destruct (khpu _ _ w1) as [h w2]; cbn [snd] in Hk.
  destruct (0 <? h); [|by apply Hretry].
  pose proof (registerSession_reads h next p w2) as Hg.
  destruct (registerSession h next p w2) as [[[reg L] p3] w3]; cbn [snd] in Hg.
  pose proof (reads_close h w3). pose proof (reads_stop (kclose h w3)).
  destruct (reg <? 0); [eexists _, _, _; split; [done|lia]|].
  assert (exists ok p4 w4, (if reg =? 1 then resend h L p3 w3 else (false, p3, w3)) = (ok, p4, w4) /\
    (reads_left w4 <= reads_left w3)%nat) as (ok & p4 & w4 & -> & H34).
  { destruct (reg =? 1); [|by eexists false, p3, w3].
    pose proof (resend_reads h L p3 w3). destruct (resend h L p3 w3) as [[ok p4] w4]. by exists ok, p4, w4. }
  destruct ok; [eexists _, _, _; split; [done|lia]|]. apply Hretry. pose proof (reads_close h w4). lia.
Qed.

(** C27: [connect] returns. Whatever the tickerplant does (refuse, accept and
    die, die while resending), the retry loop ends once shutdown is requested:
    as many iterations as the flag is still read as set, plus one, suffice. *)
Theorem connect_terminates fuel attempt next p (w : W) :
  (reads_left w < fuel)%nat -> exists r, connect_loop fuel attempt next p w = Some r.
Proof. intros H'. destruct (connect_loop_returns fuel attempt next p w H') as (ok & p' & w' & -> & _). by eexists. Qed.
End terminates.
