(* ===== verification/TradeGap.v ===== *)
(** * Gaps in the exchange's trade ids (trade_gap.hpp)

    Detection ([TradeIdTracker]), the trade_gap row, and the queue that holds
    events until TP acknowledges them ([GapEventQueue]). *)

From S2P Require Import Prelude Double Backoff KObject TpPublisher TpSession.

Open Scope Z_scope.
Local Open Scope rec_scope.

Inductive GapStatus := Detected | Partial | Recovered | Unrecoverable.
#[export] Instance GapStatus_eq_dec : EqDecision GapStatus.
Proof. solve_decision. Defined.

Definition gapStatusName (s : GapStatus) : string :=
  match s with
  | Detected => "detected"
  | Partial => "partial"
  | Recovered => "recovered"
  | Unrecoverable => "unrecoverable"
  end.

Record TradeGap := mkTradeGap {
  g_sym : string;
  g_firstId : Z;
  g_lastId : Z;
  g_recovered : Z;
  g_recoveredThroughId : Z
}.
#[export] Instance eta_TradeGap : Eta TradeGap := fun g =>
  mkTradeGap (g_sym g) (g_firstId g) (g_lastId g) (g_recovered g) (g_recoveredThroughId g).

Definition missing (g : TradeGap) : Z := g_lastId g - g_firstId g + 1.
Definition nextNeededId (g : TradeGap) : Z :=
  if 0 <? g_recoveredThroughId g then g_recoveredThroughId g + 1 else g_firstId g.

Definition GAP_ROW_WIDTH : Z := 10.
Definition GAP_KDB_EPOCH_OFFSET_NS : Z := kdb_epoch_offset_ns.
Definition GAP_NULL_LONG : Z := null_long.

Definition buildGapRow (timeUtcNs : Z) (g : TradeGap) (srcTable : string) (status : GapStatus)
    (reason : string) : K :=
  knk [ktp (timeUtcNs - GAP_KDB_EPOCH_OFFSET_NS); ks (g_sym g); ks srcTable;
       kj (g_firstId g); kj (g_lastId g); kj (missing g); ks (gapStatusName status);
       kj (g_recovered g);
       kj (if 0 <? g_recoveredThroughId g then g_recoveredThroughId g else GAP_NULL_LONG);
       ks reason].

(** ** The tracker *)

Inductive Kind := First | InOrder | Gap | Duplicate | OutOfOrder.
#[export] Instance Kind_eq_dec : EqDecision Kind.
Proof. solve_decision. Defined.

Record Result := mkResult { kind : Kind; firstMissing : Z; lastMissing : Z; previous : Z }.

Abbreviation TradeIdTracker := (gmap string Z).

Definition onId (sym : string) (id : Z) (last_ : TradeIdTracker) : Result * TradeIdTracker :=
  match last_ !! sym with
  | None => (mkResult First 0 0 0, <[sym := id]> last_)
  | Some prev =>
      let r :=
        if id =? prev + 1 then mkResult InOrder 0 0 prev
        else if id =? prev then mkResult Duplicate 0 0 prev
        else if id <? prev then mkResult OutOfOrder 0 0 prev
        else mkResult Gap (prev + 1) (id - 1) prev in
      (r, if prev <? id then <[sym := id]> last_ else last_)
  end.

Definition seed (sym : string) (lastId : Z) (t : TradeIdTracker) : TradeIdTracker := <[sym := lastId]> t.
Definition known (sym : string) (t : TradeIdTracker) : bool := bool_decide (is_Some (t !! sym)).
Definition last_id (sym : string) (t : TradeIdTracker) : Z := default 0 (t !! sym).

(** ** The queue *)

Record GapEventQueue := mkGapQueue {
  gq_table : string; pending_ : list K; acked_ : Z; rejected_ : Z
}.
#[export] Instance eta_GapEventQueue : Eta GapEventQueue := fun q =>
  mkGapQueue (gq_table q) (pending_ q) (acked_ q) (rejected_ q).
Definition newGapEventQueue (tbl : string) : GapEventQueue := mkGapQueue tbl [] 0 0.

Definition gap_push (row : K) (q : GapEventQueue) : GapEventQueue :=
  q <| pending_ ::= fun l => l ++ [row] |>.

Section flush.
Context {W : Type} `{Process W} `{TpLink W}.

(** [flush]: one row per iteration, from the front. *)
Fixpoint flush_rows (rows : list K) (q : GapEventQueue) (p : TpPublisher) (w : W)
    : bool * GapEventQueue * TpPublisher * W :=
  match rows with
  | [] => (true, q, p, w)
  | row :: rest =>
      let '(res, p, w) := sendEvent (gq_table q) row p w in
      match res with
      | ConnectionLost => (false, q, p, w)
      | Rejected => flush_rows rest (q <| rejected_ ::= Z.succ |> <| pending_ := rest |>) p w
      | Acked => flush_rows rest (q <| acked_ ::= Z.succ |> <| pending_ := rest |>) p w
      end
  end.

Definition flush (q : GapEventQueue) (p : TpPublisher) (w : W)
    : bool * GapEventQueue * TpPublisher * W :=
  flush_rows (pending_ q) q p w.
End flush.

(** ** Every id is accounted for *)

(** The ids a result speaks for: the missing ones and the accepted one. *)
Definition speaks_for (id : Z) (r : Result) : list Z :=
  match kind r with
  | InOrder => [id]
  | Gap => seqZ (firstMissing r) (lastMissing r - firstMissing r + 1) ++ [id]
  | _ => []
  end.

(** The ids of one symbol, in arrival order, through the tracker. *)
Fixpoint track (sym : string) (ids : list Z) (t : TradeIdTracker) : list (Z * Result) * TradeIdTracker :=
  match ids with
  | [] => ([], t)
  | id :: rest =>
      let '(r, t) := onId sym id t in
      let '(rs, t) := track sym rest t in ((id, r) :: rs, t)
  end.

Lemma seqZ_app m n1 n2 : 0 <= n1 -> 0 <= n2 -> seqZ m (n1 + n2) = seqZ m n1 ++ seqZ (m + n1) n2.
Proof. intros. by apply seqZ_app. Qed.

Lemma seqZ_one m : seqZ m 1 = [m].
Proof. done. Qed.

Lemma onId_step sym id t prev r t' :
  t !! sym = Some prev -> onId sym id t = (r, t') ->
  t' !! sym = Some (Z.max prev id) /\
  speaks_for id r = seqZ (prev + 1) (Z.max prev id - prev).
Proof.
  unfold onId. intros Ht. rewrite Ht. intros [= <- <-]. split.
  - destruct (Z.ltb_spec prev id); [rewrite lookup_insert_eq|rewrite Ht]; f_equal; lia.
  - unfold speaks_for.
    destruct (Z.eqb_spec id (prev + 1)) as [->|]; [cbn [kind]|
      destruct (Z.eqb_spec id prev) as [->|]; [cbn [kind]|
      destruct (Z.ltb_spec id prev); cbn [kind firstMissing lastMissing]]].
    + rewrite Z.max_r by lia. replace (prev + 1 - prev) with 1 by lia. by rewrite seqZ_one.
    + by rewrite Z.max_id, Z.sub_diag.
    + rewrite Z.max_l by lia. by rewrite Z.sub_diag.
    + rewrite Z.max_r by lia.
      replace (id - prev) with (id - 1 - (prev + 1) + 1 + 1) by lia.
      rewrite (seqZ_app (prev + 1) (id - 1 - (prev + 1) + 1) 1) by lia. f_equal.
      replace (prev + 1 + (id - 1 - (prev + 1) + 1)) with id by lia. by rewrite seqZ_one.
Qed.

Lemma onId_other sym id t r t' s : onId sym id t = (r, t') -> s <> sym -> t' !! s = t !! s.
Proof.
  unfold onId. intros H Hs. destruct (t !! sym) as [prev|]; injection H as _ <-;
    [destruct (prev <? id); [|done]|]; by rewrite lookup_insert_ne.
Qed.

Lemma foldr_max_start p x l : foldr Z.max (Z.max p x) l = Z.max x (foldr Z.max p l).
Proof. induction l as [|y l IH]; cbn; lia. Qed.
Lemma foldr_max_ge p l : p <= foldr Z.max p l.
Proof. induction l as [|y l IH]; cbn; lia. Qed.

(** C24: the tracker reports every hole exactly once. For any ids of a symbol
    in any order, the ids it accepts and the ids of the gaps it reports, put
    together, are exactly the consecutive ids after the first one up to the
    highest, each once and in increasing order; the id it remembers is the
    highest; and other symbols are left alone. *)
Theorem tracker_reports_every_id sym ids t prev rs t' :
  t !! sym = Some prev -> track sym ids t = (rs, t') ->
  mjoin ((fun x => speaks_for (fst x) (snd x)) <$> rs) =
    seqZ (prev + 1) (foldr Z.max prev ids - prev) /\
  t' !! sym = Some (foldr Z.max prev ids) /\
  (forall s, s <> sym -> t' !! s = t !! s).
Proof.
  revert t prev rs. induction ids as [|id ids IH]; intros t prev rs Ht E; cbn [track] in E.
  { injection E as <- <-. cbn. rewrite Z.sub_diag. auto. }
  destruct (onId sym id t) as [r t1] eqn:E1. destruct (track sym ids t1) as [rs1 t2] eqn:E2.
  injection E as <- <-.
  destruct (onId_step _ _ _ _ _ _ Ht E1) as [Ht1 Hs].
  destruct (IH _ _ _ Ht1 E2) as (Hj & Ht2 & Ho).
  rewrite foldr_max_start in Hj, Ht2. cbn [foldr]. split; [|split; [done|]].
  - change (speaks_for id r ++ mjoin ((fun x => speaks_for (fst x) (snd x)) <$> rs1) =
      seqZ (prev + 1) (id `max` foldr Z.max prev ids - prev)).
    rewrite Hs, Hj. pose proof (foldr_max_ge prev ids).
    replace (id `max` foldr Z.max prev ids - prev)
      with (Z.max prev id - prev + (id `max` foldr Z.max prev ids - Z.max prev id)) by lia.
    rewrite seqZ_app by lia. f_equal. f_equal. lia.
  - intros s Hs'. rewrite Ho by done. by apply (onId_other _ _ _ _ _ _ E1).
Qed.

Lemma tracker_reports_every_id_witness :
  let r := track "BTCUSDT" [102; 106; 104; 107] {["BTCUSDT" := 101]} in
  mjoin ((fun x => speaks_for (fst x) (snd x)) <$> fst r) = [102; 103; 104; 105; 106; 107] /\
  snd r !! "BTCUSDT" = Some 107.
Proof.
  destruct (tracker_reports_every_id "BTCUSDT" [102; 106; 104; 107] {["BTCUSDT" := 101]} 101 _ _
    (lookup_singleton_eq _ _) (surjective_pairing _)) as (Hj & Ht & _).
  exact (conj Hj Ht).
Defined.

(** ** Events are never lost *)

Section flush_props.
Context {W : Type} `{Process W} `{TpLink W}.

Lemma flush_spec q p w b q' p' (w' : W) :
  flush q p w = (b, q', p', w') ->
  exists answered, pending_ q = answered ++ pending_ q' /\
    acked_ q' + rejected_ q' = acked_ q + rejected_ q + Z.of_nat (length answered) /\
    acked_ q <= acked_ q' /\ rejected_ q <= rejected_ q' /\ gq_table q' = gq_table q /\
    (b = true <-> pending_ q' = []) /\
    (b = false -> handle_ p' <= 0).
Proof.
  unfold flush. remember (pending_ q) as rows eqn:Er. revert q p w Er.
  induction rows as [|row rows IH]; intros q p w Er E; cbn [flush_rows] in E.
  { injection E as <- <- <- <-. exists []. rewrite <-Er. cbn. repeat split; try lia; done. }
  destruct (sendEvent (gq_table q) row p w) as [[res p1] w1] eqn:Es.
  destruct res.
  - apply IH in E as (a & Ha & Hc & H1 & H2 & Ht & Hb & Hh); [|done]. cbn in *.
    exists (row :: a). rewrite Ha. cbn [app length]. repeat split; try apply Hb; try done; lia.
  - injection E as <- <- <- <-. exists []. rewrite <-Er. cbn. repeat split; try lia; try done.
    intros _. revert Es. unfold sendEvent. destruct (Z.leb_spec (handle_ p) 0); [by intros [= <- <-]|].
    destruct (k_call _ _ _ _) as [[[]|] w2]; try done. cbn. by intros [= <- <-].
  - apply IH in E as (a & Ha & Hc & H1 & H2 & Ht & Hb & Hh); [|done]. cbn in *.
    exists (row :: a). rewrite Ha. cbn [app length]. repeat split; try apply Hb; try done; lia.
Qed.

(** Flushing keeps every event that TP has not answered. The rows still
    queued are the last ones pushed, in order; each row that left the queue was
    answered and counted once as acknowledged or rejected; the flush says true
    exactly when nothing is left, and it stops early only when the connection
    is lost, with the unanswered row still in front. *)
Theorem flush_keeps_unanswered_events q p w b q' p' (w' : W) :
  flush q p w = (b, q', p', w') ->
  exists answered, pending_ q = answered ++ pending_ q' /\
    acked_ q' + rejected_ q' = acked_ q + rejected_ q + Z.of_nat (length answered) /\
    acked_ q <= acked_ q' /\ rejected_ q <= rejected_ q' /\ gq_table q' = gq_table q /\
    (b = true <-> pending_ q' = []) /\
    (b = false -> handle_ p' <= 0).
Proof. apply flush_spec. Qed.
End flush_props.
