(* ===== verification/Scheduler.v ===== *)
(** * When a snapshot may be requested (snapshot_scheduler.hpp)

    Backoff per symbol, a token bucket of request weight, and the pause after a
    rate-limit answer. Times are milliseconds of a monotonic clock passed by the
    caller; tokens are doubles; the jitter function's value is an argument. *)

From S2P Require Import Prelude Double Backoff.
From Stdlib Require Import Floats.SpecFloat.

Open Scope Z_scope.
Local Open Scope rec_scope.

Record SnapshotSchedulerConfig := mkSchedConfig {
  weightPerRequest : Z;
  weightLimitPerMin : Z;
  budgetFraction : double;
  initialBackoffMs : Z;
  maxBackoffMs : Z;
  jitterFraction : double;
  minPause429Ms : Z;
  minPause418Ms : Z;
  usedWeightPauseFraction : double;
  usedWeightPauseMs : Z
}.
#[export] Instance eta_SnapshotSchedulerConfig : Eta SnapshotSchedulerConfig := fun c =>
  mkSchedConfig (weightPerRequest c) (weightLimitPerMin c) (budgetFraction c) (initialBackoffMs c)
    (maxBackoffMs c) (jitterFraction c) (minPause429Ms c) (minPause418Ms c)
    (usedWeightPauseFraction c) (usedWeightPauseMs c).

Definition default_SnapshotSchedulerConfig : SnapshotSchedulerConfig :=
  mkSchedConfig 50 6000 (d_dec 10 2) 1000 60000 (d_dec 25 2) 60000 300000 (d_dec 5 1) 60000.

Record SnapshotScheduler := mkSched {
  s_cfg : SnapshotSchedulerConfig;
  failures_ : list Z;
  nextAllowedMs_ : list Z;
  budget_ : double;
  tokens_ : double;
  lastRefillMs_ : Z;
  pauseUntilMs_ : Z;
  requests_ : Z;
  failuresTotal_ : Z;
  rateLimitPauses_ : Z
}.
#[export] Instance eta_SnapshotScheduler : Eta SnapshotScheduler := fun s =>
  mkSched (s_cfg s) (failures_ s) (nextAllowedMs_ s) (budget_ s) (tokens_ s) (lastRefillMs_ s)
    (pauseUntilMs_ s) (requests_ s) (failuresTotal_ s) (rateLimitPauses_ s).

Definition newScheduler (numSymbols : nat) (cfg : SnapshotSchedulerConfig) : SnapshotScheduler :=
  let budget := dmax (d_of_Z (weightPerRequest cfg))
                     (dmul (d_of_Z (weightLimitPerMin cfg)) (budgetFraction cfg)) in
  mkSched cfg (replicate numSymbols 0) (replicate numSymbols 0) budget budget (-1) 0 0 0 0.

(** [v[i]] of a vector; an index out of range is undefined behaviour. *)
Definition vget (v : list Z) (i : nat) : Z := default 0 (v !! i).

Definition refill (nowMs : Z) (s : SnapshotScheduler) : SnapshotScheduler :=
  if lastRefillMs_ s <? 0 then s <| lastRefillMs_ := nowMs |>
  else if nowMs <=? lastRefillMs_ s then s
  else
    s <| tokens_ := dmin (budget_ s)
           (dadd (tokens_ s)
              (ddiv (dmul (budget_ s) (d_of_Z (nowMs - lastRefillMs_ s))) (d_of_Z 60000))) |>
      <| lastRefillMs_ := nowMs |>.

Definition pauseAll (nowMs ms : Z) (s : SnapshotScheduler) : SnapshotScheduler :=
  let s := if pauseUntilMs_ s <? nowMs + ms then s <| pauseUntilMs_ := nowMs + ms |> else s in
  s <| rateLimitPauses_ ::= Z.succ |>.

Definition checkUsedWeight (nowMs usedWeight1m : Z) (s : SnapshotScheduler) : SnapshotScheduler :=
  if usedWeight1m <? 0 then s
  else if dge (d_of_Z usedWeight1m)
              (dmul (d_of_Z (weightLimitPerMin (s_cfg s))) (usedWeightPauseFraction (s_cfg s)))
  then pauseAll nowMs (usedWeightPauseMs (s_cfg s)) s
  else s.

Definition tryAcquire (symIdx : nat) (nowMs : Z) (s : SnapshotScheduler) : bool * SnapshotScheduler :=
  let s := refill nowMs s in
  if nowMs <? pauseUntilMs_ s then (false, s)
  else if nowMs <? vget (nextAllowedMs_ s) symIdx then (false, s)
  else if dlt (tokens_ s) (d_of_Z (weightPerRequest (s_cfg s))) then (false, s)
  else (true, s <| tokens_ ::= fun t => dsub t (d_of_Z (weightPerRequest (s_cfg s))) |>
                <| requests_ ::= Z.succ |>).

Definition onFetchOk (nowMs usedWeight1m : Z) (s : SnapshotScheduler) : SnapshotScheduler :=
  checkUsedWeight nowMs usedWeight1m s.

(** The delay after [n] consecutive failures, with the jitter value [j]. *)
Definition failure_delay (cfg : SnapshotSchedulerConfig) (n : Z) (j : double) : Z :=
  let delay := backoff_delay 2 (initialBackoffMs cfg) (maxBackoffMs cfg) (Z.to_nat (n - 1)) in
  delay + Z_of_d (dmul (dmul (d_of_Z delay) (jitterFraction cfg)) j).

Definition onFailure (symIdx : nat) (nowMs httpStatus retryAfterSec usedWeight1m : Z) (jitter : double)
    (s : SnapshotScheduler) : SnapshotScheduler :=
  let n := vget (failures_ s) symIdx + 1 in
  let s := s <| failuresTotal_ ::= Z.succ |> <| failures_ ::= <[symIdx := n]> |>
             <| nextAllowedMs_ ::= <[symIdx := nowMs + failure_delay (s_cfg s) n jitter]> |> in
  let s :=
    if (httpStatus =? 429) || (httpStatus =? 418) then
      let floorMs := if httpStatus =? 418 then minPause418Ms (s_cfg s) else minPause429Ms (s_cfg s) in
      pauseAll nowMs (Z.max floorMs (retryAfterSec * 1000)) s
    else s in
  checkUsedWeight nowMs usedWeight1m s.

Definition onSynced (symIdx : nat) (s : SnapshotScheduler) : SnapshotScheduler :=
  s <| failures_ ::= <[symIdx := 0]> |> <| nextAllowedMs_ ::= <[symIdx := 0]> |>.

Definition consecutiveFailures (symIdx : nat) (s : SnapshotScheduler) : Z := vget (failures_ s) symIdx.
Definition nextAllowedMs (symIdx : nat) (s : SnapshotScheduler) : Z :=
  Z.max (vget (nextAllowedMs_ s) symIdx) (pauseUntilMs_ s).

(** ** Runs *)

Inductive sched_op :=
  | Acquire (symIdx : nat) (nowMs : Z)
  | FetchOk (nowMs usedWeight1m : Z)
  | Failure (symIdx : nat) (nowMs httpStatus retryAfterSec usedWeight1m : Z) (jitter : double)
  | Synced (symIdx : nat).

Definition sched_exec (s : SnapshotScheduler) (o : sched_op) : SnapshotScheduler :=
  match o with
  | Acquire i t => snd (tryAcquire i t s)
  | FetchOk t u => onFetchOk t u s
  | Failure i t st ra u j => onFailure i t st ra u j s
  | Synced i => onSynced i s
  end.
Definition sched_run (ops : list sched_op) (s : SnapshotScheduler) : SnapshotScheduler :=
  fold_left sched_exec ops s.

(** ** What the operations leave alone *)

Lemma pauseAll_requests nowMs ms s : requests_ (pauseAll nowMs ms s) = requests_ s.
Proof. unfold pauseAll. by case_match. Qed.
Lemma checkUsedWeight_requests nowMs u s : requests_ (checkUsedWeight nowMs u s) = requests_ s.
Proof. unfold checkUsedWeight. repeat case_match; by rewrite ?pauseAll_requests. Qed.
Lemma onFailure_requests i nowMs st ra u j s : requests_ (onFailure i nowMs st ra u j s) = requests_ s.
Proof. unfold onFailure. rewrite checkUsedWeight_requests. case_match; by rewrite ?pauseAll_requests. Qed.
Lemma onFetchOk_requests nowMs u s : requests_ (onFetchOk nowMs u s) = requests_ s.
Proof. apply checkUsedWeight_requests. Qed.
Lemma tryAcquire_requests i nowMs s :
  requests_ (snd (tryAcquire i nowMs s)) = requests_ s + (if fst (tryAcquire i nowMs s) then 1 else 0).
Proof.
  unfold tryAcquire. assert (requests_ (refill nowMs s) = requests_ s) as <-.
  { unfold refill. by repeat case_match. }
  generalize (refill nowMs s). intros s'.
  destruct (nowMs <? pauseUntilMs_ s'), (nowMs <? vget (nextAllowedMs_ s') i), (dlt (tokens_ s') (d_of_Z (weightPerRequest (s_cfg s'))));
    cbn [fst snd requests_ modify eta_SnapshotScheduler]; lia.
Qed.

Lemma refill_fields now s :
  let s' := refill now s in
  s_cfg s' = s_cfg s /\ failures_ s' = failures_ s /\ nextAllowedMs_ s' = nextAllowedMs_ s /\
  pauseUntilMs_ s' = pauseUntilMs_ s /\ requests_ s' = requests_ s.
Proof. unfold refill. by repeat case_match. Qed.

Lemma pauseAll_fields now ms s :
  let s' := pauseAll now ms s in
  s_cfg s' = s_cfg s /\ failures_ s' = failures_ s /\ nextAllowedMs_ s' = nextAllowedMs_ s /\
  pauseUntilMs_ s' = Z.max (pauseUntilMs_ s) (now + ms) /\ requests_ s' = requests_ s.
Proof.
  unfold pauseAll. destruct (Z.ltb_spec (pauseUntilMs_ s) (now + ms)); cbn; repeat split; lia.
Qed.

Lemma checkUsedWeight_fields now u s :
  let s' := checkUsedWeight now u s in
  s_cfg s' = s_cfg s /\ failures_ s' = failures_ s /\ nextAllowedMs_ s' = nextAllowedMs_ s /\
  pauseUntilMs_ s <= pauseUntilMs_ s' /\ requests_ s' = requests_ s.
Proof.
  unfold checkUsedWeight. destruct (u <? 0); [done|]. destruct (dge _ _); [|done].
  destruct (pauseAll_fields now (usedWeightPauseMs (s_cfg s)) s) as (-> & -> & -> & -> & ->).
  repeat split; lia.
Qed.

Lemma tryAcquire_fields i now s :
  let s' := snd (tryAcquire i now s) in
  s_cfg s' = s_cfg s /\ failures_ s' = failures_ s /\ nextAllowedMs_ s' = nextAllowedMs_ s /\
  pauseUntilMs_ s' = pauseUntilMs_ s.
Proof.
  unfold tryAcquire. destruct (refill_fields now s) as (H1 & H2 & H3 & H4 & _).
  repeat case_match; cbn; auto.
Qed.

Lemma onFailure_fields i now st ra u j s :
  let s' := onFailure i now st ra u j s in
  let n := vget (failures_ s) i + 1 in
  s_cfg s' = s_cfg s /\ failures_ s' = <[i := n]> (failures_ s) /\
  nextAllowedMs_ s' = <[i := now + failure_delay (s_cfg s) n j]> (nextAllowedMs_ s) /\
  pauseUntilMs_ s <= pauseUntilMs_ s' /\
  (st = 429 \/ st = 418 ->
   now + Z.max (if st =? 418 then minPause418Ms (s_cfg s) else minPause429Ms (s_cfg s)) (ra * 1000)
     <= pauseUntilMs_ s').
Proof.
  unfold onFailure. set (s1 := s <| failuresTotal_ ::= Z.succ |> <| failures_ ::= _ |> <| nextAllowedMs_ ::= _ |>).
  set (floor := if st =? 418 then _ else _).
  set (s2 := if (st =? 429) || (st =? 418) then pauseAll now (Z.max floor (ra * 1000)) s1 else s1).
  assert (s_cfg s2 = s_cfg s1 /\ failures_ s2 = failures_ s1 /\ nextAllowedMs_ s2 = nextAllowedMs_ s1 /\
    pauseUntilMs_ s1 <= pauseUntilMs_ s2 /\
    (st = 429 \/ st = 418 -> now + Z.max floor (ra * 1000) <= pauseUntilMs_ s2)) as (H1 & H2 & H3 & H4 & H5).
  { subst s2. destruct (pauseAll_fields now (Z.max floor (ra * 1000)) s1) as (E1 & E2 & E3 & E4 & _).
    destruct ((st =? 429) || (st =? 418)) eqn:E.
    - rewrite E1, E2, E3, E4. repeat split; lia.
    - repeat split; lia. }
  destruct (checkUsedWeight_fields now u s2) as (E1 & E2 & E3 & E4 & _). cbv zeta.
  rewrite E1, E2, E3, H1, H2, H3. change (pauseUntilMs_ s1) with (pauseUntilMs_ s) in H4.
  change (s_cfg s1) with (s_cfg s) in *.
  repeat split; try done; [lia|]. intros Hst. specialize (H5 Hst). subst floor. cbn in *. lia.
Qed.

(** A pause is never shortened. *)
Lemma sched_run_pause ops s : pauseUntilMs_ s <= pauseUntilMs_ (sched_run ops s).
Proof.
  unfold sched_run. revert s. induction ops as [|o ops IH]; intros s; cbn [fold_left]; [lia|].
  etrans; [|apply IH]. destruct o; cbn [sched_exec].
  - destruct (tryAcquire_fields symIdx nowMs s) as (_ & _ & _ & ->). lia.
  - unfold onFetchOk. by destruct (checkUsedWeight_fields nowMs usedWeight1m s) as (_ & _ & _ & ? & _).
  - by destruct (onFailure_fields symIdx nowMs httpStatus retryAfterSec usedWeight1m jitter s) as (_ & _ & _ & ? & _).
  - cbn. lia.
Qed.

Lemma tryAcquire_true i now s :
  fst (tryAcquire i now s) = true -> pauseUntilMs_ s <= now /\ vget (nextAllowedMs_ s) i <= now.
Proof.
  unfold tryAcquire. destruct (refill_fields now s) as (_ & _ & -> & -> & _).
  destruct (Z.ltb_spec now (pauseUntilMs_ s)); [done|].
  destruct (Z.ltb_spec now (vget (nextAllowedMs_ s) i)); [done|]. auto.
Qed.

(** C28: after HTTP 429 or 418 the handler stays silent. Whatever happens next
    (answers, failures, syncs of any symbol), no request of any symbol is
    allowed before the server's Retry-After has passed, and never before 60 s
    (429) or 300 s (418) with the default configuration. *)
Theorem rate_limit_pause_is_respected i t st ra u j s ops k now :
  st = 429 \/ st = 418 ->
  now < t + Z.max (if st =? 418 then minPause418Ms (s_cfg s) else minPause429Ms (s_cfg s)) (ra * 1000) ->
  fst (tryAcquire k now (sched_run ops (onFailure i t st ra u j s))) = false.
Proof.
  intros Hst Hnow. apply Bool.not_true_iff_false. intros [Hp _]%tryAcquire_true.
  pose proof (sched_run_pause ops (onFailure i t st ra u j s)).
  destruct (onFailure_fields i t st ra u j s) as (_ & _ & _ & _ & H5). specialize (H5 Hst). lia.
Qed.

Definition ex_sched : SnapshotScheduler := newScheduler 2 default_SnapshotSchedulerConfig.
Lemma rate_limit_pause_is_respected_witness :
  fst (tryAcquire 1 300999 (sched_run [Synced 0; FetchOk 5000 100]
    (onFailure 0 1000 418 10 (-1) d0 ex_sched))) = false /\
  fst (tryAcquire 1 301000 (onFailure 0 1000 418 10 (-1) d0 ex_sched)) = true.
Proof.
  split; [|vm_compute; reflexivity].
  apply (rate_limit_pause_is_respected 0 1000 418 10 (-1) d0 ex_sched); [right; reflexivity|vm_compute; reflexivity].
Defined.

(** ** Backoff *)

Lemma vget_insert_eq v i x : (i < length v)%nat -> vget (<[i := x]> v) i = x.
Proof. intros H. unfold vget. by rewrite list_lookup_insert_eq. Qed.
Lemma vget_insert_ne v i j x : i <> j -> vget (<[i := x]> v) j = vget v j.
Proof. intros H. unfold vget. by rewrite list_lookup_insert_ne. Qed.

Definition base_delay (cfg : SnapshotSchedulerConfig) (n : Z) : Z :=
  Z.min (maxBackoffMs cfg) (initialBackoffMs cfg * 2 ^ (n - 1)).

Lemma failure_delay_ge cfg n j :
  0 < initialBackoffMs cfg -> 0 <= maxBackoffMs cfg -> 1 <= n -> nonneg (jitterFraction cfg) -> nonneg j ->
  base_delay cfg n <= failure_delay cfg n j.
Proof.
  intros Hi Hm Hn Hf Hj. unfold failure_delay, base_delay, backoff_delay.
  rewrite backoff_loop_two, Z2Nat.id, Z.min_comm by lia.
  set (d := Z.min _ _).
  assert (0 <= d) by (pose proof (Z.pow_nonneg 2 (n - 1)); unfold d; nia).
  pose proof (Z_of_d_nonneg _ (dmul_nonneg _ _ (dmul_nonneg _ _ (d_of_Z_nonneg d ltac:(done)) Hf) Hj)). lia.
Qed.

Lemma base_delay_mono cfg n m : 0 <= initialBackoffMs cfg -> 1 <= n <= m -> base_delay cfg n <= base_delay cfg m.
Proof.
  intros Hi Hn. unfold base_delay. pose proof (Z.pow_le_mono_r 2 (n - 1) (m - 1) ltac:(lia) ltac:(lia)). nia.
Qed.

(** The events after a failure of symbol [i] at [t], until it syncs: time does
    not run backward and the jitter function returns no negative value. *)
Definition while_failing (i : nat) (t : Z) (o : sched_op) : Prop :=
  match o with
  | Failure k t' _ _ _ j => k = i -> t <= t' /\ nonneg j
  | Synced k => k <> i
  | _ => True
  end.

(** Symbol [i] has failed [n] times or more and must wait for [t + base_delay]. *)
Definition waiting (cfg : SnapshotSchedulerConfig) (i : nat) (n t : Z) (s : SnapshotScheduler) : Prop :=
  s_cfg s = cfg /\ (i < length (failures_ s))%nat /\ (i < length (nextAllowedMs_ s))%nat /\
  n <= vget (failures_ s) i /\ t + base_delay cfg n <= vget (nextAllowedMs_ s) i.

Section backoff.
Context (cfg : SnapshotSchedulerConfig) (i : nat) (n t : Z).
Hypothesis Hi : 0 < initialBackoffMs cfg.
Hypothesis Hm : 0 <= maxBackoffMs cfg.
Hypothesis Hj : nonneg (jitterFraction cfg).
Hypothesis Hn : 1 <= n.

Lemma onFailure_waiting s t' st ra u j :
  s_cfg s = cfg -> (i < length (failures_ s))%nat -> (i < length (nextAllowedMs_ s))%nat ->
  n <= vget (failures_ s) i + 1 -> t <= t' -> nonneg j ->
  waiting cfg i n t (onFailure i t' st ra u j s).
Proof.
  intros Hc H1 H2 Hnn Ht Hjj. destruct (onFailure_fields i t' st ra u j s) as (E1 & E2 & E3 & _).
  unfold waiting. rewrite E1, E2, E3, !length_insert, !vget_insert_eq, Hc by done.
  repeat (split; [done|]).
  pose proof (failure_delay_ge cfg (vget (failures_ s) i + 1) j Hi Hm ltac:(lia) Hj Hjj).
  pose proof (base_delay_mono cfg n (vget (failures_ s) i + 1) ltac:(lia) ltac:(lia)). lia.
Qed.

Lemma exec_waiting s o : while_failing i t o -> waiting cfg i n t s -> waiting cfg i n t (sched_exec s o).
Proof.
  intros Ho (Hc & H1 & H2 & H3 & H4). destruct o as [k t'|t' u|k t' st ra u j|k]; cbn [sched_exec while_failing] in *.
  - destruct (tryAcquire_fields k t' s) as (E1 & E2 & E3 & _). unfold waiting. by rewrite E1, E2, E3.
  - destruct (checkUsedWeight_fields t' u s) as (E1 & E2 & E3 & _). unfold waiting, onFetchOk. by rewrite E1, E2, E3.
  - destruct (decide (k = i)) as [->|Hk].
    + destruct (Ho eq_refl). apply onFailure_waiting; auto; lia.
    + destruct (onFailure_fields k t' st ra u j s) as (E1 & E2 & E3 & _).
      unfold waiting. by rewrite E1, E2, E3, !length_insert, !vget_insert_ne.
  - unfold waiting, onSynced. cbn. by rewrite !length_insert, !vget_insert_ne.
Qed.
End backoff.

(** C29: a failing symbol backs off. After its [n]-th failure in a row at time
    [t], whatever other symbols do, none of its requests is allowed before
    [t + min(max, initial * 2^(n-1))], until it syncs. *)
Theorem failures_back_off i t st ra u j s ops now :
  let n := vget (failures_ s) i + 1 in
  0 < initialBackoffMs (s_cfg s) -> 0 <= maxBackoffMs (s_cfg s) -> nonneg (jitterFraction (s_cfg s)) ->
  1 <= n -> (i < length (failures_ s))%nat -> (i < length (nextAllowedMs_ s))%nat -> nonneg j ->
  Forall (while_failing i t) ops ->
  now < t + base_delay (s_cfg s) n ->
  fst (tryAcquire i now (sched_run ops (onFailure i t st ra u j s))) = false.
Proof.
  intros n Hi Hm Hjf Hn H1 H2 Hj Hops Hnow. apply Bool.not_true_iff_false. intros [_ Hp]%tryAcquire_true.
  assert (waiting (s_cfg s) i n t (sched_run ops (onFailure i t st ra u j s))) as (_ & _ & _ & _ & Hw); [|lia].
  assert (waiting (s_cfg s) i n t (onFailure i t st ra u j s)) as Hw
    by (apply onFailure_waiting; auto; unfold n; lia).
  revert Hw. generalize (onFailure i t st ra u j s). unfold sched_run.
  clear Hp. induction Hops as [|o ops Ho _ IH]; intros s0 Hw; cbn [fold_left]; [done|].
  by apply IH, exec_waiting.
Qed.

Lemma failures_back_off_witness :
  let s := onFailure 0 500 0 0 (-1) (d_dec 5 1) (onFailure 0 100 0 0 (-1) d0 ex_sched) in
  vget (failures_ s) 0 = 2 /\
  fst (tryAcquire 0 10999 (sched_run [Synced 1; Acquire 1 8000] (onFailure 0 7000 0 0 (-1) d0 s))) = false.
Proof.
  intros s. assert (vget (failures_ s) 0 = 2) as Hf by (vm_compute; reflexivity). split; [exact Hf|].
  apply (failures_back_off 0 7000 0 0 (-1) d0 s); try (vm_compute; first [reflexivity|discriminate|done]);
    try (vm_compute; lia).
  repeat constructor. discriminate.
Defined.
