(* ===== verification/BookSide.v ===== *)
(** * One side of one order book

    [OrderBookManager::Side] of order_book_manager.hpp: the price levels a book
    knows on one side, sorted worst price first, with the snapshot horizon. The
    operations are [trim], [load] and [update]; the abstract specification is
    the exchange's own side, a function from prices to quantities, of which the
    side knows exactly the part inside its horizon. *)

From S2P Require Import Prelude Double Cxx.
From Stdlib Require Import Sorting.Permutation Sorted.

Open Scope nat_scope.

(** ** Data *)

Record PriceLevel := mkLevel { price : double; qty : double }.
#[export] Instance eta_PriceLevel : Eta PriceLevel := fun l => mkLevel (price l) (qty l).

Definition level_eqb (a b : PriceLevel) : bool := deq (price a) (price b) && deq (qty a) (qty b).
Definition isEmpty (l : PriceLevel) : bool := deq (price l) d0 && deq (qty l) d0.

(** [true] if price [a] is strictly better than price [b] on this side. *)
Definition better (isBid : bool) (a b : double) : bool := if isBid then dgt a b else dlt a b.

Record Side := mkSide { levels : list PriceLevel; bounded : bool; horizon : double }.
#[export] Instance eta_Side : Eta Side := fun s => mkSide (levels s) (bounded s) (horizon s).

Definition empty_side : Side := mkSide [] false d0.

Local Open Scope rec_scope.

(** ** Operations *)

Definition below (n : nat) (s : Side) : bool := bounded s && (length (levels s) <? n).

Definition inHorizon (isBid : bool) (p : double) (s : Side) : bool :=
  negb (bounded s) || negb (better isBid (horizon s) p).

(** [levels.front()]; only called on a non-empty vector. *)
Definition front_price (lv : list PriceLevel) : double :=
  match lv with l :: _ => price l | [] => d0 end.

Definition trim (maxLevels : nat) (s : Side) : Side :=
  if length (levels s) <=? maxLevels then s
  else
    let lv := drop (length (levels s) - maxLevels) (levels s) in
    mkSide lv true (front_price lv).

Definition load (isBid : bool) (snapshot : list PriceLevel) (snapshotLimit maxLevels : nat) : Side :=
  let kept := List.filter (fun l => dgt (qty l) d0) snapshot in
  let lv := std_sort (fun a b => better isBid (price b) (price a)) kept in
  let bnd := snapshotLimit <=? length snapshot in
  let hz := if bnd && negb (is_empty lv) then front_price lv else d0 in
  let bnd := if is_empty lv then false else bnd in
  trim maxLevels (mkSide lv bnd hz).

(** Binance semantics: [qty] is absolute, [qty] 0 removes the level. *)
Definition update (isBid : bool) (u : PriceLevel) (maxLevels : nat) (s : Side) : Side :=
  let it := lower_bound (fun l => better isBid (price u) (price l)) (levels s) in
  let found := match levels s !! it with Some l => deq (price l) (price u) | None => false end in
  if deq (qty u) d0 then
    if found then s <| levels ::= delete it |> else s
  else if found then s <| levels ::= alter (fun l => l <| qty := qty u |>) it |>
  else if negb (inHorizon isBid (price u) s) then s
  else trim maxLevels (s <| levels ::= fun lv => take it lv ++ u :: drop it lv |>).

(** The best [n] levels, best first: what [getQuote] reads from the back. *)
Definition top (n : nat) (s : Side) : list PriceLevel := take n (reverse (levels s)).

(** ** Well-formed sides *)

(** Worst price first, strictly. *)
Definition worst_first (isBid : bool) : list PriceLevel -> Prop :=
  StronglySorted (fun a b => better isBid (price b) (price a) = true).

Definition good_level (l : PriceLevel) : Prop := notnan (price l) /\ deq (qty l) d0 = false.

Record side_ok (isBid : bool) (maxLevels : nat) (s : Side) : Prop := {
  ok_sorted : worst_first isBid (levels s);
  ok_good : Forall good_level (levels s);
  ok_horizon : bounded s = true ->
    notnan (horizon s) /\ Forall (fun l => better isBid (horizon s) (price l) = false) (levels s);
  ok_length : length (levels s) <= maxLevels
}.

(** ** Looking a price up *)

Definition level_at (lv : list PriceLevel) (p : double) : option PriceLevel :=
  List.find (fun l => deq (price l) p) lv.
Definition qty_at (s : Side) (p : double) : option double := qty <$> level_at (levels s) p.

(** ** The exchange's side

    Every level the exchange holds, as a function of the price. Prices are
    compared as doubles, so the function respects [deq]. *)

Definition exch_side := double -> option double.

Record exch_ok (T : exch_side) : Prop := {
  exch_deq : forall p p', deq p p' = true -> T p = T p';
  exch_nonzero : forall p q, T p = Some q -> deq q d0 = false
}.

(** What the exchange does when a level changes. *)
Definition exch_update (u : PriceLevel) (T : exch_side) : exch_side := fun p =>
  if deq p (price u) then (if deq (qty u) d0 then None else Some (qty u)) else T p.

(** The side knows the exchange's side exactly inside its horizon, and holds
    nothing outside. *)
Definition knows (isBid : bool) (T : exch_side) (s : Side) : Prop :=
  forall p, notnan p -> qty_at s p = if inHorizon isBid p s then T p else None.

(** [lv] is the exchange's best [n] levels, best first. *)
Record is_top (isBid : bool) (T : exch_side) (n : nat) (lv : list PriceLevel) : Prop := {
  top_length : length lv <= n;
  top_sorted : StronglySorted (fun a b => better isBid (price a) (price b) = true) lv;
  top_true : Forall (fun l => T (price l) = Some (qty l)) lv;
  top_best : forall p q, notnan p -> T p = Some q ->
    (exists l, l ∈ lv /\ deq (price l) p = true) \/
    (length lv = n /\ Forall (fun l => better isBid (price l) p = true) lv)
}.

(** A REST snapshot of the exchange's side: at most [limit] levels, the best
    ones, and all of them if there are fewer than [limit]. *)
Record snapshot_of (isBid : bool) (T : exch_side) (limit : nat) (snap : list PriceLevel) : Prop := {
  snap_good : Forall (fun l => notnan (price l) /\ dgt (qty l) d0 = true) snap;
  snap_distinct : comparable (fun a b => better isBid (price b) (price a)) snap;
  snap_true : Forall (fun l => T (price l) = Some (qty l)) snap;
  snap_best : forall p q, notnan p -> T p = Some q ->
    (exists l, l ∈ snap /\ deq (price l) p = true) \/
    (limit <= length snap /\ Forall (fun l => better isBid (price l) p = true) snap)
}.

(** ** The order on prices of one side *)

Ltac sideorder :=
  unfold good_level, inHorizon in *; bools;
  unfold better in *; repeat case_match; dorder.

Section order.
Context (isBid : bool).
Local Notation "a ≻ b" := (better isBid a b = true) (at level 70).

Lemma better_irrefl a : better isBid a a = false.
Proof. sideorder. Qed.
Lemma better_trans a b c : a ≻ b -> b ≻ c -> a ≻ c.
Proof. intros. sideorder. Qed.
Lemma better_asym a b : a ≻ b -> better isBid b a = false.
Proof. intros. sideorder. Qed.
Lemma better_not_deq a b : a ≻ b -> deq a b = false.
Proof. intros. sideorder. Qed.
Lemma better_not_deq_r a b : a ≻ b -> deq b a = false.
Proof. intros. sideorder. Qed.
Lemma better_total a b : notnan a -> notnan b -> better isBid a b = false ->
  deq a b = false -> b ≻ a.
Proof. intros. sideorder. Qed.
Lemma better_deq_l a b c : deq a b = true -> better isBid a c = better isBid b c.
Proof. intros. apply Bool.eq_iff_eq_true. sideorder. Qed.
Lemma better_deq_r a b c : deq a b = true -> better isBid c a = better isBid c b.
Proof. intros. apply Bool.eq_iff_eq_true. sideorder. Qed.
Lemma better_le_trans a b c : notnan b -> better isBid b a = false -> b ≻ c -> notnan a -> a ≻ c.
Proof. intros. sideorder. Qed.
Lemma inHorizon_deq p p' s : deq p p' = true -> inHorizon isBid p s = inHorizon isBid p' s.
Proof. intros H. unfold inHorizon. by rewrite (better_deq_r _ _ _ H). Qed.
End order.

(** ** Lookup lemmas *)

Section lookup.
Context (isBid : bool).

Lemma level_at_app l1 l2 p :
  level_at (l1 ++ l2) p = match level_at l1 p with Some l => Some l | None => level_at l2 p end.
Proof.
  induction l1 as [|l l1 IH]; cbn; [done|]. by destruct (deq (price l) p).
Qed.

Lemma level_at_None lv p : Forall (fun l => deq (price l) p = false) lv -> level_at lv p = None.
Proof. induction 1 as [|l lv Hl _ IH]; cbn; [done|]. by rewrite Hl. Qed.

Lemma level_at_Some lv p l : level_at lv p = Some l -> l ∈ lv /\ deq (price l) p = true.
Proof.
  intros H. apply List.find_some in H as [Hin Hd]. split; [by apply list_elem_of_In|done].
Qed.

(** In a sorted side everything to the left of a level is worse and
    everything to the right better. *)
Lemma sorted_middle l1 m l2 :
  worst_first isBid (l1 ++ m :: l2) ->
  Forall (fun l => better isBid (price m) (price l) = true) l1 /\
  Forall (fun l => better isBid (price l) (price m) = true) l2.
Proof.
  intros (_ & H2 & H12)%sorted_app_iff. split.
  - eapply Forall_impl; [exact H12|]. intros l Hl. by inversion_clear Hl.
  - by apply StronglySorted_inv in H2 as [_ H2].
Qed.

Lemma level_at_middle_away l1 m l2 p :
  worst_first isBid (l1 ++ m :: l2) -> deq (price m) p = true -> level_at (l1 ++ l2) p = None.
Proof.
  intros Hs Hd. apply sorted_middle in Hs as [H1 H2].
  apply level_at_None, Forall_app. split; eapply Forall_impl; eauto; cbn; intros l Hl; sideorder.
Qed.

Lemma level_at_middle l1 m l2 p :
  worst_first isBid (l1 ++ m :: l2) ->
  level_at (l1 ++ m :: l2) p = if deq (price m) p then Some m else level_at (l1 ++ l2) p.
Proof.
  intros Hs. destruct (deq (price m) p) eqn:E.
  - pose proof (level_at_middle_away _ _ _ _ Hs E) as Hn.
    rewrite level_at_app in *. cbn. rewrite E.
    by destruct (level_at l1 p).
  - rewrite !level_at_app. cbn. by rewrite E.
Qed.

Lemma level_at_elem lv l p :
  worst_first isBid lv -> l ∈ lv -> deq (price l) p = true -> level_at lv p = Some l.
Proof.
  intros Hs (l1 & l2 & ->)%list_elem_of_split Hd.
  rewrite level_at_middle by done. by rewrite Hd.
Qed.

Lemma qty_at_Some s p q :
  qty_at s p = Some q -> exists l, l ∈ levels s /\ deq (price l) p = true /\ qty l = q.
Proof.
  unfold qty_at. intros (l & Hl & ->)%fmap_Some. apply level_at_Some in Hl as [? ?]. eauto.
Qed.

(** Where the binary search lands in a sorted side. *)
Lemma search_split lv p :
  worst_first isBid lv -> notnan p -> Forall (fun l => notnan (price l)) lv ->
  exists l1 l2, lv = l1 ++ l2 /\ split_by (fun l => better isBid p (price l)) l1 l2.
Proof.
  intros Hs Hp. induction lv as [|l lv IH]; intros Hn; [by exists [], []|].
  apply Forall_cons in Hn as [Hl Hn].
  apply StronglySorted_inv in Hs as [Hs Hall]. destruct (better isBid p (price l)) eqn:E.
  - destruct IH as (l1 & l2 & -> & H1 & H2); [done..|]. exists (l :: l1), l2.
    repeat split; [constructor|]; done.
  - exists [], (l :: lv). repeat split; [constructor|]. constructor; [done|].
    apply Forall_forall. intros x Hx. apply Bool.not_true_iff_false. intros Hb.
    pose proof (proj1 (Forall_forall _ _) Hall x Hx) as Hxl. cbn in Hxl.
    rewrite (better_trans isBid p (price x) (price l)) in E; done.
Qed.
End lookup.

(** ** [trim] *)

Section trim.
Context (isBid : bool) (maxLevels : nat).
Hypothesis Hmax : 0 < maxLevels.

Lemma trim_small s : length (levels s) <= maxLevels -> trim maxLevels s = s.
Proof. intros H. unfold trim. by rewrite (proj2 (Nat.leb_le _ _) H). Qed.

(** What [trim] removes, when it removes something: the worst levels. The
    first level that stays becomes the horizon. *)
Lemma trim_large s :
  maxLevels < length (levels s) ->
  exists gone l kept,
    levels s = gone ++ l :: kept /\ trim maxLevels s = mkSide (l :: kept) true (price l) /\
    length (l :: kept) = maxLevels.
Proof.
  intros H. unfold trim. rewrite (proj2 (Nat.leb_gt _ _) H).
  destruct (drop (length (levels s) - maxLevels) (levels s)) as [|l kept] eqn:E.
  - apply (f_equal length) in E. rewrite length_drop in E. cbn in E. lia.
  - exists (take (length (levels s) - maxLevels) (levels s)), l, kept.
    split; [by rewrite <-E, take_drop|]. split; [done|]. rewrite <-E, length_drop. lia.
Qed.

(** [trim] preserves what a side knows of the exchange's side. *)
Lemma trim_ok s :
  worst_first isBid (levels s) -> Forall good_level (levels s) ->
  (bounded s = true -> notnan (horizon s) /\
     Forall (fun l => better isBid (horizon s) (price l) = false) (levels s)) ->
  side_ok isBid maxLevels (trim maxLevels s).
Proof.
  intros Hs Hg Hh. destruct (decide (length (levels s) <= maxLevels)) as [Hl|Hl].
  { rewrite trim_small by done. by constructor. }
  destruct (trim_large s) as (gone & l & kept & E & -> & Hlen); [lia|].
  rewrite E in Hs, Hg. apply Forall_app in Hg as [_ Hg].
  pose proof (sorted_middle _ _ _ _ Hs) as [_ Hbest].
  apply sorted_app_iff in Hs as (_ & Hs & _).
  constructor; cbn [levels bounded horizon]; [done..| |lia].
  intros _. split; [by inversion_clear Hg as [|? ? [? _]]|].
  constructor; [apply better_irrefl|].
  eapply Forall_impl; [exact Hbest|]. intros x. apply better_asym.
Qed.

Lemma trim_knows T s :
  worst_first isBid (levels s) -> Forall good_level (levels s) ->
  (bounded s = true -> notnan (horizon s) /\
     Forall (fun l => better isBid (horizon s) (price l) = false) (levels s)) ->
  knows isBid T s -> knows isBid T (trim maxLevels s).
Proof.
  intros Hs Hg Hh HT. destruct (decide (length (levels s) <= maxLevels)) as [Hl|Hl].
  { by rewrite trim_small by done. }
  destruct (trim_large s) as (gone & l & kept & E & -> & Hlen); [lia|].
  rewrite E in Hs, Hg. intros p Hp. specialize (HT p Hp).
  unfold qty_at in *. cbn [levels] in *. rewrite E, level_at_app in HT.
  pose proof (sorted_middle _ _ _ _ Hs) as [Hgone Hbest].
  assert (notnan (price l)) as Hnl.
  { apply Forall_app in Hg as [_ Hg]. by inversion_clear Hg as [|? ? [? _]]. }
  unfold inHorizon at 1. cbn [bounded horizon negb orb].
  destruct (better isBid (price l) p) eqn:Ep; cbn [negb].
  - rewrite level_at_None; [done|]. constructor; [by apply (better_not_deq isBid)|].
    eapply Forall_impl; [exact Hbest|]. cbn. intros x Hx. sideorder.
  - rewrite level_at_None in HT.
    2:{ eapply Forall_impl; [exact Hgone|]. cbn. intros x Hx. sideorder. }
    rewrite HT. destruct (inHorizon isBid p s) eqn:Eh; [done|].
    exfalso. unfold inHorizon in Eh. bools. destruct Eh as [Hb Hh'].
    destruct (Hh Hb) as [Hnh Hall]. rewrite E in Hall.
    apply Forall_app in Hall as [_ Hall]. inversion_clear Hall as [|? ? Hlh _].
    cbn in Hlh. sideorder.
Qed.
End trim.

(** ** [update] *)

Section update.
Context (isBid : bool) (maxLevels : nat) (u : PriceLevel).

Local Abbreviation worse l := (better isBid (price u) (price l)).

Lemma update_found s l1 m l2 :
  levels s = l1 ++ m :: l2 -> split_by (fun l => worse l) l1 (m :: l2) ->
  deq (price m) (price u) = true ->
  update isBid u maxLevels s =
    s <| levels := if deq (qty u) d0 then l1 ++ l2 else l1 ++ m <| qty := qty u |> :: l2 |>.
Proof.
  intros E Hsp Hd. unfold update. rewrite E, (lower_bound_split _ _ _ Hsp).
  rewrite list_lookup_middle, Hd by done.
  unfold modify. rewrite E, delete_middle_eq, alter_middle_eq. by destruct (deq (qty u) d0).
Qed.

Lemma update_absent s l1 l2 :
  levels s = l1 ++ l2 -> split_by (fun l => worse l) l1 l2 ->
  Forall (fun l => deq (price l) (price u) = false) l2 ->
  update isBid u maxLevels s =
    if deq (qty u) d0 || negb (inHorizon isBid (price u) s) then s
    else trim maxLevels (s <| levels := l1 ++ u :: l2 |>).
Proof.
  intros E Hsp Hd. unfold update. rewrite E, (lower_bound_split _ _ _ Hsp).
  assert (match (l1 ++ l2) !! length l1 with
          | Some l => deq (price l) (price u) | None => false end = false) as ->.
  { rewrite lookup_app_r, Nat.sub_diag by lia. by destruct Hd. }
  unfold modify. rewrite E, take_app_length, drop_app_length.
  by destruct (deq (qty u) d0), (inHorizon isBid (price u) s).
Qed.

Hypothesis Hu : notnan (price u).

(** The two situations of an update: the price is known or it is not. *)
Lemma update_cases s :
  worst_first isBid (levels s) -> Forall good_level (levels s) ->
  exists l1 l2, split_by (fun l => worse l) l1 l2 /\
    ((exists m l2', l2 = m :: l2' /\ levels s = l1 ++ m :: l2' /\
        deq (price m) (price u) = true) \/
     (levels s = l1 ++ l2 /\ Forall (fun l => deq (price l) (price u) = false) l2 /\
        worst_first isBid (l1 ++ u :: l2))).
Proof.
  intros Hs Hg.
  destruct (search_split isBid (levels s) (price u)) as (l1 & l2 & E & Hsp); [done..| |].
  { eapply Forall_impl; [exact Hg|]. by intros l []. }
  exists l1, l2. split; [done|]. destruct Hsp as [H1 H2].
  destruct l2 as [|m l2].
  { right. rewrite E. repeat split; [constructor|].
    rewrite E, app_nil_r in Hs. apply sorted_app_iff. repeat split; [done|by repeat constructor|].
    eapply Forall_impl; [exact H1|]. cbn. by repeat constructor. }
  destruct (deq (price m) (price u)) eqn:Hd; [left; by eauto|]. right.
  rewrite E in Hs, Hg. pose proof (sorted_middle _ _ _ _ Hs) as [_ Hbest].
  assert (better isBid (price m) (price u) = true) as Hmu.
  { apply Forall_app in Hg as [_ Hg]. inversion_clear Hg as [|? ? [Hm _] _].
    inversion_clear H2. apply better_total; [done..|]. by rewrite deq_sym. }
  assert (Forall (fun l => better isBid (price l) (price u) = true) (m :: l2)) as Hall.
  { constructor; [done|]. eapply Forall_impl; [exact Hbest|]. cbn. eauto using better_trans. }
  split; [done|]. split.
  { eapply Forall_impl; [exact Hall|]. intros l. apply better_not_deq. }
  apply sorted_app_iff in Hs as (Hs1 & Hs2 & Hs12). apply sorted_app_iff.
  split; [done|]. split; [by constructor|].
  apply Forall_forall. intros x Hx. constructor.
  - by apply (proj1 (Forall_forall _ _) H1).
  - by apply (proj1 (Forall_forall _ _) Hs12).
Qed.

Lemma horizon_subset s l1 l2 m :
  levels s = l1 ++ m :: l2 ->
  Forall (fun l => better isBid (horizon s) (price l) = false) (levels s) ->
  Forall (fun l => better isBid (horizon s) (price l) = false) (l1 ++ l2) /\
  better isBid (horizon s) (price m) = false.
Proof.
  intros ->. rewrite !Forall_app, Forall_cons. tauto.
Qed.

(** The level an insertion adds lies inside the horizon. *)
Lemma insert_horizon s l1 l2 :
  levels s = l1 ++ l2 -> inHorizon isBid (price u) s = true ->
  (bounded s = true -> notnan (horizon s) /\
     Forall (fun l => better isBid (horizon s) (price l) = false) (levels s)) ->
  (bounded s = true -> notnan (horizon s) /\
     Forall (fun l => better isBid (horizon s) (price l) = false) (l1 ++ u :: l2)).
Proof.
  intros E Hin Hh Hb. destruct (Hh Hb) as [Hnh Hall]. split; [done|].
  rewrite E in Hall. apply Forall_app in Hall as [? ?]. apply Forall_app. split; [done|].
  constructor; [|done]. unfold inHorizon in Hin. rewrite Hb in Hin.
  cbn [negb orb] in Hin. by apply Bool.negb_true_iff.
Qed.

Hypothesis Hmax : 0 < maxLevels.

Lemma update_side_ok s : side_ok isBid maxLevels s -> side_ok isBid maxLevels (update isBid u maxLevels s).
Proof.
  intros [Hs Hg Hh Hl].
  destruct (update_cases s Hs Hg) as (l1 & l2 & Hsp & [(m & l2' & -> & E & Hd)|(E & Hd & Hs')]).
  - rewrite (update_found s l1 m l2') by done. rewrite E in Hs, Hg, Hl.
    rewrite length_app in Hl. cbn in Hl.
    assert (bounded s = true -> notnan (horizon s) /\
      Forall (fun l => better isBid (horizon s) (price l) = false) (l1 ++ l2') /\
      better isBid (horizon s) (price m) = false) as Hh'.
    { intros Hb. destruct (Hh Hb). split; [done|]. by apply horizon_subset. }
    apply sorted_app_iff in Hs as (Hs1 & Hs2 & Hs12).
    apply Forall_app in Hg as [Hg1 Hg2]. apply Forall_cons in Hg2 as [[Hgm _] Hg2].
    apply StronglySorted_inv in Hs2 as [Hs2 Hsm].
    destruct (deq (qty u) d0) eqn:Eq; constructor; cbn [levels bounded horizon modify].
    + apply sorted_app_iff. split; [done|]. split; [done|].
      eapply Forall_impl; [exact Hs12|]. intros x Hx. by inversion_clear Hx.
    + by apply Forall_app.
    + intros Hb. destruct (Hh' Hb) as (? & ? & ?). done.
    + rewrite length_app. lia.
    + apply sorted_app_iff. split; [done|]. split; [by constructor|].
      eapply Forall_impl; [exact Hs12|]. intros x Hx. inversion_clear Hx. by constructor.
    + apply Forall_app. split; [done|]. by constructor.
    + intros Hb. destruct (Hh' Hb) as (? & Hall & ?). split; [done|].
      apply Forall_app in Hall as [? ?]. apply Forall_app. split; [done|]. by constructor.
    + rewrite length_app. cbn. lia.
  - rewrite (update_absent s l1 l2) by done.
    destruct (deq (qty u) d0) eqn:Eq; cbn [orb]; [by constructor|].
    destruct (inHorizon isBid (price u) s) eqn:Ei; cbn [negb]; [|by constructor].
    apply trim_ok; cbn [levels bounded horizon modify]; [done|done| |by apply insert_horizon].
    rewrite E in Hg. apply Forall_app in Hg as [? ?]. apply Forall_app. split; [done|].
    by constructor.
Qed.
End update.

Lemma exch_update_ok u T : exch_ok T -> exch_ok (exch_update u T).
Proof.
  intros [Hd Hn]. constructor.
  - intros p p' H. unfold exch_update.
    replace (deq p' (price u)) with (deq p (price u)) by (apply Bool.eq_iff_eq_true; dorder).
    by rewrite (Hd _ _ H).
  - intros p q. unfold exch_update. destruct (deq p (price u)); [|apply Hn].
    destruct (deq (qty u) d0) eqn:E; [done|]. by intros [= <-].
Qed.

(** ** [update] keeps the side in step with the exchange *)

Section update_knows.
Context (isBid : bool) (maxLevels : nat) (u : PriceLevel) (T : exch_side).
Hypothesis Hmax : 0 < maxLevels.
Hypothesis Hu : notnan (price u).

Lemma knows_at s p : knows isBid T s -> notnan p ->
  qty_at s p = if inHorizon isBid p s then T p else None.
Proof. auto. Qed.

(** The price is known: its level is replaced or removed. *)
Lemma update_found_knows s l1 m l2' :
  side_ok isBid maxLevels s -> knows isBid T s ->
  split_by (fun l => better isBid (price u) (price l)) l1 (m :: l2') -> levels s = l1 ++ m :: l2' ->
  deq (price m) (price u) = true ->
  knows isBid (exch_update u T) (update isBid u maxLevels s).
Proof.
  intros [Hs Hg Hh Hl] HT Hsp E Hd.
  rewrite (update_found isBid maxLevels u s l1 m l2') by done.
  assert (forall p, notnan p -> deq p (price u) = true -> inHorizon isBid p s = true) as Hin.
  { intros p Hp Hpu. rewrite (inHorizon_deq _ _ (price m) s) by dorder. unfold inHorizon.
    destruct (bounded s) eqn:Hb; [|done]. destruct (Hh eq_refl) as [_ Hall].
    rewrite E in Hall. apply Forall_app in Hall as [_ Hall]. inversion_clear Hall as [|? ? Hmh _].
    cbn in Hmh. by rewrite Hmh. }
  intros p Hp. specialize (HT p Hp). unfold exch_update.
  change (inHorizon isBid p (s <| levels := _ |>)) with (inHorizon isBid p s).
  unfold qty_at in *. cbn [levels modify]. rewrite E in *.
  pose proof (level_at_middle _ _ _ _ p Hs) as Hm. rewrite Hm in HT.
  destruct (deq p (price u)) eqn:Hpu.
  + rewrite Hin by done.
    assert (deq (price m) p = true) as Hmp by dorder.
    destruct (deq (qty u) d0).
    * by rewrite (level_at_middle_away isBid l1 m).
    * rewrite (level_at_middle isBid); [cbn; by rewrite Hmp|].
      apply sorted_app_iff in Hs as (Hs1 & Hs2 & Hs12). apply sorted_app_iff.
      split; [done|]. apply StronglySorted_inv in Hs2 as [? ?].
      split; [by constructor|]. eapply Forall_impl; [exact Hs12|].
      intros x Hx. inversion_clear Hx. by constructor.
  + rewrite <-HT. assert (deq (price m) p = false) as Hmp by dorder. rewrite Hmp.
    destruct (deq (qty u) d0); [done|].
    rewrite !level_at_app. cbn. by rewrite Hmp.
Qed.

(** The price is unknown: a new level inside the horizon, or nothing. *)
Lemma update_absent_knows s l1 l2 :
  side_ok isBid maxLevels s -> knows isBid T s ->
  split_by (fun l => better isBid (price u) (price l)) l1 l2 -> levels s = l1 ++ l2 ->
  Forall (fun l => deq (price l) (price u) = false) l2 -> worst_first isBid (l1 ++ u :: l2) ->
  knows isBid (exch_update u T) (update isBid u maxLevels s).
Proof.
  intros [Hs Hg Hh Hl] HT Hsp E Hd Hs'.
  rewrite (update_absent isBid maxLevels u s l1 l2) by done.
  assert (forall p, deq p (price u) = true -> level_at (l1 ++ l2) p = None) as Hnone.
  { intros p Hp. apply (level_at_middle_away isBid l1 u); [done|]. by rewrite deq_sym. }
  destruct (deq (qty u) d0) eqn:Eq; cbn [orb].
  { intros p Hp. specialize (HT p Hp). unfold exch_update. rewrite Eq.
    destruct (deq p (price u)) eqn:Hpu; [|done].
    unfold qty_at. rewrite E, Hnone by done. by destruct (inHorizon _ _ _). }
  destruct (inHorizon isBid (price u) s) eqn:Ei; cbn [negb].
  2:{ intros p Hp. specialize (HT p Hp). unfold exch_update.
      destruct (deq p (price u)) eqn:Hpu; [|done].
      unfold qty_at. rewrite E, Hnone by done.
      rewrite (inHorizon_deq isBid p (price u)) by done. by rewrite Ei. }
  apply trim_knows; cbn [levels bounded horizon modify]; [done|done| |by apply insert_horizon|].
  { rewrite E in Hg. apply Forall_app in Hg as [? ?]. apply Forall_app. split; [done|].
    by constructor. }
  intros p Hp. specialize (HT p Hp). unfold exch_update.
  change (inHorizon isBid p (s <| levels := _ |>)) with (inHorizon isBid p s).
  unfold qty_at in *. cbn [levels modify]. rewrite (level_at_middle isBid) by done.
  rewrite (deq_sym p), Eq. destruct (deq (price u) p) eqn:Hpu.
  + rewrite (inHorizon_deq isBid p (price u)) by (by rewrite deq_sym). by rewrite Ei.
  + by rewrite <-E.
Qed.

Lemma update_knows s :
  side_ok isBid maxLevels s -> knows isBid T s ->
  knows isBid (exch_update u T) (update isBid u maxLevels s).
Proof.
  intros Hok HT. pose proof Hok as [Hs Hg _ _].
  destruct (update_cases isBid u Hu s Hs Hg)
    as (l1 & l2 & Hsp & [(m & l2' & -> & E & Hd)|(E & Hd & Hs')]);
    [by eapply update_found_knows|by eapply update_absent_knows].
Qed.
End update_knows.

(** ** [load] *)

Section load.
Context (isBid : bool) (T : exch_side) (limit maxLevels : nat) (snap : list PriceLevel).
Hypothesis Hmax : 0 < maxLevels.
Hypothesis Hlimit : 0 < limit.
Hypothesis HT : exch_ok T.
Hypothesis Hsnap : snapshot_of isBid T limit snap.

Let cmp := fun a b => better isBid (price b) (price a).
Let loaded := mkSide (std_sort cmp snap) (limit <=? length snap)
                (if limit <=? length snap then front_price (std_sort cmp snap) else d0).

Lemma load_eq : load isBid snap limit maxLevels = trim maxLevels loaded.
Proof.
  destruct Hsnap as [Hgood _ _ _]. unfold load, loaded. fold cmp.
  assert (List.filter (fun l => dgt (qty l) d0) snap = snap) as ->.
  { clear -Hgood. induction Hgood as [|l snap [_ Hl] _ IH]; cbn; [done|]. by rewrite Hl, IH. }
  pose proof (Permutation_length (std_sort_perm cmp snap)) as Hlen.
  destruct (std_sort cmp snap) eqn:E; cbn [is_empty negb]; [|by rewrite andb_true_r].
  rewrite andb_false_r. cbn in Hlen. rewrite (proj2 (Nat.leb_gt _ _)) by lia. done.
Qed.

Lemma loaded_sorted : worst_first isBid (levels loaded).
Proof.
  apply std_sort_sorted; [|apply Hsnap]. unfold cmp. intros a b c H1 H2.
  by apply (better_trans isBid _ (price b)).
Qed.

Lemma loaded_good : Forall good_level (levels loaded).
Proof.
  cbn. rewrite std_sort_perm. eapply Forall_impl; [apply Hsnap|].
  intros l [? ?]. split; [done|]. dorder.
Qed.

Lemma loaded_horizon : bounded loaded = true -> notnan (horizon loaded) /\
  Forall (fun l => better isBid (horizon loaded) (price l) = false) (levels loaded).
Proof.
  pose proof loaded_sorted as Hs. pose proof loaded_good as Hg.
  unfold loaded in *. cbn [bounded horizon levels] in *. intros Hb. rewrite Hb.
  destruct (std_sort cmp snap) as [|l lv] eqn:E; cbn [front_price].
  { split; [done|constructor]. }
  split; [by inversion_clear Hg as [|? ? []]|].
  apply StronglySorted_inv in Hs as [_ Hs]. constructor; [apply better_irrefl|].
  eapply Forall_impl; [exact Hs|]. intros x. apply better_asym.
Qed.

Lemma loaded_knows : knows isBid T loaded.
Proof.
  pose proof loaded_sorted as Hs. pose proof loaded_horizon as Hh.
  assert (forall l, l ∈ levels loaded <-> l ∈ snap) as Hin.
  { intros l. cbn. by rewrite std_sort_perm. }
  intros p Hp. destruct (qty_at loaded p) as [q|] eqn:E.
  - apply qty_at_Some in E as (l & Hl & Hd & <-).
    assert (inHorizon isBid p loaded = true) as ->.
    { rewrite <-(inHorizon_deq isBid _ _ _ Hd). unfold inHorizon.
      destruct (bounded loaded); [|done]. destruct (Hh eq_refl) as [_ Hall].
      by rewrite (proj1 (Forall_forall _ _) Hall l Hl). }
    apply Hin in Hl. rewrite <-(exch_deq T HT _ _ Hd). symmetry.
    by apply (proj1 (Forall_forall _ _) (snap_true _ _ _ _ Hsnap)).
  - destruct (inHorizon isBid p loaded) eqn:Ei; [|done].
    destruct (T p) as [q|] eqn:Et; [|done]. exfalso.
    destruct (snap_best _ _ _ _ Hsnap p q Hp Et) as [(l & Hl & Hd)|[Hlen Hall]].
    + apply Hin in Hl. unfold qty_at in E.
      by rewrite (level_at_elem isBid _ l) in E.
    + unfold inHorizon, loaded in Ei. cbn [bounded horizon] in Ei.
      rewrite (proj2 (Nat.leb_le _ _) Hlen) in Ei. cbn [negb orb] in Ei.
      destruct (std_sort cmp snap) as [|l lv] eqn:Es.
      { pose proof (Permutation_length (std_sort_perm cmp snap)) as Hz.
        rewrite Es in Hz. cbn in Hz. lia. }
      assert (l ∈ snap) as Hl by (apply (proj1 (Hin l)); left).
      pose proof (proj1 (Forall_forall _ _) Hall l Hl) as Hlp. cbn in Hlp, Ei.
      by rewrite Hlp in Ei.
Qed.

Lemma load_side_ok : side_ok isBid maxLevels (load isBid snap limit maxLevels).
Proof.
  rewrite load_eq. apply trim_ok; auto using loaded_sorted, loaded_good, loaded_horizon.
Qed.

Lemma load_knows : knows isBid T (load isBid snap limit maxLevels).
Proof.
  rewrite load_eq.
  apply trim_knows; auto using loaded_sorted, loaded_good, loaded_horizon, loaded_knows.
Qed.
End load.

(** ** The best levels *)

Section best.
Context (isBid : bool) (T : exch_side) (maxLevels n : nat) (s : Side).

Lemma sorted_reverse (lv : list PriceLevel) : worst_first isBid lv ->
  StronglySorted (fun a b => better isBid (price a) (price b) = true) (reverse lv).
Proof.
  induction lv as [|l lv IH]; [constructor|]. intros [Hs Hl]%StronglySorted_inv.
  rewrite reverse_cons. apply sorted_app_iff. split; [by apply IH|].
  split; [by repeat constructor|]. rewrite reverse_Permutation.
  eapply Forall_impl; [exact Hl|]. cbn. by repeat constructor.
Qed.

Lemma top_is_top :
  side_ok isBid maxLevels s -> exch_ok T -> knows isBid T s -> below n s = false ->
  is_top isBid T n (top n s).
Proof.
  intros [Hs Hg Hh _] HT Hk Hb. unfold top.
  pose proof (sorted_reverse _ Hs) as Hr.
  assert (length (reverse (levels s)) = length (levels s)) as Hlen by apply length_reverse.
  constructor.
  - rewrite length_take. lia.
  - rewrite <-(take_drop n (reverse (levels s))) in Hr. by apply sorted_app_iff in Hr as [? _].
  - apply Forall_take. rewrite reverse_Permutation. apply Forall_forall. intros l Hl.
    pose proof (proj1 (Forall_forall _ _) Hg l Hl) as [Hnan _].
    specialize (Hk (price l) Hnan). unfold qty_at in Hk.
    rewrite (level_at_elem isBid _ l) in Hk; [|done|done|by apply deq_refl].
    destruct (inHorizon isBid (price l) s); [by rewrite <-Hk|done].
  - intros p q Hp Ht. specialize (Hk p Hp). rewrite Ht in Hk.
    destruct (inHorizon isBid p s) eqn:Ei.
    + apply qty_at_Some in Hk as (l & Hl & Hd & _).
      assert (l ∈ reverse (levels s)) as Hl' by (by rewrite reverse_Permutation).
      rewrite <-(take_drop n (reverse (levels s))) in Hl', Hr.
      apply elem_of_app in Hl' as [Hl'|Hl']; [left; by eauto|right].
      apply sorted_app_iff in Hr as (_ & _ & Hr).
      assert (n < length (reverse (levels s))).
      { destruct (drop n (reverse (levels s))) eqn:Ed; [by apply elem_of_nil in Hl'|].
        apply (f_equal length) in Ed. rewrite length_drop in Ed. cbn in Ed. lia. }
      split; [rewrite length_take; lia|]. eapply Forall_impl; [exact Hr|]. cbn. intros x Hx.
      pose proof (proj1 (Forall_forall _ _) Hx l Hl') as Hxl. cbn in Hxl.
      by rewrite <-(better_deq_r isBid _ _ _ Hd).
    + right. unfold inHorizon in Ei. unfold below in Hb.
      destruct (bounded s) eqn:Hbd; [|done]. cbn [negb orb andb] in *.
      apply Nat.ltb_ge in Hb. split; [rewrite length_take; lia|].
      apply Forall_take. rewrite reverse_Permutation. apply Forall_forall. intros l Hl.
      destruct (Hh eq_refl) as [Hnh Hall].
      pose proof (proj1 (Forall_forall _ _) Hall l Hl) as Hlh.
      pose proof (proj1 (Forall_forall _ _) Hg l Hl) as [Hnan _]. cbn in Hlh.
      apply Bool.negb_false_iff in Ei. by apply (better_le_trans isBid _ (horizon s)).
Qed.
End best.
