(* ===== verification/RestClient.v ===== *)
(** * REST requests and depth snapshots (rest_client.hpp)

    The HTTPS exchange itself (Boost.Beast and OpenSSL) is the class [HttpLib]:
    a response or the text of the exception. What the client makes of it (status
    and headers, the snapshot body) is modelled. *)

From S2P Require Import Prelude Double CStdlib JsonReader BookSide.

Open Scope Z_scope.
Local Open Scope rec_scope.

Record SnapshotData := mkSnapshotData {
  sd_lastUpdateId : Z;
  sd_bids : list PriceLevel;
  sd_asks : list PriceLevel;
  sd_success : bool;
  sd_error : string;
  sd_httpStatus : Z;
  sd_retryAfterSec : Z;
  sd_usedWeight1m : Z
}.
#[export] Instance eta_SnapshotData : Eta SnapshotData := fun d =>
  mkSnapshotData (sd_lastUpdateId d) (sd_bids d) (sd_asks d) (sd_success d) (sd_error d)
    (sd_httpStatus d) (sd_retryAfterSec d) (sd_usedWeight1m d).
Definition empty_SnapshotData : SnapshotData := mkSnapshotData 0 [] [] false "" 0 0 (-1).

Record HttpResult := mkHttpResult {
  hr_status : Z; hr_body : string; hr_retryAfterSec : Z; hr_usedWeight1m : Z; hr_error : string
}.
Definition empty_HttpResult : HttpResult := mkHttpResult 0 "" 0 (-1) "".

(** What the HTTP library gives for one GET: a response with its header fields,
    or an exception. *)
Inductive HttpReply :=
  | Response (status : Z) (headers : string -> option string) (body : string)
  | Exception (what : string).

Class HttpLib (W : Type) := {
  http_get : string -> string -> string -> W -> HttpReply * W
}.

Record RestClient := mkRestClient { rc_host : string; rc_port : string; rc_path : string }.
Definition default_RestClient : RestClient := mkRestClient "api.binance.com" "443" "/api/v3/depth".

(** Integer value of a response header, or [dflt] if absent / not a number. *)
Definition headerInt (headers : string -> option string) (name : string) (dflt : Z) : Z :=
  match headers name with
  | None => dflt
  | Some v => default dflt (stoi v)
  end.

Section client.
Context {W V : Type} `{HttpLib W} `{JsonLib V}.

Definition get (c : RestClient) (target : string) (w : W) : HttpResult * W :=
  if String.eqb (rc_host c) "" then
    (mkHttpResult 0 "" 0 (-1) "REST client has no host configured", w)
  else
    let '(r, w) := http_get (rc_host c) (rc_port c) target w in
    (match r with
     | Response status headers body =>
         mkHttpResult status body (headerInt headers "Retry-After" 0)
           (headerInt headers "X-MBX-USED-WEIGHT-1M" (-1)) ""
     | Exception what => mkHttpResult 0 "" 0 (-1) what
     end, w).

(** The levels of one side: malformed ones are skipped. *)
Definition parse_levels (arr : list V) : list PriceLevel :=
  omap (fun lvl => (fun p => mkLevel (fst p) (snd p)) <$> parseLevelPair lvl) arr.

(** [parseSnapshotResponse]: fills [result]. A dereference of an empty
    optional, which the checks exclude, is the case that leaves it alone. *)
Definition parseSnapshotResponse (body : string) (result : SnapshotData) : SnapshotData :=
  match json_parse body with
  | inr e => result <| sd_error := ("JSON parse error: " +:+ e)%string |>
  | inl doc =>
      match as_object doc with
      | None => result <| sd_error := "Response not a JSON object" |>
      | Some o =>
          match o "code" with
          | Some c =>
              let code := match as_int c with Some i => i | None => 0 end in
              let apiMsg := match o "msg" with
                            | Some m => default "" (as_string m) | None => ""%string end in
              result <| sd_error := ("API error " +:+ to_string code +:+ ": " +:+ apiMsg)%string |>
          | None =>
              let r := bind_reader doc in
              let '(lastId, r) := int64 "lastUpdateId" r in
              let '(bidsArr, r) := array "bids" r in
              let '(asksArr, r) := array "asks" r in
              if hasError r then
                result <| sd_error := ("Snapshot schema error: " +:+ lastError r)%string |>
              else
                match lastId, bidsArr, asksArr with
                | Some id, Some b, Some a =>
                    result <| sd_lastUpdateId := id |> <| sd_bids := parse_levels b |>
                      <| sd_asks := parse_levels a |> <| sd_success := true |>
                | _, _, _ => result
                end
          end
      end
  end.

Definition fetchSnapshot (c : RestClient) (symbol : string) (limit : Z) (w : W) : SnapshotData * W :=
  let target := (rc_path c +:+ "?symbol=" +:+ symbol +:+ "&limit=" +:+ to_string limit)%string in
  let '(r, w) := get c target w in
  let result := empty_SnapshotData <| sd_httpStatus := hr_status r |>
                  <| sd_retryAfterSec := hr_retryAfterSec r |> <| sd_usedWeight1m := hr_usedWeight1m r |> in
  (if negb (String.eqb (hr_error r) "") then result <| sd_error := hr_error r |>
   else if negb (hr_status r =? 200) then
     result <| sd_error := ("HTTP " +:+ to_string (hr_status r))%string |>
   else parseSnapshotResponse (hr_body r) result, w).

(** ** Results are well formed *)

(** What a body must be for the snapshot to be used. *)
Definition snapshot_body (body : string) (id : Z) (b a : list V) : Prop :=
  exists doc o lid lb la, json_parse body = inl doc /\ as_object doc = Some o /\ o "code" = None /\
    o "lastUpdateId" = Some lid /\ as_int64 lid = Some id /\
    o "bids" = Some lb /\ as_array lb = Some b /\ o "asks" = Some la /\ as_array la = Some a.

Lemma parseSnapshotResponse_spec body res :
  sd_error res = ""%string -> sd_success res = false ->
  let d := parseSnapshotResponse body res in
  sd_httpStatus d = sd_httpStatus res /\
  ((sd_success d = true /\ sd_error d = ""%string /\
    exists id b a, snapshot_body body id b a /\
      sd_lastUpdateId d = id /\ sd_bids d = parse_levels b /\ sd_asks d = parse_levels a) \/
   (sd_success d = false /\ sd_error d <> ""%string /\
    sd_bids d = sd_bids res /\ sd_asks d = sd_asks res /\ sd_lastUpdateId d = sd_lastUpdateId res)).
Proof.
  intros He Hs. unfold parseSnapshotResponse.
  destruct (json_parse body) as [doc|e] eqn:Ed; [|split; [done|right]; cbn; done].
  destruct (as_object doc) as [o|] eqn:Eo; [|split; [done|right]; cbn; done].
  destruct (o "code") eqn:Ec; [split; [done|right]; cbn; done|].
  unfold bind_reader. rewrite Eo.
  unfold int64, array.
  destruct (access_reader "int64" as_int64 (not_a "not an int64") "lastUpdateId" o "") as
    (x1 & e1 & E1 & N1 & K1 & S1); [intros; by apply not_a_nonempty|]. rewrite E1.
  destruct (access_reader "array" as_array (not_a "not an array") "bids" o e1) as
    (x2 & e2 & E2 & N2 & K2 & S2); [intros; by apply not_a_nonempty|]. rewrite E2.
  destruct (access_reader "array" as_array (not_a "not an array") "asks" o e2) as
    (x3 & e3 & E3 & N3 & K3 & S3); [intros; by apply not_a_nonempty|]. rewrite E3.
  unfold hasError, lastError. cbn [r_err].
  destruct (String.eqb_spec e3 "") as [->|He3]; cbn [negb]; [|split; [done|right]; cbn; done].
  destruct x3 as [a|]; [|by destruct N3]. specialize (S3 a eq_refl). subst e2.
  destruct x2 as [b|]; [|by destruct N2]. specialize (S2 b eq_refl). subst e1.
  destruct x1 as [id|]; [|by destruct N1].
  apply access_Some in E1 as (lid & ? & ?), E2 as (lb & ? & ?), E3 as (la & ? & ?).
  split; [done|left]. split; [done|]. split; [done|]. exists id, b, a.
  split; [|done]. exists doc, o, lid, lb, la. done.
Qed.

End client.
