(* ===== verification/SnapshotWorker.v ===== *)
(** * The snapshot thread and its queues (snapshot_worker.hpp)

    [BoundedQueue] with its drop-oldest and shutdown behaviour; [SnapshotWorker]
    as a step relation: the handler's thread enqueues requests and drains
    results, the worker thread pops, fetches and pushes, in any interleaving.
    Each queue operation is one step, as its mutex makes it. *)

From S2P Require Import Prelude Double CStdlib JsonReader BookSide RestClient.

Open Scope Z_scope.
Local Open Scope rec_scope.

(** ** The queue *)

Record BoundedQueue (T : Type) := mkQueue { q_ : list T; q_capacity : nat; q_shutdown : bool }.
Arguments mkQueue {T} q_ q_capacity q_shutdown.
Arguments q_ {T} b.
Arguments q_capacity {T} b.
Arguments q_shutdown {T} b.
#[export] Instance eta_BoundedQueue T : Eta (BoundedQueue T) := fun q =>
  mkQueue (q_ q) (q_capacity q) (q_shutdown q).

Section queue.
Context {T : Type}.
Implicit Types q : BoundedQueue T.

Definition newQueue (capacity : nat) : BoundedQueue T := mkQueue [] capacity false.

Definition push (item : T) q : bool * BoundedQueue T :=
  if q_shutdown q then (false, q)
  else
    let dropped := (q_capacity q <=? length (q_ q))%nat in
    let items := if dropped then tail (q_ q) else q_ q in
    (negb dropped, q <| q_ := items ++ [item] |>).

Definition try_pop q : option T * BoundedQueue T :=
  match q_ q with
  | [] => (None, q)
  | x :: rest => (Some x, q <| q_ := rest |>)
  end.

(** [None]: the caller waits. *)
Definition pop_blocking q : option (option T * BoundedQueue T) :=
  if q_shutdown q || negb (is_empty (q_ q)) then Some (try_pop q) else None.

Definition drain q : list T * BoundedQueue T := (q_ q, q <| q_ := [] |>).

Definition shutdown q : BoundedQueue T := q <| q_shutdown := true |>.
End queue.

(** ** The worker *)

Record SnapshotRequest := mkRequest { rq_symIdx : Z; rq_sym : string; rq_id : Z }.
Record SnapshotResult := mkResult { rs_symIdx : Z; rs_sym : string; rs_id : Z; rs_data : SnapshotData }.

Definition QUEUE_CAPACITY : nat := 10.
Definition SNAPSHOT_DEPTH : Z := 1000.

(** Where the worker thread is. *)
Inductive Thread := NotStarted | Waiting | Fetching (req : SnapshotRequest) | Exited.

Record SnapshotWorker := mkWorker {
  requests : BoundedQueue SnapshotRequest;
  results : BoundedQueue SnapshotResult;
  thread : Thread;
  w_running : bool;
  nextRequestId : Z
}.
#[export] Instance eta_SnapshotWorker : Eta SnapshotWorker := fun w =>
  mkWorker (requests w) (results w) (thread w) (w_running w) (nextRequestId w).

Definition newWorker : SnapshotWorker :=
  mkWorker (newQueue QUEUE_CAPACITY) (newQueue QUEUE_CAPACITY) NotStarted false 0.

Definition start (w : SnapshotWorker) : SnapshotWorker :=
  if w_running w then w else w <| w_running := true |> <| thread := Waiting |>.

(** [stop], up to the join: the worker's own steps end the thread. *)
Definition stop (w : SnapshotWorker) : SnapshotWorker :=
  if negb (w_running w) then w
  else w <| w_running := false |> <| requests ::= shutdown |> <| results ::= shutdown |>.

(** The id is 64 bits wide; it is returned whether or not a request was dropped. *)
Definition enqueueRequest (symIdx : Z) (sym : string) (w : SnapshotWorker) : Z * SnapshotWorker :=
  let id := (nextRequestId w + 1) mod 2 ^ 64 in
  let '(_, q) := push (mkRequest symIdx sym id) (requests w) in
  (id, w <| nextRequestId := id |> <| requests := q |>).

Definition drainResults (w : SnapshotWorker) : list SnapshotResult * SnapshotWorker :=
  let '(out, q) := drain (results w) in (out, w <| results := q |>).

(** One step of [runLoop]: the loop test and the pop, or the end of a fetch. *)
Definition loop_pop (w : SnapshotWorker) : option SnapshotWorker :=
  match thread w with
  | Waiting =>
      if negb (w_running w) then Some (w <| thread := Exited |>)
      else
        match pop_blocking (requests w) with
        | None => None
        | Some (None, _) => Some (w <| thread := Exited |>)
        | Some (Some req, q) => Some (w <| requests := q |> <| thread := Fetching req |>)
        end
  | _ => None
  end.

Definition loop_fetched (data : SnapshotData) (w : SnapshotWorker) : option SnapshotWorker :=
  match thread w with
  | Fetching req =>
      let '(_, q) := push (mkResult (rq_symIdx req) (rq_sym req) (rq_id req) data) (results w) in
      Some (w <| results := q |> <| thread := Waiting |>)
  | _ => None
  end.

(** The thread's next step with a REST client; a thread that waits for a request
    stays where it is. *)
Section turns.
Context {W V : Type} `{HttpLib W} `{JsonLib V} (client : RestClient) (snapshotDepth : Z).

Definition worker_turn (wk : SnapshotWorker) (w : W) : SnapshotWorker * W :=
  match thread wk with
  | Fetching req =>
      let '(data, w) := fetchSnapshot client (rq_sym req) snapshotDepth w in
      (default wk (loop_fetched data wk), w)
  | _ => (default wk (loop_pop wk), w)
  end.

Fixpoint worker_turns (n : nat) (wk : SnapshotWorker) (w : W) : SnapshotWorker * W :=
  match n with
  | O => (wk, w)
  | S n => let '(wk, w) := worker_turn wk w in worker_turns n wk w
  end.
End turns.

(** ** Interleavings *)

(** The history of a run: how many requests were issued, which results the
    handler has drained, how many requests or results a full or closed queue
    has lost. *)
Record History := mkHistory {
  worker : SnapshotWorker; issued : list SnapshotRequest; drained : list SnapshotResult; lost : nat
}.

Definition loses {T} (q : BoundedQueue T) : nat :=
  if q_shutdown q then 1%nat else if (q_capacity q <=? length (q_ q))%nat then 1%nat else 0%nat.

Inductive worker_step : History -> History -> Prop :=
  (* [stop] joins, so a restart finds the old thread gone *)
  | step_start h :
      thread (worker h) = NotStarted \/ thread (worker h) = Exited ->
      worker_step h (mkHistory (start (worker h)) (issued h) (drained h) (lost h))
  | step_stop h : worker_step h (mkHistory (stop (worker h)) (issued h) (drained h) (lost h))
  | step_enqueue h i sym id w' :
      enqueueRequest i sym (worker h) = (id, w') ->
      worker_step h (mkHistory w' (issued h ++ [mkRequest i sym id]) (drained h)
                       (lost h + loses (requests (worker h))))
  | step_drain h out w' :
      drainResults (worker h) = (out, w') ->
      worker_step h (mkHistory w' (issued h) (drained h ++ out) (lost h))
  | step_pop h w' :
      loop_pop (worker h) = Some w' -> worker_step h (mkHistory w' (issued h) (drained h) (lost h))
  | step_fetched h data w' :
      loop_fetched data (worker h) = Some w' ->
      worker_step h (mkHistory w' (issued h) (drained h) (lost h + loses (results (worker h)))).

Definition fresh : History := mkHistory newWorker [] [] 0.

(** The request a result answers. *)
Definition answers (r : SnapshotResult) : SnapshotRequest := mkRequest (rs_symIdx r) (rs_sym r) (rs_id r).

(** The requests still in the system, oldest first, with those answered. *)
Definition line (h : History) : list SnapshotRequest :=
  (answers <$> drained h) ++ (answers <$> q_ (results (worker h))) ++
  (match thread (worker h) with Fetching req => [req] | _ => [] end) ++
  q_ (requests (worker h)).

Record worker_inv (h : History) : Prop := {
  inv_line : line h `sublist_of` issued h;
  inv_count : (length (line h) + lost h = length (issued h))%nat;
  inv_ids : rq_id <$> issued h = (fun i => (Z.of_nat i + 1) mod 2 ^ 64) <$> seq 0 (length (issued h));
  inv_next : nextRequestId (worker h) = Z.of_nat (length (issued h)) mod 2 ^ 64;
  inv_caps : (0 < q_capacity (requests (worker h)))%nat /\ (0 < q_capacity (results (worker h)))%nat;
  inv_sizes : (length (q_ (requests (worker h))) <= q_capacity (requests (worker h)))%nat /\
              (length (q_ (results (worker h))) <= q_capacity (results (worker h)))%nat
}.

Lemma push_spec {T} (x : T) q :
  (length (q_ q) <= q_capacity q)%nat -> (0 < q_capacity q)%nat ->
  let q' := snd (push x q) in
  q_capacity q' = q_capacity q /\ q_shutdown q' = q_shutdown q /\
  (length (q_ q') <= q_capacity q)%nat /\
  q_ q' `sublist_of` q_ q ++ [x] /\
  (length (q_ q') + loses q = length (q_ q) + 1)%nat.
Proof.
  intros Hl Hc. unfold push, loses. destruct (q_shutdown q) eqn:Es; cbn.
  - do 3 (split; [done|]). split; [by apply sublist_inserts_r|lia].
  - destruct (Nat.leb_spec (q_capacity q) (length (q_ q))); cbn.
    + destruct (q_ q) as [|y l] eqn:E; cbn in *; [lia|]. rewrite length_app. cbn.
      do 2 (split; [done|]). split; [lia|]. split; [by apply sublist_cons|lia].
    + rewrite length_app. cbn. do 2 (split; [done|]). split; [lia|]. split; [done|lia].
Qed.

Lemma enqueue_step_inv h i sym id w' :
  worker_inv h -> enqueueRequest i sym (worker h) = (id, w') ->
  worker_inv (mkHistory w' (issued h ++ [mkRequest i sym id]) (drained h)
                (lost h + loses (requests (worker h)))).
Proof.
  intros [Hl Hc Hids Hn [Hcq Hcr] [Hsq Hsr]]. unfold enqueueRequest.
  pose proof (push_spec (mkRequest i sym ((nextRequestId (worker h) + 1) mod 2 ^ 64)) _ Hsq Hcq)
    as (Ec & Es & El & Esub & Elen).
  destruct (push _ (requests (worker h))) as [b q]. cbn [snd] in *. intros [= <- <-].
  set (id := (nextRequestId (worker h) + 1) mod 2 ^ 64) in *.
  assert (id = (Z.of_nat (length (issued h)) + 1) mod 2 ^ 64) as Hid.
  { unfold id. rewrite Hn. by rewrite Zplus_mod_idemp_l. }
  constructor; unfold line in *; cbn [worker issued drained lost requests results thread nextRequestId w_running modify eta_SnapshotWorker] in *.
  - rewrite !app_assoc in *. etrans; [by apply sublist_app; [done|exact Esub]|].
    rewrite app_assoc. by apply sublist_app.
  - rewrite !length_app in *. cbn [length]. lia.
  - rewrite fmap_app, Hids, length_app, seq_app, fmap_app. cbn. by rewrite Hid.
  - rewrite length_app. cbn [length]. rewrite Hid. f_equal. lia.
  - by rewrite Ec.
  - by rewrite Ec.
Qed.

Lemma worker_step_inv h h' : worker_step h h' -> worker_inv h -> worker_inv h'.
Proof.
  intros Hstep Hi. destruct Hstep as [h Ht|h|h i sym id w' E|h out w' E|h w' E|h data w' E];
    [| |by eapply enqueue_step_inv| | |]; destruct Hi as [Hl Hc Hids Hn [Hcq Hcr] [Hsq Hsr]].
  - unfold start. destruct (w_running (worker h)); [by constructor|].
    destruct Ht as [Ht|Ht]; constructor; unfold line in *; cbn; rewrite Ht in *; done.
  - unfold stop. destruct (w_running (worker h)); cbn [negb]; [|by constructor]. by constructor.
  - injection E as <- <-. constructor; unfold line in *; cbn in *; try done; [| |split; [done|lia]].
    + by rewrite fmap_app, <-app_assoc.
    + rewrite fmap_app, <-app_assoc. done.
  - unfold loop_pop in E. destruct (thread (worker h)) eqn:Et; try done.
    destruct (w_running (worker h)); cbn [negb] in E.
    2:{ injection E as <-. constructor; unfold line in *; cbn; rewrite Et in *; done. }
    unfold pop_blocking, try_pop in E. destruct (q_ (requests (worker h))) as [|req rest] eqn:Eq.
    + destruct (q_shutdown _); cbn in E; [|done]. injection E as <-.
      constructor; unfold line in *; cbn; rewrite ?Et, ?Eq in *; done.
    + rewrite orb_true_r in E. injection E as <-.
      constructor; unfold line in *; cbn in *; rewrite ?Et, ?Eq in *; cbn in *; try done. split; [lia|done].
  - unfold loop_fetched in E. destruct (thread (worker h)) as [| |req|] eqn:Et; try done.
    pose proof (push_spec (mkResult (rq_symIdx req) (rq_sym req) (rq_id req) data) _ Hsr Hcr)
      as (Ec & Es & El & Esub & Elen).
    destruct (push _ (results (worker h))) as [b q]. cbn [snd] in *. injection E as <-.
    assert ((answers <$> q_ q) `sublist_of` (answers <$> q_ (results (worker h))) ++ [req]) as Ha.
    { apply (sublist_fmap answers) in Esub. rewrite fmap_app in Esub. by destruct req. }
    constructor; unfold line in *; cbn in *; rewrite ?Et in *.
    + etrans; [|exact Hl]. apply sublist_app; [done|].
      change (req :: q_ (requests (worker h))) with ([req] ++ q_ (requests (worker h))).
      rewrite (app_assoc (answers <$> _)). by apply sublist_app.
    + rewrite !length_app, !length_fmap in *. cbn [length] in *. lia.
    + done.
    + done.
    + rewrite Ec. done.
    + rewrite Ec. done.
Qed.

Lemma fresh_inv : worker_inv fresh.
Proof.
  constructor; cbn; try done; split; unfold QUEUE_CAPACITY; lia.
Qed.

(** C26: in every interleaving of the two threads, snapshot results come back in
    the order of their requests, each at most once and with the symbol it was
    asked for; every request is answered, in flight, queued, or one of those a
    full or closed queue has lost; and as long as fewer than [2^64] requests
    were made all request ids are different. *)
Theorem worker_answers_in_order h :
  rtc worker_step fresh h ->
  line h `sublist_of` issued h /\
  (length (line h) + lost h = length (issued h))%nat /\
  (Z.of_nat (length (issued h)) < 2 ^ 64 -> NoDup (rq_id <$> issued h)).
Proof.
  intros Hr. assert (worker_inv h) as [Hl Hc Hids _ _ _].
  { revert Hr. generalize fresh_inv. generalize fresh. intros h0 H0 Hr.
    induction Hr; eauto using worker_step_inv. }
  split; [done|]. split; [done|]. intros Hb. rewrite Hids.
  apply NoDup_fmap_2_strong; [|apply NoDup_seq].
  intros x y Hx%elem_of_seq Hy%elem_of_seq E. rewrite !Z.mod_small in E by lia. lia.
Qed.

Lemma worker_answers_in_order_witness :
  exists h, rtc worker_step fresh h /\ rq_id <$> issued h = [1; 2] /\
    answers <$> drained h = [mkRequest 0 "BTCUSDT" 1] /\ length (line h) = 2%nat.
Proof.
  set (w1 := start newWorker).
  set (w2 := snd (enqueueRequest 0 "BTCUSDT" w1)).
  set (w3 := snd (enqueueRequest 1 "ETHUSDT" w2)).
  set (w4 := default w3 (loop_pop w3)).
  set (w5 := default w4 (loop_fetched empty_SnapshotData w4)).
  set (w6 := snd (drainResults w5)).
  set (iss := [mkRequest 0 "BTCUSDT" 1; mkRequest 1 "ETHUSDT" 2]).
  set (h := mkHistory w6 iss (fst (drainResults w5)) 0).
  assert (rtc worker_step fresh h) as Hr.
  { apply (rtc_l _ _ (mkHistory w1 [] [] 0)); [apply (step_start fresh); by left|].
    apply (rtc_l _ _ (mkHistory w2 [mkRequest 0 "BTCUSDT" 1] [] 0));
      [exact (step_enqueue (mkHistory w1 [] [] 0) 0 "BTCUSDT" 1 w2 eq_refl)|].
    apply (rtc_l _ _ (mkHistory w3 iss [] 0));
      [exact (step_enqueue (mkHistory w2 [mkRequest 0 "BTCUSDT" 1] [] 0) 1 "ETHUSDT" 2 w3 eq_refl)|].
    apply (rtc_l _ _ (mkHistory w4 iss [] 0)); [exact (step_pop (mkHistory w3 iss [] 0) w4 eq_refl)|].
    apply (rtc_l _ _ (mkHistory w5 iss [] 0));
      [exact (step_fetched (mkHistory w4 iss [] 0) empty_SnapshotData w5 eq_refl)|].
    apply rtc_once. exact (step_drain (mkHistory w5 iss [] 0) _ w6 eq_refl). }
  destruct (worker_answers_in_order h Hr) as (_ & Hc & _).
  exists h. split; [exact Hr|]. split; [reflexivity|]. split; [reflexivity|].
  cbn [lost length issued h iss] in Hc. rewrite Nat.add_0_r in Hc. exact Hc.
Defined.
