(* ===== verification/OrderBook.v ===== *)
(** * The order book of one symbol and its manager (order_book_manager.hpp)

    [OrderBookManager] keeps one vector per attribute, indexed by symbol. The
    model keeps one record per symbol ([SymBook]) and the counters shared by all
    symbols ([Counters]); an operation on index [idx] acts on the [View] made of
    that symbol's record and the counters. Every operation of the class is
    here: buffering, snapshots (initial and background refresh), deltas with the
    spot and futures sequencing rules, reset, quote extraction, and the
    publisher state. The clock is an argument: a [steady_clock] time point in
    nanoseconds. *)

From S2P Require Import Prelude Double Cxx MarketConfig BookSide.

Open Scope Z_scope.
Local Open Scope rec_scope.

(** ** Configuration and data *)

Definition DEFAULT_BOOK_DEPTH : nat := 5.
Definition PUBLISH_TIMEOUT_MS : Z := 50.
Definition MAX_DELTA_BUFFER_SIZE : nat := 1000.

Record BookConfig := mkBookConfig {
  bc_depth : nat;
  bc_snapshotLimit : nat;
  bc_refreshLowWater : nat;
  bc_maxLevels : nat;
  bc_sync : DepthSync
}.
#[export] Instance eta_BookConfig : Eta BookConfig := fun c =>
  mkBookConfig (bc_depth c) (bc_snapshotLimit c) (bc_refreshLowWater c) (bc_maxLevels c) (bc_sync c).

Definition default_BookConfig : BookConfig :=
  mkBookConfig DEFAULT_BOOK_DEPTH 1000 500 4000 Spot.

Inductive SnapshotOutcome :=
  | SYNCED | AWAITING_BRIDGE | SYNC_FAILED | REFRESHED | REFRESH_AWAITING_BRIDGE
  | REFRESH_FAILED | IGNORED.

Record BookQuote := mkQuote {
  q_sym : string;
  q_bidPrices : list double; q_bidQtys : list double;
  q_askPrices : list double; q_askQtys : list double;
  q_isValid : bool;
  q_exchEventTimeMs : Z;
  q_exchTransactTimeMs : Z;
  q_fhRecvTimeUtcNs : Z;
  q_fhSeqNo : Z;
  q_exchFirstUpdateId : Z;
  q_exchUpdateId : Z;
  q_exchPrevUpdateId : Z
}.
#[export] Instance eta_BookQuote : Eta BookQuote := fun q =>
  mkQuote (q_sym q) (q_bidPrices q) (q_bidQtys q) (q_askPrices q) (q_askQtys q) (q_isValid q)
    (q_exchEventTimeMs q) (q_exchTransactTimeMs q) (q_fhRecvTimeUtcNs q) (q_fhSeqNo q)
    (q_exchFirstUpdateId q) (q_exchUpdateId q) (q_exchPrevUpdateId q).

(** [BookQuote(depth)]: every slot 0, everything else unset. *)
Definition new_quote (depth : nat) : BookQuote :=
  mkQuote "" (replicate depth d0) (replicate depth d0) (replicate depth d0) (replicate depth d0)
    false 0 0 0 0 0 0 0.

Definition samePricesAs (a b : BookQuote) : bool :=
  list_eqb deq (q_bidPrices a) (q_bidPrices b) && list_eqb deq (q_bidQtys a) (q_bidQtys b) &&
  list_eqb deq (q_askPrices a) (q_askPrices b) && list_eqb deq (q_askQtys a) (q_askQtys b).

Record BufferedDelta := mkDelta {
  firstUpdateId : Z;       (* U *)
  finalUpdateId : Z;       (* u *)
  eventTimeMs : Z;
  bids : list PriceLevel;
  asks : list PriceLevel;
  prevFinalUpdateId : Z;   (* futures: pu *)
  transactTimeMs : Z       (* futures: T *)
}.

Inductive BookState := INIT | SYNCING | VALID | INVALID.
#[export] Instance BookState_eq_dec : EqDecision BookState.
Proof. solve_decision. Defined.

Record Book := mkBook { bid : Side; ask : Side }.
#[export] Instance eta_Book : Eta Book := fun b => mkBook (bid b) (ask b).
Definition empty_book : Book := mkBook empty_side empty_side.

(** Update-id bookkeeping of one book (live or shadow). *)
Record Seq := mkSeq { needBridge : bool; snapshotId : Z; lastId : Z }.
#[export] Instance eta_Seq : Eta Seq := fun s => mkSeq (needBridge s) (snapshotId s) (lastId s).
Definition empty_seq : Seq := mkSeq false 0 0.

Inductive Verdict := SKIP | APPLY | FAIL.

(** Refresh snapshot waiting for its bridging event. *)
Record Shadow := mkShadow { sh_book : Book; sh_seq : Seq; pending : bool }.
Definition no_shadow : Shadow := mkShadow empty_book empty_seq false.

Record SymBook := mkSymBook {
  book : Book;
  seq : Seq;
  state : BookState;
  exchEventTimeMs : Z;
  exchTransactTimeMs : Z;
  deltaBuffer : list BufferedDelta;
  snapshotRequested : bool;
  refreshPending_ : bool;
  wasExhausted : bool;
  shadow : Shadow;
  rangeFirstU : Z;
  rangePrevU : Z;
  rangeClosed : bool;
  lastPublished : BookQuote;
  lastPublishTime : Z;
  hasPublished : bool
}.
#[export] Instance eta_SymBook : Eta SymBook := fun b =>
  mkSymBook (book b) (seq b) (state b) (exchEventTimeMs b) (exchTransactTimeMs b) (deltaBuffer b)
    (snapshotRequested b) (refreshPending_ b) (wasExhausted b) (shadow b) (rangeFirstU b)
    (rangePrevU b) (rangeClosed b) (lastPublished b) (lastPublishTime b) (hasPublished b).

Record Counters := mkCounters {
  bufferOverflows : Z;
  depthRefreshes : Z;
  refreshFailures : Z;
  depthExhaustedEvents : Z
}.
#[export] Instance eta_Counters : Eta Counters := fun c =>
  mkCounters (bufferOverflows c) (depthRefreshes c) (refreshFailures c) (depthExhaustedEvents c).

Record View := mkView { sb : SymBook; ct : Counters }.
#[export] Instance eta_View : Eta View := fun v => mkView (sb v) (ct v).

(** An assignment to one of the symbol's attributes, an increment of a counter. *)
Notation "v <|. p := x |>" := (modify sb (modify p (fun _ => x)) v)
  (at level 1, left associativity, p at next level, x at level 200) : rec_scope.
Notation "v <|+ p |>" := (modify ct (modify p Z.succ) v)
  (at level 1, left associativity, p at next level) : rec_scope.

(** The attributes a freshly constructed manager gives a symbol. *)
Definition new_SymBook (now : Z) : SymBook :=
  mkSymBook empty_book empty_seq INIT 0 0 [] false false false no_shadow 0 0 true
    (new_quote DEFAULT_BOOK_DEPTH) now false.

(** ** Operations on one symbol *)

Section operations.
Context (cfg : BookConfig).

Definition isValid (v : View) : bool := bool_decide (state (sb v) = VALID).

Definition needsSnapshot (v : View) : bool :=
  bool_decide (state (sb v) = INIT) && negb (snapshotRequested (sb v)).

Definition setSnapshotRequested (val : bool) (v : View) : View := v <|.snapshotRequested := val|>.

Definition side_of (isBid : bool) (b : Book) : Side := if isBid then bid b else ask b.

Definition knownLevels (isBid : bool) (v : View) : nat :=
  length (levels (side_of isBid (book (sb v)))).

Definition hasHorizon (isBid : bool) (v : View) : bool := bounded (side_of isBid (book (sb v))).

Definition depthExhausted (v : View) : bool :=
  below (bc_depth cfg) (bid (book (sb v))) || below (bc_depth cfg) (ask (book (sb v))).

Definition wantsRefresh (v : View) : bool :=
  bool_decide (state (sb v) = VALID) && negb (refreshPending_ (sb v)) && negb (pending (shadow (sb v))) &&
  (below (bc_refreshLowWater cfg) (bid (book (sb v))) ||
   below (bc_refreshLowWater cfg) (ask (book (sb v)))).

Definition beginRefresh (v : View) : View :=
  v <|.refreshPending_ := true|> <|.snapshotRequested := true|> <|.deltaBuffer := []|>.

Definition cancelRefresh (v : View) : View :=
  if negb (refreshPending_ (sb v)) then v
  else
    v <|.refreshPending_ := false|> <|.snapshotRequested := false|>
      <|.deltaBuffer := []|> <|+ refreshFailures|>.

Definition refreshPending (v : View) : bool := refreshPending_ (sb v) || pending (shadow (sb v)).

Definition bufferDelta (d : BufferedDelta) (v : View) : bool * View :=
  let v := v <|.deltaBuffer := deltaBuffer (sb v) ++ [d]|> in
  if (MAX_DELTA_BUFFER_SIZE <? length (deltaBuffer (sb v)))%nat then
    (false, v <|.deltaBuffer := tail (deltaBuffer (sb v))|> <|+ bufferOverflows|>)
  else (true, v).

Definition applySnapshot (lastUpdateId : Z) (bids asks : list PriceLevel) (v : View) : View :=
  v <|.book := mkBook (load true bids (bc_snapshotLimit cfg) (bc_maxLevels cfg))
                         (load false asks (bc_snapshotLimit cfg) (bc_maxLevels cfg))|>
    <|.seq := mkSeq true lastUpdateId lastUpdateId|>
    <|.state := SYNCING|>
    <|.wasExhausted := false|>.

Definition applyLevels (bidUpdates askUpdates : list PriceLevel) (b : Book) : Book :=
  mkBook (fold_left (fun s u => update true u (bc_maxLevels cfg) s) bidUpdates (bid b))
         (fold_left (fun s u => update false u (bc_maxLevels cfg) s) askUpdates (ask b)).

(** Is this event the next one for a book in sequencing state [s]? The state
    is passed by reference: a bridging event clears [needBridge]. *)
Definition checkSequence (s : Seq) (d : BufferedDelta) : Verdict * Seq :=
  let U := firstUpdateId d in
  let u := finalUpdateId d in
  let bridged := s <| needBridge := false |> in
  match bc_sync cfg with
  | Futures =>
      if needBridge s then
        if prevFinalUpdateId d =? snapshotId s then (APPLY, bridged)
        else if u <? snapshotId s then (SKIP, s)
        else if snapshotId s <? U then (FAIL, s)
        else (APPLY, bridged)
      else (if prevFinalUpdateId d =? lastId s then APPLY else FAIL, s)
  | Spot =>
      if needBridge s then
        if u <? snapshotId s + 1 then (SKIP, s)
        else if snapshotId s + 1 <? U then (FAIL, s)
        else (APPLY, bridged)
      else if u <? lastId s then (SKIP, s)
      else if lastId s + 1 <? U then (FAIL, s)
      else (APPLY, s)
  end.

Definition invalidate (v : View) : View := v <|.state := INVALID|>.

(** [applyDelta], the part under [v == Verdict::APPLY]. *)
Definition applyEvent (d : BufferedDelta) (v : View) : View :=
  let v := v <|.book := applyLevels (bids d) (asks d) (book (sb v))|> in
  let v := v <|.seq := (seq (sb v)) <| lastId := finalUpdateId d |>|> in
  let v := if rangeClosed (sb v)
           then v <|.rangeFirstU := firstUpdateId d|> <|.rangePrevU := prevFinalUpdateId d|>
                  <|.rangeClosed := false|>
           else v in
  let v := v <|.exchEventTimeMs := eventTimeMs d|>
             <|.exchTransactTimeMs := transactTimeMs d|>
             <|.state := VALID|> in
  let exhausted := depthExhausted v in
  let v := if exhausted && negb (wasExhausted (sb v)) then v <|+ depthExhaustedEvents|> else v in
  v <|.wasExhausted := exhausted|>.

(** [applyDelta], the part under [shadows_[idx].pending]. *)
Definition shadowEvent (d : BufferedDelta) (v : View) : View :=
  let sh := shadow (sb v) in
  let '(sv, sseq) := checkSequence (sh_seq sh) d in
  match sv with
  | FAIL => v <|.shadow := no_shadow|> <|+ refreshFailures|>
  | APPLY =>
      let v := v <|.book := applyLevels (bids d) (asks d) (sh_book sh)|>
                 <|.seq := sseq <| lastId := finalUpdateId d |>|>
                 <|.shadow := no_shadow|> in
      v <|.wasExhausted := depthExhausted v|> <|+ depthRefreshes|>
  | SKIP => v <|.shadow := mkShadow (sh_book sh) sseq (pending sh)|>
  end.

Definition applyDelta (d : BufferedDelta) (v : View) : bool * View :=
  match state (sb v) with
  | INIT | INVALID => (false, v)
  | SYNCING | VALID =>
      let '(verdict, s') := checkSequence (seq (sb v)) d in
      let v := v <|.seq := s'|> in
      match verdict with
      | FAIL => (false, invalidate v)
      | _ =>
          let v := match verdict with APPLY => applyEvent d v | _ => v end in
          let v := if refreshPending_ (sb v) then snd (bufferDelta d v) else v in
          let v := if pending (shadow (sb v)) then shadowEvent d v else v in
          (true, v)
      end
  end.

(** The replay loop of [onSnapshot]: apply the buffered deltas until one fails. *)
Fixpoint replay (buf : list BufferedDelta) (v : View) : bool * View :=
  match buf with
  | [] => (true, v)
  | d :: rest =>
      let '(ok, v) := applyDelta d v in
      if ok then replay rest v else (false, v)
  end.

(** The replay loop of [finishRefresh], on the shadow book. *)
Fixpoint replayShadow (buf : list BufferedDelta) (b : Book) (s : Seq) : bool * (Book * Seq) :=
  match buf with
  | [] => (true, (b, s))
  | d :: rest =>
      let '(verdict, s) := checkSequence s d in
      match verdict with
      | FAIL => (false, (b, s))
      | APPLY => replayShadow rest (applyLevels (bids d) (asks d) b) (s <| lastId := finalUpdateId d |>)
      | SKIP => replayShadow rest b s
      end
  end.

Definition finishRefresh (lastUpdateId : Z) (bids asks : list PriceLevel) (v : View)
    : SnapshotOutcome * View :=
  let v := v <|.refreshPending_ := false|> in
  let sbook := mkBook (load true bids (bc_snapshotLimit cfg) (bc_maxLevels cfg))
                      (load false asks (bc_snapshotLimit cfg) (bc_maxLevels cfg)) in
  let sseq := mkSeq true lastUpdateId lastUpdateId in
  let '(ok, (sbook, sseq)) := replayShadow (deltaBuffer (sb v)) sbook sseq in
  let v := v <|.deltaBuffer := []|> in
  if negb ok then (REFRESH_FAILED, v <|+ refreshFailures|>)
  else if needBridge sseq && (lastUpdateId =? lastId (seq (sb v))) then
    let v := v <|.book := sbook|> in
    (REFRESHED, v <|.wasExhausted := depthExhausted v|> <|+ depthRefreshes|>)
  else if needBridge sseq then
    (REFRESH_AWAITING_BRIDGE, v <|.shadow := mkShadow sbook sseq true|>)
  else
    let v := v <|.book := sbook|> <|.seq := sseq|> in
    (REFRESHED, v <|.wasExhausted := depthExhausted v|> <|+ depthRefreshes|>).

Definition onSnapshot (lastUpdateId : Z) (bids asks : list PriceLevel) (v : View)
    : SnapshotOutcome * View :=
  let v := v <|.snapshotRequested := false|> in
  if bool_decide (state (sb v) = VALID) && refreshPending_ (sb v) then
    finishRefresh lastUpdateId bids asks v
  else
    let v := v <|.refreshPending_ := false|> in
    if negb (bool_decide (state (sb v) = INIT)) then (IGNORED, v)
    else
      let v := applySnapshot lastUpdateId bids asks v in
      let '(ok, v) := replay (deltaBuffer (sb v)) v in
      let v := v <|.deltaBuffer := []|> in
      if negb ok then (SYNC_FAILED, v)
      else (if bool_decide (state (sb v) = VALID) then SYNCED else AWAITING_BRIDGE, v).

Definition reset (v : View) : View :=
  v <|.book := empty_book|> <|.state := INIT|> <|.seq := empty_seq|>
    <|.exchEventTimeMs := 0|> <|.exchTransactTimeMs := 0|> <|.deltaBuffer := []|>
    <|.snapshotRequested := false|> <|.refreshPending_ := false|>
    <|.wasExhausted := false|> <|.shadow := no_shadow|>
    <|.rangeFirstU := 0|> <|.rangePrevU := 0|> <|.rangeClosed := true|>.

(** The [i]-th best level: best is at the back. *)
Definition nth_best (lv : list PriceLevel) (i : nat) : option PriceLevel :=
  if (i <? length lv)%nat then lv !! (length lv - 1 - i)%nat else None.

(** One published column: slot [i] of [depth], 0 where the side has no level. *)
Definition column (f : PriceLevel -> double) (lv : list PriceLevel) (depth : nat) : list double :=
  (fun i => match nth_best lv i with Some l => f l | None => d0 end) <$> List.seq 0 depth.

Definition getQuote (sym : string) (fhRecvTimeUtcNs fhSeqNo : Z) (v : View) : BookQuote :=
  let b := sb v in
  let valid := bool_decide (state b = VALID) && negb (depthExhausted v) in
  let q := (new_quote (bc_depth cfg)) <| q_sym := sym |> <| q_isValid := valid |>
             <| q_exchEventTimeMs := exchEventTimeMs b |>
             <| q_exchTransactTimeMs := exchTransactTimeMs b |>
             <| q_fhRecvTimeUtcNs := fhRecvTimeUtcNs |> <| q_fhSeqNo := fhSeqNo |> in
  let q := if q_isValid q then
             q <| q_exchFirstUpdateId := rangeFirstU b |>
               <| q_exchUpdateId := lastId (seq b) |>
               <| q_exchPrevUpdateId := match bc_sync cfg with Futures => rangePrevU b | Spot => 0 end |>
           else q in
  if negb (bool_decide (state b = VALID)) && negb (bool_decide (state b = SYNCING)) then q
  else if bool_decide (state b = VALID) && negb (q_isValid q) then q
  else
    let bl := levels (bid (book b)) in
    let al := levels (ask (book b)) in
    q <| q_bidPrices := column price bl (bc_depth cfg) |> <| q_bidQtys := column qty bl (bc_depth cfg) |>
      <| q_askPrices := column price al (bc_depth cfg) |> <| q_askQtys := column qty al (bc_depth cfg) |>.

(** Milliseconds between two [steady_clock] readings, truncated. *)
Definition elapsed_ms (now before : Z) : Z := Z.quot (now - before) 1000000.

Definition shouldPublish (now : Z) (current : BookQuote) (v : View) : bool :=
  let b := sb v in
  if negb (hasPublished b) then true
  else if negb (Bool.eqb (q_isValid current) (q_isValid (lastPublished b))) then true
  else if negb (q_isValid current) then false
  else if negb (samePricesAs current (lastPublished b)) then true
  else PUBLISH_TIMEOUT_MS <=? elapsed_ms now (lastPublishTime b).

Definition recordPublish (now : Z) (q : BookQuote) (v : View) : View :=
  v <|.lastPublished := q|> <|.lastPublishTime := now|>
    <|.hasPublished := true|> <|.rangeClosed := true|>.

Definition lastPublishedValid (v : View) : bool :=
  hasPublished (sb v) && q_isValid (lastPublished (sb v)).

End operations.

(** ** The manager *)

Record OrderBookManager := mkManager {
  cfg_ : BookConfig;
  symToIdx : gmap string nat;
  idxToSym : list string;
  syms : list SymBook;
  ctrs : Counters
}.
#[export] Instance eta_OrderBookManager : Eta OrderBookManager := fun m =>
  mkManager (cfg_ m) (symToIdx m) (idxToSym m) (syms m) (ctrs m).

(** [symToIdx_[symbols[i]] = i] for every [i], in order. *)
Fixpoint index_symbols (i : nat) (symbols : list string) (m : gmap string nat) : gmap string nat :=
  match symbols with
  | [] => m
  | s :: rest => index_symbols (S i) rest (<[s := i]> m)
  end.

(** The constructor caps the refresh mark at half the snapshot limit. *)
Definition newManager (symbols : list string) (cfg : BookConfig) (now : Z) : OrderBookManager :=
  let cfg := if (bc_snapshotLimit cfg / 2 <? bc_refreshLowWater cfg)%nat
             then cfg <| bc_refreshLowWater := (bc_snapshotLimit cfg / 2)%nat |> else cfg in
  mkManager cfg (index_symbols 0 symbols ∅) symbols
    (replicate (length symbols) (new_SymBook now)) (mkCounters 0 0 0 0).

Definition getSymbolIndex (sym : string) (m : OrderBookManager) : option nat := symToIdx m !! sym.
Definition getSymbol (idx : nat) (m : OrderBookManager) : string := default "" (idxToSym m !! idx).
Definition numSymbols (m : OrderBookManager) : nat := length (syms m).

(** An operation on symbol [idx]. An index out of range is undefined behaviour
    in C++; the model leaves the manager alone and returns [dflt]. *)
Definition on_sym {R} (idx : nat) (dflt : R) (f : View -> R * View) (m : OrderBookManager)
    : R * OrderBookManager :=
  match syms m !! idx with
  | None => (dflt, m)
  | Some b =>
      let '(r, v) := f (mkView b (ctrs m)) in
      (r, m <| syms ::= <[idx := sb v]> |> <| ctrs := ct v |>)
  end.

(** A read-only access to symbol [idx]. *)
Definition at_sym {R} (idx : nat) (dflt : R) (f : View -> R) (m : OrderBookManager) : R :=
  match syms m !! idx with None => dflt | Some b => f (mkView b (ctrs m)) end.

Definition upd_sym (idx : nat) (f : View -> View) (m : OrderBookManager) : OrderBookManager :=
  snd (on_sym idx tt (fun v => (tt, f v)) m).

Definition resetAll (m : OrderBookManager) : OrderBookManager :=
  fold_left (fun m i => upd_sym i reset m) (List.seq 0 (numSymbols m)) m.

(** Symbols whose last publish is older than the heartbeat timeout. *)
Definition getTimeoutPublishNeeded (now : Z) (m : OrderBookManager) : list nat :=
  List.filter (fun i =>
    at_sym i false (fun v =>
      bool_decide (state (sb v) = VALID) && hasPublished (sb v) &&
      (PUBLISH_TIMEOUT_MS <=? elapsed_ms now (lastPublishTime (sb v)))) m)
    (List.seq 0 (numSymbols m)).
