(* ===== verification/OrderBookSpec.v ===== *)
(** * What an order book promises: the published levels are the exchange's

    The exchange is abstract: for every update id, the full book it held at
    that id. A diff event carries absolute quantities, so applying it to the
    exchange's book at any id it covers gives the exchange's book at its final
    id; a REST snapshot is a truncated view of the book at its [lastUpdateId].
    Under these two documented facts, every state the manager's operations can
    reach keeps a book that is exact inside its horizon, and a valid quote
    shows the exchange's best levels at the update id it carries. *)

From S2P Require Import Prelude Double Cxx MarketConfig BookSide OrderBook.
From Stdlib Require Import Sorted.

Open Scope Z_scope.
Local Open Scope rec_scope.

(** Reduce a sequence of assignments to the fields they set. *)
Ltac fields := cbn [sb ct modify book seq state exchEventTimeMs exchTransactTimeMs deltaBuffer
  snapshotRequested refreshPending_ wasExhausted shadow rangeFirstU rangePrevU rangeClosed
  lastPublished lastPublishTime hasPublished bid ask needBridge snapshotId lastId
  sh_book sh_seq pending no_shadow empty_seq eta_View eta_SymBook eta_Counters eta_Seq
  fst snd] in *.

Lemma bufferDelta_length d v :
  deltaBuffer (sb (snd (bufferDelta d v))) =
    if (MAX_DELTA_BUFFER_SIZE <? length (deltaBuffer (sb v) ++ [d]))%nat
    then tail (deltaBuffer (sb v) ++ [d]) else deltaBuffer (sb v) ++ [d].
Proof. unfold bufferDelta. fields. by case_match. Qed.

(** The buffer is the window of the newest deltas. *)
Lemma bufferDelta_lastn d v :
  (length (deltaBuffer (sb v)) <= MAX_DELTA_BUFFER_SIZE)%nat ->
  deltaBuffer (sb (snd (bufferDelta d v))) = lastn MAX_DELTA_BUFFER_SIZE (deltaBuffer (sb v) ++ [d]).
Proof.
  intros H. rewrite bufferDelta_length. unfold lastn.
  assert (length (deltaBuffer (sb v) ++ [d]) = S (length (deltaBuffer (sb v)))) as Hl
    by (rewrite length_app; cbn; lia).
  destruct (Nat.ltb_spec MAX_DELTA_BUFFER_SIZE (length (deltaBuffer (sb v) ++ [d]))) as [Hlt|Hge].
  - replace (length (deltaBuffer (sb v) ++ [d]) - MAX_DELTA_BUFFER_SIZE)%nat with 1%nat by lia.
    by destruct (deltaBuffer (sb v) ++ [d]).
  - by replace (length (deltaBuffer (sb v) ++ [d]) - MAX_DELTA_BUFFER_SIZE)%nat with 0%nat by lia.
Qed.

(** ** Folding updates over a side *)

Definition exch_updates (us : list PriceLevel) (T : exch_side) : exch_side :=
  fold_left (fun T u => exch_update u T) us T.

Lemma exch_updates_ok us T :
  exch_ok T -> exch_ok (exch_updates us T).
Proof.
  revert T. induction us as [|u us IH]; intros T HT; cbn; [done|].
  by apply IH, exch_update_ok.
Qed.

Lemma fold_update_knows isBid maxLevels us T s :
  (0 < maxLevels)%nat -> Forall (fun u => notnan (price u)) us ->
  side_ok isBid maxLevels s -> knows isBid T s ->
  let s' := fold_left (fun s u => update isBid u maxLevels s) us s in
  side_ok isBid maxLevels s' /\ knows isBid (exch_updates us T) s'.
Proof.
  intros Hmax H. revert T s. induction H as [|u us Hu _ IH]; intros T s Hs Hk; cbn; [done|].
  apply IH; [by apply update_side_ok|by apply update_knows].
Qed.

Lemma knows_ext isBid T T' s :
  (forall p, notnan p -> T p = T' p) -> knows isBid T s -> knows isBid T' s.
Proof. intros H Hk p Hp. by rewrite Hk, H. Qed.

(** ** The exchange *)

(** The update ids at which the exchange's book is a valid starting point for
    the event. *)
Definition covers (sync : DepthSync) (d : BufferedDelta) (n : Z) : Prop :=
  match sync with
  | Spot => firstUpdateId d - 1 <= n <= finalUpdateId d
  | Futures => prevFinalUpdateId d = n \/ firstUpdateId d <= n <= finalUpdateId d
  end.

Record genuine (sync : DepthSync) (bidT askT : Z -> exch_side) (d : BufferedDelta) : Prop := {
  genuine_bids : Forall (fun u => notnan (price u)) (bids d);
  genuine_asks : Forall (fun u => notnan (price u)) (asks d);
  genuine_bid : forall n p, covers sync d n -> notnan p ->
    bidT (finalUpdateId d) p = exch_updates (bids d) (bidT n) p;
  genuine_ask : forall n p, covers sync d n -> notnan p ->
    askT (finalUpdateId d) p = exch_updates (asks d) (askT n) p
}.

Record genuine_snapshot (limit : nat) (bidT askT : Z -> exch_side) (id : Z)
    (bs asks : list PriceLevel) : Prop := {
  gsnap_bid : snapshot_of true (bidT id) limit bs;
  gsnap_ask : snapshot_of false (askT id) limit asks
}.

Section exchange.
Context (cfg : BookConfig) (bidT askT : Z -> exch_side).
Hypothesis Hmax : (0 < bc_maxLevels cfg)%nat.
Hypothesis Hlimit : (0 < bc_snapshotLimit cfg)%nat.
Hypothesis HbidT : forall n, exch_ok (bidT n).
Hypothesis HaskT : forall n, exch_ok (askT n).

Local Abbreviation genuine := (genuine (bc_sync cfg) bidT askT).
Local Abbreviation genuine_snapshot := (genuine_snapshot (bc_snapshotLimit cfg) bidT askT).

(** ** A book that is exact at an update id *)

Record book_at (n : Z) (b : Book) : Prop := {
  at_bid_ok : side_ok true (bc_maxLevels cfg) (bid b);
  at_ask_ok : side_ok false (bc_maxLevels cfg) (ask b);
  at_bid : knows true (bidT n) (bid b);
  at_ask : knows false (askT n) (ask b)
}.

Lemma applyLevels_at n d b :
  genuine d -> covers (bc_sync cfg) d n -> book_at n b ->
  book_at (finalUpdateId d) (applyLevels cfg (bids d) (asks d) b).
Proof.
  intros [Hb Ha Gb Ga] Hc [Hbo Hao Hbk Hak].
  destruct (fold_update_knows true (bc_maxLevels cfg) (bids d) (bidT n) (bid b)) as [? Hb']; [done..|].
  destruct (fold_update_knows false (bc_maxLevels cfg) (asks d) (askT n) (ask b)) as [? Ha']; [done..|].
  constructor; cbn [bid ask applyLevels]; [done..| |].
  - eapply knows_ext; [|exact Hb']. intros p Hp. symmetry. by apply Gb.
  - eapply knows_ext; [|exact Ha']. intros p Hp. symmetry. by apply Ga.
Qed.

Lemma loaded_at id bs asks :
  genuine_snapshot id bs asks ->
  book_at id (mkBook (load true bs (bc_snapshotLimit cfg) (bc_maxLevels cfg))
                     (load false asks (bc_snapshotLimit cfg) (bc_maxLevels cfg))).
Proof.
  intros [Hb Ha]. constructor; cbn [bid ask].
  - by apply (load_side_ok true (bidT id)).
  - by apply (load_side_ok false (askT id)).
  - by apply load_knows.
  - by apply load_knows.
Qed.

(** ** Sequencing *)

(** While the bridge is awaited the book is at the snapshot's id. *)
Definition seq_ok (s : Seq) : Prop := needBridge s = true -> snapshotId s = lastId s.

Lemma checkSequence_apply s d s' :
  checkSequence cfg s d = (APPLY, s') -> seq_ok s ->
  covers (bc_sync cfg) d (lastId s) /\ needBridge s' = false.
Proof.
  unfold checkSequence, covers, seq_ok. intros H Hs.
  destruct (bc_sync cfg), (needBridge s) eqn:Eb;
    repeat case_hyp H; simplify_eq; bools; cbn [needBridge modify]; split; try done;
    try specialize (Hs eq_refl); lia.
Qed.

Lemma checkSequence_seq s d v s' :
  checkSequence cfg s d = (v, s') ->
  lastId s' = lastId s /\ snapshotId s' = snapshotId s /\ (v <> APPLY -> s' = s).
Proof.
  unfold checkSequence. intros H.
  destruct (bc_sync cfg), (needBridge s); repeat case_hyp H; by simplify_eq.
Qed.

(** Applying an accepted event moves an exact book to the event's final id. *)
Lemma apply_step s d s' b :
  genuine d -> checkSequence cfg s d = (APPLY, s') -> seq_ok s -> book_at (lastId s) b ->
  book_at (finalUpdateId d) (applyLevels cfg (bids d) (asks d) b) /\ needBridge s' = false.
Proof.
  intros Hd Hc Hs Hb. destruct (checkSequence_apply _ _ _ Hc Hs) as [Hcov ?].
  split; [by apply (applyLevels_at (lastId s))|done].
Qed.

Lemma replayShadow_at buf b s ok b' s' :
  Forall genuine buf -> book_at (lastId s) b -> seq_ok s ->
  replayShadow cfg buf b s = (ok, (b', s')) ->
  book_at (lastId s') b' /\ seq_ok s' /\ (needBridge s' = true -> s' = s).
Proof.
  intros H. revert b s. induction H as [|d buf Hd _ IH]; intros b s Hb Hs Hr; cbn in Hr.
  { by simplify_eq. }
  destruct (checkSequence cfg s d) as [v s1] eqn:Ec.
  destruct (checkSequence_seq _ _ _ _ Ec) as (El & Es & Esame). destruct v.
  - rewrite (Esame ltac:(done)) in Hr. by apply IH in Hr.
  - destruct (apply_step _ _ _ b Hd Ec Hs Hb) as [Hb1 Hn1].
    apply IH in Hr as (? & ? & Hnb); cbn [lastId modify] in *; [|done|].
    + split; [done|]. split; [done|]. intros Hn. specialize (Hnb Hn). subst s'.
      cbn in Hn. congruence.
    + unfold seq_ok. cbn [needBridge modify]. congruence.
  - rewrite (Esame ltac:(done)) in Hr. by simplify_eq.
Qed.

(** ** The invariant of a symbol *)

Record sync_inv (v : View) : Prop := {
  inv_book : state (sb v) = SYNCING \/ state (sb v) = VALID -> book_at (lastId (seq (sb v))) (book (sb v));
  inv_seq : seq_ok (seq (sb v));
  inv_bridge : state (sb v) = VALID -> needBridge (seq (sb v)) = false;
  inv_shadow : pending (shadow (sb v)) = true ->
    book_at (lastId (sh_seq (shadow (sb v)))) (sh_book (shadow (sb v))) /\
    seq_ok (sh_seq (shadow (sb v))) /\ needBridge (sh_seq (shadow (sb v))) = true;
  inv_buffer : Forall genuine (deltaBuffer (sb v));
  inv_cap : (length (deltaBuffer (sb v)) <= MAX_DELTA_BUFFER_SIZE)%nat;
  inv_quiet : state (sb v) = INIT \/ state (sb v) = SYNCING ->
    refreshPending_ (sb v) = false /\ pending (shadow (sb v)) = false;
  inv_excl : refreshPending_ (sb v) = true -> pending (shadow (sb v)) = false
}.

(** Close the fields of the invariant that an operation leaves alone. *)
Ltac inv_same :=
  match goal with H : sync_inv ?v |- _ => destruct H; constructor; fields; try done; try tauto end.

Ltac inv_rest :=
  constructor; fields;
  first [done | tauto | by intros [?|?]; congruence | by constructor | cbn [length]; lia | idtac].

Lemma new_inv now c : sync_inv (mkView (new_SymBook now) c).
Proof.
  constructor; cbn; try done; try (intros [?|?]; discriminate). lia.
Qed.

Lemma bufferDelta_inv d v : genuine d -> sync_inv v -> sync_inv (snd (bufferDelta d v)).
Proof.
  intros Hd Hv. pose proof (bufferDelta_lastn d v (inv_cap v Hv)) as Hb.
  assert (sync_inv (v <|. deltaBuffer := deltaBuffer (sb (snd (bufferDelta d v))) |>)) as H.
  { inv_same; rewrite Hb.
    - apply Forall_drop, Forall_app. by split; [|constructor].
    - rewrite length_lastn. lia. }
  revert H. unfold bufferDelta. fields. case_match; intros []; by constructor.
Qed.

(** ** Every operation preserves the invariant *)

Lemma applyEvent_fields d v :
  let v' := applyEvent cfg d v in
  book (sb v') = applyLevels cfg (bids d) (asks d) (book (sb v)) /\
  seq (sb v') = (seq (sb v)) <| lastId := finalUpdateId d |> /\
  state (sb v') = VALID /\
  deltaBuffer (sb v') = deltaBuffer (sb v) /\ shadow (sb v') = shadow (sb v) /\
  refreshPending_ (sb v') = refreshPending_ (sb v).
Proof. unfold applyEvent. fields. repeat case_match; fields; done. Qed.

Lemma applyEvent_inv d v s' :
  genuine d -> sync_inv v -> state (sb v) = SYNCING \/ state (sb v) = VALID ->
  checkSequence cfg (seq (sb v)) d = (APPLY, s') ->
  sync_inv (applyEvent cfg d (v <|. seq := s' |>)).
Proof.
  intros Hd [Hb Hs Hbr Hsh Hbuf Hcap Hq He] Hst Hc.
  destruct (apply_step _ _ _ _ Hd Hc Hs (Hb Hst)) as [Hb' Hn].
  destruct (applyEvent_fields d (v <|. seq := s' |>)) as (Eb & Es & Ev & Ed & Esh & Er).
  fields. constructor; rewrite ?Eb, ?Es, ?Ev, ?Ed, ?Esh, ?Er; fields; try done.
  - unfold seq_ok. fields. congruence.
  - by intros [?|?].
Qed.

Lemma shadowEvent_inv d v :
  genuine d -> sync_inv v -> state (sb v) = VALID -> pending (shadow (sb v)) = true ->
  sync_inv (shadowEvent cfg d v).
Proof.
  intros Hd Hv Hst Hp. pose proof Hv as [Hb Hs Hbr Hsh Hbuf Hcap Hq He].
  destruct (Hsh Hp) as (Hsb & Hss & Hsn). unfold shadowEvent.
  destruct (checkSequence cfg (sh_seq (shadow (sb v))) d) as [vd s'] eqn:Ec.
  destruct (checkSequence_seq _ _ _ _ Ec) as (El & Es & Esame). destruct vd.
  - rewrite (Esame ltac:(done)). constructor; fields; done.
  - destruct (apply_step _ _ _ _ Hd Ec Hss Hsb) as [Hb' Hn].
    constructor; fields; try done.
    + unfold seq_ok. fields. congruence.
    + intros [?|?]; congruence.
  - constructor; fields; try done.
    intros [?|?]; congruence.
Qed.

Lemma shadowEvent_state d v : state (sb (shadowEvent cfg d v)) = state (sb v).
Proof. unfold shadowEvent. by repeat case_match. Qed.

Lemma bufferDelta_fields d v :
  let v' := snd (bufferDelta d v) in
  state (sb v') = state (sb v) /\ pending (shadow (sb v')) = pending (shadow (sb v)) /\
  refreshPending_ (sb v') = refreshPending_ (sb v) /\ book (sb v') = book (sb v) /\
  seq (sb v') = seq (sb v).
Proof. unfold bufferDelta. fields. by case_match. Qed.

Lemma applyDelta_inv d v : genuine d -> sync_inv v -> sync_inv (snd (applyDelta cfg d v)).
Proof.
  intros Hd Hv. unfold applyDelta. destruct (state (sb v)) eqn:Est; [done| | |done].
  all: destruct (checkSequence cfg (seq (sb v)) d) as [vd s'] eqn:Ec;
    destruct (checkSequence_seq _ _ _ _ Ec) as (El & Es & Esame).
  - (* SYNCING: no refresh can be in flight *)
    destruct (inv_quiet v Hv) as [Hr Hp]; [by right|]. destruct vd.
    + rewrite (Esame ltac:(done)). fields. rewrite Hr. fields. rewrite Hp. inv_same.
    + destruct (applyEvent_fields d (v <|. seq := s' |>)) as (Eb & Esq & Ev & Ed & Esh & Er).
      fields. rewrite Er, Hr, Esh, Hp. apply applyEvent_inv; auto.
    + rewrite (Esame ltac:(done)). fields. inv_same; intros [?|?]; done.
  - destruct vd.
    + rewrite (Esame ltac:(done)). fields.
      set (v1 := v <|. seq := seq (sb v) |>).
      assert (sync_inv v1) as H1 by (subst v1; inv_same).
      destruct (bufferDelta_fields d v1) as (Bs & Bp & _).
      destruct (refreshPending_ (sb v)) eqn:Er; fields.
      * rewrite Bp. change (shadow (sb v1)) with (shadow (sb v)).
        rewrite (inv_excl v Hv Er). by apply bufferDelta_inv.
      * change (shadow (sb v1)) with (shadow (sb v)).
        destruct (pending (shadow (sb v))) eqn:Ep; [by apply shadowEvent_inv|done].
    + set (v1 := applyEvent cfg d (v <|. seq := s' |>)).
      assert (sync_inv v1) as H1 by (apply applyEvent_inv; auto).
      destruct (applyEvent_fields d (v <|. seq := s' |>)) as (Eb & Esq & Ev & Ed & Esh & Er).
      fold v1 in Eb, Esq, Ev, Ed, Esh, Er. fields.
      destruct (bufferDelta_fields d v1) as (Bs & Bp & _).
      rewrite Er. destruct (refreshPending_ (sb v)) eqn:Erp.
      * rewrite Bp, Esh, (inv_excl v Hv Erp). by apply bufferDelta_inv.
      * rewrite Esh. destruct (pending (shadow (sb v))) eqn:Ep; [|done].
        apply shadowEvent_inv; [done..|]. by rewrite Esh.
    + rewrite (Esame ltac:(done)). fields. inv_same; intros [?|?]; done.
Qed.

Lemma replay_inv buf v :
  Forall genuine buf -> sync_inv v -> sync_inv (snd (replay cfg buf v)).
Proof.
  intros H. revert v. induction H as [|d buf Hd _ IH]; intros v Hv; cbn; [done|].
  pose proof (applyDelta_inv d v Hd Hv) as Hv'.
  destruct (applyDelta cfg d v) as [[] v']; cbn in *; auto.
Qed.

Lemma finishRefresh_inv id bs asks v :
  genuine_snapshot id bs asks -> sync_inv v ->
  state (sb v) = VALID -> refreshPending_ (sb v) = true ->
  sync_inv (snd (finishRefresh cfg id bs asks v)).
Proof.
  intros Hsnap Hv Hst Hr. pose proof (inv_excl v Hv Hr) as Hp.
  destruct Hv as [Hb Hs Hbr Hsh Hbuf Hcap Hq He]. unfold finishRefresh. fields.
  destruct (replayShadow _ _ _ _) as [ok [b' s']] eqn:Er.
  apply (replayShadow_at _ _ _ _ _ _ Hbuf) in Er as (Hb' & Hs' & Hsame);
    [|by apply loaded_at|done].
  destruct ok; cbn [negb]; [|inv_rest].
  destruct (needBridge s') eqn:En; cbn [andb].
  - specialize (Hsame eq_refl). subst s'. fields.
    destruct (Z.eqb_spec id (lastId (seq (sb v)))) as [->|Hne];
      inv_rest.
  - inv_rest.
Qed.

Lemma onSnapshot_inv id bs asks v :
  genuine_snapshot id bs asks -> sync_inv v -> sync_inv (snd (onSnapshot cfg id bs asks v)).
Proof.
  intros Hsnap Hv. unfold onSnapshot. fields.
  destruct (bool_decide (state (sb v) = VALID)) eqn:Ev;
    [apply bool_decide_eq_true in Ev|]; destruct (refreshPending_ (sb v)) eqn:Er; cbn [andb].
  { apply finishRefresh_inv; [done|inv_same|done|done]. }
  all: destruct (bool_decide (state (sb v) = INIT)) eqn:Ei; cbn [negb];
    [apply bool_decide_eq_true in Ei; try congruence|inv_same].
  all: set (v1 := applySnapshot _ _ _ _ _);
    assert (sync_inv v1) as H1 by
      (destruct (inv_quiet v Hv) as [Hr Hp]; [by left|]; unfold v1, applySnapshot; destruct Hv;
       constructor; fields; try done; intros _; by apply loaded_at);
    pose proof (replay_inv (deltaBuffer (sb v1)) v1 (inv_buffer v1 H1) H1) as H2;
    destruct (replay cfg _ v1) as [ok v2]; cbn [snd] in H2;
    destruct ok; cbn [negb]; inv_same; first [by constructor | cbn [length]; lia].
Qed.

Lemma beginRefresh_inv v : wantsRefresh cfg v = true -> sync_inv v -> sync_inv (beginRefresh v).
Proof.
  unfold wantsRefresh. intros Hw Hv. bools. destruct Hw as [[[Hst Hr] Hp] _].
  apply bool_decide_eq_true in Hst. unfold beginRefresh.
  inv_same; first [by constructor | by intros [?|?]; congruence | cbn [length]; lia].
Qed.

Lemma cancelRefresh_inv v : sync_inv v -> sync_inv (cancelRefresh v).
Proof.
  intros Hv. unfold cancelRefresh. destruct (refreshPending_ (sb v)) eqn:Er; [|done].
  cbn [negb]. inv_same; first [by constructor | cbn [length]; lia].
Qed.

Lemma reset_inv v : sync_inv (reset v).
Proof. unfold reset. inv_rest. Qed.

Lemma recordPublish_inv now q v : sync_inv v -> sync_inv (recordPublish now q v).
Proof. intros Hv. unfold recordPublish. inv_same. Qed.

(** ** Reachable states

    One step is one call of the class's interface on the symbol. The only
    discipline asked of the caller is the handler's own: [bufferDelta] in state
    INIT, and [beginRefresh] when [wantsRefresh] says so. *)

Inductive book_step : View -> View -> Prop :=
  | step_buffer d v : genuine d -> book_step v (snd (bufferDelta d v))
  | step_requested b v : book_step v (setSnapshotRequested b v)
  | step_begin v : wantsRefresh cfg v = true -> book_step v (beginRefresh v)
  | step_cancel v : book_step v (cancelRefresh v)
  | step_snapshot id bs asks v :
      genuine_snapshot id bs asks -> book_step v (snd (onSnapshot cfg id bs asks v))
  | step_delta d v : genuine d -> book_step v (snd (applyDelta cfg d v))
  | step_reset v : book_step v (reset v)
  | step_publish now q v : book_step v (recordPublish now q v)
  (* other symbols share the counters *)
  | step_counters c v : book_step v (v <| ct := c |>).

Definition initial (v : View) : Prop := exists now c, v = mkView (new_SymBook now) c.
Definition reachable (v : View) : Prop := exists v0, initial v0 /\ rtc book_step v0 v.

Lemma book_step_inv v v' : book_step v v' -> sync_inv v -> sync_inv v'.
Proof.
  destruct 1; auto using bufferDelta_inv, beginRefresh_inv, cancelRefresh_inv, onSnapshot_inv,
    applyDelta_inv, reset_inv, recordPublish_inv; intros; inv_same.
Qed.

Lemma reachable_inv v : reachable v -> sync_inv v.
Proof.
  intros (v0 & (now & c & ->) & Hr). assert (sync_inv (mkView (new_SymBook now) c)) as Hi by apply new_inv.
  revert Hi. induction Hr; eauto using book_step_inv.
Qed.
End exchange.

(** ** What is published *)

Lemma nth_best_reverse lv i : nth_best lv i = reverse lv !! i.
Proof.
  unfold nth_best. destruct (Nat.ltb_spec i (length lv)) as [H|H].
  - rewrite reverse_lookup by done. f_equal. lia.
  - rewrite lookup_ge_None_2; [done|]. rewrite length_reverse. lia.
Qed.

(** A published column: the best levels, best first, then zeros. *)
Lemma column_eq f lv depth :
  column f lv depth =
    (f <$> take depth (reverse lv)) ++ replicate (depth - length lv) d0.
Proof.
  apply list_eq. intros i. unfold column. rewrite list_lookup_fmap.
  destruct (decide (i < depth)%nat) as [Hi|Hi].
  - rewrite (proj2 (lookup_seq 0 depth i i) (conj eq_refl Hi)). cbn [fmap option_fmap option_map Nat.add].
    rewrite nth_best_reverse.
    destruct (decide (i < length lv)%nat) as [Hl|Hl].
    + rewrite lookup_app_l by (rewrite length_fmap, length_take, length_reverse; lia).
      rewrite list_lookup_fmap, lookup_take_lt by done.
      destruct (lookup_lt_is_Some_2 (reverse lv) i) as [l ->]; [by rewrite length_reverse|done].
    + rewrite lookup_app_r by (rewrite length_fmap, length_take, length_reverse; lia).
      rewrite (lookup_ge_None_2 (reverse lv)) by (rewrite length_reverse; lia).
      symmetry. apply lookup_replicate_2. rewrite length_fmap, length_take, length_reverse. lia.
  - rewrite (lookup_ge_None_2 (List.seq 0 depth)) by (rewrite length_seq; lia).
    symmetry. apply lookup_ge_None_2.
    rewrite length_app, length_fmap, length_take, length_reverse, length_replicate. lia.
Qed.

(** The two columns of one side show the best [depth] levels of [T]. *)
Definition shows (isBid : bool) (T : exch_side) (depth : nat) (prices qtys : list double) : Prop :=
  exists lv, is_top isBid T depth lv /\
    prices = (price <$> lv) ++ replicate (depth - length lv) d0 /\
    qtys = (qty <$> lv) ++ replicate (depth - length lv) d0.

Lemma columns_show isBid T maxLevels depth s :
  side_ok isBid maxLevels s -> exch_ok T -> knows isBid T s -> below depth s = false ->
  shows isBid T depth (column price (levels s) depth) (column qty (levels s) depth).
Proof.
  intros Hs HT Hk Hb. exists (top depth s). split; [by apply (top_is_top _ _ maxLevels)|].
  unfold top. rewrite !column_eq, length_take, length_reverse.
  replace (depth - Nat.min depth (length (levels s)))%nat with (depth - length (levels s))%nat by lia.
  done.
Qed.

Lemma getQuote_valid cfg sym t n v :
  q_isValid (getQuote cfg sym t n v) = true ->
  state (sb v) = VALID /\ depthExhausted cfg v = false /\
  let q := getQuote cfg sym t n v in
  let b := book (sb v) in
  q_exchUpdateId q = lastId (seq (sb v)) /\
  q_bidPrices q = column price (levels (bid b)) (bc_depth cfg) /\
  q_bidQtys q = column qty (levels (bid b)) (bc_depth cfg) /\
  q_askPrices q = column price (levels (ask b)) (bc_depth cfg) /\
  q_askQtys q = column qty (levels (ask b)) (bc_depth cfg).
Proof.
  assert (q_isValid (getQuote cfg sym t n v) =
    bool_decide (state (sb v) = VALID) && negb (depthExhausted cfg v)) as ->.
  { unfold getQuote. cbn [q_isValid modify].
    by destruct (bool_decide (state (sb v) = VALID)), (depthExhausted cfg v),
      (bool_decide (state (sb v) = SYNCING)); cbn. }
  intros [Hv Hd]%andb_true_iff. apply bool_decide_eq_true in Hv. apply Bool.negb_true_iff in Hd.
  unfold getQuote. rewrite Hd, Hv. done.
Qed.

(** A valid quote of a book in the invariant shows the exchange's best levels at
    the update id it carries. *)
Lemma valid_quote_shows cfg bidT askT v sym t n :
  (forall i, exch_ok (bidT i)) -> (forall i, exch_ok (askT i)) ->
  sync_inv cfg bidT askT v ->
  let q := getQuote cfg sym t n v in
  q_isValid q = true ->
  shows true (bidT (q_exchUpdateId q)) (bc_depth cfg) (q_bidPrices q) (q_bidQtys q) /\
  shows false (askT (q_exchUpdateId q)) (bc_depth cfg) (q_askPrices q) (q_askQtys q).
Proof.
  intros Hb Ha Hv q Hq. subst q.
  apply getQuote_valid in Hq as (Hst & Hd & Hid & -> & -> & -> & ->). rewrite Hid.
  destruct (inv_book _ _ _ _ Hv) as [Bo Ao Bk Ak]; [by right|].
  unfold depthExhausted in Hd. apply orb_false_iff in Hd as [Hd1 Hd2].
  split; by apply (columns_show _ _ (bc_maxLevels cfg)).
Qed.
