(* ===== verification/BookProps.v ===== *)
(** * Properties of the order book

    The theorems about [OrderBookManager], each stated on the definitions of
    OrderBook and proved from the invariant and lemmas of OrderBookSpec. *)

From S2P Require Import Prelude Double Cxx MarketConfig BookSide OrderBook OrderBookSpec.
From Stdlib Require Import Sorted.

Open Scope Z_scope.
Local Open Scope rec_scope.

(** C6: in every state the manager's operations can reach, a quote marked valid
    shows the best [depth] bid and ask levels the exchange had at the update id
    the quote carries, best first, with zeros where the exchange has fewer. *)
Theorem valid_quote_exact cfg bidT askT v sym t n :
  (0 < bc_maxLevels cfg)%nat -> (0 < bc_snapshotLimit cfg)%nat ->
  (forall i, exch_ok (bidT i)) -> (forall i, exch_ok (askT i)) ->
  reachable cfg bidT askT v ->
  let q := getQuote cfg sym t n v in
  q_isValid q = true ->
  shows true (bidT (q_exchUpdateId q)) (bc_depth cfg) (q_bidPrices q) (q_bidQtys q) /\
  shows false (askT (q_exchUpdateId q)) (bc_depth cfg) (q_askPrices q) (q_askQtys q).
Proof.
  intros Hmax Hlim Hb Ha Hr. apply valid_quote_shows; [done..|]. by apply reachable_inv.
Qed.

(** ** A concrete exchange, for the witnesses

    Three levels a side; the snapshot (limit 2) is taken at id 10 and one event
    [11, 12] changes the best bid's quantity. *)

Definition lv (p q : Z) : PriceLevel := mkLevel (d_of_Z p) (d_of_Z q).
Definition side_fn (l : list PriceLevel) : exch_side := fun p => qty <$> level_at l p.

Definition ex_cfg : BookConfig := mkBookConfig 1 2 1 4 Spot.
Definition ex_bids : list PriceLevel := [lv 100 1; lv 99 2; lv 98 3].
Definition ex_asks : list PriceLevel := [lv 101 1; lv 102 2; lv 103 3].
Definition ex_delta : BufferedDelta := mkDelta 11 12 1700 [lv 100 7] [] 0 0.
Definition ex_bidT (n : Z) : exch_side :=
  if n <? 12 then side_fn ex_bids else exch_updates (bids ex_delta) (side_fn ex_bids).
Definition ex_askT (n : Z) : exch_side := side_fn ex_asks.
Definition ex_v0 : View := mkView (new_SymBook 0) (mkCounters 0 0 0 0).
Definition ex_v1 : View := snd (onSnapshot ex_cfg 10 (take 2 ex_bids) (take 2 ex_asks) ex_v0).
Definition ex_v2 : View := snd (applyDelta ex_cfg ex_delta ex_v1).

Lemma side_fn_ok l : Forall good_level l -> exch_ok (side_fn l).
Proof.
  intros H. constructor; unfold side_fn.
  - intros p p' Hd. f_equal. unfold level_at. induction l as [|x l IH]; cbn; [done|].
    replace (deq (price x) p') with (deq (price x) p) by (apply Bool.eq_iff_eq_true; dorder).
    inversion_clear H. by rewrite IH.
  - intros p q (x & Hx%level_at_Some & ->)%fmap_Some. destruct Hx as [Hx _].
    by apply (proj1 (Forall_forall _ _) H) in Hx as [_ ?].
Qed.

Lemma exch_updates_idem u T p :
  exch_updates [u] (exch_updates [u] T) p = exch_updates [u] T p.
Proof. cbn. unfold exch_update. by destruct (deq p (price u)). Qed.

Ltac concrete_levels :=
  solve [repeat first [apply Forall_cons; split | apply Forall_nil; exact I | split
    | apply FOP_cons | apply FOP_nil | vm_compute; reflexivity
    | left; vm_compute; reflexivity | right; vm_compute; reflexivity]].

Lemma ex_genuine : genuine Spot ex_bidT ex_askT ex_delta.
Proof.
  constructor; [concrete_levels|constructor| |done].
  intros n p Hc _. unfold covers in Hc. cbn [firstUpdateId finalUpdateId ex_delta] in *.
  unfold ex_bidT. change (12 <? 12) with false. cbn [bids ex_delta].
  case_match; [done|]. by rewrite exch_updates_idem.
Qed.

Lemma ex_snapshot_of isBid (l : list PriceLevel) x :
  Forall (fun l => notnan (price l) /\ dgt (qty l) d0 = true) l ->
  comparable (fun a b => better isBid (price b) (price a)) l ->
  Forall (fun l' => side_fn (l ++ [x]) (price l') = Some (qty l')) l ->
  Forall (fun l' => better isBid (price l') (price x) = true) l ->
  snapshot_of isBid (side_fn (l ++ [x])) (length l) l.
Proof.
  intros Hg Hc Ht Hb. constructor; [done..|].
  intros p q Hp (y & (Hy & Hd)%level_at_Some & _)%fmap_Some.
  apply elem_of_app in Hy as [Hy|Hy]; [left; eauto|right].
  apply list_elem_of_singleton in Hy. subst y. split; [done|].
  eapply Forall_impl; [exact Hb|]. cbn. intros z Hz. by rewrite <-(better_deq_r isBid _ _ _ Hd).
Qed.

Lemma ex_genuine_snapshot :
  genuine_snapshot 2 ex_bidT ex_askT 10 (take 2 ex_bids) (take 2 ex_asks).
Proof.
  constructor.
  - apply (ex_snapshot_of true (take 2 ex_bids) (lv 98 3)); concrete_levels.
  - apply (ex_snapshot_of false (take 2 ex_asks) (lv 103 3)); concrete_levels.
Qed.

Lemma ex_ok : (forall i, exch_ok (ex_bidT i)) /\ (forall i, exch_ok (ex_askT i)).
Proof.
  split; intros i.
  - unfold ex_bidT. case_match; [|apply exch_updates_ok]; apply side_fn_ok; concrete_levels.
  - apply side_fn_ok; concrete_levels.
Qed.

Lemma ex_reachable : reachable ex_cfg ex_bidT ex_askT ex_v2.
Proof.
  exists ex_v0. split; [by exists 0, (mkCounters 0 0 0 0)|].
  apply (rtc_l _ _ ex_v1); [apply (step_snapshot ex_cfg), ex_genuine_snapshot|].
  apply rtc_once, step_delta, ex_genuine.
Qed.

Lemma valid_quote_exact_witness :
  let q := getQuote ex_cfg "BTCUSDT" 0 1 ex_v2 in
  q_isValid q = true /\ q_exchUpdateId q = 12 /\ q_bidQtys q = [d_of_Z 7] /\
  shows true (ex_bidT (q_exchUpdateId q)) 1 (q_bidPrices q) (q_bidQtys q) /\
  shows false (ex_askT (q_exchUpdateId q)) 1 (q_askPrices q) (q_askQtys q).
Proof.
  assert (q_isValid (getQuote ex_cfg "BTCUSDT" 0 1 ex_v2) = true) as Hq by (vm_compute; reflexivity).
  split; [exact Hq|]. split; [vm_compute; reflexivity|]. split; [vm_compute; reflexivity|].
  exact (valid_quote_exact ex_cfg ex_bidT ex_askT ex_v2 "BTCUSDT" 0 1
    (Nat.lt_0_succ 3) (Nat.lt_0_succ 1) (proj1 ex_ok) (proj2 ex_ok) ex_reachable Hq).
Defined.

(** ** Live events *)

(** How an event relates to a live (bridged) book at update id [last]. *)
Inductive relation_to_book := Chained | Stale | Gap.
Definition relates (sync : DepthSync) (last : Z) (d : BufferedDelta) : relation_to_book :=
  match sync with
  | Spot => if finalUpdateId d <? last then Stale
            else if firstUpdateId d <=? last + 1 then Chained else Gap
  | Futures => if prevFinalUpdateId d =? last then Chained else Gap
  end.

Lemma checkSequence_live cfg s d :
  needBridge s = false ->
  checkSequence cfg s d =
    (match relates (bc_sync cfg) (lastId s) d with Chained => APPLY | Stale => SKIP | Gap => FAIL end, s).
Proof.
  intros Hn. unfold checkSequence, relates. rewrite Hn.
  destruct (bc_sync cfg); [|by case_match].
  destruct (finalUpdateId d <? lastId s); [done|].
  destruct (Z.ltb_spec (lastId s + 1) (firstUpdateId d)), (Z.leb_spec (firstUpdateId d) (lastId s + 1));
    done || lia.
Qed.

Lemma view_seq_same v : v <|. seq := seq (sb v) |> = v.
Proof. by destruct v as [[]]. Qed.

(** What a chained event does to a live book with no refresh in flight. *)
Lemma applyDelta_live cfg d v :
  state (sb v) = VALID -> needBridge (seq (sb v)) = false -> pending (shadow (sb v)) = false ->
  applyDelta cfg d v =
    match relates (bc_sync cfg) (lastId (seq (sb v))) d with
    | Gap => (false, v <|. state := INVALID |>)
    | r =>
        let v := match r with Chained => applyEvent cfg d v | _ => v end in
        (true, if refreshPending_ (sb v) then snd (bufferDelta d v) else v)
    end.
Proof.
  intros Hst Hn Hp. unfold applyDelta. rewrite Hst, checkSequence_live, view_seq_same by done.
  destruct (relates _ _ _); [| |done].
  - destruct (applyEvent_fields cfg d v) as (_ & _ & _ & _ & Es & _).
    destruct (bufferDelta_fields d (applyEvent cfg d v)) as (_ & Ep & _).
    destruct (refreshPending_ _); rewrite ?Ep, ?Es, Hp; done.
  - destruct (bufferDelta_fields d v) as (_ & Ep & _).
    destruct (refreshPending_ _); rewrite ?Ep, Hp; done.
Qed.



(** ** Snapshots *)

(** The attributes the publisher reads. *)
Definition live_part (v : View) : Book * Seq * BookState * (Z * Z) * (Z * Z * bool) * (BookQuote * Z * bool) :=
  let b := sb v in
  (book b, seq b, state b, (exchEventTimeMs b, exchTransactTimeMs b),
   (rangeFirstU b, rangePrevU b, rangeClosed b), (lastPublished b, lastPublishTime b, hasPublished b)).

Lemma finishRefresh_cases cfg id bs asks v o v' :
  finishRefresh cfg id bs asks v = (o, v') ->
  deltaBuffer (sb v') = [] /\ refreshPending_ (sb v') = false /\
  snapshotRequested (sb v') = snapshotRequested (sb v) /\
  state (sb v') = state (sb v) /\ bufferOverflows (ct v') = bufferOverflows (ct v) /\
  depthExhaustedEvents (ct v') = depthExhaustedEvents (ct v) /\
  match o with
  | REFRESH_FAILED =>
      live_part v' = live_part v /\ shadow (sb v') = shadow (sb v) /\
      refreshFailures (ct v') = refreshFailures (ct v) + 1 /\
      depthRefreshes (ct v') = depthRefreshes (ct v)
  | REFRESH_AWAITING_BRIDGE =>
      live_part v' = live_part v /\ pending (shadow (sb v')) = true /\ ct v' = ct v
  | REFRESHED =>
      shadow (sb v') = shadow (sb v) /\
      refreshFailures (ct v') = refreshFailures (ct v) /\
      depthRefreshes (ct v') = depthRefreshes (ct v) + 1
  | _ => False
  end.
Proof.
  unfold finishRefresh. fields. destruct (replayShadow _ _ _ _) as [ok [b' s']].
  destruct ok; cbn [negb]; [destruct (needBridge s'); cbn [andb]; [destruct (id =? _)|]|];
    intros [= <- <-]; fields; repeat split; cbn; lia.
Qed.


(** A refresh whose snapshot is at the live book's own id replaces the levels. *)
Definition ex_v3 : View := beginRefresh ex_v2.

(** Without a refresh in flight an event leaves the delta buffer alone. *)
Lemma shadowEvent_buffer cfg d v :
  deltaBuffer (sb (shadowEvent cfg d v)) = deltaBuffer (sb v) /\
  refreshPending_ (sb (shadowEvent cfg d v)) = refreshPending_ (sb v).
Proof. unfold shadowEvent. destruct (checkSequence _ _ _) as [[] ?]; done. Qed.

(** What [applyDelta] does after the live book has taken the event. *)
Definition after_event (cfg : BookConfig) (d : BufferedDelta) (v : View) : View :=
  let v := if refreshPending_ (sb v) then snd (bufferDelta d v) else v in
  if pending (shadow (sb v)) then shadowEvent cfg d v else v.

Lemma applyDelta_eq cfg d v :
  state (sb v) = SYNCING \/ state (sb v) = VALID ->
  applyDelta cfg d v =
    let '(vd, s') := checkSequence cfg (seq (sb v)) d in
    let v1 := v <|. seq := s' |> in
    match vd with
    | FAIL => (false, invalidate v1)
    | APPLY => (true, after_event cfg d (applyEvent cfg d v1))
    | SKIP => (true, after_event cfg d v1)
    end.
Proof.
  intros [H|H]; unfold applyDelta, after_event; rewrite H;
    destruct (checkSequence _ _ _) as [[] ?]; cbv beta iota zeta; reflexivity.
Qed.

Lemma after_event_buffer cfg d v :
  refreshPending_ (sb v) = false ->
  deltaBuffer (sb (after_event cfg d v)) = deltaBuffer (sb v) /\
  refreshPending_ (sb (after_event cfg d v)) = false.
Proof.
  intros H. unfold after_event. rewrite H. cbv zeta.
  destruct (shadowEvent_buffer cfg d v) as [Ed Er]. case_match; [by rewrite Ed, Er|done].
Qed.

Lemma applyDelta_buffer_untouched cfg d v :
  refreshPending_ (sb v) = false ->
  deltaBuffer (sb (snd (applyDelta cfg d v))) = deltaBuffer (sb v) /\
  refreshPending_ (sb (snd (applyDelta cfg d v))) = false.
Proof.
  intros Hr. destruct (decide (state (sb v) = SYNCING \/ state (sb v) = VALID)) as [Hs|Hs].
  2:{ unfold applyDelta. destruct (state (sb v)); auto; tauto. }
  rewrite applyDelta_eq by done. destruct (checkSequence cfg (seq (sb v)) d) as [vd s'].
  destruct (applyEvent_fields cfg d (v <|. seq := s' |>)) as (_ & _ & _ & Ed & _ & Er).
  assert (refreshPending_ (sb (v <|. seq := s' |>)) = false) as Hr' by exact Hr.
  destruct vd; cbv zeta; cbn [snd]; [by destruct (after_event_buffer cfg d _ Hr')| |done].
  destruct (after_event_buffer cfg d (applyEvent cfg d (v <|. seq := s' |>))) as [E1 E2];
    [by rewrite Er|]. by rewrite E1, E2, Ed.
Qed.

Lemma replay_buffer_untouched cfg buf v :
  refreshPending_ (sb v) = false ->
  deltaBuffer (sb (snd (replay cfg buf v))) = deltaBuffer (sb v) /\
  refreshPending_ (sb (snd (replay cfg buf v))) = false.
Proof.
  revert v. induction buf as [|d buf IH]; intros v Hr; cbn [replay]; [done|].
  destruct (applyDelta_buffer_untouched cfg d v Hr) as [Hd Hr1].
  destruct (applyDelta cfg d v) as [[] v1]; cbn [snd] in *; [|done].
  rewrite <-Hd. by apply IH.
Qed.



(** ** Initial synchronisation *)

(** Events a book loaded at id [n] drops while it waits for the bridge. *)
Definition stale_for_bridge (sync : DepthSync) (n : Z) (d : BufferedDelta) : bool :=
  match sync with
  | Spot => finalUpdateId d <=? n
  | Futures => negb (prevFinalUpdateId d =? n) && (finalUpdateId d <? n)
  end.
Definition bridges (sync : DepthSync) (n : Z) (d : BufferedDelta) : bool :=
  match sync with
  | Spot => firstUpdateId d <=? n + 1
  | Futures => (prevFinalUpdateId d =? n) || (firstUpdateId d <=? n)
  end.

(** The rest of a chain that starts at id [n]. *)
Fixpoint chain_from (sync : DepthSync) (n : Z) (ds : list BufferedDelta) : bool :=
  match ds with
  | [] => true
  | d :: rest =>
      match relates sync n d with
      | Chained => chain_from sync (finalUpdateId d) rest
      | Stale => chain_from sync n rest
      | Gap => false
      end
  end.

(** The exchange's procedure: drop the events the snapshot already has, then
    the first one must bridge it and the others chain. *)
Fixpoint drop_while {A} (f : A -> bool) (l : list A) : list A :=
  match l with [] => [] | x :: l' => if f x then drop_while f l' else l end.
Definition sync_procedure (sync : DepthSync) (n : Z) (ds : list BufferedDelta) : SnapshotOutcome :=
  match drop_while (stale_for_bridge sync n) ds with
  | [] => AWAITING_BRIDGE
  | d :: rest =>
      if bridges sync n d && chain_from sync (finalUpdateId d) rest then SYNCED else SYNC_FAILED
  end.

Lemma checkSequence_bridge cfg s d n :
  needBridge s = true -> snapshotId s = n ->
  checkSequence cfg s d =
    if stale_for_bridge (bc_sync cfg) n d then (SKIP, s)
    else if bridges (bc_sync cfg) n d then (APPLY, s <| needBridge := false |>) else (FAIL, s).
Proof.
  intros Hn <-. unfold checkSequence, stale_for_bridge, bridges. rewrite Hn.
  destruct (bc_sync cfg).
  - destruct (Z.ltb_spec (finalUpdateId d) (snapshotId s + 1)),
      (Z.leb_spec (finalUpdateId d) (snapshotId s)); try lia; [done|].
    destruct (Z.ltb_spec (snapshotId s + 1) (firstUpdateId d)),
      (Z.leb_spec (firstUpdateId d) (snapshotId s + 1)); done || lia.
  - destruct (_ =? _); cbn [negb andb orb]; [done|].
    destruct (finalUpdateId d <? snapshotId s); [done|].
    destruct (Z.ltb_spec (snapshotId s) (firstUpdateId d)),
      (Z.leb_spec (firstUpdateId d) (snapshotId s)); done || lia.
Qed.

(** No refresh in flight, so an event only concerns the live book. *)
Definition quiet (v : View) : Prop :=
  refreshPending_ (sb v) = false /\ pending (shadow (sb v)) = false.

Lemma after_event_quiet cfg d v : quiet v -> after_event cfg d v = v.
Proof. intros [Hr Hp]. unfold after_event. rewrite Hr. cbv zeta. by rewrite Hp. Qed.

Lemma applyEvent_quiet cfg d v s' :
  quiet v -> quiet (applyEvent cfg d (v <|. seq := s' |>)) /\
  state (sb (applyEvent cfg d (v <|. seq := s' |>))) = VALID /\
  seq (sb (applyEvent cfg d (v <|. seq := s' |>))) = s' <| lastId := finalUpdateId d |>.
Proof.
  intros [Hr Hp].
  destruct (applyEvent_fields cfg d (v <|. seq := s' |>)) as (_ & Es & Ev & _ & Esh & Er).
  unfold quiet. by rewrite Er, Esh, Ev, Es.
Qed.

Lemma replay_chain cfg ds v :
  quiet v -> state (sb v) = VALID -> needBridge (seq (sb v)) = false ->
  exists v', replay cfg ds v = (chain_from (bc_sync cfg) (lastId (seq (sb v))) ds, v') /\
    (chain_from (bc_sync cfg) (lastId (seq (sb v))) ds = true -> state (sb v') = VALID).
Proof.
  revert v. induction ds as [|d ds IH]; intros v Hq Hst Hn; cbn [replay chain_from]; [by eauto|].
  rewrite applyDelta_eq by (by right). rewrite checkSequence_live by done. cbv zeta.
  destruct (relates _ _ _).
  - destruct (applyEvent_quiet cfg d v (seq (sb v)) Hq) as (Hq' & Hs' & He').
    rewrite after_event_quiet by done.
    destruct (IH _ Hq' Hs') as (v' & E & Hv'); [by rewrite He'|].
    rewrite E. rewrite He' in *. by exists v'.
  - rewrite view_seq_same, after_event_quiet by done. by apply IH.
  - by eexists.
Qed.

Lemma replay_bridge cfg ds v n :
  quiet v -> state (sb v) = SYNCING -> needBridge (seq (sb v)) = true ->
  snapshotId (seq (sb v)) = n ->
  exists ok v', replay cfg ds v = (ok, v') /\
    (if negb ok then SYNC_FAILED
     else if bool_decide (state (sb v') = VALID) then SYNCED else AWAITING_BRIDGE) =
      sync_procedure (bc_sync cfg) n ds.
Proof.
  intros Hq Hst Hn Hid. unfold sync_procedure.
  induction ds as [|d ds IH]; cbn [replay drop_while].
  { exists true, v. by rewrite Hst. }
  rewrite applyDelta_eq by (by left). rewrite (checkSequence_bridge _ _ _ n) by done.
  destruct (stale_for_bridge _ _ _).
  { cbv zeta. rewrite view_seq_same, after_event_quiet by done. exact IH. }
  destruct (bridges _ _ _); cbv zeta; cbn [andb]; [|by eexists false, _].
  destruct (applyEvent_quiet cfg d v ((seq (sb v)) <| needBridge := false |>) Hq) as (Hq' & Hs' & He').
  rewrite after_event_quiet by done.
  destruct (replay_chain cfg ds _ Hq' Hs') as (v' & E & Hv'); [by rewrite He'|].
  rewrite E. rewrite He' in *. cbn [lastId modify] in *. eexists _, v'. split; [done|].
  destruct (chain_from _ _ _); cbn [negb]; [|done]. by rewrite Hv'.
Qed.

Lemma replay_false cfg ds v v' :
  replay cfg ds v = (false, v') -> state (sb v') <> VALID.
Proof.
  revert v. induction ds as [|d ds IH]; intros v; cbn [replay]; [done|].
  destruct (decide (state (sb v) = SYNCING \/ state (sb v) = VALID)) as [Hs|Hs].
  - rewrite applyDelta_eq by done. destruct (checkSequence _ _ _) as [[] s']; cbv zeta; [apply IH..|].
    intros H. apply (f_equal snd) in H. cbn [snd] in H. by subst v'.
  - unfold applyDelta. destruct (state (sb v)) eqn:E; try tauto; intros [= <-]; congruence.
Qed.



(** ** The delta buffer *)

Definition buffer_all (ds : list BufferedDelta) (v : View) : View :=
  fold_left (fun v d => snd (bufferDelta d v)) ds v.

Lemma bufferDelta_overflow d v :
  (length (deltaBuffer (sb v)) <= MAX_DELTA_BUFFER_SIZE)%nat ->
  bufferOverflows (ct (snd (bufferDelta d v))) =
    bufferOverflows (ct v) + Z.of_nat (S (length (deltaBuffer (sb v))) - MAX_DELTA_BUFFER_SIZE).
Proof.
  intros H. unfold bufferDelta. fields.
  assert (length (deltaBuffer (sb v) ++ [d]) = S (length (deltaBuffer (sb v)))) as ->
    by (rewrite length_app; cbn; lia).
  set (M := MAX_DELTA_BUFFER_SIZE) in *.
  destruct (Nat.ltb_spec M (S (length (deltaBuffer (sb v))))); cbn [snd ct modify eta_Counters bufferOverflows]; fields;
    cbn [bufferOverflows]; lia.
Qed.

(** C36: the delta buffer is a sliding window: after any sequence of events it
    holds the newest [MAX_DELTA_BUFFER_SIZE] of them in arrival order, and every
    event pushed out of it is counted as an overflow. *)
Theorem buffer_is_newest_window ds v :
  (length (deltaBuffer (sb v)) <= MAX_DELTA_BUFFER_SIZE)%nat ->
  deltaBuffer (sb (buffer_all ds v)) = lastn MAX_DELTA_BUFFER_SIZE (deltaBuffer (sb v) ++ ds) /\
  bufferOverflows (ct (buffer_all ds v)) = bufferOverflows (ct v) +
    Z.of_nat (length (deltaBuffer (sb v) ++ ds) - MAX_DELTA_BUFFER_SIZE).
Proof.
  unfold buffer_all. revert v. induction ds as [|d ds IH]; intros v H; cbn [fold_left].
  { rewrite app_nil_r, lastn_all by done. split; [done|].
    set (M := MAX_DELTA_BUFFER_SIZE) in *. lia. }
  pose proof (bufferDelta_lastn d v H) as Hd. pose proof (bufferDelta_overflow d v H) as Ho.
  set (M := MAX_DELTA_BUFFER_SIZE) in *.
  destruct (IH (snd (bufferDelta d v))) as [E1 E2].
  { rewrite Hd, length_lastn. lia. }
  rewrite E1, E2, Hd, Ho. split.
  - unfold lastn. rewrite <-drop_app_le by lia. rewrite !length_app, drop_drop, <-app_assoc.
    cbn [app length]. rewrite length_drop, length_app. cbn [length]. f_equal. lia.
  - rewrite !length_app, length_lastn, length_app. cbn [length]. lia.
Qed.

Lemma buffer_is_newest_window_witness :
  let ds := (fun i => mkDelta (Z.of_nat i) (Z.of_nat i) 0 [] [] 0 0) <$> List.seq 0 1002 in
  (length (deltaBuffer (sb ex_v0)) <= MAX_DELTA_BUFFER_SIZE)%nat /\
  deltaBuffer (sb (buffer_all ds ex_v0)) = drop 2 ds /\
  bufferOverflows (ct (buffer_all ds ex_v0)) = 2.
Proof.
  intros ds. assert ((length (deltaBuffer (sb ex_v0)) <= MAX_DELTA_BUFFER_SIZE)%nat) as H by apply Nat.le_0_l.
  destruct (buffer_is_newest_window ds ex_v0 H) as [E1 E2].
  split; [exact H|]. split; [rewrite E1; reflexivity|rewrite E2; vm_compute; reflexivity].
Defined.

(** ** The refresh mark *)

Lemma trim_length n s : length (levels (trim n s)) = Nat.min (length (levels s)) n.
Proof.
  unfold trim. destruct (Nat.leb_spec (length (levels s)) n); cbn [levels]; [lia|].
  rewrite length_drop. lia.
Qed.

Lemma update_length isBid u maxLevels s :
  (Nat.min (length (levels s) - 1) maxLevels <= length (levels (update isBid u maxLevels s)))%nat.
Proof.
  unfold update. set (it := lower_bound _ _).
  destruct (levels s !! it) as [l|] eqn:El; [destruct (deq (price l) (price u))|];
    destruct (deq (qty u) d0); cbn [levels modify eta_Side]; try lia.
  1: { rewrite length_delete by eauto. lia. }
  1: { rewrite length_alter. lia. }
  all: destruct (inHorizon isBid (price u) s); cbn [negb]; [|lia];
    rewrite trim_length; cbn [levels modify eta_Side];
    rewrite length_app, length_take; cbn [length]; rewrite length_drop; lia.
Qed.

Lemma updates_length isBid us maxLevels s :
  (Nat.min (length (levels s) - length us) (maxLevels - length us) <=
   length (levels (fold_left (fun s u => update isBid u maxLevels s) us s)))%nat.
Proof.
  revert s. induction us as [|u us IH]; intros s; cbn [fold_left length]; [lia|].
  specialize (IH (update isBid u maxLevels s)). pose proof (update_length isBid u maxLevels s). lia.
Qed.

Lemma load_length isBid snap limit maxLevels :
  length (levels (load isBid snap limit maxLevels)) =
    Nat.min (length (List.filter (fun l => dgt (qty l) d0) snap)) maxLevels.
Proof.
  unfold load. rewrite trim_length. cbn [levels]. by rewrite std_sort_perm.
Qed.

(** The constructor's cap on the refresh mark leaves hysteresis: a side
    loaded from a full snapshot does not ask for a refresh before more than
    half of the snapshot's levels have been removed by later events. *)
Theorem refresh_mark_hysteresis symbols cfg now isBid snap us :
  let m := newManager symbols cfg now in
  let limit := bc_snapshotLimit cfg in
  Forall (fun l => dgt (qty l) d0 = true) snap ->
  (limit <= length snap)%nat -> (limit <= bc_maxLevels cfg)%nat ->
  (length us <= limit - limit / 2)%nat ->
  below (bc_refreshLowWater (cfg_ m))
    (fold_left (fun s u => update isBid u (bc_maxLevels (cfg_ m)) s) us
       (load isBid snap (bc_snapshotLimit (cfg_ m)) (bc_maxLevels (cfg_ m)))) = false.
Proof.
  intros m limit Hq Hs Hm Hu.
  assert (bc_maxLevels (cfg_ m) = bc_maxLevels cfg /\ bc_snapshotLimit (cfg_ m) = limit /\
          (bc_refreshLowWater (cfg_ m) <= limit / 2)%nat) as (-> & -> & Hw).
  { unfold m, newManager. cbn [cfg_]. fold limit. destruct (Nat.ltb_spec (limit / 2) (bc_refreshLowWater cfg)); cbn; auto. }
  unfold below. apply andb_false_iff. right. apply Nat.ltb_ge.
  pose proof (updates_length isBid us (bc_maxLevels cfg) (load isBid snap limit (bc_maxLevels cfg))) as H.
  rewrite load_length in H.
  assert (List.filter (fun l => dgt (qty l) d0) snap = snap) as Hf.
  { clear -Hq. induction Hq as [|l snap Hl _ IH]; cbn; [done|]. by rewrite Hl, IH. }
  rewrite Hf in H. pose proof (Nat.Div0.div_le_upper_bound limit 2 limit ltac:(lia)). lia.
Qed.

Lemma refresh_mark_hysteresis_witness :
  let m := newManager ["BTCUSDT"] (mkBookConfig 1 4 100 10 Spot) 0 in
  bc_refreshLowWater (cfg_ m) = 2%nat /\
  below 2 (fold_left (fun s u => update true u 10 s) [lv 3 0; lv 4 0]
    (load true [lv 4 1; lv 3 1; lv 2 1; lv 1 1] 4 10)) = false.
Proof.
  split; [reflexivity|].
  assert (Forall (fun l => dgt (qty l) d0 = true) [lv 4 1; lv 3 1; lv 2 1; lv 1 1]) as H
    by concrete_levels.
  exact (refresh_mark_hysteresis ["BTCUSDT"] (mkBookConfig 1 4 100 10 Spot) 0 true
    [lv 4 1; lv 3 1; lv 2 1; lv 1 1] [lv 3 0; lv 4 0] H (le_n 4)
    ltac:(cbn; lia) ltac:(cbn; lia)).
Defined.

(** ** The published id range *)

(** What the events since the last publish say about the range, when the book
    was at update id [L] then. *)
Definition range_from (sync : DepthSync) (L : Z) (v : View) : Prop :=
  state (sb v) = VALID /\ needBridge (seq (sb v)) = false /\ pending (shadow (sb v)) = false /\
  if rangeClosed (sb v) then lastId (seq (sb v)) = L
  else match sync with
       | Spot => rangeFirstU (sb v) <= L + 1 /\ L <= lastId (seq (sb v))
       | Futures => rangePrevU (sb v) = L
       end.

Lemma applyEvent_range cfg d v :
  let b := sb (applyEvent cfg d v) in
  rangeClosed b = false /\
  rangeFirstU b = (if rangeClosed (sb v) then firstUpdateId d else rangeFirstU (sb v)) /\
  rangePrevU b = (if rangeClosed (sb v) then prevFinalUpdateId d else rangePrevU (sb v)).
Proof.
  unfold applyEvent. generalize (applyLevels cfg (bids d) (asks d) (book (sb v))). intros b.
  destruct v as [[? ? ? ? ? ? ? ? we ? ? ? rc l1 l2 l3] cs]. fields.
  destruct rc; fields; destruct (depthExhausted _ _ && negb we); done.
Qed.

Lemma bufferDelta_range sync L d v : range_from sync L (snd (bufferDelta d v)) <-> range_from sync L v.
Proof. unfold range_from, bufferDelta. fields. by case_match. Qed.

Lemma replay_range cfg L ds v v' :
  range_from (bc_sync cfg) L v -> replay cfg ds v = (true, v') -> range_from (bc_sync cfg) L v'.
Proof.
  revert v. induction ds as [|d ds IH]; intros v Hv; cbn [replay]; [by intros [= <-]|].
  pose proof Hv as (Hst & Hn & Hp & Hr). rewrite applyDelta_live by done.
  destruct (relates _ _ _) eqn:Erel; cbv zeta; [| |done]; intros H; eapply IH; [|exact H| |exact H].
  - assert (range_from (bc_sync cfg) L (applyEvent cfg d v)) as H1.
    { destruct (applyEvent_fields cfg d v) as (_ & Es & Ev & _ & Esh & _).
      destruct (applyEvent_range cfg d v) as (Ec & Ef & Ep).
      unfold range_from. rewrite Ev, Es, Esh, Ec, Ef, Ep. fields. do 3 (split; [done|]).
      unfold relates in Erel. destruct (bc_sync cfg), (rangeClosed (sb v));
        repeat case_hyp Erel; try done; bools; lia. }
    destruct (refreshPending_ _); [by apply bufferDelta_range|done].
  - destruct (refreshPending_ _); [by apply bufferDelta_range|done].
Qed.

(** Published rows chain. Between two consecutive rows of a live book, if
    any event was applied the second row's id range starts where the first row
    ended: on spot no later than one past its last id, on futures exactly at it;
    otherwise both rows carry the same last id. *)
Theorem published_ranges_chain cfg sym t1 n1 t2 n2 now ds v v2 :
  state (sb v) = VALID -> needBridge (seq (sb v)) = false -> pending (shadow (sb v)) = false ->
  let q1 := getQuote cfg sym t1 n1 v in
  q_isValid q1 = true ->
  replay cfg ds (recordPublish now q1 v) = (true, v2) ->
  let q2 := getQuote cfg sym t2 n2 v2 in
  q_isValid q2 = true ->
  q_exchUpdateId q2 = q_exchUpdateId q1 \/
  match bc_sync cfg with
  | Spot => q_exchFirstUpdateId q2 <= q_exchUpdateId q1 + 1 /\ q_exchUpdateId q1 <= q_exchUpdateId q2
  | Futures => q_exchPrevUpdateId q2 = q_exchUpdateId q1
  end.
Proof.
  intros Hst Hn Hp q1 Hq1 Hr q2 Hq2. subst q1 q2.
  destruct (getQuote_valid _ _ _ _ _ Hq1) as (_ & Hd1 & Hid1 & _).
  destruct (getQuote_valid _ _ _ _ _ Hq2) as (Hst2 & Hd2 & Hid2 & _).
  eapply replay_range in Hr as (_ & _ & _ & H);
    [|by split; [|split; [|split; [|reflexivity]]]].
  rewrite Hid1, Hid2. destruct (rangeClosed (sb v2)); [by left|right].
  revert H. unfold getQuote. rewrite Hst2, Hd2. cbn. by destruct (bc_sync cfg).
Qed.

Lemma published_ranges_chain_witness :
  let q1 := getQuote ex_cfg "BTCUSDT" 0 1 ex_v2 in
  let v1 := recordPublish 0 q1 ex_v2 in
  let v2 := snd (replay ex_cfg [mkDelta 13 14 5 [] [] 0 6; mkDelta 15 15 5 [] [] 0 6] v1) in
  let q2 := getQuote ex_cfg "BTCUSDT" 0 2 v2 in
  q_exchFirstUpdateId q2 = 13 /\ q_exchUpdateId q2 = 15 /\
  (q_exchUpdateId q2 = q_exchUpdateId q1 \/
   q_exchFirstUpdateId q2 <= q_exchUpdateId q1 + 1 /\ q_exchUpdateId q1 <= q_exchUpdateId q2).
Proof.
  intros q1 v1 v2 q2. split; [vm_compute; reflexivity|]. split; [vm_compute; reflexivity|].
  apply (published_ranges_chain ex_cfg "BTCUSDT" 0 1 0 2 0
    [mkDelta 13 14 5 [] [] 0 6; mkDelta 15 15 5 [] [] 0 6] ex_v2 v2); vm_compute; reflexivity.
Defined.
