(* ===== verification/BookLive.v ===== *)
(** * An unbroken stream keeps a book alive

    OrderBookSpec shows that a book is right whenever it claims to be; this file
    shows that it gets there. As long as the exchange's events follow each other
    without a hole and a snapshot is not older than the oldest event kept for
    it, no operation ever reports a failure, in any order of events, snapshots,
    refreshes and publications; the book is live from the first event beyond its
    snapshot on, and a background refresh ends with the first event beyond its
    own. *)

From S2P Require Import Prelude Double Cxx MarketConfig BookSide OrderBook OrderBookSpec BookProps.

Open Scope Z_scope.
Local Open Scope rec_scope.

(** The update id an event continues. *)
Definition prev_id (sync : DepthSync) (d : BufferedDelta) : Z :=
  match sync with Spot => firstUpdateId d - 1 | Futures => prevFinalUpdateId d end.

Section stream.
Context (cfg : BookConfig).
(** The update ids at which the exchange may take a snapshot. *)
Context (visible : Z -> Prop).

Local Abbreviation sync := (bc_sync cfg).

(** Event [d] is the one after update id [last]. A futures event may leave ids
    between [pu] and [U] unused; no snapshot is taken there. *)
Record follows (last : Z) (d : BufferedDelta) : Prop := {
  fo_prev : prev_id sync d = last;
  fo_newer : last < finalUpdateId d;
  fo_visible : forall id, visible id -> last < id <= finalUpdateId d -> firstUpdateId d <= id
}.

(** Sequencing state [s] is in step with a stream at update id [last]. *)
Definition in_step (s : Seq) (last : Z) : Prop :=
  if needBridge s then lastId s = snapshotId s /\ visible (snapshotId s) /\ last <= snapshotId s
  else lastId s = last.

(** The next event is never refused. It is taken, except while the snapshot
    already has it. *)
Lemma checkSequence_follows s last d :
  in_step s last -> follows last d ->
  exists v s', checkSequence cfg s d = (v, s') /\ v <> FAIL /\
    in_step (match v with APPLY => s' <| lastId := finalUpdateId d |> | _ => s' end) (finalUpdateId d) /\
    (v = APPLY -> needBridge s' = false) /\
    (v <> APPLY -> s' = s) /\
    (v = APPLY <-> needBridge s = false \/ snapshotId s < finalUpdateId d \/
       (sync = Futures /\ (snapshotId s = last \/ snapshotId s = finalUpdateId d))).
Proof.
  unfold in_step, prev_id. intros Hs [Hp Hn Hv].
  destruct (needBridge s) eqn:Eb.
  - rewrite (checkSequence_bridge cfg s d (snapshotId s)) by done. destruct Hs as (El & Hid & Hle).
    unfold stale_for_bridge, bridges, prev_id in *. specialize (Hv _ Hid).
    destruct (bc_sync cfg).
    + destruct (Z.leb_spec (finalUpdateId d) (snapshotId s)).
      * exists SKIP, s. rewrite Eb. repeat split; try done; try lia. intros [?|[?|[? _]]]; done || lia.
      * destruct (Z.leb_spec (firstUpdateId d) (snapshotId s + 1)); [|lia].
        exists APPLY, (s <| needBridge := false |>). cbn. repeat split; try done. intros _. right. left. lia.
    + destruct (Z.eqb_spec (prevFinalUpdateId d) (snapshotId s)) as [He|He]; cbn [negb andb orb].
      * exists APPLY, (s <| needBridge := false |>). cbn. repeat split; try done. intros _. right. right.
        split; [done|left; lia].
      * destruct (Z.ltb_spec (finalUpdateId d) (snapshotId s)).
        { exists SKIP, s. rewrite Eb. repeat split; try done; lia. }
        destruct (Z.leb_spec (firstUpdateId d) (snapshotId s)); [|lia].
        exists APPLY, (s <| needBridge := false |>). cbn. repeat split; try done. intros _. right.
        destruct (Z.eq_dec (snapshotId s) (finalUpdateId d)); [right; by split; [|right]|left; lia].
  - rewrite checkSequence_live by done. exists APPLY, s. unfold relates, prev_id in *. rewrite Hs. cbn. rewrite Eb.
    repeat split; try done; try tauto.
    destruct (bc_sync cfg).
    + destruct (Z.ltb_spec (finalUpdateId d) last); [lia|]. by destruct (Z.leb_spec (firstUpdateId d) (last + 1)); [|lia].
    + by destruct (Z.eqb_spec (prevFinalUpdateId d) last).
Qed.

(** ** Events kept for a snapshot *)

(** [buf] is an unbroken piece of the stream, from [base] to [last]. *)
Fixpoint unbroken (base : Z) (buf : list BufferedDelta) (last : Z) : Prop :=
  match buf with
  | [] => base = last
  | d :: rest => follows base d /\ unbroken (finalUpdateId d) rest last
  end.

Lemma unbroken_snoc base buf last d :
  unbroken base buf last -> follows last d -> unbroken base (buf ++ [d]) (finalUpdateId d).
Proof.
  revert base. induction buf as [|x buf IH]; intros base; cbn; [by intros ->|]. intros [Hx Hb] Hd.
  split; [done|]. by apply IH.
Qed.

(** The id before the oldest event kept, or the last one seen. *)
Definition oldest (buf : list BufferedDelta) (last : Z) : Z :=
  match buf with [] => last | d :: _ => prev_id sync d end.

(** The buffer holds the end of the stream. *)
Definition window (buf : list BufferedDelta) (last : Z) : Prop := unbroken (oldest buf last) buf last.

Lemma unbroken_window base buf last : unbroken base buf last -> window buf last.
Proof.
  unfold window. destruct buf as [|d buf]; [done|]. cbn [unbroken oldest]. intros [Hd Hb].
  by rewrite (fo_prev _ _ Hd).
Qed.

Lemma bufferDelta_window d v last :
  window (deltaBuffer (sb v)) last -> follows last d ->
  window (deltaBuffer (sb (snd (bufferDelta d v)))) (finalUpdateId d).
Proof.
  intros Hw Hd. rewrite bufferDelta_length. pose proof (unbroken_snoc _ _ _ _ Hw Hd) as Hb.
  case_match; [|by eapply unbroken_window].
  destruct (deltaBuffer (sb v) ++ [d]) as [|x l]; [done|]. destruct Hb as [_ Hb]. by eapply unbroken_window.
Qed.

(** ** The state of a book fed with the stream *)

Record fed_state (last : Z) (v : View) : Prop := {
  fs_state : match state (sb v) with
             | INIT => window (deltaBuffer (sb v)) last /\ quiet v
             | SYNCING => in_step (seq (sb v)) last /\ needBridge (seq (sb v)) = true /\ quiet v
             | VALID => in_step (seq (sb v)) last /\ needBridge (seq (sb v)) = false
             | INVALID => False
             end;
  fs_refresh : refreshPending_ (sb v) = true ->
    window (deltaBuffer (sb v)) last /\ pending (shadow (sb v)) = false;
  fs_shadow : pending (shadow (sb v)) = true ->
    in_step (sh_seq (shadow (sb v))) last /\ needBridge (sh_seq (shadow (sb v))) = true
}.

(** What the handler does with a depth event ([handleDelta]). *)
Definition take_event (d : BufferedDelta) (v : View) : View :=
  if bool_decide (state (sb v) = INIT) then snd (bufferDelta d v) else snd (applyDelta cfg d v).

Lemma replayShadow_step buf b s base last :
  in_step s base -> unbroken base buf last ->
  exists b' s', replayShadow cfg buf b s = (true, (b', s')) /\ in_step s' last.
Proof.
  revert b s base. induction buf as [|d buf IH]; intros b s base Hs; cbn [unbroken replayShadow].
  { intros ->. by exists b, s. }
  intros [Hd Hb]. destruct (checkSequence_follows s base d Hs Hd) as (v & s' & -> & Hv & Hin & _).
  destruct v; [| |done]; by eapply IH.
Qed.

(** The live book after an event of the stream. *)
Lemma applyDelta_step d v last :
  state (sb v) = SYNCING \/ state (sb v) = VALID -> quiet v ->
  in_step (seq (sb v)) last -> follows last d ->
  exists v', applyDelta cfg d v = (true, v') /\ in_step (seq (sb v')) (finalUpdateId d) /\ quiet v' /\
    (state (sb v') = VALID /\ needBridge (seq (sb v')) = false \/
     state (sb v') = state (sb v) /\ seq (sb v') = seq (sb v) /\ needBridge (seq (sb v)) = true).
Proof.
  intros Hst Hq Hs Hd. rewrite applyDelta_eq by done.
  destruct (checkSequence_follows _ _ _ Hs Hd) as (vd & s' & -> & Hv & Hin & Hn & Hsame & Hiff).
  cbv zeta. destruct vd; [| |done].
  - rewrite (Hsame ltac:(done)) in *. rewrite view_seq_same, after_event_quiet by done.
    exists v. split; [done|]. split; [done|]. split; [done|].
    destruct (needBridge (seq (sb v))) eqn:Eb; [by right|]. by assert (SKIP = APPLY) by (apply Hiff; tauto).
  - destruct (applyEvent_quiet cfg d v s' Hq) as (Hq' & Hst' & He').
    rewrite after_event_quiet by done. eexists. split; [reflexivity|]. rewrite He', Hst'.
    split; [done|]. split; [done|]. left. split; [done|]. by apply Hn.
Qed.

Lemma replay_step buf v base last :
  state (sb v) = SYNCING \/ state (sb v) = VALID -> quiet v ->
  in_step (seq (sb v)) base -> unbroken base buf last ->
  exists v', replay cfg buf v = (true, v') /\ in_step (seq (sb v')) last /\ quiet v' /\
    (state (sb v') = VALID /\ needBridge (seq (sb v')) = false \/
     state (sb v') = state (sb v) /\ seq (sb v') = seq (sb v)).
Proof.
  revert v base. induction buf as [|d buf IH]; intros v base Hst Hq Hs; cbn [unbroken replay].
  { intros ->. exists v. split; [done|]. split; [done|]. split; [done|]. by right. }
  intros [Hd Hb]. destruct (applyDelta_step d v base Hst Hq Hs Hd) as (v1 & -> & Hs1 & Hq1 & Hcase).
  destruct (IH v1 (finalUpdateId d)) as (v2 & E & Hs2 & Hq2 & Hc2); [|done..|].
  { destruct Hcase as [[? _]|(-> & _)]; auto. }
  exists v2. split; [exact E|]. split; [done|]. split; [done|].
  destruct Hc2 as [?|[E1 E2]]; [by left|]. rewrite E1, E2.
  destruct Hcase as [[? ?]|(-> & -> & _)]; [left; split; congruence|by right].
Qed.

(** The refresh's side of an event that the live book has taken. *)
Lemma after_event_step d v last :
  state (sb v) = VALID -> in_step (seq (sb v)) (finalUpdateId d) -> needBridge (seq (sb v)) = false ->
  (refreshPending_ (sb v) = true -> window (deltaBuffer (sb v)) last /\ pending (shadow (sb v)) = false) ->
  (pending (shadow (sb v)) = true ->
     in_step (sh_seq (shadow (sb v))) last /\ needBridge (sh_seq (shadow (sb v))) = true) ->
  follows last d -> fed_state (finalUpdateId d) (after_event cfg d v).
Proof.
  intros Hst Hs Hn Hr Hp Hd. unfold after_event. destruct (refreshPending_ (sb v)) eqn:Er.
  - destruct (Hr eq_refl) as [Hw Hpf]. destruct (bufferDelta_fields d v) as (Es & Ep & Erp & _ & Eq).
    cbv zeta. rewrite Ep, Hpf. constructor.
    + by rewrite Es, Eq, Hst.
    + intros _. split; [by eapply bufferDelta_window|]. by rewrite Ep.
    + by rewrite Ep, Hpf.
  - cbv zeta. destruct (pending (shadow (sb v))) eqn:Ep.
    2: { constructor; [by rewrite Hst|by rewrite Er|by rewrite Ep]. }
    destruct (Hp eq_refl) as [Hin Hnb]. unfold shadowEvent.
    destruct (checkSequence_follows _ _ _ Hin Hd) as (vd & s' & -> & Hv & Hin' & Hn' & Hsame & _).
    destruct vd; [| |done].
    + rewrite (Hsame ltac:(done)) in *. constructor; fields; [by rewrite Hst|by rewrite Er|done].
    + constructor; fields; [rewrite Hst; split; [exact Hin'|by apply Hn']|by rewrite Er|done].
Qed.

Lemma take_event_step d v last : fed_state last v -> follows last d -> fed_state (finalUpdateId d) (take_event d v).
Proof.
  intros [Hst Hr Hp] Hd. unfold take_event.
  destruct (state (sb v)) eqn:Es; [rewrite bool_decide_true by done|rewrite bool_decide_false by done..| done].
  - destruct Hst as [Hw [Hq1 Hq2]]. destruct (bufferDelta_fields d v) as (E1 & E2 & E3 & _).
    constructor; rewrite ?E1, ?E2, ?E3, ?Es, ?Hq1, ?Hq2; try done.
    split; [by eapply bufferDelta_window|]. by split; [rewrite E3|rewrite E2].
  - destruct Hst as (Hin & Hn & Hq).
    destruct (applyDelta_step d v last) as (v' & -> & Hin' & Hq' & Hc); [by left|done..|]. cbn [snd].
    destruct Hq' as [Hq1 Hq2].
    constructor; rewrite ?Hq1, ?Hq2; try done. destruct Hc as [[-> ?]|(-> & Eq & _)]; [done|].
    rewrite Es. split; [done|]. split; [by rewrite Eq|done].
  - destruct Hst as (Hin & Hn). rewrite applyDelta_eq by (by right).
    destruct (checkSequence_follows _ _ _ Hin Hd) as (vd & s' & -> & Hv & Hin' & Hn' & Hsame & Hiff).
    assert (vd = APPLY) as -> by (apply Hiff; by left). cbv zeta. cbn [snd].
    destruct (applyEvent_fields cfg d (v <|. seq := s' |>)) as (_ & E2 & E3 & E4 & E5 & E6).
    apply (after_event_step d _ last); rewrite ?E2, ?E3, ?E4, ?E5, ?E6; fields; auto.
Qed.

(** ** Snapshots *)

Lemma finishRefresh_step id bs asks v last :
  state (sb v) = VALID -> in_step (seq (sb v)) last -> needBridge (seq (sb v)) = false ->
  window (deltaBuffer (sb v)) last -> pending (shadow (sb v)) = false ->
  visible id -> oldest (deltaBuffer (sb v)) last <= id ->
  exists o v', finishRefresh cfg id bs asks v = (o, v') /\ fed_state last v' /\ o <> REFRESH_FAILED.
Proof.
  intros Hst Hin Hn Hw Hp Hid Hle. unfold finishRefresh. fields.
  destruct (replayShadow_step (deltaBuffer (sb v))
    (mkBook (load true bs (bc_snapshotLimit cfg) (bc_maxLevels cfg)) (load false asks (bc_snapshotLimit cfg) (bc_maxLevels cfg)))
    (mkSeq true id id) _ _ (conj eq_refl (conj Hid Hle)) Hw) as (b' & s' & -> & Hs').
  cbn [negb]. destruct (needBridge s') eqn:En; cbn [andb]; [case_match|];
    eexists _, _; (split; [reflexivity|]); (split; [|done]); constructor; fields; rewrite ?Hst; by rewrite ?Hp.
Qed.

(** A snapshot not older than the oldest event kept is never refused, and one
    the stream has already passed makes the book live at once. *)
Lemma onSnapshot_step id bs asks v last :
  fed_state last v -> visible id -> oldest (deltaBuffer (sb v)) last <= id ->
  exists o v', onSnapshot cfg id bs asks v = (o, v') /\ fed_state last v' /\
    o <> SYNC_FAILED /\ o <> REFRESH_FAILED /\ (state (sb v) = INIT -> id < last -> o = SYNCED).
Proof.
  intros [Hst Hr Hp] Hid Hle. unfold onSnapshot. fields.
  destruct (state (sb v)) eqn:Es; cbn [bool_decide decide_rel andb negb]; try done.
  - rewrite bool_decide_false, bool_decide_true by done. cbn [andb negb].
    destruct Hst as [Hw [Hq1 Hq2]]. set (v0 := applySnapshot _ _ _ _ _).
    destruct (replay_step (deltaBuffer (sb v)) v0 (oldest (deltaBuffer (sb v)) last) last) as
      (v' & E & Hin & [Hq1' Hq2'] & Hc); [by left|done|done|done|].
    change (deltaBuffer (sb v0)) with (deltaBuffer (sb v)). rewrite E. cbn [negb].
    eexists _, _. split; [reflexivity|]. split.
    { constructor; fields; rewrite ?Hq1', ?Hq2'; try done. destruct Hc as [[-> ?]|[-> Eq]]; [done|].
      split; [done|]. split; [by rewrite Eq|by split]. }
    case_bool_decide as Hb; [done|]. split; [done|]. split; [done|]. intros _ Hlt. exfalso.
    destruct Hc as [[? _]|[_ Eq]]; [done|]. rewrite Eq in Hin. unfold in_step in Hin. cbn in Hin. lia.
  - rewrite bool_decide_false by done. cbn [andb]. rewrite bool_decide_false by done.
    eexists _, _. split; [reflexivity|]. split; [|done]. destruct Hst as (? & ? & ? & ?).
    constructor; fields; [|done|done]. by rewrite Es.
  - rewrite bool_decide_true by done. cbn [andb]. destruct Hst as [Hin Hn].
    destruct (refreshPending_ (sb v)) eqn:Er.
    + destruct (Hr eq_refl) as [Hw Hpf].
      destruct (finishRefresh_step id bs asks (v <|. snapshotRequested := false |>) last) as (o & v' & E & Hf & Ho);
        [done..|].
      exists o, v'. split; [exact E|]. split; [done|].
      apply finishRefresh_cases in E as (_ & _ & _ & _ & _ & _ & Hcase). by destruct o.
    + rewrite bool_decide_false by done. eexists _, _. split; [reflexivity|]. split; [|done].
      constructor; fields; [by rewrite Es|done|done].
Qed.

(** ** Any order of calls

    The stream's events, in order, between them snapshots, refreshes and
    publications at any time, and new connections, after which another stream
    starts. [fed last v]: the book [v] after the event that ends at [last]. *)

Inductive fed : Z -> View -> Prop :=
  | fed_new last now c : fed last (mkView (new_SymBook now) c)
  | fed_event last v d : fed last v -> follows last d -> fed (finalUpdateId d) (take_event d v)
  | fed_snapshot last v id bs asks :
      fed last v -> visible id -> oldest (deltaBuffer (sb v)) last <= id ->
      fed last (snd (onSnapshot cfg id bs asks v))
  | fed_begin last v : fed last v -> wantsRefresh cfg v = true -> fed last (beginRefresh v)
  | fed_cancel last v : fed last v -> fed last (cancelRefresh v)
  | fed_requested last v b : fed last v -> fed last (setSnapshotRequested b v)
  | fed_publish last v now q : fed last v -> fed last (recordPublish now q v)
  | fed_reset last last' v : fed last v -> fed last' (reset v)
  (* other symbols share the counters *)
  | fed_counters last v c : fed last v -> fed last (v <| ct := c |>).

Lemma fed_ok last v : fed last v -> fed_state last v.
Proof.
  induction 1 as [|last v d _ IH Hd|last v id bs asks _ IH Hid Hle|last v _ IH Hw|last v _ IH|last v b _ IH
    |last v now q _ IH|last last' v _ IH|last v c _ IH].
  2: by eapply take_event_step.
  2: { by destruct (onSnapshot_step id bs asks v last IH Hid Hle) as (o & v' & -> & ? & _). }
  2: { unfold beginRefresh, wantsRefresh in *. bools. destruct Hw as [[[Hst%bool_decide_eq_true _] Hp] _].
       destruct IH as [Hs _ _]. rewrite Hst in Hs. constructor; fields; [by rewrite Hst|done|congruence]. }
  2: { unfold cancelRefresh. destruct (refreshPending_ (sb v)) eqn:Er; cbn [negb]; [|done].
       destruct IH as [Hs Hr Hp]. destruct (Hr Er) as [_ Hpf].
       constructor; fields; [|done|congruence].
       destruct (state (sb v)); [destruct Hs as [_ []]; congruence|destruct Hs as (_ & _ & []); congruence|done..]. }
  1, 4: by constructor.
  all: by destruct IH.
Qed.
End stream.

(** C21: a book gets there and stays there. For any order of calls in which the
    exchange's events follow each other without a hole and every snapshot is at
    least as new as the oldest event kept for it: no event and no snapshot is
    ever refused (initial or refresh), so the book is never INVALID; a live book
    is at the last event's update id; it waits for its first event, and a refresh
    for its own, only while no event has passed the snapshot; and a first
    snapshot that an event has already passed makes the book live at once. *)
Theorem unbroken_stream_never_fails cfg visible last v :
  fed cfg visible last v ->
  (state (sb v) = VALID -> lastId (seq (sb v)) = last) /\
  (state (sb v) = SYNCING -> last <= snapshotId (seq (sb v))) /\
  (pending (shadow (sb v)) = true -> last <= snapshotId (sh_seq (shadow (sb v)))) /\
  state (sb v) <> INVALID /\
  (forall d, follows cfg visible last d -> state (sb v) <> INIT -> fst (applyDelta cfg d v) = true) /\
  (forall id bs asks, visible id -> oldest cfg (deltaBuffer (sb v)) last <= id ->
     let o := fst (onSnapshot cfg id bs asks v) in
     o <> SYNC_FAILED /\ o <> REFRESH_FAILED /\ (state (sb v) = INIT -> id < last -> o = SYNCED)).
Proof.
  intros Hv%fed_ok. pose proof Hv as [Hst _ Hp]. unfold in_step in *. repeat split.
  - intros E. rewrite E in Hst. destruct Hst as [Hin Hn]. by rewrite Hn in Hin.
  - intros E. rewrite E in Hst. destruct Hst as (Hin & Hn & _). rewrite Hn in Hin. tauto.
  - intros E. destruct (Hp E) as [Hin Hn]. rewrite Hn in Hin. tauto.
  - intros E. by rewrite E in Hst.
  - intros d Hd Hi. clear Hp. destruct (state (sb v)) eqn:Es; try done;
      rewrite applyDelta_eq by auto;
      destruct (checkSequence_follows cfg visible (seq (sb v)) last d) as (vd & s' & -> & Hne & _);
      try (by destruct Hst); try done; by destruct vd.
  - by destruct (onSnapshot_step cfg visible id bs asks v last Hv) as (o & v' & -> & _ & ? & _).
  - by destruct (onSnapshot_step cfg visible id bs asks v last Hv) as (o & v' & -> & _ & _ & ? & _).
  - by destruct (onSnapshot_step cfg visible id bs asks v last Hv) as (o & v' & -> & _ & _ & _ & ?).
Qed.

(** An event is kept, the snapshot at id 10 comes, a second event follows. *)
Definition ex_next : BufferedDelta := mkDelta 13 14 1800 [lv 99 5] [] 0 0.
Definition ex_kept : View := take_event ex_cfg ex_delta ex_v0.
Definition ex_synced : View := snd (onSnapshot ex_cfg 10 (take 2 ex_bids) (take 2 ex_asks) ex_kept).

Lemma unbroken_stream_never_fails_witness :
  fst (onSnapshot ex_cfg 10 (take 2 ex_bids) (take 2 ex_asks) ex_kept) = SYNCED /\
  fst (applyDelta ex_cfg ex_next ex_synced) = true /\
  let v := take_event ex_cfg ex_next ex_synced in
  state (sb v) = VALID /\ lastId (seq (sb v)) = 14.
Proof.
  assert (follows ex_cfg (fun _ => True) 10 ex_delta) as D1 by (constructor; cbn; lia).
  assert (follows ex_cfg (fun _ => True) 12 ex_next) as D2 by (constructor; cbn; lia).
  assert (fed ex_cfg (fun _ => True) 12 ex_kept) as F1 
    by exact (fed_event ex_cfg _ 10 ex_v0 ex_delta (fed_new _ _ 10 0 (mkCounters 0 0 0 0)) D1).
  assert (oldest ex_cfg (deltaBuffer (sb ex_kept)) 12 <= 10) as L by (vm_compute; discriminate).
  assert (fed ex_cfg (fun _ => True) 12 ex_synced) as F2 by (apply fed_snapshot; [exact F1|exact Logic.I|exact L]).
  pose proof (fed_event _ _ _ _ _ F2 D2) as F3.
  destruct (unbroken_stream_never_fails _ _ _ _ F1) as (_ & _ & _ & _ & _ & Hs).
  destruct (unbroken_stream_never_fails _ _ _ _ F2) as (_ & _ & _ & _ & Hd & _).
  destruct (unbroken_stream_never_fails _ _ _ _ F3) as (Hl & _).
  split; [exact (proj2 (proj2 (Hs 10 (take 2 ex_bids) (take 2 ex_asks) Logic.I L)) eq_refl ltac:(lia))|].
  split; [apply Hd; [exact D2|vm_compute; discriminate]|].
  assert (state (sb (take_event ex_cfg ex_next ex_synced)) = VALID) as Hst by (vm_compute; reflexivity).
  split; [exact Hst|exact (Hl Hst)].
Defined.
