(* ===== verification/BookRanges.v ===== *)
(** * What the id ranges of a book's rows say

    Each published row carries the range of update ids it covers since the row
    before it. This file keeps, for one symbol, the fact that lets a consumer
    see every hole: from a row marked valid to the next one no update id is
    skipped. Nothing is asked of the exchange but that a futures event does not
    end before it starts ([ordered]). *)

From S2P Require Import Prelude Double Cxx MarketConfig BookSide OrderBook OrderBookSpec BookProps.

Open Scope Z_scope.
Local Open Scope rec_scope.

(** Between two rows marked valid no update id is missing: the second is not
    beyond the first, or its range starts no later than right after it. *)
Definition no_hole (sync : DepthSync) (q1 q2 : BookQuote) : Prop :=
  q_isValid q1 = true -> q_isValid q2 = true ->
  q_exchUpdateId q2 <= q_exchUpdateId q1 \/
  match sync with
  | Spot => q_exchFirstUpdateId q2 <= q_exchUpdateId q1 + 1
  | Futures => q_exchPrevUpdateId q2 <= q_exchUpdateId q1
  end.

Definition ordered (sync : DepthSync) (d : BufferedDelta) : Prop :=
  sync = Futures -> prevFinalUpdateId d <= finalUpdateId d.

(** What the publisher remembers of a symbol. *)
Definition seen (v : View) : BookQuote * bool := (lastPublished (sb v), hasPublished (sb v)).

Lemma seen_valid v v' : seen v' = seen v -> lastPublishedValid v' = lastPublishedValid v.
Proof. unfold lastPublishedValid. by intros [= -> ->]. Qed.

Lemma seen_last v v' : seen v' = seen v -> lastPublished (sb v') = lastPublished (sb v).
Proof. intros E. exact (f_equal fst E). Qed.

Section ranges.
Context (cfg : BookConfig).
Local Abbreviation sync := (bc_sync cfg).

(** The book is live, and the range it would publish next joins a row that ended at [L]. *)
Definition joins (L : Z) (v : View) : Prop :=
  state (sb v) = VALID /\
  if rangeClosed (sb v) then lastId (seq (sb v)) <= L
  else match sync with Spot => rangeFirstU (sb v) <= L + 1 | Futures => rangePrevU (sb v) <= L end.

Record chain_weak (v : View) : Prop := {
  ch_bridge : state (sb v) = VALID -> needBridge (seq (sb v)) = false;
  ch_refresh : refreshPending_ (sb v) = true ->
    pending (shadow (sb v)) = false /\ state (sb v) <> INIT /\ state (sb v) <> SYNCING;
  ch_buffer : refreshPending_ (sb v) = true -> state (sb v) = VALID ->
    Forall (fun d => finalUpdateId d <= lastId (seq (sb v))) (deltaBuffer (sb v))
}.

(** A symbol whose last row is marked valid can only go on from there. *)
Record chain_ok (v : View) : Prop := {
  ch_weak : chain_weak v;
  ch_joins : lastPublishedValid v = true -> joins (q_exchUpdateId (lastPublished (sb v))) v
}.

Lemma chain_state v : chain_ok v -> lastPublishedValid v = true -> state (sb v) = VALID.
Proof. intros [_ Hj] Hp. by destruct (Hj Hp). Qed.

(** ** Events *)

Lemma bufferDelta_ranges d v :
  let v' := snd (bufferDelta d v) in
  seen v' = seen v /\ rangeClosed (sb v') = rangeClosed (sb v) /\
  rangeFirstU (sb v') = rangeFirstU (sb v) /\ rangePrevU (sb v') = rangePrevU (sb v) /\
  shadow (sb v') = shadow (sb v).
Proof. unfold bufferDelta, seen. fields. by case_match. Qed.

Lemma bufferDelta_Forall (P : BufferedDelta -> Prop) d v :
  Forall P (deltaBuffer (sb v)) -> P d -> Forall P (deltaBuffer (sb (snd (bufferDelta d v)))).
Proof.
  intros Hb Hd. rewrite bufferDelta_length.
  assert (Forall P (deltaBuffer (sb v) ++ [d])) as Ha by (apply Forall_app; by repeat constructor).
  case_match; [|done]. destruct (deltaBuffer (sb v) ++ [d]); [done|]. by inversion Ha.
Qed.

(** The live book has taken event [d], or dropped it as one it has; what is left
    concerns the refresh. *)
Lemma after_event_chain d v :
  chain_ok v -> finalUpdateId d <= lastId (seq (sb v)) ->
  (state (sb v) = SYNCING -> lastPublishedValid v = false) ->
  state (sb v) = SYNCING \/ state (sb v) = VALID ->
  seen (after_event cfg d v) = seen v /\ chain_ok (after_event cfg d v).
Proof.
  intros Hc Hd Hsy Hst. pose proof Hc as [[Hb Hr Hbuf] Hj]. unfold after_event.
  destruct (refreshPending_ (sb v)) eqn:Er.
  - destruct (Hr eq_refl) as (Hp & Hi & Hs). cbv zeta.
    destruct (bufferDelta_ranges d v) as (Eseen & E1 & E2 & E3 & E4).
    destruct (bufferDelta_fields d v) as (F1 & F2 & F3 & _ & F5). rewrite F2, Hp.
    split; [done|]. constructor; [constructor; rewrite ?F1, ?F2, ?F3, ?F5|]; try done.
    + intros _ Hv. apply bufferDelta_Forall; auto.
    + rewrite (seen_valid _ _ Eseen). unfold joins. by rewrite E1, E2, E3, F1, F5, (seen_last _ _ Eseen).
  - cbv zeta. destruct (pending (shadow (sb v))) eqn:Ep; [|done].
    unfold shadowEvent. destruct (checkSequence cfg (sh_seq (shadow (sb v))) d) as [vd s'] eqn:Ec. destruct vd.
    1, 3: split; [done|]; constructor; [constructor; fields; congruence || done|]; exact Hj.
    split; [done|]. assert (needBridge s' = false) as Hn.
    { revert Ec. unfold checkSequence. destruct (bc_sync cfg), (needBridge (sh_seq (shadow (sb v)))) eqn:En;
        repeat case_match; intros [= <-]; done. }
    constructor; [constructor; fields; congruence|]. intros Hpv. destruct (Hj Hpv) as [Hv Hrange].
    split; [done|]. fields. destruct (rangeClosed (sb v)); [lia|done].
Qed.

Lemma applyEvent_seen d v : seen (applyEvent cfg d v) = seen v.
Proof.
  unfold applyEvent, seen. generalize (applyLevels cfg (bids d) (asks d) (book (sb v))). intros b. fields.
  by repeat case_match.
Qed.

Lemma checkSequence_taken s d s' :
  checkSequence cfg s d = (APPLY, s') ->
  needBridge s' = false /\
  (needBridge s = false -> match sync with
     | Spot => firstUpdateId d <= lastId s + 1 /\ lastId s <= finalUpdateId d
     | Futures => prevFinalUpdateId d = lastId s end).
Proof.
  unfold checkSequence. destruct (bc_sync cfg), (needBridge s) eqn:En; repeat case_match; intros [= <-];
    bools; (split; [done|]); intros ?; try done; try lia.
Qed.

Lemma shadowEvent_chain d v :
  state (sb v) = SYNCING -> refreshPending_ (sb v) = false -> lastPublishedValid v = false ->
  seen (shadowEvent cfg d v) = seen v /\ chain_ok (shadowEvent cfg d v).
Proof.
  intros Hs Er Hp.
  assert (seen (shadowEvent cfg d v) = seen v /\ state (sb (shadowEvent cfg d v)) = state (sb v) /\
    refreshPending_ (sb (shadowEvent cfg d v)) = refreshPending_ (sb v)) as (Eseen & Es & Erp).
  { unfold shadowEvent. by destruct (checkSequence cfg (sh_seq (shadow (sb v))) d) as [[] ?]. }
  split; [done|]. constructor; [constructor; rewrite ?Es, ?Erp, ?Er, ?Hs; done|by rewrite (seen_valid _ _ Eseen), Hp].
Qed.

Lemma applyDelta_chain d v :
  chain_ok v -> (refreshPending_ (sb v) = true -> ordered sync d) ->
  let '(ok, v') := applyDelta cfg d v in
  seen v' = seen v /\ chain_weak v' /\ (ok = true -> chain_ok v').
Proof.
  intros Hc Ho. destruct (decide (state (sb v) = SYNCING \/ state (sb v) = VALID)) as [Hst|Hst].
  2: { unfold applyDelta. destruct (state (sb v)) eqn:Es; try tauto; split; try done; by destruct Hc. }
  rewrite applyDelta_eq by done. pose proof Hc as [[Hb Hr Hbuf] Hj].
  assert (state (sb v) = SYNCING -> lastPublishedValid v = false) as Hsy.
  { intros Hs. destruct (lastPublishedValid v) eqn:E; [|done]. apply chain_state in E; [|done]. congruence. }
  destruct (checkSequence cfg (seq (sb v)) d) as [vd s'] eqn:Ec.
  destruct (checkSequence_seq _ _ _ _ _ Ec) as (El & _ & Esame). destruct vd; cbv zeta.
  - rewrite (Esame ltac:(done)), view_seq_same in *. destruct (decide (state (sb v) = VALID)) as [Hv|Hv].
    + assert (finalUpdateId d <= lastId (seq (sb v))) as Hd.
      { revert Ec. unfold checkSequence. rewrite (Hb Hv). destruct (bc_sync cfg); repeat case_match; try done.
        bools. lia. }
      destruct (after_event_chain d v Hc Hd Hsy Hst) as [? ?]. split; [done|]. by split; [by apply ch_weak|].
    + assert (refreshPending_ (sb v) = false) as Er.
      { destruct (refreshPending_ (sb v)); [|done]. destruct (Hr eq_refl) as (_ & _ & ?). tauto. }
      assert (state (sb v) = SYNCING) as Hs by tauto. specialize (Hsy Hs).
      unfold after_event. rewrite Er. cbv zeta.
      destruct (pending (shadow (sb v))) eqn:Ep; [|split; [done|]; by split; [by apply ch_weak|]].
      destruct (shadowEvent_chain d v Hs Er Hsy) as [? ?]. split; [done|]. by split; [by apply ch_weak|].
  - destruct (checkSequence_taken _ _ _ Ec) as [Hn Hcov].
    set (v1 := v <|. seq := s' |>).
    destruct (applyEvent_fields cfg d v1) as (_ & E2 & E3 & E4 & E5 & E6).
    destruct (applyEvent_range cfg d v1) as (R1 & R2 & R3).
    assert (seen (applyEvent cfg d v1) = seen v) as Eseen by apply (applyEvent_seen d v1).
    assert (chain_ok (applyEvent cfg d v1)) as H1.
    { constructor; [constructor; rewrite ?E2, ?E3, ?E4, ?E5, ?E6|]; try done.
      - intros Hrp. destruct (Hr Hrp) as (? & _). done.
      - intros Hrp _. destruct (Hr Hrp) as (_ & Hni & Hns). assert (state (sb v) = VALID) as Hv by tauto.
        eapply Forall_impl; [by apply Hbuf|]. intros x Hx. specialize (Hcov (Hb Hv)). specialize (Ho Hrp).
        cbn in Hx |- *. unfold ordered in Ho. destruct (bc_sync cfg); [lia|]. specialize (Ho eq_refl). lia.
      - rewrite (seen_valid _ _ Eseen). intros Hpv. destruct (Hj Hpv) as [Hv Hrange]. specialize (Hcov (Hb Hv)).
        split; [done|]. rewrite R1, R2, R3, (seen_last _ _ Eseen). unfold v1. fields.
        destruct (rangeClosed (sb v)); [|done]. destruct (bc_sync cfg); lia. }
    destruct (after_event_chain d (applyEvent cfg d v1)) as [E' H'];
      [done|rewrite E2; done|rewrite E3; done|by right|].
    split; [congruence|]. by split; [by apply ch_weak|].
  - split; [done|]. split; [|done]. constructor; unfold invalidate; fields; try done.
    intros Hrp. by destruct (Hr Hrp) as (? & _).
Qed.

Lemma replay_chain_ok buf v :
  chain_ok v -> refreshPending_ (sb v) = false -> lastPublishedValid v = false ->
  seen (snd (replay cfg buf v)) = seen v /\ chain_ok (snd (replay cfg buf v)).
Proof.
  revert v. induction buf as [|d buf IH]; intros v Hc Hr Hp; cbn [replay]; [done|].
  pose proof (applyDelta_chain d v Hc) as Hd. rewrite Hr in Hd. specialize (Hd ltac:(done)).
  destruct (applyDelta_buffer_untouched cfg d v Hr) as [_ Hr'].
  destruct (applyDelta cfg d v) as [ok v1]. cbn [snd] in *. destruct Hd as (Es & Hw & Hok).
  assert (lastPublishedValid v1 = false) as Hp1 by (by rewrite (seen_valid _ _ Es)).
  destruct ok; cbn [snd].
  - destruct (IH v1 (Hok eq_refl) Hr' Hp1) as [E ?]. split; [congruence|done].
  - split; [done|]. constructor; [done|congruence].
Qed.

(** ** Snapshots *)

Lemma replayShadow_le N buf b s ok b' s' :
  Forall (fun d => finalUpdateId d <= N) buf -> (needBridge s = false -> lastId s <= N) ->
  replayShadow cfg buf b s = (ok, (b', s')) -> needBridge s' = false -> lastId s' <= N.
Proof.
  intros Hbuf. revert b s. induction Hbuf as [|d buf Hd _ IH]; intros b s Hs; cbn [replayShadow]; [by intros [= <- <- <-]|].
  destruct (checkSequence cfg s d) as [vd s1] eqn:Ec.
  destruct (checkSequence_seq _ _ _ _ _ Ec) as (_ & _ & Esame). destruct vd.
  - rewrite (Esame ltac:(done)). by apply IH.
  - apply IH. by intros _.
  - rewrite (Esame ltac:(done)). by intros [= <- <- <-].
Qed.

Lemma onSnapshot_chain id bs asks v :
  chain_ok v -> seen (snd (onSnapshot cfg id bs asks v)) = seen v /\ chain_ok (snd (onSnapshot cfg id bs asks v)).
Proof.
  intros Hc. pose proof Hc as [[Hb Hr Hbuf] Hj]. unfold onSnapshot. fields.
  case_bool_decide as Hv; [destruct (refreshPending_ (sb v)) eqn:Er|]; cbn [andb].
  - unfold finishRefresh. fields. destruct (Hr eq_refl) as (Hp & _).
    destruct (replayShadow _ _ _ _) as [ok [b' s']] eqn:Es.
    assert (needBridge s' = false -> lastId s' <= lastId (seq (sb v))) as Hle
      by (eapply replayShadow_le; [by apply Hbuf| |exact Es]; done).
    clear Es.
    destruct ok; cbn [negb]; [destruct (needBridge s') eqn:En; cbn [andb]; [destruct (id =? _)|]|]; cbn [snd];
      (split; [done|]); (constructor; [constructor; fields; done|]); try exact Hj.
    intros Hpv. destruct (Hj Hpv) as [_ Hrange]. split; [done|]. fields. specialize (Hle eq_refl).
    destruct (rangeClosed (sb v)); [lia|done].
  - rewrite bool_decide_false by congruence. cbn [negb snd]. split; [done|].
    constructor; [constructor; fields; done|]. exact Hj.
  - case_bool_decide as Hi; cbn [negb snd].
    2: { split; [done|]. constructor; [constructor; fields; done|]. exact Hj. }
    assert (lastPublishedValid v = false) as Hp.
    { destruct (lastPublishedValid v) eqn:E; [|done]. by apply chain_state in E. }
    set (v0 := applySnapshot _ _ _ _ _).
    assert (chain_ok v0) as H0 by (by constructor; [|change (lastPublishedValid v0) with (lastPublishedValid v); congruence]).
    destruct (replay_chain_ok (deltaBuffer (sb v0)) v0 H0 eq_refl Hp) as [Es [[Hb' Hr' Hbuf'] Hj']].
    destruct (replay cfg (deltaBuffer (sb v0)) v0) as [ok v1]. cbn [snd] in *.
    destruct ok; cbn [negb snd]; (split; [exact Es|]);
      (constructor; [constructor; fields; try done; by constructor|exact Hj']).
Qed.

(** ** The other calls *)

Lemma beginRefresh_chain v : chain_ok v -> wantsRefresh cfg v = true -> chain_ok (beginRefresh v).
Proof.
  unfold wantsRefresh. intros [[] Hj] Hw. bools. destruct Hw as [[[Hs%bool_decide_eq_true _] Hp] _].
  constructor; [|exact Hj]. unfold beginRefresh. constructor; fields; try done. by rewrite Hs.
Qed.

Lemma cancelRefresh_chain v : chain_ok v -> chain_ok (cancelRefresh v).
Proof.
  intros Hc. unfold cancelRefresh. destruct (refreshPending_ (sb v)) eqn:Er; [|done]. cbn [negb].
  destruct Hc as [[] Hj]. constructor; [by constructor|exact Hj].
Qed.

Lemma reset_chain v : lastPublishedValid v = false -> chain_ok (reset v).
Proof.
  intros Hp. constructor; [by constructor|]. change (lastPublishedValid (reset v)) with (lastPublishedValid v). congruence.
Qed.

(** A quote of the book as it is now, as far as its range goes. *)
Definition current (q : BookQuote) (v : View) : Prop :=
  q_isValid q = true ->
  state (sb v) = VALID /\ q_exchUpdateId q = lastId (seq (sb v)) /\
  q_exchFirstUpdateId q = rangeFirstU (sb v) /\
  (sync = Futures -> q_exchPrevUpdateId q = rangePrevU (sb v)).

Lemma getQuote_current sym t n v : current (getQuote cfg sym t n v) v.
Proof.
  intros Hq. destruct (getQuote_valid _ _ _ _ _ Hq) as (Hst & Hd & Hid & _).
  split; [done|]. split; [done|]. unfold getQuote. rewrite Hst, Hd. cbn. by destruct (bc_sync cfg).
Qed.

Lemma recordPublish_chain now q v : chain_weak v -> current q v -> chain_ok (recordPublish now q v).
Proof.
  intros [] Hq. constructor; [by constructor|]. unfold recordPublish, lastPublishedValid. fields. cbn [andb].
  intros Hv. destruct (Hq Hv) as (Hst & Hid & _). split; [done|]. fields. lia.
Qed.

(** The row that joins the last one. *)
Lemma current_no_hole q v : chain_ok v -> hasPublished (sb v) = true -> current q v -> no_hole sync (lastPublished (sb v)) q.
Proof.
  intros [_ Hj] Hp Hq H1 H2. assert (lastPublishedValid v = true) as Hv by (unfold lastPublishedValid; by rewrite Hp, H1).
  destruct (Hj Hv) as [_ Hrange]. destruct (Hq H2) as (_ & -> & -> & Hprev).
  destruct (rangeClosed (sb v)); [by left|right]. destruct (bc_sync cfg); [done|]. by rewrite Hprev.
Qed.
End ranges.
