(* ===== verification/Rows.v ===== *)
(** * The rows the handlers publish (trade_row.hpp, quote_row.hpp)

    Each builder with its width and the position of fhSendUs, which the sender
    patches in place. *)

From S2P Require Import Prelude Double KObject BookSide OrderBook OrderBookSpec.

Open Scope Z_scope.

(** ** Trades *)

Definition TRADE_ROW_WIDTH : Z := 12.
Definition TRADE_ROW_SEND_US_IDX : Z := 10.
Definition AGG_TRADE_ROW_WIDTH : Z := 15.
Definition AGG_TRADE_ROW_SEND_US_IDX : Z := 13.

Definition buildTradeRow (timeUtcNs fhRecvTimeUtcNs : Z) (sym : string) (tradeId : Z)
    (price qty : double) (buyerIsMaker : bool)
    (exchEventTimeMs exchTradeTimeMs fhParseUs fhSendUs fhSeqNo kdbEpochOffsetNs : Z) : K :=
  knk [ktp (timeUtcNs - kdbEpochOffsetNs); ks sym; kj tradeId; kf price; kf qty; kb buyerIsMaker;
       kj exchEventTimeMs; kj exchTradeTimeMs; kj fhRecvTimeUtcNs; kj fhParseUs; kj fhSendUs; kj fhSeqNo].

Definition buildAggTradeRow (timeUtcNs fhRecvTimeUtcNs : Z) (sym : string)
    (aggTradeId firstTradeId lastTradeId : Z) (price qty qtyExRpi : double) (buyerIsMaker : bool)
    (exchEventTimeMs exchTradeTimeMs fhParseUs fhSendUs fhSeqNo kdbEpochOffsetNs : Z) : K :=
  knk [ktp (timeUtcNs - kdbEpochOffsetNs); ks sym; kj aggTradeId; kj firstTradeId; kj lastTradeId;
       kf price; kf qty; kf qtyExRpi; kb buyerIsMaker;
       kj exchEventTimeMs; kj exchTradeTimeMs; kj fhRecvTimeUtcNs; kj fhParseUs; kj fhSendUs; kj fhSeqNo].

(** [kK(row)[i]->j = v]: a borrowed element of a mixed list, patched in place. *)
Definition patch_long (i : Z) (v : Z) (row : K) : K :=
  match row with
  | KList l => KList (<[Z.to_nat i := KLong v]> l)
  | _ => row
  end.

(** ** Quotes *)

Definition QUOTE_KDB_EPOCH_OFFSET_NS : Z := kdb_epoch_offset_ns.
Definition QUOTE_NULL_LONG : Z := null_long.

(** [BookQuote::depth()]. *)
Definition q_depth (q : BookQuote) : Z := Z.of_nat (length (q_bidPrices q)).

Definition quoteRowWidth (depth : Z) (futuresLayout : bool) : Z :=
  4 * depth + 10 + (if futuresLayout then 2 else 0).

Definition quoteSendUsIndex (depth : Z) (futuresLayout : bool) : Z :=
  quoteRowWidth depth futuresLayout - 2.

(** The row is filled from slot 0 on, one push per slot; the theorem below says
    that exactly the allocated [quoteRowWidth] slots are filled. *)
Definition buildQuoteRow (q : BookQuote) (timeUtcNs fhParseUs fhSendUs : Z) (futuresLayout : bool) : K :=
  let id v := if q_isValid q then v else QUOTE_NULL_LONG in
  KList
    ([ktp (timeUtcNs - QUOTE_KDB_EPOCH_OFFSET_NS); ks (q_sym q)] ++
     (kf <$> q_bidPrices q) ++ (kf <$> q_bidQtys q) ++
     (kf <$> q_askPrices q) ++ (kf <$> q_askQtys q) ++
     [kb (q_isValid q); kj (q_exchEventTimeMs q)] ++
     (if futuresLayout then [kj (q_exchTransactTimeMs q)] else []) ++
     [kj (id (q_exchFirstUpdateId q)); kj (id (q_exchUpdateId q))] ++
     (if futuresLayout then [kj (id (q_exchPrevUpdateId q))] else []) ++
     [kj (q_fhRecvTimeUtcNs q); kj fhParseUs; kj fhSendUs; kj (q_fhSeqNo q)]).

(** The column types of a quote row, as kdb/schemas.q has them for the layout. *)
Definition quote_schema (depth : Z) (futuresLayout : bool) : list Z :=
  [- KP; - KS] ++ replicate (Z.to_nat (4 * depth)) (- KF) ++ [- KB; - KJ] ++
  replicate (if futuresLayout then 8 else 6) (- KJ).

(** ** The layout *)

(** Every published quote has its four columns of the same length. *)
Definition columns_ok (depth : nat) (q : BookQuote) : Prop :=
  length (q_bidPrices q) = depth /\ length (q_bidQtys q) = depth /\
  length (q_askPrices q) = depth /\ length (q_askQtys q) = depth.

Lemma length_column f lv depth : length (column f lv depth) = depth.
Proof. unfold column. by rewrite length_fmap, length_seq. Qed.

Lemma getQuote_columns cfg sym t n v : columns_ok (bc_depth cfg) (getQuote cfg sym t n v).
Proof.
  unfold getQuote, columns_ok. cbn [q_isValid modify eta_BookQuote].
  destruct (bool_decide (state (sb v) = VALID)), (depthExhausted cfg v),
    (bool_decide (state (sb v) = SYNCING)); cbn; rewrite ?length_replicate, ?length_column; done.
Qed.

Lemma fmap_kf_types l : k_type <$> (kf <$> l) = replicate (length l) (- KF).
Proof. induction l as [|x l IH]; [done|]. cbn. by f_equal. Qed.

Lemma lookup_from_end {A} (l k : list A) i x :
  k !! i = Some x -> (l ++ k) !! (length l + i)%nat = Some x.
Proof. intros H. rewrite lookup_app_r by lia. by replace (length l + i - length l)%nat with i by lia. Qed.

(** C34: the row a quote of the book is published in fills exactly the width
    announced to TP, column by column of the schema's type; fhSendUs sits where
    the sender patches it and fhSeqNo last; and the update ids are null exactly
    on an invalid row. *)
Theorem quote_row_layout cfg sym recv n v time parse send fut :
  let q := getQuote cfg sym recv n v in
  let row := buildQuoteRow q time parse send fut in
  let depth := Z.of_nat (bc_depth cfg) in
  q_depth q = depth /\
  k_n row = quoteRowWidth depth fut /\
  k_types row = quote_schema depth fut /\
  kK row !! Z.to_nat (quoteSendUsIndex depth fut) = Some (KLong send) /\
  row_seq row = n /\
  (q_isValid q = false ->
   kK row !! Z.to_nat (4 * depth + 4 + (if fut then 1 else 0)) = Some (KLong null_long) /\
   kK row !! Z.to_nat (4 * depth + 5 + (if fut then 1 else 0)) = Some (KLong null_long)).
Proof.
  intros q row depth. destruct (getQuote_columns cfg sym recv n v) as (H1 & H2 & H3 & H4). fold q in H1, H2, H3, H4.
  assert (q_fhSeqNo q = n) as Hn.
  { unfold q, getQuote. cbn [q_isValid modify eta_BookQuote].
    by destruct (bool_decide (state (sb v) = VALID)), (depthExhausted cfg v),
      (bool_decide (state (sb v) = SYNCING)). }
  clearbody q. split; [unfold q_depth, depth; lia|].
  set (cols := (kf <$> q_bidPrices q) ++ (kf <$> q_bidQtys q) ++
     (kf <$> q_askPrices q) ++ (kf <$> q_askQtys q)).
  assert (length cols = Z.to_nat (4 * depth)) as Hc.
  { unfold cols, depth. rewrite !length_app, !length_fmap, H1, H2, H3, H4. lia. }
  assert (k_type <$> cols = replicate (Z.to_nat (4 * depth)) (- KF)) as Ht.
  { unfold cols, depth. rewrite !fmap_app, !fmap_kf_types, H1, H2, H3, H4, <-!replicate_add. f_equal. lia. }
  set (id v := if q_isValid q then v else QUOTE_NULL_LONG).
  set (rest := [kb (q_isValid q); kj (q_exchEventTimeMs q)] ++
     (if fut then [kj (q_exchTransactTimeMs q)] else []) ++
     [kj (id (q_exchFirstUpdateId q)); kj (id (q_exchUpdateId q))] ++
     (if fut then [kj (id (q_exchPrevUpdateId q))] else []) ++
     [kj (q_fhRecvTimeUtcNs q); kj parse; kj send; kj (q_fhSeqNo q)]).
  assert (row = KList (([ktp (time - QUOTE_KDB_EPOCH_OFFSET_NS); ks (q_sym q)] ++ cols) ++ rest)) as Hrow.
  { unfold row, buildQuoteRow, cols, rest, id. by rewrite <-!app_assoc. }
  clearbody row. subst row.
  set (pre := [ktp (time - QUOTE_KDB_EPOCH_OFFSET_NS); ks (q_sym q)] ++ cols).
  assert (length pre = S (S (Z.to_nat (4 * depth)))) as Hp by (unfold pre; cbn; lia).
  cbn [kK k_n]. split; [|split; [|split; [|split]]].
  - rewrite length_app, Hp. unfold rest, quoteRowWidth. destruct fut; cbn; lia.
  - unfold k_types. cbn [kK]. rewrite fmap_app. unfold pre. rewrite fmap_app, Ht, <-app_assoc.
    unfold rest. by destruct fut.
  - unfold quoteSendUsIndex, quoteRowWidth, rest. destruct fut; cbn [app].
    + replace (Z.to_nat _) with (length pre + 8)%nat by lia. by apply lookup_from_end.
    + replace (Z.to_nat _) with (length pre + 6)%nat by lia. by apply lookup_from_end.
  - unfold row_seq. cbn [kK]. unfold rest. destruct fut; rewrite !app_assoc, last_app; cbn; exact Hn.
  - intros Hv. unfold rest, id. rewrite Hv. destruct fut; cbn [app]; split.
    + replace (Z.to_nat _) with (length pre + 3)%nat by lia. by apply lookup_from_end.
    + replace (Z.to_nat _) with (length pre + 4)%nat by lia. by apply lookup_from_end.
    + replace (Z.to_nat _) with (length pre + 2)%nat by lia. by apply lookup_from_end.
    + replace (Z.to_nat _) with (length pre + 3)%nat by lia. by apply lookup_from_end.
Qed.

(** The sequence number is the last column, and patching the send latency is
    building the row with it. *)
Lemma quote_row_seq q time parse send fut : row_seq (buildQuoteRow q time parse send fut) = q_fhSeqNo q.
Proof. unfold row_seq, buildQuoteRow. cbn [kK]. rewrite !app_assoc, last_app. cbn. done. Qed.

Lemma quote_row_width q time parse send fut depth :
  columns_ok (Z.to_nat depth) q -> 0 <= depth ->
  k_n (buildQuoteRow q time parse send fut) = quoteRowWidth depth fut.
Proof.
  intros (H1 & H2 & H3 & H4) Hd. unfold buildQuoteRow, quoteRowWidth. cbn [k_n].
  rewrite !length_app, !length_fmap, H1, H2, H3, H4. destruct fut; cbn [length]; lia.
Qed.

Lemma patch_quote_row q time parse old send fut depth :
  columns_ok (Z.to_nat depth) q -> 0 <= depth ->
  patch_long (quoteSendUsIndex depth fut) send (buildQuoteRow q time parse old fut) =
    buildQuoteRow q time parse send fut.
Proof.
  intros (H1 & H2 & H3 & H4) Hd. unfold buildQuoteRow, patch_long. f_equal.
  rewrite !app_assoc. set (pre := _ ++ (if fut then _ else [])).
  assert (Z.to_nat (quoteSendUsIndex depth fut) = (length pre + 2)%nat) as ->; [|by rewrite insert_app_r].
  unfold pre, quoteSendUsIndex, quoteRowWidth. rewrite !length_app, !length_fmap, H1, H2, H3, H4.
  destruct fut; cbn [length]; lia.
Qed.

(** Both trade layouts: width, the patched slot, the sequence number. *)
Lemma trade_row_layout time recv sym id price qty m ev tr parse send n off :
  let row := buildTradeRow time recv sym id price qty m ev tr parse send n off in
  k_n row = TRADE_ROW_WIDTH /\ row_seq row = n /\
  kK row !! Z.to_nat TRADE_ROW_SEND_US_IDX = Some (KLong send) /\
  k_types row = [- KP; - KS; - KJ; - KF; - KF; - KB; - KJ; - KJ; - KJ; - KJ; - KJ; - KJ].
Proof. done. Qed.

Lemma agg_trade_row_layout time recv sym id f l price qty ex m ev tr parse send n off :
  let row := buildAggTradeRow time recv sym id f l price qty ex m ev tr parse send n off in
  k_n row = AGG_TRADE_ROW_WIDTH /\ row_seq row = n /\
  kK row !! Z.to_nat AGG_TRADE_ROW_SEND_US_IDX = Some (KLong send).
Proof. done. Qed.
