(* ===== verification/Delivery.v ===== *)
(** * A handler's rows and its tickerplant session

    [TpSession] says what publishing does to TP's log; this file adds that
    everything else a handler does leaves the session alone ([TpQuiet]), and
    states the invariant a handler keeps with the rows it has published so far:
    their numbers, their content, and where TP's log stands. *)

From S2P Require Import Prelude Double CStdlib Effects Backoff KObject TpPublisher TpSession RestClient TradeGap.

Open Scope Z_scope.
Local Open Scope rec_scope.

(** The outside operations that are not publishing; a lost connection is never
    revived by them. *)
Class TpQuiet (W : Type) (cfg : TpPublisherConfig) `{TpSession W cfg row_seq} `{Host W} `{WebSocket W}
    `{HttpLib W} `{Background W} := {
  quiet_steady w : t_same w (snd (steady_now w));
  quiet_system w : t_same w (snd (system_now w));
  quiet_draw w : t_same w (snd (draw_jitter w));
  quiet_connect host port path w : t_same w (snd (ws_connect host port path w));
  quiet_read w : t_same w (snd (ws_read w));
  quiet_ws_close w : t_same w (ws_close w);
  quiet_get host port path w : t_same w (snd (http_get host port path w));
  quiet_steps w : t_same w (snd (worker_steps w));
  quiet_send h f args w :
    (f = ".u.upd"%string -> forall row, args <> [ks (tc_table cfg); row]) -> t_same w (snd (k_send h f args w));
  quiet_call h f args w :
    f <> ".tp.registerSession"%string -> t_same w (snd (k_call h f args w))
}.

Section delivery.
Context {W : Type} (cfg : TpPublisherConfig) `{TpSession W cfg row_seq}.
(** What is promised of every row. *)
Context (good : K -> Prop).

(** The rows published so far: numbered from 1, in TP's session as [delivers]
    says, each of them good. *)
Record published_rows (n : Z) (rows : list K) (p : TpPublisher) (w : W) : Prop := {
  pr_delivers : delivers cfg row_seq 0 rows p w;
  pr_open : t_last w <> None;
  pr_numbered : numbered cfg row_seq 0 rows;
  pr_count : n = Z.of_nat (length rows);
  pr_good : Forall good rows
}.

Lemma delivers_same rows p w w' :
  t_same w w' -> delivers cfg row_seq 0 rows p w -> delivers cfg row_seq 0 rows p w'.
Proof.
  intros Hs [Hk Hss Hu]. pose proof Hs as (E1 & E2 & Hup). split; [done|by apply (session_state_same _ _ _ _ _ w)|].
  intros Hh. destruct (Hu Hh) as (l & Hl & Hend). exists l. split; [by apply (logged_same _ _ _ _ _ _ w)|]. auto.
Qed.

Lemma published_same n rows p w w' :
  t_same w w' -> published_rows n rows p w -> published_rows n rows p w'.
Proof.
  intros Hs []. constructor; try done; [by apply (delivers_same _ _ w)|]. by destruct Hs as (-> & _).
Qed.

Lemma numbered_snoc rows row :
  numbered cfg row_seq 0 rows -> row_seq row = Z.of_nat (length rows) + 1 -> k_n row = tc_width cfg ->
  numbered cfg row_seq 0 (rows ++ [row]).
Proof.
  intros Hn Hr Hw i r. rewrite lookup_last_cons. case_decide as Hi; [|apply Hn].
  intros [= <-]. split; [lia|done].
Qed.

(** Publishing the next row. *)
Lemma publish_published fuel row n rows p w ok p' w' :
  published_rows n rows p w -> good row -> row_seq row = n + 1 -> k_n row = tc_width cfg ->
  publish fuel row (n + 1) p w = Some (ok, p', w') ->
  published_rows (n + 1) (rows ++ [row]) p' w'.
Proof.
  intros [Hd Ho Hn Hc Hg] Hrow Hseq Hwidth E. subst n.
  assert (numbered cfg row_seq 0 (rows ++ [row])) as Hn' by (by apply numbered_snoc).
  replace (Z.of_nat (length rows) + 1) with (0 + 1 + Z.of_nat (length rows)) in E by lia.
  apply (publish_spec cfg row_seq 0 (Z.le_refl 0) rows) in E as (Hd' & _ & Ho' & _); [|done..].
  constructor; try done; [rewrite length_app; cbn; lia|].
  apply Forall_app. by split; [|constructor].
Qed.

(** The first connection of a fresh handler. *)
Lemma connect_published fuel w ok p' w' :
  t_last w = None -> t_log w = [] ->
  connect fuel 1 (newTpPublisher cfg) w = Some (ok, p', w') ->
  (ok = true -> published_rows 0 [] p' w') /\ t_log w' = [].
Proof.
  intros Hl Hlog E. unfold connect in E.
  assert (keeps cfg 0 [] (newTpPublisher cfg)) as Hk.
  { constructor; cbn; try done. unfold newRing. destruct (Nat.eqb_spec (tc_ringSize cfg) 0); cbn; lia. }
  apply (connect_loop_spec cfg row_seq 0 (Z.le_refl 0) []) in E as (Hd & Hh & _); [|by intros ? ?|done|by left|done].
  split.
  - intros Hok. specialize (Hh Hok). destruct (del_up _ _ _ _ _ _ Hd Hh) as (l & Hlg & _).
    constructor; try done; by eapply logged_last.
  - destruct (del_session _ _ _ _ _ _ Hd) as [(_ & _ & ?)|(l & _ & _ & Hs & _)]; [done|].
    rewrite take_nil in Hs. by apply sublist_nil_r in Hs.
Qed.

(** A connection that is given up. *)
Lemma published_closed n rows p w w' :
  t_same w w' -> published_rows n rows p w ->
  published_rows n rows (p <| handle_ := -1 |> <| reconnects_ ::= Z.succ |>) w'.
Proof.
  intros Hs Hp. destruct (published_same _ _ _ _ _ Hs Hp) as [[[] ? _] ? ? ? ?].
  by constructor.
Qed.

Lemma drop_published n rows p w p' w' :
  published_rows n rows p w -> drop_connection p w = (p', w') -> published_rows n rows p' w'.
Proof. intros Hp [= <- <-]. eapply published_closed; [apply law_close|done]. Qed.

(** What is in TP's log, in terms of the rows. *)
Lemma published_log n rows p w :
  published_rows n rows p w ->
  exists l, t_last w = Some l /\ 0 <= l <= Z.of_nat (length rows) /\
    t_log w `sublist_of` take (Z.to_nat l) rows /\
    l - Z.of_nat (length (t_log w)) <= rowsUnresendable_ p /\
    (rowsUnresendable_ p = 0 -> t_log w = take (Z.to_nat l) rows).
Proof.
  intros [[_ Hs _] Ho _ _ _]. destruct Hs as [(? & _)|(l & Hl & Hb & Hsub & Hlost)]; [done|].
  rewrite Z.sub_0_r in Hsub. exists l. split; [done|]. split; [lia|]. split; [done|]. split; [lia|].
  intros Hz. apply sublist_full; [done|]. rewrite length_take. lia.
Qed.

(** Calls to TP that are not publishing. *)
Context `{Host W} `{WebSocket W} `{HttpLib W} `{Background W} `{!TpQuiet W cfg}.

Lemma sendEvent_published n rows tbl row p w res p' w' :
  published_rows n rows p w -> sendEvent tbl row p w = (res, p', w') -> published_rows n rows p' w'.
Proof.
  intros Hp. unfold sendEvent. case_match; [by intros [= <- <- <-]|].
  pose proof (quiet_call (handle_ p) ".tp.event" [ks tbl; row] w ltac:(discriminate)) as Hs.
  destruct (k_call _ _ _ w) as [r w1]. cbn [snd] in Hs. apply (published_same _ _ _ _ _ Hs) in Hp.
  destruct r as [[]|]; try by intros [= <- <- <-].
  destruct (drop_connection p w1) as [p1 w2] eqn:Ed. intros [= <- <- <-]. by eapply drop_published.
Qed.

Lemma tradeState_published n rows p w st p' w' :
  published_rows n rows p w -> tradeState p w = (st, p', w') -> published_rows n rows p' w'.
Proof.
  intros Hp. unfold tradeState. case_match; [by intros [= <- <- <-]|].
  pose proof (quiet_call (handle_ p) ".tp.tradeState" [ks (table p)] w ltac:(discriminate)) as Hs.
  destruct (k_call _ _ _ w) as [r w1]. cbn [snd] in Hs. apply (published_same _ _ _ _ _ Hs) in Hp.
  destruct r as [[]|]; try by intros [= <- <- <-].
  destruct (drop_connection p w1) as [p1 w2] eqn:Ed. intros [= <- <- <-]. by eapply drop_published.
Qed.

Lemma flush_published n rows q p w b q' p' w' :
  published_rows n rows p w -> flush q p w = (b, q', p', w') -> published_rows n rows p' w'.
Proof.
  unfold flush. generalize (pending_ q) as l. intros l. revert q p w.
  induction l as [|row l IH]; intros q p w Hp; cbn [flush_rows]; [by intros [= <- <- <- <-]|].
  destruct (sendEvent (gq_table q) row p w) as [[res p1] w1] eqn:Es.
  apply (sendEvent_published _ _ _ _ _ _ _ _ _ Hp) in Es. destruct res; [by apply IH|by intros [= <- <- <- <-]|by apply IH].
Qed.

Lemma get_quiet c target w : t_same w (snd (get c target w)).
Proof.
  unfold get. case_match; [apply t_same_refl|].
  pose proof (quiet_get (rc_host c) (rc_port c) target w). by destruct (http_get _ _ _ _).
Qed.
End delivery.
