(* ===== verification/Shutdown.v ===== *)
(** * Handlers return once they are shut down

    [returns m]: from every state, and every world in which the shutdown flag is
    still read as set fewer times than the fuel, the method returns, and the
    flag's reads do not become more. It composes along the methods; the retry
    loop of the publisher is the base case. *)

From S2P Require Import Prelude Double CStdlib JsonReader Effects Backoff KObject TpPublisher.
From S2P Require Import TpSession TradeGap RestClient.

Open Scope Z_scope.
Local Open Scope rec_scope.

(** The outside operations do not undo a shutdown. *)
Class WorldReads (W : Type) `{LinkReads W} `{Host W} `{WebSocket W} `{HttpLib W} `{Background W} := {
  reads_steady w : (reads_left (snd (steady_now w)) <= reads_left w)%nat;
  reads_system w : (reads_left (snd (system_now w)) <= reads_left w)%nat;
  reads_draw w : (reads_left (snd (draw_jitter w)) <= reads_left w)%nat;
  reads_connect host port path w : (reads_left (snd (ws_connect host port path w)) <= reads_left w)%nat;
  reads_wsread w : (reads_left (snd (ws_read w)) <= reads_left w)%nat;
  reads_wsclose w : (reads_left (ws_close w) <= reads_left w)%nat;
  reads_get host port path w : (reads_left (snd (http_get host port path w)) <= reads_left w)%nat;
  reads_steps w : (reads_left (snd (worker_steps w)) <= reads_left w)%nat
}.

(** The flag, once cleared, stays cleared: nothing in the program sets it again. *)
Class FlagStays (W : Type) `{Process W} `{TpLink W} `{Host W} `{WebSocket W} `{HttpLib W} `{Background W} := {
  stopped : W -> Prop;
  stopped_seen w : fst (is_running w) = false -> stopped (snd (is_running w));
  stopped_reads w : stopped w -> fst (is_running w) = false /\ stopped (snd (is_running w));
  stopped_stop w : stopped (stop_running w);
  stopped_sleep ns w : stopped w -> stopped (sleep_ns ns w);
  stopped_khpu host port w : stopped w -> stopped (snd (khpu host port w));
  stopped_call h f args w : stopped w -> stopped (snd (k_call h f args w));
  stopped_send h f args w : stopped w -> stopped (snd (k_send h f args w));
  stopped_close h w : stopped w -> stopped (kclose h w);
  stopped_steady w : stopped w -> stopped (snd (steady_now w));
  stopped_system w : stopped w -> stopped (snd (system_now w));
  stopped_draw w : stopped w -> stopped (snd (draw_jitter w));
  stopped_connect host port path w : stopped w -> stopped (snd (ws_connect host port path w));
  stopped_wsread w : stopped w -> stopped (snd (ws_read w));
  stopped_wsclose w : stopped w -> stopped (ws_close w);
  stopped_get host port path w : stopped w -> stopped (snd (http_get host port path w));
  stopped_steps w : stopped w -> stopped (snd (worker_steps w))
}.

(** The publisher gives a lost connection up only when it is told to stop. *)
Section flag.
Context {W : Type} `{FlagStays W}.

Lemma sleep_loop_stopped n slept delay (w : W) : stopped w -> stopped (sleep_loop n slept delay w).
Proof.
  revert slept w. induction n as [|n IH]; intros slept w Hw; cbn [sleep_loop]; [done|].
  destruct (slept <? delay); [|done]. destruct (stopped_reads w Hw) as [E Hr].
  destruct (is_running w) as [r w1]. cbn [fst snd] in *. by subst r.
Qed.

Lemma sleepWithBackoff_stopped mult initial max n (w : W) :
  (stopped w -> stopped (snd (sleepWithBackoff mult initial max n w))) /\
  (fst (sleepWithBackoff mult initial max n w) = false -> stopped (snd (sleepWithBackoff mult initial max n w))).
Proof.
  unfold sleepWithBackoff. split; [|apply stopped_seen].
  intros Hw. by apply stopped_reads, sleep_loop_stopped.
Qed.

Lemma connect_loop_up fuel attempt next p (w : W) ok p' w' :
  connect_loop fuel attempt next p w = Some (ok, p', w') ->
  (stopped w -> stopped w') /\ (connected p' = true \/ stopped w').
Proof.
  revert attempt p w. induction fuel as [|fuel IH]; intros attempt p w; cbn [connect_loop]; [done|].
  pose proof (stopped_seen w) as Hseen. pose proof (stopped_reads w) as Hst.
  destruct (is_running w) as [r w1]. cbn [fst snd] in *.
  destruct r; cbn [negb]; [|intros [= <- <- <-]; auto].
  assert (~ stopped w) as Hno by (intros Hw; by destruct (Hst Hw)).
  assert (forall p1 v, after_backoff attempt (connect_loop fuel (S attempt) next) p1 v = Some (ok, p', w') ->
    connected p' = true \/ stopped w') as Hback.
  { intros p1 v. unfold after_backoff.
    pose proof (sleepWithBackoff_stopped 2 (tc_initialBackoffMs (tp_cfg p1)) (tc_maxBackoffMs (tp_cfg p1)) attempt v) as [_ Hs].
    destruct (sleepWithBackoff _ _ _ _ v) as [[] v1]; cbn [fst snd] in *.
    - intros E. by apply IH in E as [_ ?].
    - intros [= <- <- <-]. auto. }
  intros E. split; [tauto|]. revert E.
  destruct (khpu _ _ w1) as [h w2]. destruct (Z.ltb_spec 0 h) as [Hh|]; [|by apply Hback].
  destruct (registerSession h next p w2) as [[[reg lastLogged] p1] w3].
  destruct (reg <? 0); [intros [= <- <- <-]; right; apply stopped_stop|].
  destruct (if reg =? 1 then resend h lastLogged p1 w3 else (false, p1, w3)) as [[[] p2] w4]; [|by apply Hback].
  intros [= <- <- <-]. left. unfold connected. cbn. lia.
Qed.

Lemma publish_up fuel row n p (w : W) ok p' w' :
  publish fuel row n p w = Some (ok, p', w') ->
  (stopped w -> stopped w') /\ (connected p' = true \/ stopped w').
Proof.
  unfold publish. destruct (ring_push n row (ring_ p)) as [freed r]. set (p1 := p <| ring_ := r |>).
  destruct (Z.ltb_spec 0 (handle_ p1)) as [Hh|]; [|by apply connect_loop_up].
  pose proof (stopped_send (handle_ p1) ".u.upd" [ks (table p1); row] w) as Hs.
  destruct (k_send _ _ _ w) as [[] w1]; cbn [snd] in Hs.
  - intros [= <- <- <-]. split; [done|]. left. unfold connected. lia.
  - unfold drop_connection. intros [Hk ?]%connect_loop_up. split; [|done]. intros Hw. by apply Hk, stopped_close, Hs.
Qed.
End flag.

Section returns.
Context {W : Type} `{WorldReads W} (fuel : nat).

Definition returns {S A} (m : M S W A) : Prop :=
  forall s w, (reads_left w < fuel)%nat ->
    exists x s' w', m s w = Some (x, s', w') /\ (reads_left w' <= reads_left w)%nat.

Lemma returns_ret {S A} (x : A) : returns (ret (S:=S) x).
Proof. intros s w _. by exists x, s, w. Qed.
Lemma returns_bind {S A B} (m : M S W A) (k : A -> M S W B) :
  returns m -> (forall x, returns (k x)) -> returns (bind m k).
Proof.
  intros Hm Hk s w Hw. unfold bind. destruct (Hm s w Hw) as (x & s1 & w1 & -> & Hw1).
  destruct (Hk x s1 w1) as (y & s2 & w2 & -> & Hw2); [lia|]. exists y, s2, w2. split; [done|lia].
Qed.
Lemma returns_gets {S A} (f : S -> A) : returns (gets f).
Proof. intros s w _. by exists (f s), s, w. Qed.
Lemma returns_puts {S} (f : S -> S) : returns (puts f).
Proof. intros s w _. by exists tt, (f s), w. Qed.
Lemma returns_world {S A} (f : W -> A * W) :
  (forall w, (reads_left (snd (f w)) <= reads_left w)%nat) -> returns (S:=S) (world f).
Proof. intros Hf s w _. unfold world. specialize (Hf w). destruct (f w) as [x w1]. by exists x, s, w1. Qed.
Lemma returns_when {S} b (m : M S W unit) : returns m -> returns (when b m).
Proof. intros Hm. destruct b; [done|apply returns_ret]. Qed.
Lemma returns_for_each {S A} (l : list A) (f : A -> M S W unit) :
  (forall x, returns (f x)) -> returns (for_each l f).
Proof.
  intros Hf. induction l as [|x l IH]; cbn; [apply returns_ret|]. by apply returns_bind.
Qed.

Lemma publish_returns row n p w :
  (reads_left w < fuel)%nat ->
  exists ok p' w', publish fuel row n p w = Some (ok, p', w') /\ (reads_left w' <= reads_left w)%nat.
Proof.
  intros Hw. unfold publish, connect. destruct (ring_push n row (ring_ p)) as [freed r].
  set (p1 := p <| ring_ := r |>).
  destruct (0 <? handle_ p1); [|by apply connect_loop_returns].
  pose proof (reads_send (handle_ p1) ".u.upd" [ks (table p1); row] w) as Hs.
  destruct (k_send _ _ _ w) as [[] w1]; cbn [snd] in Hs; [by eexists _, _, _|].
  unfold drop_connection. pose proof (reads_close (handle_ p1) w1).
  destruct (connect_loop_returns fuel 0 (n + 1) (p1 <| handle_ := -1 |> <| reconnects_ ::= Z.succ |>)
    (kclose (handle_ p1) w1)) as (ok & p' & w' & E & ?); [lia|].
  exists ok, p', w'. split; [exact E|lia].
Qed.

Lemma close_reads p w : (reads_left (snd (close p w)) <= reads_left w)%nat.
Proof. unfold close. case_match; cbn; [apply reads_close|done]. Qed.

Lemma sendEvent_reads tbl row p w : (reads_left (snd (sendEvent tbl row p w)) <= reads_left w)%nat.
Proof.
  unfold sendEvent. case_match; [done|]. pose proof (reads_call (handle_ p) ".tp.event" [ks tbl; row] w) as Hc.
  destruct (k_call _ _ _ w) as [[r|] w1]; cbn [snd] in Hc.
  - by destruct r.
  - cbn. pose proof (reads_close (handle_ p) w1). lia.
Qed.

Lemma flush_reads q p w : (reads_left (snd (flush q p w)) <= reads_left w)%nat.
Proof.
  unfold flush. generalize (pending_ q). intros l. revert q p w. induction l as [|row l IH]; intros q p w; cbn [flush_rows]; [done|].
  pose proof (sendEvent_reads (gq_table q) row p w) as He.
  destruct (sendEvent _ _ _ w) as [[res p1] w1]. cbn [snd] in He. destruct res; cbn; [| |].
  - etrans; [apply IH|done].
  - done.
  - etrans; [apply IH|done].
Qed.

Lemma tradeState_reads p w : (reads_left (snd (tradeState p w)) <= reads_left w)%nat.
Proof.
  unfold tradeState. case_match; [done|].
  pose proof (reads_call (handle_ p) ".tp.tradeState" [ks (table p)] w) as Hc.
  destruct (k_call _ _ _ w) as [[r|] w1]; cbn [snd] in Hc.
  - by destruct r.
  - cbn. pose proof (reads_close (handle_ p) w1). lia.
Qed.

Lemma get_reads c target w : (reads_left (snd (get c target w)) <= reads_left w)%nat.
Proof.
  unfold get. case_match; [done|]. pose proof (reads_get (rc_host c) (rc_port c) target w).
  by destruct (http_get _ _ _ w).
Qed.
End returns.

(** Walk through a method. *)
Ltac returns_step :=
  lazymatch goal with
  | |- returns _ (bind _ _) => apply returns_bind; [|intros ?]
  | |- returns _ (when _ _) => apply returns_when
  | |- returns _ (for_each _ _) => apply returns_for_each; intros ?
  | |- returns _ (ret _) => apply returns_ret
  | |- returns _ (gets _) => apply returns_gets
  | |- returns _ (puts _) => apply returns_puts
  | |- returns _ (world steady_now) => apply returns_world, reads_steady
  | |- returns _ (world system_now) => apply returns_world, reads_system
  | |- returns _ (world draw_jitter) => apply returns_world, reads_draw
  | |- returns _ (world is_running) => apply returns_world, reads_read_le
  | |- returns _ (world (k_send _ _ _)) => apply returns_world; intros ?; apply reads_send
  | |- returns _ (match ?x with _ => _ end) => destruct x
  end.
