(* ===== verification/QuoteHandler.v ===== *)
(** * The quote feed handler (quote_feed_handler.cpp)

    Its members as a record and its methods in the effect monad: depth events
    and snapshot results in, quote rows out. The components are the ones of the
    other files; a worker thread step may happen between any two handler calls.
    Log lines are not modelled. *)

From S2P Require Import Prelude Double CStdlib JsonReader MarketConfig Effects Backoff RowClock.
From S2P Require Import KObject TpPublisher Scheduler BookSide RestClient SnapshotWorker OrderBook.
From S2P Require Import OrderBookSpec Rows.

Open Scope Z_scope.
Local Open Scope rec_scope.
Local Open Scope effect_scope.

Definition QH_INITIAL_BACKOFF_MS : Z := 1000.
Definition QH_MAX_BACKOFF_MS : Z := 8000.
Definition QH_BACKOFF_MULTIPLIER : Z := 2.
Definition SNAPSHOT_TIMEOUT_MS : Z := 30000.
Definition HEALTH_INTERVAL_SEC : Z := 5.
Definition KDB_EPOCH_OFFSET_NS : Z := kdb_epoch_offset_ns.

Record QuoteFeedHandler := mkQuoteHandler {
  qcfg : QuoteMarketConfig;
  symbolsLower_ : list string;
  symbolsUpper_ : list string;
  bookMgr_ : OrderBookManager;
  tp_ : TpPublisher;
  rowClock_ : RowClock;
  snapshotScheduler_ : SnapshotScheduler;
  snapshotWorker_ : SnapshotWorker;
  latestRequestId_ : list Z;
  snapshotRequestedAtMs_ : list Z;
  fhSeqNo_ : Z;
  lastParseUs_ : Z;
  ctrSequenceGaps_ : Z;
  ctrResyncs_ : Z;
  ctrSnapshotFailures_ : Z;
  ctrWsReconnects_ : Z;
  parseFailures_ : Z;
  msgsReceived_ : Z;
  msgsPublished_ : Z;
  connState_ : string;
  startTime_ : Z;
  lastMsgTime_ : Z;
  lastPubTime_ : Z;
  binanceReconnectAttempt_ : nat
}.
#[export] Instance eta_QuoteFeedHandler : Eta QuoteFeedHandler := fun h =>
  mkQuoteHandler (qcfg h) (symbolsLower_ h) (symbolsUpper_ h) (bookMgr_ h) (tp_ h) (rowClock_ h)
    (snapshotScheduler_ h) (snapshotWorker_ h) (latestRequestId_ h) (snapshotRequestedAtMs_ h)
    (fhSeqNo_ h) (lastParseUs_ h) (ctrSequenceGaps_ h) (ctrResyncs_ h) (ctrSnapshotFailures_ h)
    (ctrWsReconnects_ h) (parseFailures_ h) (msgsReceived_ h) (msgsPublished_ h) (connState_ h)
    (startTime_ h) (lastMsgTime_ h) (lastPubTime_ h) (binanceReconnectAttempt_ h).

(** The constructor. [startNs] and [steadyNs] are the clocks it reads. *)
Definition bookConfigOf (m : QuoteMarketConfig) : BookConfig :=
  mkBookConfig (Z.to_nat (qc_depth m)) (Z.to_nat (qc_snapshotLimit m)) 500 4000 (qc_sync m).

Definition schedConfigOf (m : QuoteMarketConfig) : SnapshotSchedulerConfig :=
  default_SnapshotSchedulerConfig <| weightPerRequest := qc_snapshotWeight m |>
    <| weightLimitPerMin := qc_weightLimitPerMin m |>.

Definition newQuoteFeedHandler (symbols : list string) (m : QuoteMarketConfig)
    (tpHost : string) (tpPort startNs steadyNs : Z) : QuoteFeedHandler :=
  let uppers := upper <$> symbols in
  let tpCfg := mkTpConfig tpHost tpPort (qc_tpTable m) (quoteRowWidth (qc_depth m) (qc_publishTransactTime m))
                 startNs 4096 1000 8000 in
  mkQuoteHandler m symbols uppers (newManager uppers (bookConfigOf m) steadyNs) (newTpPublisher tpCfg)
    (newRowClock (qc_clockLagMs m)) (newScheduler (length uppers) (schedConfigOf m)) newWorker
    (replicate (length uppers) 0) (replicate (length uppers) 0)
    0 0 0 0 0 0 0 0 0 "disconnected" startNs 0 0 0.

(** [++latestRequestId_[i]]: 64 bits. *)
Definition bump_request (i : nat) (h : QuoteFeedHandler) : QuoteFeedHandler :=
  h <| latestRequestId_ ::= <[i := (vget (latestRequestId_ h) i + 1) mod 2 ^ 64]> |>.

Section handler.
Context {W V : Type} `{Process W} `{TpLink W} `{Host W} `{JsonLib V}.
(** Iterations the publisher's retry loop may take in one call. *)
Context (fuel : nat).

Local Abbreviation HM := (M QuoteFeedHandler W).

(** ** Access to the components *)

Definition steadyNowMs : HM Z := world (fun w => let '(t, w) := steady_now w in (Z.quot t 1000000, w)).

Definition book_get {R} (idx : nat) (dflt : R) (f : BookConfig -> View -> R) : HM R :=
  gets (fun h => at_sym idx dflt (f (cfg_ (bookMgr_ h))) (bookMgr_ h)).

Definition book_do {R} (idx : nat) (dflt : R) (f : BookConfig -> View -> R * View) : HM R :=
  fun h w =>
    let '(r, m) := on_sym idx dflt (f (cfg_ (bookMgr_ h))) (bookMgr_ h) in
    Some (r, h <| bookMgr_ := m |>, w).

Definition book_set (idx : nat) (f : BookConfig -> View -> View) : HM unit :=
  book_do idx tt (fun c v => (tt, f c v)).

Definition sched_try (idx : nat) (nowMs : Z) : HM bool := fun h w =>
  let '(b, s) := tryAcquire idx nowMs (snapshotScheduler_ h) in
  Some (b, h <| snapshotScheduler_ := s |>, w).

Definition sched_failure (idx : nat) (nowMs httpStatus retryAfterSec usedWeight1m : Z) : HM unit :=
  j <- world draw_jitter ;;
  puts (fun h => h <| snapshotScheduler_ ::= onFailure idx nowMs httpStatus retryAfterSec usedWeight1m j |>).

(** ** Publishing *)

Definition publishQuote (quote : BookQuote) : HM unit :=
  st <- (fun h w => let '(s, c) := stamp (q_fhRecvTimeUtcNs quote) (q_exchEventTimeMs quote) (rowClock_ h) in
                    Some (s, h <| rowClock_ := c |>, w)) ;;
  sendStart <- world steady_now ;;
  h <- gets (fun h => h) ;;
  let withT := qc_publishTransactTime (qcfg h) in
  let row := buildQuoteRow quote (timeUtcNs st) (lastParseUs_ h) 0 withT in
  sendEnd <- world steady_now ;;
  let fhSendUs := Z.quot (sendEnd - sendStart) 1000 in
  let row := patch_long (quoteSendUsIndex (qc_depth (qcfg h)) withT) fhSendUs row in
  (fun h w =>
     match publish fuel row (q_fhSeqNo quote) (tp_ h) w with
     | Some (_, p, w) => Some (tt, h <| tp_ := p |>, w)
     | None => None
     end) ;;;
  puts (fun h => h <| connState_ := if connected (tp_ h) then "connected" else "disconnected" |>) ;;;
  now <- world system_now ;;
  puts (fun h => h <| lastPubTime_ := now |> <| msgsPublished_ ::= Z.succ |>).

(** A quote takes the next fhSeqNo and is published and recorded. *)
Definition commit_quote (symIdx : nat) (quote : BookQuote) : HM unit :=
  puts (fun h => h <| fhSeqNo_ ::= Z.succ |>) ;;;
  n <- gets fhSeqNo_ ;;
  let quote := quote <| q_fhSeqNo := n |> in
  publishQuote quote ;;;
  now <- world steady_now ;;
  book_set symIdx (fun _ => recordPublish now quote).

Definition candidate (symIdx : nat) (fhRecvTimeUtcNs : Z) : HM BookQuote :=
  n <- gets fhSeqNo_ ;;
  sym <- gets (fun h => getSymbol symIdx (bookMgr_ h)) ;;
  book_get symIdx (new_quote 0) (fun c => getQuote c sym fhRecvTimeUtcNs (n + 1)).

Definition maybePublish (symIdx : nat) (fhRecvTimeUtcNs : Z) : HM unit :=
  quote <- candidate symIdx fhRecvTimeUtcNs ;;
  now <- world steady_now ;;
  ok <- book_get symIdx false (fun _ => shouldPublish now quote) ;;
  when ok (commit_quote symIdx quote).

Definition publishInvalid (symIdx : nat) (fhRecvTimeUtcNs : Z) : HM unit :=
  h <- gets (fun h => h) ;;
  commit_quote symIdx
    ((new_quote (Z.to_nat (qc_depth (qcfg h)))) <| q_sym := getSymbol symIdx (bookMgr_ h) |>
       <| q_fhRecvTimeUtcNs := fhRecvTimeUtcNs |>).

Definition checkPublishTimeouts (fhRecvTimeUtcNs : Z) : HM unit :=
  now <- world steady_now ;;
  needs <- gets (fun h => getTimeoutPublishNeeded now (bookMgr_ h)) ;;
  for_each needs (fun symIdx =>
    quote <- candidate symIdx fhRecvTimeUtcNs ;;
    when (q_isValid quote) (commit_quote symIdx quote)).

(** ** Snapshots *)

Definition requestSnapshot (symIdx : nat) : HM unit :=
  sym <- gets (fun h => getSymbol symIdx (bookMgr_ h)) ;;
  book_set symIdx (fun _ => setSnapshotRequested true) ;;;
  now <- steadyNowMs ;;
  puts (fun h => h <| snapshotRequestedAtMs_ ::= <[symIdx := now]> |>) ;;;
  puts (fun h =>
    let '(id, wk) := enqueueRequest (Z.of_nat symIdx) sym (snapshotWorker_ h) in
    h <| snapshotWorker_ := wk |> <| latestRequestId_ ::= <[symIdx := id]> |>).

(** A request whose result never came back. *)
Definition expire_request (nowMs : Z) (symIdx : nat) : HM unit :=
  at_ <- gets (fun h => vget (snapshotRequestedAtMs_ h) symIdx) ;;
  when (negb (at_ =? 0) && (SNAPSHOT_TIMEOUT_MS <? nowMs - at_))
    (puts (bump_request symIdx) ;;;
     puts (fun h => h <| snapshotRequestedAtMs_ ::= <[symIdx := 0]> |>) ;;;
     book_set symIdx (fun _ => cancelRefresh) ;;;
     book_set symIdx (fun _ => setSnapshotRequested false) ;;;
     sched_failure symIdx nowMs 0 0 (-1) ;;;
     puts (fun h => h <| ctrSnapshotFailures_ ::= Z.succ |>)).

Definition apply_result (nowMs : Z) (r : SnapshotResult) : HM unit :=
  let symIdx := Z.to_nat (rs_symIdx r) in
  let d := rs_data r in
  latest <- gets (fun h => vget (latestRequestId_ h) symIdx) ;;
  when (negb (rs_id r <? latest))
    (puts (fun h => h <| snapshotRequestedAtMs_ ::= <[symIdx := 0]> |>) ;;;
     if negb (sd_success d) then
       puts (fun h => h <| ctrSnapshotFailures_ ::= Z.succ |>) ;;;
       sched_failure symIdx nowMs (sd_httpStatus d) (sd_retryAfterSec d) (sd_usedWeight1m d) ;;;
       book_set symIdx (fun _ => cancelRefresh) ;;;
       book_set symIdx (fun _ => setSnapshotRequested false)
     else
       puts (fun h => h <| snapshotScheduler_ ::= onFetchOk nowMs (sd_usedWeight1m d) |>) ;;;
       outcome <- book_do symIdx IGNORED (fun c => onSnapshot c (sd_lastUpdateId d) (sd_bids d) (sd_asks d)) ;;
       match outcome with
       | SYNCED | REFRESHED | REFRESH_AWAITING_BRIDGE =>
           puts (fun h => h <| snapshotScheduler_ ::= onSynced symIdx |>)
       | AWAITING_BRIDGE | IGNORED => ret tt
       | SYNC_FAILED =>
           puts (fun h => h <| ctrResyncs_ ::= Z.succ |>) ;;;
           sched_failure symIdx nowMs 0 0 (-1)
       | REFRESH_FAILED => sched_failure symIdx nowMs 0 0 (-1)
       end).

Definition applySnapshotResults : HM unit :=
  nowMs <- steadyNowMs ;;
  n <- gets (fun h => length (snapshotRequestedAtMs_ h)) ;;
  for_each (List.seq 0 n) (expire_request nowMs) ;;;
  results <- (fun h w => let '(out, wk) := drainResults (snapshotWorker_ h) in
                         Some (out, h <| snapshotWorker_ := wk |>, w)) ;;
  for_each results (apply_result nowMs).

(** ** Depth events *)

(** Ask the scheduler, then request: the end of the INIT and VALID cases. *)
Definition request_if_needed (symIdx : nat) : HM unit :=
  need <- book_get symIdx false (fun _ => needsSnapshot) ;;
  when need
    (now <- steadyNowMs ;;
     ok <- sched_try symIdx now ;;
     when ok (requestSnapshot symIdx)).

Definition refresh_if_wanted (symIdx : nat) : HM unit :=
  want <- book_get symIdx false (fun c => wantsRefresh c) ;;
  when want
    (now <- steadyNowMs ;;
     ok <- sched_try symIdx now ;;
     when ok (book_set symIdx (fun _ => beginRefresh) ;;; requestSnapshot symIdx)).

Definition handleDelta (symIdx : nat) (delta : BufferedDelta) (fhRecvTimeUtcNs : Z) : HM unit :=
  st <- book_get symIdx INIT (fun _ v => state (sb v)) ;;
  match st with
  | INIT =>
      book_do symIdx true (fun _ => bufferDelta delta) ;;;
      request_if_needed symIdx
  | SYNCING | VALID =>
      ok <- book_do symIdx false (fun c => applyDelta c delta) ;;
      if negb ok then
        (if bool_decide (st = VALID) then puts (fun h => h <| ctrSequenceGaps_ ::= Z.succ |>)
         else now <- steadyNowMs ;; sched_failure symIdx now 0 0 (-1)) ;;;
        puts (fun h => h <| ctrResyncs_ ::= Z.succ |>) ;;;
        publishInvalid symIdx fhRecvTimeUtcNs ;;;
        book_set symIdx (fun _ => reset)
      else
        valid <- book_get symIdx false (fun _ => isValid) ;;
        when valid
          (when (bool_decide (st = SYNCING))
             (puts (fun h => h <| snapshotScheduler_ ::= onSynced symIdx |>)) ;;;
           maybePublish symIdx fhRecvTimeUtcNs ;;;
           refresh_if_wanted symIdx)
  | INVALID => book_set symIdx (fun _ => reset)
  end.

(** What a message says: the fields, in the order they are read. [None] is a
    schema error. *)
Definition read_depth_event (futures : bool) (doc : V) : option (string * BufferedDelta) :=
  let '(d, _) := obj "data" (bind_reader doc) in
  let '(symField, d) := string_ "s" d in
  let '(Uf, d) := int64 "U" d in
  let '(uf, d) := int64 "u" d in
  let '(Ef, d) := int64 "E" d in
  let '(bArr, d) := array "b" d in
  let '(aArr, d) := array "a" d in
  let '(puf, Tf, d) :=
    if futures then
      let '(puf, d) := int64 "pu" d in let '(Tf, d) := int64 "T" d in (puf, Tf, d)
    else (Some 0, Some 0, d) in
  if hasError d then None
  else
    match symField, Uf, uf, Ef, bArr, aArr, puf, Tf with
    | Some sym, Some U, Some u, Some E, Some b, Some a, Some pu, Some T =>
        Some (sym, mkDelta U u E (parse_levels b) (parse_levels a) pu T)
    | _, _, _, _, _, _, _, _ => None
    end.

Definition parse_message (futures : bool) (msg : string) : option (string * BufferedDelta) :=
  match json_parse msg with
  | inr _ => None
  | inl doc => read_depth_event futures doc
  end.

Definition processMessage (msg : string) (fhRecvTimeUtcNs : Z) : HM unit :=
  futures <- gets (fun h => bool_decide (qc_sync (qcfg h) = Futures)) ;;
  match parse_message futures msg with
  | None => puts (fun h => h <| parseFailures_ ::= Z.succ |>)
  | Some (sym, delta) =>
      idx <- gets (fun h => getSymbolIndex sym (bookMgr_ h)) ;;
      match idx with
      | None => ret tt
      | Some symIdx =>
          puts (fun h => h <| rowClock_ ::= noteEvent (eventTimeMs delta) |>) ;;;
          handleDelta symIdx delta fhRecvTimeUtcNs
      end
  end.

(** Log lines are rate limited: the first ten, then every thousandth. *)
Definition shouldLogParseFailure (count : Z) : bool := (count <=? 10) || (Z.rem count 1000 =? 0).

(** ** Connections *)

Definition buildDepthStreamPath (h : QuoteFeedHandler) : string :=
  (qc_wsPathPrefix (qcfg h) +:+ buildStreamPath (symbolsLower_ h) (qc_streamSuffix (qcfg h)))%string.

(** The top of [runWebSocketLoop]: mark the hole, reset the books, make the
    snapshots still in flight stale. *)
Definition mark_hole (nowNs : Z) (i : nat) : HM unit :=
  was <- book_get i false (fun _ => lastPublishedValid) ;;
  when was (publishInvalid i nowNs).

Definition reset_on_reconnect : HM unit :=
  puts (fun h => h <| connState_ := "connecting" |>) ;;;
  up <- gets (fun h => connected (tp_ h)) ;;
  when up
    (nowNs <- world system_now ;;
     n <- gets (fun h => numSymbols (bookMgr_ h)) ;;
     for_each (List.seq 0 n) (mark_hole nowNs)) ;;;
  puts (fun h => h <| bookMgr_ ::= resetAll |>) ;;;
  n <- gets (fun h => length (latestRequestId_ h)) ;;
  for_each (List.seq 0 n) (fun i =>
    at_ <- gets (fun h => vget (snapshotRequestedAtMs_ h) i) ;;
    when (negb (at_ =? 0))
      (puts (bump_request i) ;;;
       puts (fun h => h <| snapshotRequestedAtMs_ ::= <[i := 0]> |>))).

(** The health row and the statistics message. *)
Definition to_kdb (ns : Z) : Z := ns - KDB_EPOCH_OFFSET_NS.
Definition fh_stats (h : QuoteFeedHandler) : list (string * Z) :=
  let m := bookMgr_ h in
  [("msgsReceived", msgsReceived_ h); ("rowsPublished", msgsPublished_ h);
   ("wsReconnects", ctrWsReconnects_ h); ("bookGaps", ctrSequenceGaps_ h); ("resyncs", ctrResyncs_ h);
   ("snapshotRequests", requests_ (snapshotScheduler_ h)); ("snapshotFailures", ctrSnapshotFailures_ h);
   ("rateLimitPauses", rateLimitPauses_ (snapshotScheduler_ h));
   ("bufferOverflows", bufferOverflows (ctrs m)); ("depthRefreshes", depthRefreshes (ctrs m));
   ("refreshFailures", refreshFailures (ctrs m)); ("depthExhausted", depthExhaustedEvents (ctrs m));
   ("tpReconnects", reconnects_ (tp_ h)); ("rowsResent", rowsResent_ (tp_ h));
   ("rowsUnresendable", rowsUnresendable_ (tp_ h)); ("clockLagRows", correctedRows_ (rowClock_ h))]%string.

Definition publishHealth : HM unit :=
  up <- gets (fun h => connected (tp_ h)) ;;
  when up
    (now <- world system_now ;;
     h <- gets (fun h => h) ;;
     let row := knk [ktp (to_kdb now); ks (qc_healthName (qcfg h)); ktp (to_kdb (startTime_ h));
                     kj (Z.quot (now - startTime_ h) 1000000000); kj (msgsReceived_ h); kj (msgsPublished_ h);
                     ktp (to_kdb (lastMsgTime_ h)); ktp (to_kdb (lastPubTime_ h)); ks (connState_ h);
                     ki (Z.of_nat (length (symbolsLower_ h)))] in
     world (k_send (handle_ (tp_ h)) ".u.upd" [ks "health_feed_handler"; row]) ;;;
     match sendFhStats (handle_ (tp_ h)) (qc_tpTable (qcfg h)) (fh_stats h) with
     | Some (_, f, args) => world (k_send (handle_ (tp_ h)) f args) ;;; ret tt
     | None => ret tt
     end).

(** One message of the loop, after [ws.read]. *)
Definition on_message (msg : string) (lastHealthPub : Z) : HM Z :=
  recv <- world system_now ;;
  puts (fun h => h <| lastMsgTime_ := recv |> <| msgsReceived_ ::= Z.succ |>) ;;;
  parseStart <- world steady_now ;;
  processMessage msg recv ;;;
  parseEnd <- world steady_now ;;
  puts (fun h => h <| lastParseUs_ := Z.quot (parseEnd - parseStart) 1000 |>) ;;;
  checkPublishTimeouts recv ;;;
  now <- world steady_now ;;
  if HEALTH_INTERVAL_SEC <=? Z.quot (now - lastHealthPub) 1000000000
  then publishHealth ;;; ret now else ret lastHealthPub.

End handler.

(** ** The loops *)

Section loops.
Context {W V : Type} `{Process W} `{TpLink W} `{Host W} `{WebSocket W} `{Background W}
  `{HttpLib W} `{JsonLib V}.
Context (fuel : nat).

Local Abbreviation HM := (M QuoteFeedHandler W).

(** The worker thread's steps up to here. *)
Definition background : HM unit := fun h w =>
  let m := qcfg h in
  let '(n, w) := worker_steps w in
  let '(wk, w) := worker_turns (mkRestClient (qc_restHost m) (qc_restPort m) (qc_restPath m))
                    (qc_snapshotLimit m) n (snapshotWorker_ h) w in
  Some (tt, h <| snapshotWorker_ := wk |>, w).

(** The message loop; [frames] bounds its iterations. *)
Fixpoint message_loop (frames : nat) (lastHealthPub : Z) : HM LoopEnd :=
  match frames with
  | O => fun _ _ => None
  | S frames =>
      r <- world is_running ;;
      if negb r then ret Finished
      else
        background ;;;
        applySnapshotResults ;;;
        background ;;;
        m <- world ws_read ;;
        match m with
        | None => ret Threw
        | Some msg =>
            r <- world is_running ;;
            if negb r then ret Finished
            else
              last <- on_message fuel msg lastHealthPub ;;
              message_loop frames last
        end
  end.

Definition runWebSocketLoop (frames : nat) : HM LoopEnd :=
  target <- gets buildDepthStreamPath ;;
  reset_on_reconnect fuel ;;;
  h <- gets (fun h => h) ;;
  ok <- world (ws_connect (qc_wsHost (qcfg h)) (qc_wsPort (qcfg h)) target) ;;
  if negb ok then ret Threw
  else
    puts (fun h => h <| connState_ := "connected" |> <| binanceReconnectAttempt_ := O |>) ;;;
    lastHealthPub <- world steady_now ;;
    e <- message_loop frames lastHealthPub ;;
    match e with
    | Threw => ret Threw
    | Finished =>
        puts (fun h => h <| connState_ := "disconnected" |>) ;;;
        r <- world is_running ;;
        (if negb r then world (fun w => (tt, ws_close w)) else ret tt) ;;;
        ret Finished
    end.

(** [while (running_)] of [run]; [rounds] bounds the connections. *)
Fixpoint run_loop (rounds frames : nat) : HM unit :=
  match rounds with
  | O => fun _ _ => None
  | S rounds =>
      r <- world is_running ;;
      if negb r then ret tt
      else
        e <- runWebSocketLoop frames ;;
        match e with
        | Finished => run_loop rounds frames
        | Threw =>
            r <- world is_running ;;
            if negb r then run_loop rounds frames
            else
              puts (fun h => h <| ctrWsReconnects_ ::= Z.succ |>) ;;;
              a <- gets binanceReconnectAttempt_ ;;
              puts (fun h => h <| binanceReconnectAttempt_ ::= S |>) ;;;
              ok <- world (sleepWithBackoff QH_BACKOFF_MULTIPLIER QH_INITIAL_BACKOFF_MS QH_MAX_BACKOFF_MS a) ;;
              if ok then run_loop rounds frames else ret tt
        end
  end.

Definition run (rounds frames : nat) : HM unit :=
  puts (fun h => h <| snapshotWorker_ ::= start |>) ;;;
  ok <- (fun h w =>
    match connect fuel (fhSeqNo_ h + 1) (tp_ h) w with
    | Some (ok, p, w) => Some (ok, h <| tp_ := p |>, w)
    | None => None
    end) ;;
  if negb ok then puts (fun h => h <| snapshotWorker_ ::= stop |>)
  else
    run_loop rounds frames ;;;
    puts (fun h => h <| snapshotWorker_ ::= stop |>) ;;;
    (fun h w => let '(p, w) := close (tp_ h) w in Some (tt, h <| tp_ := p |>, w)).
End loops.
