(* ===== verification/QuoteHandlerProps.v ===== *)
(** * The quote handler from the exchange to TP's log

    The handler's own invariant: what it has published so far, the books of all
    symbols, the snapshot requests and results in flight. Every method keeps it,
    so that it holds after any run, whatever connections are lost, messages
    dropped, snapshots late, and however the worker thread is scheduled. *)

From S2P Require Import Prelude Double CStdlib JsonReader MarketConfig Effects Backoff RowClock.
From S2P Require Import KObject TpPublisher TpSession Scheduler BookSide RestClient SnapshotWorker.
From S2P Require Import OrderBook OrderBookSpec Rows Delivery QuoteHandler.

Open Scope Z_scope.
Local Open Scope rec_scope.
Local Open Scope effect_scope.

Definition tpConfigOf (m : QuoteMarketConfig) (tpHost : string) (tpPort startNs : Z) : TpPublisherConfig :=
  tp_cfg (tp_ (newQuoteFeedHandler [] m tpHost tpPort startNs 0)).

(** The exchange: for every symbol and update id, the full book. *)
Record Exchange := mkExchange {
  ex_bid : string -> Z -> exch_side;
  ex_ask : string -> Z -> exch_side;
  ex_bid_ok : forall s n, exch_ok (ex_bid s n);
  ex_ask_ok : forall s n, exch_ok (ex_ask s n)
}.

Section handler.
Context (symbols : list string) (m : QuoteMarketConfig) (tpHost : string) (tpPort startNs : Z).
Context (X : Exchange).
Hypothesis Hdepth : 0 <= qc_depth m.
Hypothesis Hlimit : 0 < qc_snapshotLimit m.

Definition uppers : list string := upper <$> symbols.
Definition symName (i : nat) : string := default "" (uppers !! i).
Definition bookCfg : BookConfig := OrderBook.cfg_ (newManager uppers (bookConfigOf m) 0).

(** ** The data the invariant is about *)

Definition sym_inv (i : nat) (v : View) : Prop :=
  sync_inv bookCfg (ex_bid X (symName i)) (ex_ask X (symName i)) v.

Record books_ok (g : OrderBookManager) : Prop := {
  bk_cfg : OrderBook.cfg_ g = bookCfg;
  bk_names : idxToSym g = uppers;
  bk_length : length (syms g) = length uppers;
  bk_index : forall s i, getSymbolIndex s g = Some i -> uppers !! i = Some s;
  bk_syms : forall i b, syms g !! i = Some b -> sym_inv i (mkView b (ctrs g))
}.

(** A valid quote shows the exchange's best levels at the update id it carries. *)
Definition good_quote (q : BookQuote) : Prop :=
  columns_ok (Z.to_nat (qc_depth m)) q /\
  (q_isValid q = true -> q_sym q ∈ uppers /\
   shows true (ex_bid X (q_sym q) (q_exchUpdateId q)) (Z.to_nat (qc_depth m)) (q_bidPrices q) (q_bidQtys q) /\
   shows false (ex_ask X (q_sym q) (q_exchUpdateId q)) (Z.to_nat (qc_depth m)) (q_askPrices q) (q_askQtys q)).

Definition good_row (row : K) : Prop :=
  exists q time parse send, row = buildQuoteRow q time parse send (qc_publishTransactTime m) /\ good_quote q.

(** Requests and results in flight name their symbol's index; a result that
    reports success holds a snapshot of that symbol. *)
Definition request_ok (r : SnapshotRequest) : Prop := uppers !! Z.to_nat (rq_symIdx r) = Some (rq_sym r).
Definition snapshot_ok (sym : string) (d : SnapshotData) : Prop :=
  sd_success d = true ->
  genuine_snapshot (bc_snapshotLimit bookCfg) (ex_bid X sym) (ex_ask X sym) (sd_lastUpdateId d) (sd_bids d) (sd_asks d).
Definition result_ok (r : SnapshotResult) : Prop :=
  uppers !! Z.to_nat (rs_symIdx r) = Some (rs_sym r) /\ snapshot_ok (rs_sym r) (rs_data r).
Record worker_ok (k : SnapshotWorker) : Prop := {
  wk_requests : Forall request_ok (q_ (requests k));
  wk_thread : match thread k with Fetching r => request_ok r | _ => True end;
  wk_results : Forall result_ok (q_ (results k))
}.

(** ** Facts about the parts *)

Lemma sync_inv_ct cfg bidT askT b c c' : sync_inv cfg bidT askT (mkView b c) -> sync_inv cfg bidT askT (mkView b c').
Proof. intros []. by constructor. Qed.

Lemma bookCfg_fields :
  bc_depth bookCfg = Z.to_nat (qc_depth m) /\ bc_snapshotLimit bookCfg = Z.to_nat (qc_snapshotLimit m) /\
  bc_maxLevels bookCfg = 4000%nat /\ bc_sync bookCfg = qc_sync m.
Proof. unfold bookCfg, newManager. cbn [cfg_]. by destruct (_ <? _)%nat. Qed.

Lemma bookCfg_pos : (0 < bc_maxLevels bookCfg)%nat /\ (0 < bc_snapshotLimit bookCfg)%nat.
Proof. destruct bookCfg_fields as (_ & -> & -> & _). split; [apply Nat.lt_0_succ|lia]. Qed.

(** What the books' operations keep, for one symbol of the exchange. *)
Lemma sym_step i v v' :
  book_step bookCfg (ex_bid X (symName i)) (ex_ask X (symName i)) v v' -> sym_inv i v -> sym_inv i v'.
Proof.
  destruct bookCfg_pos. intros Hs Hv. eapply book_step_inv; [done|done|apply ex_bid_ok|apply ex_ask_ok|done|done].
Qed.

Lemma on_sym_ok {R} i (d : R) f g :
  books_ok g -> (forall v, sym_inv i v -> sym_inv i (snd (f v))) -> books_ok (snd (on_sym i d f g)).
Proof.
  intros [H1 H2 H3 H4 H5] Hf. unfold on_sym. destruct (syms g !! i) as [b|] eqn:Eb; [|by constructor].
  specialize (Hf _ (H5 _ _ Eb)). destruct (f (mkView b (ctrs g))) as [r v]. cbn [snd] in Hf.
  constructor; cbn [snd OrderBook.cfg_ idxToSym syms symToIdx ctrs modify eta_OrderBookManager]; try done.
  - by rewrite length_insert.
  - intros j b' Hj. apply list_lookup_insert_Some in Hj as [(-> & <- & _)|[Hne Hj]].
    + by destruct v.
    + eapply sync_inv_ct. by apply H5.
Qed.

Lemma index_symbols_spec i ss (mp : gmap string nat) s j :
  index_symbols i ss mp !! s = Some j -> mp !! s = Some j \/ (i <= j)%nat /\ ss !! (j - i)%nat = Some s.
Proof.
  revert i mp. induction ss as [|t ss IH]; intros i mp; cbn [index_symbols]; [by left|].
  intros H. apply IH in H as [H|[Hle H]].
  - apply lookup_insert_Some in H as [[-> ->]|[_ H]]; [right|by left].
    by rewrite Nat.sub_diag.
  - right. split; [lia|]. replace (j - i)%nat with (S (j - S i)) by lia. done.
Qed.

Lemma newManager_ok now : books_ok (newManager uppers (bookConfigOf m) now).
Proof.
  constructor; [done|done|by cbn; rewrite length_replicate| |].
  - unfold getSymbolIndex, newManager. cbn [symToIdx]. intros s i H.
    apply index_symbols_spec in H as [H|[_ H]]; [done|]. by rewrite Nat.sub_0_r in H.
  - unfold newManager. cbn [syms ctrs]. intros i b Hb. apply lookup_replicate in Hb as [-> _].
    destruct bookCfg_pos. by apply new_inv.
Qed.

Lemma getSymbol_name g i : books_ok g -> getSymbol i g = symName i.
Proof. intros []. unfold getSymbol, symName. by rewrite bk_names0. Qed.

Lemma symName_upper i : (i < length uppers)%nat -> uppers !! i = Some (symName i).
Proof. intros H. unfold symName. by destruct (lookup_lt_is_Some_2 _ _ H) as [? ->]. Qed.

Lemma resetAll_ok g : books_ok g -> books_ok (resetAll g).
Proof.
  unfold resetAll. generalize (List.seq 0 (numSymbols g)). intros l. revert g.
  induction l as [|i l IH]; intros g Hg; cbn [fold_left]; [done|].
  apply IH. unfold upd_sym. apply on_sym_ok; [done|]. intros v. apply sym_step, step_reset.
Qed.

(** ** The invariant *)

Section inv.
Context {W V : Type} `{TpSession W (tpConfigOf m tpHost tpPort startNs) row_seq} `{Host W} `{WebSocket W}
  `{HttpLib W} `{Background W} `{JsonLib V} `{!TpQuiet W (tpConfigOf m tpHost tpPort startNs)}.
Context (fuel : nat).

Local Abbreviation tpc := (tpConfigOf m tpHost tpPort startNs).
Local Abbreviation QH := QuoteFeedHandler.

Record core (h : QH) : Prop := {
  co_books : books_ok (bookMgr_ h);
  co_worker : worker_ok (snapshotWorker_ h);
  co_cfg : qcfg h = m
}.

(** [k] rows have been numbered but not yet published. *)
Definition inv (k : Z) (h : QH) (w : W) : Prop :=
  core h /\ exists rows, published_rows tpc good_row (fhSeqNo_ h - k) rows (tp_ h) w.

Lemma inv_same k h h' w :
  bookMgr_ h' = bookMgr_ h -> snapshotWorker_ h' = snapshotWorker_ h -> qcfg h' = qcfg h ->
  fhSeqNo_ h' = fhSeqNo_ h -> tp_ h' = tp_ h -> inv k h w -> inv k h' w.
Proof.
  intros E1 E2 E3 E4 E5 [[] Hp]. split; [constructor; by rewrite ?E1, ?E2, ?E3|]. by rewrite E4, E5.
Qed.

Lemma inv_quiet k h w w' : t_same w w' -> inv k h w -> inv k h w'.
Proof.
  intros Hs [Hc (rows & Hp)]. split; [done|]. exists rows. by apply (published_same _ _ _ _ _ w).
Qed.

Lemma world_inv {A} k (f : W -> A * W) :
  (forall w, t_same w (snd (f w))) -> ensures (inv k) (world f) anything.
Proof. intros Hf. apply ensures_world. intros h w. apply inv_quiet, Hf. Qed.

Lemma puts_inv k f :
  (forall h, bookMgr_ (f h) = bookMgr_ h /\ snapshotWorker_ (f h) = snapshotWorker_ h /\
     qcfg (f h) = qcfg h /\ fhSeqNo_ (f h) = fhSeqNo_ h /\ tp_ (f h) = tp_ h) ->
  ensures (inv k) (puts f) anything.
Proof. intros Hf. apply ensures_puts. intros h w. destruct (Hf h) as (?&?&?&?&?). by apply inv_same. Qed.

Lemma steady_inv k : ensures (inv k) (world steady_now) anything.
Proof. apply world_inv, quiet_steady. Qed.
Lemma system_inv k : ensures (inv k) (world system_now) anything.
Proof. apply world_inv, quiet_system. Qed.
Lemma steadyMs_inv k : ensures (inv k) steadyNowMs anything.
Proof. apply world_inv. intros w. pose proof (quiet_steady w). by destruct (steady_now w). Qed.

Lemma book_get_inv {R} k i (d : R) f : ensures (inv k) (book_get i d f) anything.
Proof. by apply ensures_gets. Qed.

Lemma book_do_inv {R} k i (d : R) f :
  (forall v, sym_inv i v -> sym_inv i (snd (f bookCfg v))) -> ensures (inv k) (book_do i d f) anything.
Proof.
  intros Hf h w x h' w' [[Hb Hw Hc] Hp]. unfold book_do. rewrite (bk_cfg _ Hb).
  pose proof (on_sym_ok i d (f bookCfg) (bookMgr_ h) Hb Hf) as Hb'.
  destruct (on_sym i d (f bookCfg) (bookMgr_ h)) as [r g]. intros [= <- <- <-]. by split.
Qed.

Lemma book_move_inv k i f :
  (forall v, book_step bookCfg (ex_bid X (symName i)) (ex_ask X (symName i)) v (f bookCfg v)) ->
  ensures (inv k) (book_set i f) anything.
Proof. intros Hf. apply book_do_inv. intros v. apply sym_step, Hf. Qed.

Lemma try_inv k i now : ensures (inv k) (sched_try i now) anything.
Proof.
  intros h w x h' w' Hi. unfold sched_try. destruct (tryAcquire i now _) as [b s]. intros [= <- <- <-].
  split; [|done]. by apply (inv_same k h).
Qed.

Lemma failure_inv k i now st ra u : ensures (inv k) (sched_failure i now st ra u) anything.
Proof.
  unfold sched_failure. ensures_step; [apply world_inv, quiet_draw|]. by apply puts_inv.
Qed.

(** One step of a method. *)
Ltac inv_step :=
  first [apply steady_inv | apply system_inv | apply steadyMs_inv | apply book_get_inv
        | apply try_inv | apply failure_inv
        | apply book_move_inv; intros ?; by constructor
        | apply puts_inv; by intros ?
        | ensures_step].

(** ** Publishing *)

Lemma stamp_inv k recv own :
  ensures (inv k) (fun h w => let '(s, c) := stamp recv own (rowClock_ h) in
                              Some (s, h <| rowClock_ := c |>, w)) anything.
Proof.
  intros h w x h' w' Hi. destruct (stamp _ _ _) as [s c]. intros [= <- <- <-].
  split; [|done]. by apply (inv_same k h).
Qed.

(** A fact about the sequence number along with the invariant. *)
Definition inv_seq (k n : Z) (h : QH) (w : W) : Prop := inv k h w /\ fhSeqNo_ h = n.

Lemma keep_seq {A} k n (mm : M QH W A) (Q : A -> Prop) :
  ensures (inv k) mm Q -> (forall h w x h' w', mm h w = Some (x, h', w') -> fhSeqNo_ h' = fhSeqNo_ h) ->
  ensures (inv_seq k n) mm Q.
Proof.
  intros Hm Hs h w x h' w' [Hi Hn] E. destruct (Hm _ _ _ _ _ Hi E) as [Hi' Hq].
  split; [split; [done|]|done]. by rewrite (Hs _ _ _ _ _ E).
Qed.

Lemma publishQuote_inv q n :
  good_quote q -> q_fhSeqNo q = n + 1 ->
  triple (inv_seq 1 (n + 1)) (publishQuote fuel q) (fun _ => inv_seq 0 (n + 1)).
Proof.
  intros Hq Hn. unfold publishQuote.
  eapply ensures_triple; [apply keep_seq; [apply stamp_inv|]|intros st _].
  { intros h w x h' w'. destruct (stamp _ _ _). by intros [= <- <- <-]. }
  eapply ensures_triple; [apply keep_seq; [apply steady_inv|]|intros t0 _].
  { intros h w x h' w'. unfold world. destruct (steady_now w). by intros [= <- <- <-]. }
  eapply triple_bind with (R := fun h0 h w => inv_seq 1 (n + 1) h w /\ qcfg h0 = m).
  { apply triple_gets. intros h w [Hi Hs]. split; [by split|]. by destruct Hi as [[]]. }
  intros h0. apply triple_pure with (phi := qcfg h0 = m); [by intros ?? []|intros Hm].
  apply triple_pre with (P' := inv_seq 1 (n + 1)); [|by intros ?? []].
  eapply ensures_triple; [apply keep_seq; [apply steady_inv|]|intros t1 _].
  { intros h w x h' w'. unfold world. destruct (steady_now w). by intros [= <- <- <-]. }
  rewrite Hm, (patch_quote_row _ _ _ _ _ _ _ (proj1 Hq) Hdepth).
  set (row := buildQuoteRow q (timeUtcNs st) (lastParseUs_ h0) (Z.quot (t1 - t0) 1000) (qc_publishTransactTime m)).
  assert (good_row row) as Hrow by (by exists q, (timeUtcNs st), (lastParseUs_ h0), (Z.quot (t1 - t0) 1000)).
  eapply triple_bind with (R := fun _ => inv_seq 0 (n + 1)).
  { intros h w x h' w' [[Hc (rows & Hp)] Hs].
    destruct (publish fuel row (q_fhSeqNo q) (tp_ h) w) as [[[ok p] w1]|] eqn:E; [|done].
    intros [= <- <- <-]. split; [|done]. split; [by destruct Hc|]. exists (rows ++ [row]).
    cbn [fhSeqNo_ tp_ modify eta_QuoteFeedHandler]. rewrite Hs, Hn in *.
    replace (n + 1 - 1) with n in Hp by lia. rewrite Z.sub_0_r.
    apply (publish_published _ _ _ _ _ _ _ _ _ _ _ Hp) in E;
      [done|done|by unfold row; rewrite quote_row_seq|by apply quote_row_width; [apply Hq|]]. }
  intros _. apply (triple_conseq (inv_seq 0 (n + 1)) (inv_seq 0 (n + 1)) _ _
    (fun _ h w => inv_seq 0 (n + 1) h w /\ anything tt)); [|done|by intros ??? []].
  apply keep_seq.
  - repeat inv_step.
  - intros h w x h' w'. unfold bind, puts, world. destruct (system_now w). by intros [= <- <- <-].
Qed.

Lemma commit_quote_inv i q : good_quote q -> ensures (inv 0) (commit_quote fuel i q) anything.
Proof.
  intros Hq h w x h' w' [Hc (rows & Hp)]. unfold commit_quote, bind at 1 2, puts, gets.
  cbn [fhSeqNo_ modify eta_QuoteFeedHandler]. change (Z.succ (fhSeqNo_ h)) with (fhSeqNo_ h + 1).
  revert x h' w'. set (n := fhSeqNo_ h) in *. set (q' := q <| q_fhSeqNo := n + 1 |>).
  assert (inv_seq 1 (n + 1) (h <| fhSeqNo_ ::= Z.succ |>) w) as Hi.
  { split; [|done]. split; [by destruct Hc|]. exists rows. rewrite Z.sub_0_r in Hp.
    change (fhSeqNo_ (h <| fhSeqNo_ ::= Z.succ |>)) with (n + 1). by replace (n + 1 - 1) with n by lia. }
  revert Hi. generalize (h <| fhSeqNo_ ::= Z.succ |>). intros h1 Hi.
  enough (triple (inv_seq 1 (n + 1))
    (publishQuote fuel q' ;;; now <- world steady_now ;; book_set i (fun _ => recordPublish now q'))
    (fun _ h w => inv 0 h w /\ anything tt)) as Ht by (intros x h' w' E; destruct x; exact (Ht _ _ _ _ _ Hi E)).
  apply (triple_bind _ _ _ (fun _ => inv_seq 0 (n + 1))); [by apply (publishQuote_inv q' n)|intros _].
  apply triple_pre with (P' := inv 0); [|by intros ?? []].
  change (ensures (inv 0) (now <- world steady_now ;; book_set i (fun _ => recordPublish now q')) anything).
  repeat inv_step.
Qed.

Lemma new_quote_good d sym t :
  d = Z.to_nat (qc_depth m) -> good_quote ((new_quote d) <| q_sym := sym |> <| q_fhRecvTimeUtcNs := t |>).
Proof. intros ->. split; [|done]. unfold columns_ok. cbn. by rewrite !length_replicate. Qed.

Lemma getQuote_good i t n v : (i < length uppers)%nat -> sym_inv i v -> good_quote (getQuote bookCfg (symName i) t n v).
Proof.
  intros Hi Hv. destruct bookCfg_fields as (Hd & _). split.
  - rewrite <-Hd. apply getQuote_columns.
  - intros Hvalid. assert (q_sym (getQuote bookCfg (symName i) t n v) = symName i) as ->.
    { unfold getQuote. cbn [q_isValid modify eta_BookQuote].
      by destruct (bool_decide (state (sb v) = VALID)), (depthExhausted bookCfg v),
        (bool_decide (state (sb v) = SYNCING)). }
    split; [by eapply list_elem_of_lookup_2, symName_upper|]. rewrite <-Hd.
    apply valid_quote_shows; [apply ex_bid_ok|apply ex_ask_ok|done|done].
Qed.

Lemma candidate_inv i t : (i < length uppers)%nat -> ensures (inv 0) (candidate i t) good_quote.
Proof.
  intros Hi. unfold candidate. ensures_step; [by ensures_step|].
  apply ensures_bind with (Q := fun sym => sym = symName i).
  { apply ensures_gets. intros h w [[Hb _ _] _]. by apply getSymbol_name. }
  intros sym ->. apply ensures_gets. intros h w [[Hb _ _] _]. unfold at_sym.
  pose proof (bk_length _ Hb) as Hl.
  destruct (syms (bookMgr_ h) !! i) as [b|] eqn:Eb; [|apply lookup_ge_None in Eb; lia].
  rewrite (bk_cfg _ Hb). apply getQuote_good; [done|]. by apply (bk_syms _ Hb).
Qed.

Lemma maybePublish_inv i t : (i < length uppers)%nat -> ensures (inv 0) (maybePublish fuel i t) anything.
Proof.
  intros Hi. unfold maybePublish. eapply ensures_bind; [by apply candidate_inv|intros q Hq].
  repeat first [by apply commit_quote_inv | inv_step].
Qed.

Lemma publishInvalid_inv i t : ensures (inv 0) (publishInvalid fuel i t) anything.
Proof.
  unfold publishInvalid. apply ensures_bind with (Q := fun h => qcfg h = m).
  { apply ensures_gets. by intros h w [[] _]. }
  intros h Hm. apply commit_quote_inv, new_quote_good. by rewrite Hm.
Qed.

Lemma checkPublishTimeouts_inv t : ensures (inv 0) (checkPublishTimeouts fuel t) anything.
Proof.
  unfold checkPublishTimeouts. ensures_step; [apply steady_inv|].
  apply ensures_bind with (Q := Forall (fun i => (i < length uppers)%nat)).
  { apply ensures_gets. intros h w [[Hb _ _] _]. apply Forall_forall. intros i.
    unfold getTimeoutPublishNeeded. rewrite list_elem_of_In, filter_In, in_seq.
    unfold numSymbols. rewrite (bk_length _ Hb). lia. }
  intros needs Hn. apply ensures_for_each. intros i Hi.
  eapply ensures_bind; [apply candidate_inv; exact (proj1 (Forall_forall _ _) Hn i Hi)|intros q Hq].
  repeat first [by apply commit_quote_inv | inv_step].
Qed.

(** ** Snapshots *)

Lemma push_Forall {T} (P : T -> Prop) x (q : BoundedQueue T) :
  P x -> Forall P (q_ q) -> Forall P (q_ (snd (push x q))).
Proof.
  intros Hx Hq. unfold push. destruct (q_shutdown q); [done|]. cbn [snd q_ modify eta_BoundedQueue].
  apply Forall_app. split; [|by constructor]. case_match; [|done]. by destruct Hq.
Qed.

Lemma worker_inv k f :
  (forall wk, worker_ok wk -> worker_ok (f wk)) ->
  ensures (inv k) (puts (fun h => h <| snapshotWorker_ ::= f |>)) anything.
Proof. intros Hf. apply ensures_puts. intros h w [[] Hp]. split; [constructor; cbn; auto|done]. Qed.

Lemma enqueue_ok i wk :
  (i < length uppers)%nat -> worker_ok wk ->
  worker_ok (snd (enqueueRequest (Z.of_nat i) (symName i) wk)).
Proof.
  intros Hi [W1 W2 W3]. unfold enqueueRequest.
  pose proof (push_Forall request_ok (mkRequest (Z.of_nat i) (symName i) ((nextRequestId wk + 1) mod 2 ^ 64))
    (requests wk)) as Hp.
  destruct (push _ (requests wk)) as [ok q]. constructor; cbn [snd requests thread results modify eta_SnapshotWorker];
    [|done..]. apply Hp; [|done]. unfold request_ok. cbn. rewrite Nat2Z.id. by apply symName_upper.
Qed.

Lemma requestSnapshot_inv i : (i < length uppers)%nat -> ensures (inv 0) (requestSnapshot i) anything.
Proof.
  intros Hi. unfold requestSnapshot.
  apply ensures_bind with (Q := fun sym => sym = symName i).
  { apply ensures_gets. intros h w [[Hb _ _] _]. by apply getSymbol_name. }
  intros sym ->. repeat (ensures_step; [inv_step|]).
  apply ensures_puts. intros h w [[Hb Hw Hc] Hp]. pose proof (enqueue_ok i _ Hi Hw) as Hw'.
  destruct (enqueueRequest _ _ _) as [id wk]. by split.
Qed.

Lemma expire_request_inv now i : ensures (inv 0) (expire_request now i) anything.
Proof. unfold expire_request. repeat inv_step. Qed.

Lemma symName_lookup i s : uppers !! i = Some s -> symName i = s.
Proof. unfold symName. by intros ->. Qed.

Lemma apply_result_inv now r : result_ok r -> ensures (inv 0) (apply_result now r) anything.
Proof.
  intros [Hsym Hsnap]. unfold apply_result.
  ensures_step; [by ensures_step|]. ensures_step. ensures_step; [by inv_step|].
  destruct (sd_success (rs_data r)) eqn:Es; cbn [negb]; [|repeat inv_step].
  ensures_step; [by inv_step|]. ensures_step.
  { apply book_do_inv. intros v. apply sym_step, step_snapshot.
    rewrite (symName_lookup _ _ Hsym). by apply Hsnap. }
  repeat inv_step.
Qed.

Lemma applySnapshotResults_inv : ensures (inv 0) applySnapshotResults anything.
Proof.
  unfold applySnapshotResults. ensures_step; [apply steadyMs_inv|]. ensures_step; [by ensures_step|].
  ensures_step; [ensures_step; apply expire_request_inv|].
  apply ensures_bind with (Q := Forall result_ok).
  - intros h w out h' w' [[Hb [W1 W2 W3] Hc] Hp]. unfold drainResults, drain. intros [= <- <- <-].
    split; [|done]. split; [|done]. constructor; [done| |done]. by constructor.
  - intros results Hr. apply ensures_for_each. intros r Hin. apply apply_result_inv.
    exact (proj1 (Forall_forall _ _) Hr r Hin).
Qed.

(** ** Depth events *)

Definition event_ok (sym : string) (d : BufferedDelta) : Prop :=
  genuine (qc_sync m) (ex_bid X sym) (ex_ask X sym) d.

Lemma request_if_needed_inv i : (i < length uppers)%nat -> ensures (inv 0) (request_if_needed i) anything.
Proof. intros Hi. unfold request_if_needed. repeat first [by apply requestSnapshot_inv | inv_step]. Qed.

(** [beginRefresh] is only called where [wantsRefresh] said so; between the two
    the handler touches nothing of the books. *)
Lemma refresh_if_wanted_inv i : (i < length uppers)%nat -> ensures (inv 0) (refresh_if_wanted i) anything.
Proof.
  intros Hi. unfold refresh_if_wanted.
  intros h w x h' w' Hinv. unfold book_get, bind at 1, gets.
  pose proof (co_books _ (proj1 Hinv)) as Hb. rewrite (bk_cfg _ Hb). unfold at_sym.
  destruct (syms (bookMgr_ h) !! i) as [b|] eqn:Eb; [|by intros [= <- <- <-]].
  destruct (wantsRefresh bookCfg (mkView b (ctrs (bookMgr_ h)))) eqn:Ew; [|by intros [= <- <- <-]].
  cbn [when]. unfold steadyNowMs, sched_try, world, bind at 1 2.
  pose proof (quiet_steady w) as Hq. destruct (steady_now w) as [t w1]. cbn [snd] in Hq.
  apply (inv_quiet _ _ _ _ Hq) in Hinv.
  destruct (tryAcquire i (Z.quot t 1000000) (snapshotScheduler_ h)) as [ok s] eqn:Et.
  destruct ok; [|intros [= <- <- <-]; split; [by apply (inv_same 0 h)|done]].
  cbn [when]. set (h1 := h <| snapshotScheduler_ := s |>).
  assert (inv 0 h1 w1 /\ bookMgr_ h1 = bookMgr_ h) as [Hi1 Em] by (split; [by apply (inv_same 0 h)|done]).
  clearbody h1. unfold bind at 1, book_set, book_do. rewrite Em. unfold on_sym. rewrite Eb.
  cbn [fst snd]. set (g := _ <| ctrs := _ |>).
  assert (books_ok g) as Hg.
  { assert (g = snd (on_sym i tt (fun v => (tt, if wantsRefresh bookCfg v then beginRefresh v else v)) (bookMgr_ h))) as ->.
    { unfold on_sym. rewrite Eb, Ew. done. }
    apply on_sym_ok; [done|]. intros v Hv. cbn [snd]. destruct (wantsRefresh bookCfg v) eqn:Ev; [|done].
    revert Hv. by apply sym_step, step_begin. }
  intros E. apply (requestSnapshot_inv i Hi) in E; [exact E|].
  destruct Hi1 as [[_ Hw Hc] Hp]. by split.
Qed.

Lemma handleDelta_inv i d t :
  (i < length uppers)%nat -> event_ok (symName i) d -> ensures (inv 0) (handleDelta fuel i d t) anything.
Proof.
  intros Hi Hd. unfold handleDelta.
  assert (genuine (bc_sync bookCfg) (ex_bid X (symName i)) (ex_ask X (symName i)) d) as Hg.
  { destruct bookCfg_fields as (_ & _ & _ & ->). exact Hd. }
  ensures_step; [apply book_get_inv|].
  assert (ensures (inv 0) (book_do i true (fun _ => bufferDelta d)) anything) as Hbuf.
  { apply book_do_inv. intros v. by apply sym_step, step_buffer. }
  assert (ensures (inv 0) (book_do i false (fun c => applyDelta c d)) anything) as Hdel.
  { apply book_do_inv. intros v. by apply sym_step, step_delta. }
  repeat first [exact Hbuf | exact Hdel | by apply request_if_needed_inv | apply publishInvalid_inv
               | by apply maybePublish_inv | by apply refresh_if_wanted_inv | inv_step].
Qed.

Lemma processMessage_inv msg t :
  (forall sym d, parse_message (bool_decide (qc_sync m = Futures)) msg = Some (sym, d) -> sym ∈ uppers ->
     event_ok sym d) ->
  ensures (inv 0) (processMessage fuel msg t) anything.
Proof.
  intros Hfeed. unfold processMessage.
  apply ensures_bind with (Q := fun f => f = bool_decide (qc_sync m = Futures)).
  { apply ensures_gets. intros h w [[_ _ Hc] _]. by rewrite Hc. }
  intros f ->. destruct (parse_message _ msg) as [[sym d]|] eqn:Ep; [|by inv_step].
  apply ensures_bind with (Q := fun i => forall j, i = Some j -> uppers !! j = Some sym).
  { apply ensures_gets. intros h w [[Hb _ _] _] j Hj. by apply (bk_index _ Hb). }
  intros [i|] Hi; [|by ensures_step]. specialize (Hi i eq_refl).
  ensures_step; [by inv_step|]. apply handleDelta_inv; [by eapply lookup_lt_Some|].
  rewrite (symName_lookup _ _ Hi). apply (Hfeed sym d eq_refl). by eapply list_elem_of_lookup_2.
Qed.

(** ** Connections *)

Lemma books_inv k f :
  (forall g, books_ok g -> books_ok (f g)) ->
  ensures (inv k) (puts (fun h => h <| bookMgr_ ::= f |>)) anything.
Proof. intros Hf. apply ensures_puts. intros h w [[] Hp]. split; [constructor; cbn; auto|done]. Qed.

Lemma reset_inv_on_reconnect : ensures (inv 0) (reset_on_reconnect fuel) anything.
Proof.
  unfold reset_on_reconnect, mark_hole.
  repeat first [apply publishInvalid_inv | apply books_inv, resetAll_ok | inv_step].
Qed.

(** The health rows go to another table. *)
Hypothesis Htable : qc_tpTable m <> "health_feed_handler"%string.

Lemma publishHealth_inv k : ensures (inv k) publishHealth anything.
Proof.
  unfold publishHealth. ensures_step; [by ensures_step|]. ensures_step.
  ensures_step; [apply system_inv|]. ensures_step; [by ensures_step|].
  ensures_step.
  { apply world_inv. intros w. apply quiet_send. intros _ row. unfold ks. cbn. congruence. }
  unfold sendFhStats. destruct (handle_ (tp_ x1) <=? 0); [repeat inv_step|].
  ensures_step; [|by ensures_step]. apply world_inv. intros w. by apply quiet_send.
Qed.

Lemma on_message_inv msg last :
  (forall sym d, parse_message (bool_decide (qc_sync m = Futures)) msg = Some (sym, d) -> sym ∈ uppers ->
     event_ok sym d) ->
  ensures (inv 0) (on_message fuel msg last) anything.
Proof.
  intros Hfeed. unfold on_message.
  repeat first [by apply processMessage_inv | apply checkPublishTimeouts_inv | apply publishHealth_inv | inv_step].
Qed.

(** ** The worker thread *)

Local Abbreviation client := (mkRestClient (qc_restHost m) (qc_restPort m) (qc_restPath m)).

(** What the exchange sends: events and snapshots that are its own. *)
Hypothesis Hfeed : forall w msg sym d,
  fst (ws_read w) = Some msg -> parse_message (bool_decide (qc_sync m = Futures)) msg = Some (sym, d) ->
  sym ∈ uppers -> event_ok sym d.
Hypothesis Hrest : forall w sym,
  sym ∈ uppers -> snapshot_ok sym (fst (fetchSnapshot client sym (qc_snapshotLimit m) w)).

Lemma fetch_quiet c sym limit w : t_same w (snd (fetchSnapshot c sym limit w)).
Proof.
  unfold fetchSnapshot.
  pose proof (get_quiet tpc c (rc_path c +:+ "?symbol=" +:+ sym +:+ "&limit=" +:+ to_string limit)%string w) as Hget.
  destruct (get c _ w) as [r w1]. repeat case_match; done.
Qed.

Lemma default_worker_ok o wk :
  worker_ok wk -> (forall wk', o = Some wk' -> worker_ok wk') -> worker_ok (default wk o).
Proof. intros H0' H1'. destruct o; cbn; auto. Qed.

Lemma loop_pop_ok wk wk' : worker_ok wk -> loop_pop wk = Some wk' -> worker_ok wk'.
Proof.
  intros [W1 W2 W3]. unfold loop_pop. destruct (thread wk); try done.
  destruct (w_running wk); cbn [negb]; [|by intros [= <-]].
  unfold pop_blocking, try_pop. destruct (_ || _); [|done].
  destruct (q_ (requests wk)) as [|r rs] eqn:Eq; intros [= <-]; [by constructor; cbn; rewrite ?Eq|].
  apply Forall_cons in W1 as [? ?]. by constructor.
Qed.

Lemma loop_fetched_ok d wk wk' :
  (forall r, thread wk = Fetching r -> snapshot_ok (rq_sym r) d) ->
  worker_ok wk -> loop_fetched d wk = Some wk' -> worker_ok wk'.
Proof.
  intros Hd [W1 W2 W3]. unfold loop_fetched. destruct (thread wk) as [| |r|] eqn:Et; try done.
  pose proof (push_Forall result_ok (mkResult (rq_symIdx r) (rq_sym r) (rq_id r) d) (results wk)) as Hp.
  destruct (push _ (results wk)) as [b q]. intros [= <-].
  constructor; cbn [requests thread results modify eta_SnapshotWorker]; [done|done|].
  apply Hp; [|done]. split; [done|]. by apply Hd.
Qed.

Lemma worker_turns_ok n wk w :
  worker_ok wk ->
  let '(wk', w') := worker_turns client (qc_snapshotLimit m) n wk w in worker_ok wk' /\ t_same w w'.
Proof.
  revert wk w. induction n as [|n IH]; intros wk w Hok; cbn [worker_turns]; [split; [done|apply t_same_refl]|].
  assert (let '(wk', w') := worker_turn client (qc_snapshotLimit m) wk w in worker_ok wk' /\ t_same w w') as Hone.
  { unfold worker_turn. destruct (thread wk) as [| |r|] eqn:Et.
    1, 2, 4: split; [apply default_worker_ok; [done|intros wk'; by apply loop_pop_ok]|apply t_same_refl].
    pose proof (fetch_quiet client (rq_sym r) (qc_snapshotLimit m) w) as Hq.
    assert (request_ok r) as Hr by (destruct Hok as [_ Ht _]; by rewrite Et in Ht).
    pose proof (Hrest w (rq_sym r)) as Hs.
    destruct (fetchSnapshot _ _ _ w) as [d w1]. cbn [fst snd] in *. split; [|done].
    apply default_worker_ok; [done|]. intros wk'. apply loop_fetched_ok; [|done].
    intros r' Hr'. rewrite Et in Hr'. injection Hr' as <-. apply Hs. by eapply list_elem_of_lookup_2. }
  destruct (worker_turn _ _ wk w) as [wk1 w1]. destruct Hone as [Hok1 Hs1].
  specialize (IH wk1 w1 Hok1). destruct (worker_turns _ _ _ wk1 w1) as [wk2 w2].
  destruct IH as [? Hs2]. split; [done|]. by eapply t_same_trans.
Qed.

Lemma background_inv : ensures (inv 0) background anything.
Proof.
  intros h w x h' w' Hi. unfold background. pose proof (quiet_steps w) as Hq.
  destruct (worker_steps w) as [n w1]. cbn [snd] in Hq. apply (inv_quiet _ _ _ _ Hq) in Hi.
  destruct Hi as [[Hb Hw Hc] Hp]. rewrite Hc. pose proof (worker_turns_ok n _ w1 Hw) as Ht.
  destruct (worker_turns _ _ n _ w1) as [wk w2]. destruct Ht as [Hw2 Hs2]. intros [= <- <- <-].
  split; [|done]. apply (inv_quiet _ _ w1); [done|]. split; [by constructor|done].
Qed.

(** ** The loops *)

Lemma running_inv k : ensures (inv k) (world is_running) anything.
Proof. apply world_inv, law_running. Qed.

Lemma message_loop_inv frames last : ensures (inv 0) (message_loop fuel frames last) anything.
Proof.
  revert last. induction frames as [|frames IH]; intros last; cbn [message_loop]; [by intros ? ? ? ? ?|].
  ensures_step; [apply running_inv|]. ensures_step; [by ensures_step|].
  ensures_step; [apply background_inv|]. ensures_step; [apply applySnapshotResults_inv|].
  ensures_step; [apply background_inv|].
  apply ensures_bind with (Q := fun o => forall msg sym d, o = Some msg ->
    parse_message (bool_decide (qc_sync m = Futures)) msg = Some (sym, d) -> sym ∈ uppers -> event_ok sym d).
  { intros h w o h' w' Hi. unfold world. pose proof (quiet_read w) as Hq. pose proof (Hfeed w) as Hf.
    destruct (ws_read w) as [o1 w1]. cbn [fst snd] in *. intros [= <- <- <-].
    split; [by apply (inv_quiet _ _ w)|]. intros msg sym d ->. by apply Hf. }
  intros [msg|] Hmsg; [|by ensures_step].
  ensures_step; [apply running_inv|]. ensures_step; [by ensures_step|].
  ensures_step; [|apply IH]. apply on_message_inv. intros sym d. by apply Hmsg.
Qed.

Lemma runWebSocketLoop_inv frames : ensures (inv 0) (runWebSocketLoop fuel frames) anything.
Proof.
  unfold runWebSocketLoop.
  repeat first [apply reset_inv_on_reconnect | apply message_loop_inv | apply running_inv | inv_step].
  - intros h w. apply inv_quiet, quiet_connect.
  - intros h w. apply inv_quiet, quiet_ws_close.
Qed.

Lemma run_loop_inv rounds frames : ensures (inv 0) (run_loop fuel rounds frames) anything.
Proof.
  induction rounds as [|rounds IH]; cbn [run_loop]; [by intros ? ? ? ? ?|].
  repeat first [apply runWebSocketLoop_inv | apply IH | apply running_inv | inv_step].
  intros h w. apply inv_quiet, sleepWithBackoff_same.
Qed.

Lemma start_ok wk : worker_ok wk -> worker_ok (start wk).
Proof. intros []. unfold start. destruct (w_running wk); by constructor. Qed.
Lemma stop_ok wk : worker_ok wk -> worker_ok (stop wk).
Proof. intros []. unfold stop. destruct (w_running wk); by constructor. Qed.

Lemma new_core steadyNs : core (newQuoteFeedHandler symbols m tpHost tpPort startNs steadyNs).
Proof. constructor; [apply newManager_ok|by constructor|done]. Qed.

Lemma run_rows rounds frames steadyNs w0 h w :
  t_last w0 = None -> t_log w0 = [] ->
  run fuel rounds frames (newQuoteFeedHandler symbols m tpHost tpPort startNs steadyNs) w0 = Some (tt, h, w) ->
  (exists p1 w1, (exists rows, published_rows tpc good_row (fhSeqNo_ h) rows p1 w1) /\
     rowsUnresendable_ p1 = rowsUnresendable_ (tp_ h) /\ t_same w1 w) \/
  (fhSeqNo_ h = 0 /\ t_log w = []).
Proof.
  intros Hl Hlog. unfold run, bind at 1, puts. set (h0 := _ <| snapshotWorker_ ::= start |>).
  assert (core h0) as Hc.
  { destruct (new_core steadyNs) as [Hb Hw Hm]. constructor; [exact Hb|by apply start_ok|exact Hm]. }
  assert (fhSeqNo_ h0 = 0 /\ tp_ h0 = newTpPublisher tpc) as [Hn Ht] by done. clearbody h0.
  unfold bind at 1. rewrite Ht, Hn. change (0 + 1) with 1.
  destruct (connect fuel 1 (newTpPublisher tpc) w0) as [[[ok p1] w1]|] eqn:Ec; [|done].
  destruct (connect_published tpc good_row _ _ _ _ _ Hl Hlog Ec) as [Hp Hlog1].
  destruct ok; cbn [negb]; [|intros [= <- <-]; by right].
  specialize (Hp eq_refl). intros Hrest'. left.
  assert (inv 0 (h0 <| tp_ := p1 |>) w1) as Hi.
  { split; [by destruct Hc|]. exists []. cbn [fhSeqNo_ tp_ modify eta_QuoteFeedHandler]. by rewrite Hn. }
  revert Hi Hrest'. generalize (h0 <| tp_ := p1 |>). intros h1 Hi. unfold bind at 1.
  destruct (run_loop fuel rounds frames h1 w1) as [[[[] h2] w2]|] eqn:Er; [|done].
  apply run_loop_inv in Er as [[_ (rows & Hrows)] _]; [|done]. rewrite Z.sub_0_r in Hrows.
  unfold bind. destruct (close _ w2) as [p3 w3] eqn:Ecl. intros [= <- <-].
  exists (tp_ h2), w2. split; [by exists rows|].
  unfold close in Ecl. cbn [tp_ modify eta_QuoteFeedHandler] in *.
  destruct (0 <? handle_ (tp_ h2)); injection Ecl as <- <-; (split; [done|]); [apply law_close|apply t_same_refl].
Qed.
End inv.
End handler.

(** C1: from the exchange to TP's log. For any run of the quote handler (any
    connections lost on either side, any messages and answers, any timing, any
    scheduling of the snapshot thread) in which the exchange's events and
    snapshots are genuine, the rows published are numbered 1, 2, ... without a
    hole; each has the layout announced to TP; every row marked valid shows the
    exchange's best bid and ask levels of its symbol at the update id it
    carries; and TP's log holds these rows in order and once each, all of them
    up to the last one if the handler reports no unresendable row. *)
Theorem published_quotes_are_exact (symbols : list string) (m : QuoteMarketConfig) (tpHost : string)
    (tpPort startNs : Z) (X : Exchange) {W V : Type}
    `{TpSession W (tpConfigOf m tpHost tpPort startNs) row_seq} `{Host W} `{WebSocket W} `{HttpLib W}
    `{Background W} `{JsonLib V} `{!TpQuiet W (tpConfigOf m tpHost tpPort startNs)}
    fuel rounds frames steadyNs (w0 w : W) h :
  0 <= qc_depth m -> 0 < qc_snapshotLimit m -> qc_tpTable m <> "health_feed_handler"%string ->
  (forall w msg sym d, fst (ws_read w) = Some msg ->
     parse_message (bool_decide (qc_sync m = Futures)) msg = Some (sym, d) -> sym ∈ uppers symbols ->
     event_ok m X sym d) ->
  (forall w sym, sym ∈ uppers symbols ->
     snapshot_ok symbols m X sym (fst (fetchSnapshot
       (mkRestClient (qc_restHost m) (qc_restPort m) (qc_restPath m)) sym (qc_snapshotLimit m) w))) ->
  t_last w0 = None -> t_log w0 = [] ->
  run fuel rounds frames (newQuoteFeedHandler symbols m tpHost tpPort startNs steadyNs) w0 = Some (tt, h, w) ->
  exists rows,
    fhSeqNo_ h = Z.of_nat (length rows) /\
    (forall i row, rows !! i = Some row -> row_seq row = Z.of_nat i + 1) /\
    Forall (good_row symbols m X) rows /\
    t_log w `sublist_of` rows /\
    (rowsUnresendable_ (tp_ h) = 0 -> t_log w `prefix_of` rows).
Proof.
  intros Hd Hlim Htab Hfeed Hrest Hl Hlog Hrun.
  destruct (run_rows symbols m tpHost tpPort startNs X Hd Hlim fuel Htab Hfeed Hrest _ _ _ _ _ _ Hl Hlog Hrun)
    as [(p1 & w1 & (rows & Hp) & Hu & Hs)|[Hn Hempty]].
  - exists rows. destruct (published_log _ _ _ _ _ _ Hp) as (l & _ & Hb & Hsub & _ & Hall).
    destruct Hp as [_ _ Hnum Hc Hg], Hs as (_ & -> & _). split; [done|]. split.
    { intros i row Hi. rewrite (proj1 (Hnum i row Hi)). lia. }
    split; [done|]. split; [etrans; [exact Hsub|apply sublist_take]|].
    intros Hz. rewrite Hall by (by rewrite Hu). apply prefix_take.
  - exists []. rewrite Hempty. split; [done|]. split; [done|]. split; [constructor|]. by split.
Qed.
