(* ===== verification/QuoteShutdown.v ===== *)
(** * The quote handler ends when it is asked to

    Every method returns ([returns], in Shutdown), and the loops of [run] end
    once the shutdown flag is read as cleared, whatever the exchange, the
    tickerplant and the network do. *)

From S2P Require Import Prelude Double CStdlib JsonReader MarketConfig Effects Backoff RowClock.
From S2P Require Import KObject TpPublisher TpSession Scheduler BookSide RestClient SnapshotWorker.
From S2P Require Import OrderBook Rows Shutdown QuoteHandler.

Open Scope Z_scope.
Local Open Scope rec_scope.
Local Open Scope effect_scope.

Section quote.
Context {W V : Type} `{WorldReads W} `{JsonLib V} (fuel : nat).

Local Abbreviation returns := (returns fuel).

Lemma steadyMs_returns : returns steadyNowMs.
Proof. apply returns_world. intros w. pose proof (reads_steady w). by destruct (steady_now w). Qed.
Lemma book_get_returns {R} i (d : R) f : returns (book_get i d f).
Proof. apply returns_gets. Qed.
Lemma book_do_returns {R} i (d : R) f : returns (book_do i d f).
Proof. intros h w _. unfold book_do. destruct (on_sym _ _ _ _) as [r g]. by eexists _, _, _. Qed.
Lemma book_set_returns i f : returns (book_set i f).
Proof. apply book_do_returns. Qed.
Lemma try_returns i now : returns (sched_try i now).
Proof. intros h w _. unfold sched_try. destruct (tryAcquire _ _ _). by eexists _, _, _. Qed.
Lemma failure_returns i now st ra u : returns (sched_failure i now st ra u).
Proof. unfold sched_failure. repeat returns_step. Qed.

Ltac quote_step :=
  first [simple apply steadyMs_returns | simple apply book_get_returns | simple apply book_do_returns | simple apply book_set_returns | apply try_returns
        | simple apply failure_returns | returns_step].

Lemma publishQuote_returns q : returns (publishQuote fuel q).
Proof.
  unfold publishQuote. repeat quote_step.
  - intros h w _. destruct (stamp _ _ _). by eexists _, _, _.
  - intros h w Hw. match goal with |- context [publish fuel ?r ?n _ _] =>
      destruct (publish_returns fuel r n (tp_ h) w Hw) as (ok & p & w' & -> & ?) end. by eexists _, _, _.
Qed.
Lemma commit_returns i q : returns (commit_quote fuel i q).
Proof. unfold commit_quote. repeat first [simple apply publishQuote_returns | quote_step]. Qed.
Lemma candidate_returns i t : returns (candidate i t).
Proof. unfold candidate. repeat quote_step. Qed.
Lemma maybePublish_returns i t : returns (maybePublish fuel i t).
Proof. unfold maybePublish. repeat first [simple apply candidate_returns | simple apply commit_returns | quote_step]. Qed.
Lemma publishInvalid_returns i t : returns (publishInvalid fuel i t).
Proof. unfold publishInvalid. repeat first [simple apply commit_returns | quote_step]. Qed.
Lemma timeouts_returns t : returns (checkPublishTimeouts fuel t).
Proof. unfold checkPublishTimeouts. repeat first [simple apply candidate_returns | simple apply commit_returns | quote_step]. Qed.
Lemma requestSnapshot_returns i : returns (requestSnapshot i).
Proof. unfold requestSnapshot. repeat quote_step. Qed.
Lemma results_returns : returns applySnapshotResults.
Proof.
  unfold applySnapshotResults, expire_request, apply_result. repeat quote_step.
  intros h w _. destruct (drainResults _). by eexists _, _, _.
Qed.
Lemma handleDelta_returns i d t : returns (handleDelta fuel i d t).
Proof.
  unfold handleDelta, request_if_needed, refresh_if_wanted.
  repeat first [simple apply requestSnapshot_returns | simple apply publishInvalid_returns | simple apply maybePublish_returns | quote_step].
Qed.
Lemma processMessage_returns msg t : returns (processMessage fuel msg t).
Proof. unfold processMessage. repeat first [simple apply handleDelta_returns | quote_step]. Qed.
Lemma reset_returns : returns (reset_on_reconnect fuel).
Proof. unfold reset_on_reconnect, mark_hole. repeat first [simple apply publishInvalid_returns | quote_step]. Qed.
Lemma health_returns : returns publishHealth.
Proof. unfold publishHealth. repeat quote_step. Qed.
Lemma on_message_returns msg last : returns (on_message fuel msg last).
Proof.
  unfold on_message.
  repeat first [simple apply processMessage_returns | simple apply timeouts_returns | simple apply health_returns | quote_step].
Qed.

Lemma worker_turns_reads c limit n wk w :
  (reads_left (snd (worker_turns c limit n wk w)) <= reads_left w)%nat.
Proof.
  revert wk w. induction n as [|n IH]; intros wk w; cbn [worker_turns]; [done|].
  assert (reads_left (snd (worker_turn c limit wk w)) <= reads_left w)%nat as Hone.
  { unfold worker_turn. destruct (thread wk) as [| |r|]; try done.
    unfold fetchSnapshot.
    pose proof (get_reads c (rc_path c +:+ "?symbol=" +:+ rq_sym r +:+ "&limit=" +:+ to_string limit)%string w).
    destruct (get c _ w) as [x w1]. cbn [snd] in *. destruct (negb (String.eqb (hr_error x) "")); [done|].
    by destruct (negb (hr_status x =? 200)). }
  destruct (worker_turn c limit wk w) as [wk1 w1]. etrans; [apply IH|done].
Qed.

Lemma background_returns : returns background.
Proof.
  intros h w _. unfold background. pose proof (reads_steps w). destruct (worker_steps w) as [n w1]. cbn [snd] in *.
  pose proof (worker_turns_reads (mkRestClient (qc_restHost (qcfg h)) (qc_restPort (qcfg h)) (qc_restPath (qcfg h)))
    (qc_snapshotLimit (qcfg h)) n (snapshotWorker_ h) w1).
  destruct (worker_turns _ _ n _ w1) as [wk w2]. cbn [snd] in *. eexists _, _, _. split; [done|lia].
Qed.

(** ** The loops: every iteration reads the flag *)

(** [frames] iterations suffice if the flag is read as set fewer times. *)
Lemma message_loop_returns frames last h w :
  (reads_left w < fuel)%nat -> (reads_left w < frames)%nat ->
  exists e h' w', message_loop fuel frames last h w = Some (e, h', w') /\ (reads_left w' <= reads_left w)%nat.
Proof.
  revert last h w. induction frames as [|frames IH]; intros last h w Hf Hr; [lia|].
  cbn [message_loop]. unfold bind at 1, world.
  pose proof (reads_read w) as Hdec. pose proof (reads_read_le w) as Hle.
  destruct (is_running w) as [r w1]. cbn [fst snd] in *. destruct r; cbn [negb]; [|by eexists _, _, _].
  specialize (Hdec eq_refl).
  assert (forall (f : option string -> M QuoteFeedHandler W LoopEnd),
    (forall o h2 w2, (reads_left w2 <= reads_left w1)%nat ->
       exists e h' w', f o h2 w2 = Some (e, h', w') /\ (reads_left w' <= reads_left w2)%nat) ->
    exists e h' w', (background ;;; applySnapshotResults ;;; background ;;; m <- world ws_read ;; f m) h w1
      = Some (e, h', w') /\ (reads_left w' <= reads_left w)%nat) as Hhead.
  { intros f Hk.
    assert (returns (background ;;; applySnapshotResults ;;; background ;;; world ws_read)) as Hpre.
    { repeat first [simple apply background_returns | simple apply results_returns | quote_step].
      apply returns_world, reads_wsread. }
    destruct (Hpre h w1) as (o & h2 & w2 & E & Hw2); [lia|].
    destruct (Hk o h2 w2 Hw2) as (e & h3 & w3 & E3 & Hw3). exists e, h3, w3. split; [|lia].
    rewrite <-E3. unfold bind in *. destruct (background h w1) as [[[x1 s1] v1]|]; [|done].
    destruct (applySnapshotResults s1 v1) as [[[x2 s2] v2]|]; [|done].
    destruct (background s2 v2) as [[[x3 s3] v3]|]; [|done]. by rewrite E. }
  apply Hhead. clear Hhead. intros [msg|] h2 w2 Hw2; [|by eexists _, _, _].
  unfold bind at 1. pose proof (reads_read_le w2). destruct (is_running w2) as [r w3]. cbn [snd] in *.
  destruct r; cbn [negb]; [|by eexists _, _, _].
  unfold bind. destruct (on_message_returns msg last h2 w3) as (l' & h4 & w4 & -> & ?); [lia|].
  destruct (IH l' h4 w4) as (e & h5 & w5 & -> & ?); [lia..|]. eexists _, _, _. split; [done|lia].
Qed.

Lemma runWebSocketLoop_returns frames h w :
  (reads_left w < fuel)%nat -> (reads_left w < frames)%nat ->
  exists e h' w', runWebSocketLoop fuel frames h w = Some (e, h', w') /\ (reads_left w' <= reads_left w)%nat.
Proof.
  intros Hf Hr. unfold runWebSocketLoop, bind at 1, gets.
  unfold bind at 1. destruct (reset_returns h w Hf) as (x & h1 & w1 & -> & Hw1).
  unfold bind at 1 2, world. 
  pose proof (reads_connect (qc_wsHost (qcfg h1)) (qc_wsPort (qcfg h1)) (buildDepthStreamPath h) w1) as Hc.
  destruct (ws_connect _ _ _ w1) as [ok w2]. cbn [snd] in Hc. destruct ok; cbn [negb]; [|eexists _, _, _; split; [done|lia]].
  unfold bind at 1, puts. set (h2 := h1 <| connState_ := _ |> <| binanceReconnectAttempt_ := _ |>). clearbody h2.
  unfold bind at 1. pose proof (reads_steady w2) as Hs. destruct (steady_now w2) as [t w3]. cbn [snd] in Hs.
  unfold bind at 1. destruct (message_loop_returns frames t h2 w3) as (e & h4 & w4 & -> & Hw4); [lia..|].
  destruct e; [eexists _, _, _; split; [done|lia]|].
  unfold bind, puts. pose proof (reads_read_le w4) as Hl. destruct (is_running w4) as [r w5]. cbn [snd] in Hl.
  pose proof (reads_wsclose w5). destruct r; cbn [negb]; eexists _, _, _; (split; [done|lia]).
Qed.

Lemma run_loop_returns rounds frames h w :
  (reads_left w < fuel)%nat -> (reads_left w < frames)%nat -> (reads_left w < rounds)%nat ->
  exists h' w', run_loop fuel rounds frames h w = Some (tt, h', w') /\ (reads_left w' <= reads_left w)%nat.
Proof.
  revert h w. induction rounds as [|rounds IH]; intros h w Hf Hr Hn; [lia|].
  cbn [run_loop]. unfold bind at 1, world.
  pose proof (reads_read w) as Hdec. pose proof (reads_read_le w) as Hle.
  destruct (is_running w) as [r w1]. cbn [fst snd] in *. destruct r; cbn [negb]; [|by eexists _, _].
  specialize (Hdec eq_refl). unfold bind at 1.
  destruct (runWebSocketLoop_returns frames h w1) as (e & h1 & w2 & -> & Hw2); [lia..|].
  destruct e.
  2: { destruct (IH h1 w2) as (h' & w' & E & ?); [lia..|]. exists h', w'. split; [exact E|lia]. }
  unfold bind at 1. pose proof (reads_read_le w2) as Hl2. destruct (is_running w2) as [r w3]. cbn [snd] in Hl2.
  destruct r; cbn [negb].
  2: { destruct (IH h1 w3) as (h' & w' & E & ?); [lia..|]. exists h', w'. split; [exact E|lia]. }
  unfold bind, puts, gets.
  pose proof (sleepWithBackoff_reads QH_BACKOFF_MULTIPLIER QH_INITIAL_BACKOFF_MS QH_MAX_BACKOFF_MS
    (binanceReconnectAttempt_ (h1 <| ctrWsReconnects_ ::= Z.succ |>)) w3) as Hsl.
  destruct (sleepWithBackoff _ _ _ _ w3) as [ok w4]. cbn [snd] in Hsl.
  destruct ok; [|eexists _, _; split; [done|lia]].
  match goal with |- context [run_loop fuel rounds frames ?h2 w4] =>
    destruct (IH h2 w4) as (h' & w' & E & ?); [lia..|] end.
  exists h', w'. split; [exact E|lia].
Qed.
End quote.

(** C18: the quote handler ends. In any world where the shutdown flag is
    eventually read as cleared, [run] returns: fuel, rounds and frames beyond
    the number of reads suffice, whatever the exchange and TP do. *)
Theorem quote_handler_terminates {W V : Type} `{WorldReads W} `{JsonLib V} fuel rounds frames
    (h : QuoteFeedHandler) (w : W) :
  (reads_left w < fuel)%nat -> (reads_left w < rounds)%nat -> (reads_left w < frames)%nat ->
  exists h' w', run fuel rounds frames h w = Some (tt, h', w') /\ (reads_left w' <= reads_left w)%nat.
Proof.
  intros Hf Hr Hn. unfold run, bind at 1, puts. set (h0 := h <| snapshotWorker_ ::= start |>). clearbody h0.
  unfold bind at 1, connect.
  destruct (connect_loop_returns fuel 0 (fhSeqNo_ h0 + 1) (tp_ h0) w Hf) as (ok & p & w1 & -> & Hw1).
  destruct ok; cbn [negb]; [|eexists _, _; split; [done|lia]].
  unfold bind at 1.
  destruct (run_loop_returns fuel rounds frames (h0 <| tp_ := p |>) w1) as (h2 & w2 & -> & ?); [lia..|].
  unfold bind. pose proof (close_reads (tp_ (h2 <| snapshotWorker_ ::= stop |>)) w2).
  destruct (close _ w2) as [p3 w3]. cbn [snd] in *. eexists _, _. split; [done|lia].
Qed.
