(* ===== verification/QuoteChain.v ===== *)
(** * No hole in a symbol's rows goes unmarked

    From row to row a consumer of the quote table can tell whether it has seen
    every update of a symbol: this file carries the range invariant of
    BookRanges through the handler's methods and both loops. It asks next to
    nothing of the exchange's data (a futures event may not end before the event it
    says it follows, [ordered]), and that a symbol is configured once and that the
    shutdown flag, once cleared, stays cleared. *)

From S2P Require Import Prelude Double CStdlib JsonReader MarketConfig Effects Backoff RowClock.
From S2P Require Import KObject TpPublisher TpSession Scheduler BookSide RestClient SnapshotWorker.
From S2P Require Import OrderBook OrderBookSpec BookProps BookRanges Rows Delivery Shutdown.
From S2P Require Import QuoteHandler QuoteHandlerProps.

Open Scope Z_scope.
Local Open Scope rec_scope.
Local Open Scope effect_scope.

(** The quotes of one symbol, in the order of their rows. *)
Definition quotes_of (s : string) (qs : list BookQuote) : list BookQuote := filter (fun q => q_sym q = s) qs.
(** A row is the layout of a quote. *)
Definition row_of (m : QuoteMarketConfig) (row : K) (q : BookQuote) : Prop :=
  exists time parse send, row = buildQuoteRow q time parse send (qc_publishTransactTime m).

Lemma quotes_of_snoc s qs q :
  quotes_of s (qs ++ [q]) = if decide (q_sym q = s) then quotes_of s qs ++ [q] else quotes_of s qs.
Proof.
  unfold quotes_of. rewrite filter_app, filter_cons, filter_nil. case_decide; [done|]. by rewrite app_nil_r.
Qed.

Section handler.
Context (symbols : list string) (m : QuoteMarketConfig) (tpHost : string) (tpPort startNs : Z).
Hypothesis Hdepth : 0 <= qc_depth m.
Hypothesis Hnodup : NoDup (uppers symbols).

Local Abbreviation uppers := (uppers symbols).
Local Abbreviation symName := (symName symbols).
Local Abbreviation bookCfg := (bookCfg symbols m).
Local Abbreviation QH := QuoteFeedHandler.

(** ** The books *)

Record manager_ok (g : OrderBookManager) : Prop := {
  mg_cfg : OrderBook.cfg_ g = bookCfg;
  mg_names : idxToSym g = uppers;
  mg_length : length (syms g) = length uppers;
  mg_index : forall s i, getSymbolIndex s g = Some i -> uppers !! i = Some s
}.

(** Symbol [i] after the quotes [qs]. While a hole is being marked ([x]) its
    book may be ahead of its rows. *)
Definition symbol_chain (x : option nat) (qs : list BookQuote) (i : nat) (v : View) : Prop :=
  last (quotes_of (symName i) qs) = (if hasPublished (sb v) then Some (lastPublished (sb v)) else None) /\
  adjacent (no_hole (qc_sync m)) (quotes_of (symName i) qs) /\
  chain_weak v /\ (x <> Some i -> chain_ok bookCfg v).
Definition books_chain (x : option nat) (qs : list BookQuote) (g : OrderBookManager) : Prop :=
  forall i b, syms g !! i = Some b -> symbol_chain x qs i (mkView b (ctrs g)).

(** A property of symbol [i]'s book. *)
Definition at_book (i : nat) (phi : View -> Prop) (g : OrderBookManager) : Prop :=
  forall b, syms g !! i = Some b -> phi (mkView b (ctrs g)).

Lemma chain_weak_ct b c c' : chain_weak (mkView b c) -> chain_weak (mkView b c').
Proof. intros []. by constructor. Qed.
Lemma chain_ok_ct b c c' : chain_ok bookCfg (mkView b c) -> chain_ok bookCfg (mkView b c').
Proof. intros [? ?]. constructor; [by eapply chain_weak_ct|done]. Qed.
Lemma symbol_chain_ct x qs i b c c' : symbol_chain x qs i (mkView b c) -> symbol_chain x qs i (mkView b c').
Proof.
  intros (? & ? & ? & Hc). split; [done|]. split; [done|]. split; [by eapply chain_weak_ct|].
  intros Hx. eapply chain_ok_ct; eauto.
Qed.

Lemma on_sym_syms {R} i (d : R) f g j :
  syms (snd (on_sym i d f g)) !! j =
    if decide (i = j) then (fun b => sb (snd (f (mkView b (ctrs g))))) <$> syms g !! i else syms g !! j.
Proof.
  unfold on_sym. destruct (syms g !! i) as [b|] eqn:Eb.
  - destruct (f (mkView b (ctrs g))) as [r v] eqn:Ef. cbn [snd syms modify eta_OrderBookManager]. case_decide as Hij.
    + subst j. rewrite list_lookup_insert_eq by (by eapply lookup_lt_Some). cbn. by rewrite Ef.
    + by rewrite list_lookup_insert_ne.
  - cbn [snd]. case_decide; [by subst j|done].
Qed.

Lemma on_sym_manager {R} i (d : R) f g : manager_ok g -> manager_ok (snd (on_sym i d f g)).
Proof.
  intros []. unfold on_sym. destruct (syms g !! i); [|done]. destruct (f _) as [r v].
  constructor; cbn [snd OrderBook.cfg_ idxToSym syms symToIdx modify eta_OrderBookManager]; try done.
  by rewrite length_insert.
Qed.

(** A call on symbol [i] that publishes nothing. *)
Lemma on_sym_chain {R} x' i (d : R) f qs g :
  books_chain None qs g ->
  at_book i (fun v => chain_ok bookCfg v ->
    seen (snd (f v)) = seen v /\ chain_weak (snd (f v)) /\ (x' <> Some i -> chain_ok bookCfg (snd (f v)))) g ->
  books_chain x' qs (snd (on_sym i d f g)).
Proof.
  intros Hg Hf j b Hb. rewrite on_sym_syms in Hb. case_decide as Hij.
  - subst j. destruct (syms g !! i) as [b0|] eqn:E0; [|done]. injection Hb as <-.
    destruct (Hg _ _ E0) as (Hl & Ha & Hw & Hc). destruct (Hf _ E0 (Hc ltac:(done))) as (Es & Hw' & Hc').
    destruct (f (mkView b0 (ctrs g))) as [r [b' c']]. cbn [snd] in *. injection Es as E1 E2.
    split; [cbn in *; by rewrite E1, E2|]. split; [done|]. split; [by eapply chain_weak_ct|].
    intros Hx. eapply chain_ok_ct. by apply Hc'.
  - destruct (Hg _ _ Hb) as (Hl & Ha & Hw & Hc). apply (symbol_chain_ct x' qs j b (ctrs g)).
    split; [done|]. split; [done|]. split; [done|]. intros _. by apply Hc.
Qed.

(** The symbol's row is recorded. *)
Lemma record_chain x i q now qs g :
  (x = None \/ x = Some i /\ q_isValid q = false) -> (i < length uppers)%nat -> q_sym q = symName i ->
  at_book i (current bookCfg q) g -> manager_ok g -> books_chain x qs g ->
  books_chain None (qs ++ [q]) (upd_sym i (recordPublish now q) g).
Proof.
  intros Hx Hi Hsym Hq Hm Hg j b Hb. unfold upd_sym in *. rewrite on_sym_syms in Hb. cbn [snd] in Hb.
  case_decide as Hij.
  - subst j. destruct (syms g !! i) as [b0|] eqn:E0; [|done]. injection Hb as <-.
    destruct (Hg _ _ E0) as (Hl & Ha & Hw & Hc). cbn [sb] in Hl, Hc. unfold symbol_chain.
    rewrite quotes_of_snoc, decide_True by done. split; [by rewrite last_snoc|]. split.
    + apply adjacent_snoc; [done|]. intros q0 Hq0. rewrite Hl in Hq0.
      destruct (hasPublished b0) eqn:Ep; [|done]. injection Hq0 as <-.
      destruct Hx as [->|[_ Hinv]]; [|by intros _; rewrite Hinv].
      destruct (bookCfg_fields symbols m) as (_ & _ & _ & <-).
      by apply (current_no_hole _ q (mkView b0 (ctrs g))); [apply Hc| |apply Hq].
    + assert (chain_ok bookCfg (recordPublish now q (mkView b0 (ctrs g)))) as H1
        by (apply recordPublish_chain; [done|by apply Hq]).
      split; [by eapply chain_weak_ct, ch_weak|]. intros _. eapply chain_ok_ct. exact H1.
  - destruct (Hg _ _ Hb) as (Hl & Ha & Hw & Hc). apply (symbol_chain_ct None _ j b (ctrs g)). unfold symbol_chain.
    assert (symName i <> symName j) as Hne.
    { pose proof (symName_upper symbols i Hi) as E1. destruct Hm. assert (j < length uppers)%nat as Hj
        by (apply lookup_lt_Some in Hb; congruence).
      pose proof (symName_upper symbols j Hj) as E2. intros E. rewrite E in E1. apply Hij. by eapply NoDup_lookup. }
    rewrite quotes_of_snoc, decide_False by congruence. split; [done|]. split; [done|]. split; [done|].
    intros _. apply Hc. destruct Hx as [->|[-> _]]; congruence.
Qed.

(** ** The handler *)

Section inv.
Context {W V : Type} `{TpSession W (tpConfigOf m tpHost tpPort startNs) row_seq} `{Host W} `{WebSocket W}
  `{HttpLib W} `{Background W} `{JsonLib V} `{!TpQuiet W (tpConfigOf m tpHost tpPort startNs)} `{!FlagStays W}.
Context (fuel : nat).

Local Abbreviation tpc := (tpConfigOf m tpHost tpPort startNs).

(** The rows so far are the quotes [qs], and every book is in step with them;
    TP is connected unless the handler has been told to stop. *)
Record chain (x : option nat) (h : QH) (w : W) : Prop := {
  cn_manager : manager_ok (bookMgr_ h);
  cn_cfg : qcfg h = m;
  cn_rows : exists qs rows, published_rows tpc anything (fhSeqNo_ h) rows (tp_ h) w /\
    Forall2 (row_of m) rows qs /\ books_chain x qs (bookMgr_ h);
  cn_up : connected (tp_ h) = true \/ stopped w
}.

(** What happens outside without a row being sent. *)
Definition calm (w w' : W) : Prop := t_same w w' /\ (stopped w -> stopped w').

Lemma calm_refl w : calm w w.
Proof. split; [apply t_same_refl|done]. Qed.
Lemma calm_trans w1 w2 w3 : calm w1 w2 -> calm w2 w3 -> calm w1 w3.
Proof. intros [? ?] [? ?]. split; [by eapply t_same_trans|auto]. Qed.

Lemma chain_calm x h w w' : calm w w' -> chain x h w -> chain x h w'.
Proof.
  intros [Hs Hf] [Hm Hc (qs & rows & Hp & Hq) Hu]. constructor; [done|done| |tauto].
  exists qs, rows. split; [by eapply published_same|done].
Qed.

Lemma chain_same x h h' w :
  bookMgr_ h' = bookMgr_ h -> qcfg h' = qcfg h -> fhSeqNo_ h' = fhSeqNo_ h -> tp_ h' = tp_ h ->
  chain x h w -> chain x h' w.
Proof. intros E1 E2 E3 E4 []. constructor; by rewrite ?E1, ?E2, ?E3, ?E4. Qed.

Lemma world_chain {A} x (f : W -> A * W) :
  (forall w, calm w (snd (f w))) -> ensures (chain x) (world f) anything.
Proof. intros Hf. apply ensures_world. intros h w. apply chain_calm, Hf. Qed.

Lemma puts_chain x f :
  (forall h, bookMgr_ (f h) = bookMgr_ h /\ qcfg (f h) = qcfg h /\ fhSeqNo_ (f h) = fhSeqNo_ h /\ tp_ (f h) = tp_ h) ->
  ensures (chain x) (puts f) anything.
Proof. intros Hf. apply ensures_puts. intros h w. destruct (Hf h) as (?&?&?&?). by apply chain_same. Qed.

Lemma steady_calm w : calm w (snd (steady_now w)).
Proof. split; [apply quiet_steady|apply stopped_steady]. Qed.
Lemma system_calm w : calm w (snd (system_now w)).
Proof. split; [apply quiet_system|apply stopped_system]. Qed.
Lemma draw_calm w : calm w (snd (draw_jitter w)).
Proof. split; [apply quiet_draw|apply stopped_draw]. Qed.
Lemma running_calm w : calm w (snd (is_running w)).
Proof. split; [apply law_running|]. intros Hw. by apply stopped_reads. Qed.

Lemma steadyMs_chain x : ensures (chain x) steadyNowMs anything.
Proof. apply world_chain. intros w. pose proof (steady_calm w). by destruct (steady_now w). Qed.
Lemma book_get_chain {R} x i (d : R) f : ensures (chain x) (book_get i d f) anything.
Proof. by apply ensures_gets. Qed.
Lemma try_chain x i now : ensures (chain x) (sched_try i now) anything.
Proof.
  intros h w y h' w' Hc. unfold sched_try. destruct (tryAcquire i now _) as [b s]. intros [= <- <- <-].
  split; [|done]. by apply (chain_same x h).
Qed.
Lemma failure_chain x i now st ra u : ensures (chain x) (sched_failure i now st ra u) anything.
Proof. unfold sched_failure. ensures_step; [apply world_chain, draw_calm|]. by apply puts_chain. Qed.

(** A call on a book, from what is known of it. *)
Lemma book_do_at {R} i (d : R) f (phi : View -> Prop) (ends : R -> option nat) :
  (forall v, phi v -> chain_ok bookCfg v ->
     seen (snd (f bookCfg v)) = seen v /\ chain_weak (snd (f bookCfg v)) /\
     (ends (fst (f bookCfg v)) <> Some i -> chain_ok bookCfg (snd (f bookCfg v)))) ->
  triple (fun h w => chain None h w /\ at_book i phi (bookMgr_ h)) (book_do i d f) (fun r => chain (ends r)).
Proof.
  intros Hf h w r h' w' [[Hm Hc (qs & rows & Hp & Hq & Hb) Hu] Hphi]. unfold book_do. rewrite (mg_cfg _ Hm).
  pose proof (on_sym_manager i d (f bookCfg) (bookMgr_ h) Hm) as Hm'.
  assert (books_chain (ends (fst (on_sym i d (f bookCfg) (bookMgr_ h)))) qs
    (snd (on_sym i d (f bookCfg) (bookMgr_ h)))) as Hb'.
  { destruct (syms (bookMgr_ h) !! i) as [b|] eqn:E.
    - assert (fst (on_sym i d (f bookCfg) (bookMgr_ h)) = fst (f bookCfg (mkView b (ctrs (bookMgr_ h))))) as ->
        by (unfold on_sym; rewrite E; by destruct (f bookCfg _)).
      apply on_sym_chain; [done|]. intros b' E' Hv. rewrite E in E'. injection E' as <-. apply Hf; [by apply Hphi|done].
    - unfold on_sym. rewrite E. intros j b' Hj. destruct (Hb _ _ Hj) as (? & ? & ? & Hok).
      split; [done|]. split; [done|]. split; [done|]. intros _. by apply Hok. }
  destruct (on_sym i d (f bookCfg) (bookMgr_ h)) as [r0 g]. intros [= <- <- <-]. constructor; try done.
  by exists qs, rows.
Qed.

Lemma book_do_chain {R} i (d : R) f :
  (forall v, chain_ok bookCfg v -> seen (snd (f bookCfg v)) = seen v /\ chain_ok bookCfg (snd (f bookCfg v))) ->
  ensures (chain None) (book_do i d f) anything.
Proof.
  intros Hf. eapply triple_conseq; [apply (book_do_at i d f (fun _ => True) (fun _ => None))| |].
  - intros v _ Hv. destruct (Hf v Hv) as [? ?]. split; [done|]. split; [by apply (ch_weak bookCfg)|done].
  - by intros h w ?.
  - by intros r h w ?.
Qed.

Lemma cancel_chain i : ensures (chain None) (book_set i (fun _ => cancelRefresh)) anything.
Proof.
  apply book_do_chain. intros v Hv. split; [|by apply cancelRefresh_chain]. unfold cancelRefresh. by case_match.
Qed.
Lemma requested_chain i b : ensures (chain None) (book_set i (fun _ => setSnapshotRequested b)) anything.
Proof. apply book_do_chain. intros v [[] Hj]. split; [done|]. constructor; [by constructor|exact Hj]. Qed.

(** One step of a method. *)
Ltac chain_step :=
  first [apply world_chain, steady_calm | apply world_chain, system_calm | apply steadyMs_chain
        | apply book_get_chain | apply try_chain | apply failure_chain
        | apply cancel_chain | apply requested_chain
        | apply puts_chain; by intros ?
        | ensures_step].

(** ** Publishing *)

(** [publishQuote] sends one row, and touches no book. *)
Lemma publishQuote_run q h w u h' w' :
  columns_ok (Z.to_nat (qc_depth m)) q -> qcfg h = m ->
  publishQuote fuel q h w = Some (u, h', w') ->
  exists row w1 ok w2, row_of m row q /\ calm w w1 /\
    publish fuel row (q_fhSeqNo q) (tp_ h) w1 = Some (ok, tp_ h', w2) /\ calm w2 w' /\
    bookMgr_ h' = bookMgr_ h /\ qcfg h' = m /\ fhSeqNo_ h' = fhSeqNo_ h.
Proof.
  intros Hq Hm. unfold publishQuote, bind at 1. destruct (stamp _ _ (rowClock_ h)) as [st c].
  unfold bind at 1, world. pose proof (steady_calm w) as C1. destruct (steady_now w) as [t0 w1]. cbn [snd] in C1.
  unfold bind at 1, gets. unfold bind at 1.
  pose proof (steady_calm w1) as C2. destruct (steady_now w1) as [t1 w2]. cbn [snd] in C2.
  unfold bind at 1. cbn [qcfg tp_ modify eta_QuoteFeedHandler lastParseUs_]. rewrite Hm, (patch_quote_row _ _ _ _ _ _ _ Hq Hdepth).
  match goal with |- context [publish fuel ?r _ _ _] => set (row := r) end.
  destruct (publish fuel row (q_fhSeqNo q) (tp_ h) w2) as [[[ok p] w3]|] eqn:Ep; [|done].
  unfold bind, puts. pose proof (system_calm w3) as C3. destruct (system_now w3) as [t2 w4]. cbn [snd] in C3.
  intros [= <- <- <-]. exists row, w2, ok, w3.
  split; [by exists (timeUtcNs st), (lastParseUs_ h), (Z.quot (t1 - t0) 1000)|].
  split; [by eapply calm_trans|]. split; [done|]. split; [done|]. cbn. by rewrite Hm.
Qed.

(** A quote takes the next number, is sent, and is recorded. *)
Lemma commit_run x i q h w u h' w' :
  (x = None \/ x = Some i /\ q_isValid q = false) -> (i < length uppers)%nat -> q_sym q = symName i ->
  columns_ok (Z.to_nat (qc_depth m)) q -> at_book i (current bookCfg q) (bookMgr_ h) ->
  chain x h w -> commit_quote fuel i q h w = Some (u, h', w') ->
  chain None h' w' /\
  exists now n, bookMgr_ h' = upd_sym i (recordPublish now (q <| q_fhSeqNo := n |>)) (bookMgr_ h).
Proof.
  intros Hx Hi Hsym Hcol Hcur [Hm Hc (qs & rows & Hp & Hq & Hb) Hu].
  unfold commit_quote, bind at 1 2, puts, gets. cbn [fhSeqNo_ modify eta_QuoteFeedHandler].
  change (Z.succ (fhSeqNo_ h)) with (fhSeqNo_ h + 1). set (q' := q <| q_fhSeqNo := fhSeqNo_ h + 1 |>).
  unfold bind at 1. destruct (publishQuote fuel q' _ w) as [[[u1 h1] w1]|] eqn:E; [|done].
  apply publishQuote_run in E as (row & v1 & ok & v2 & Hrow & C1 & Ep & C2 & E1 & E2 & E3); [|exact Hcol|exact Hc].
  cbn [bookMgr_ fhSeqNo_ tp_ modify eta_QuoteFeedHandler] in *.
  unfold bind, world. pose proof (steady_calm w1) as C3. destruct (steady_now w1) as [t w2]. cbn [snd] in C3.
  unfold book_set, book_do. rewrite E1.
  pose proof (record_chain x i q' t qs (bookMgr_ h) Hx Hi Hsym Hcur Hm Hb) as Hb'.
  pose proof (on_sym_manager i tt (fun v => (tt, recordPublish t q' v)) (bookMgr_ h) Hm) as Hm'.
  unfold upd_sym in Hb'. destruct (on_sym i tt _ (bookMgr_ h)) as [[] g] eqn:Eg. cbn [snd] in *. intros [= <- <- <-].
  split; [|exists t, (fhSeqNo_ h + 1); cbn; unfold upd_sym; fold q'; by rewrite Eg].
  apply (chain_calm _ _ v2); [by eapply calm_trans|]. destruct C1 as [Hs1 Hf1].
  destruct (publish_up _ _ _ _ _ _ _ _ Ep) as [Hkeep Hup].
  constructor; cbn [bookMgr_ qcfg fhSeqNo_ tp_ modify eta_QuoteFeedHandler]; [done|done| |done].
  exists (qs ++ [q']), (rows ++ [row]). rewrite E3. split; [|split; [by apply Forall2_app; [|constructor]|done]].
  eapply publish_published; [|done| | |exact Ep]; [by eapply published_same| |].
  - destruct Hrow as (t1 & t2 & t3 & ->). by rewrite quote_row_seq.
  - destruct Hrow as (t1 & t2 & t3 & ->). by apply quote_row_width.
Qed.

Lemma getQuote_sym cfg sym t n v : q_sym (getQuote cfg sym t n v) = sym.
Proof.
  unfold getQuote. cbn [q_isValid modify eta_BookQuote].
  by destruct (bool_decide (state (sb v) = VALID)), (depthExhausted cfg v), (bool_decide (state (sb v) = SYNCING)).
Qed.

(** What [candidate] gives: the book as it is now. *)
Lemma candidate_run i t h w q h' w' :
  (i < length uppers)%nat -> chain None h w -> candidate i t h w = Some (q, h', w') ->
  h' = h /\ w' = w /\ q_sym q = symName i /\ columns_ok (Z.to_nat (qc_depth m)) q /\
  at_book i (current bookCfg q) (bookMgr_ h).
Proof.
  intros Hi [[Hcfg Hnames Hlen _] _ _ _]. unfold candidate, bind, book_get, gets, at_sym.
  destruct (syms (bookMgr_ h) !! i) as [b|] eqn:E; [|apply lookup_ge_None in E; lia].
  rewrite Hcfg. assert (getSymbol i (bookMgr_ h) = symName i) as -> by (unfold getSymbol; by rewrite Hnames).
  intros [= <- <- <-]. split; [done|]. split; [done|]. split; [apply getQuote_sym|]. split.
  - destruct (bookCfg_fields symbols m) as (<- & _). apply getQuote_columns.
  - intros b' E'. rewrite E in E'. injection E' as <-. apply getQuote_current.
Qed.

(** Looking at the book and publishing what is seen. *)
Lemma candidate_then i t (f : BookQuote -> M QH W unit) :
  (i < length uppers)%nat ->
  (forall q h w u h' w', f q h w = Some (u, h', w') ->
     (exists w1, h' = h /\ calm w w1 /\ w' = w1) \/ (exists w1, calm w w1 /\ commit_quote fuel i q h w1 = Some (u, h', w'))) ->
  ensures (chain None) (q <- candidate i t ;; f q) anything.
Proof.
  intros Hi Hf h w u h' w' Hc. unfold bind. destruct (candidate i t h w) as [[[q h1] w1]|] eqn:E; [|done].
  destruct (candidate_run _ _ _ _ _ _ _ Hi Hc E) as (-> & -> & Hsym & Hcol & Hcur). intros Eq. split; [|done].
  destruct (Hf _ _ _ _ _ _ Eq) as [(w1 & -> & C & ->)|(w1 & C & Ec)]; [by eapply chain_calm|].
  eapply (commit_run None); [by left|exact Hi|done|done|done| |exact Ec]. by eapply chain_calm.
Qed.

Lemma maybePublish_chain i t : (i < length uppers)%nat -> ensures (chain None) (maybePublish fuel i t) anything.
Proof.
  intros Hi. unfold maybePublish. apply candidate_then; [done|]. intros q h w u h' w'.
  unfold bind, world, book_get, gets. pose proof (steady_calm w) as C. destruct (steady_now w) as [t1 w1]. cbn [snd] in C.
  destruct (at_sym _ _ _ _); cbn [when]; [by right; exists w1|]. intros [= <- <- <-]. left. by exists w1.
Qed.

(** A hole is marked: afterwards the symbol's last row is invalid, and the
    other symbols are as they were. *)
Definition unmarked (i : nat) : OrderBookManager -> Prop := at_book i (fun v => lastPublishedValid v = false).
Lemma publishInvalid_chain x i t h w u h' w' :
  (x = None \/ x = Some i) -> (i < length uppers)%nat -> chain x h w ->
  publishInvalid fuel i t h w = Some (u, h', w') ->
  chain None h' w' /\ unmarked i (bookMgr_ h') /\ forall j, unmarked j (bookMgr_ h) -> unmarked j (bookMgr_ h').
Proof.
  intros Hx Hi Hc. pose proof Hc as [[_ Hnames _ _] Hm _ _]. unfold publishInvalid, bind at 1, gets. rewrite Hm.
  assert (getSymbol i (bookMgr_ h) = symName i) as -> by (unfold getSymbol; by rewrite Hnames).
  set (q := _ <| q_fhRecvTimeUtcNs := t |>). intros E.
  apply (commit_run x) in E as (Hc' & now & n & ->); [| |done|done| | |done].
  - split; [done|]. unfold upd_sym. split; [|intros j Hj]; intros b Hb; rewrite on_sym_syms in Hb.
    + rewrite decide_True in Hb by done. by destruct (syms (bookMgr_ h) !! i); [injection Hb as <-|].
    + case_decide; [|by apply Hj in Hb]. subst j. by destruct (syms (bookMgr_ h) !! i); [injection Hb as <-|].
  - destruct Hx as [->| ->]; [by left|by right].
  - unfold columns_ok, q. cbn. by rewrite !length_replicate.
  - intros b _ Hv. done.
Qed.

Lemma checkPublishTimeouts_chain t : ensures (chain None) (checkPublishTimeouts fuel t) anything.
Proof.
  unfold checkPublishTimeouts. ensures_step; [apply world_chain, steady_calm|].
  apply ensures_bind with (Q := Forall (fun i => (i < length uppers)%nat)).
  { apply ensures_gets. intros h w [[_ _ Hl _] _ _ _]. apply Forall_forall. intros i.
    unfold getTimeoutPublishNeeded. rewrite list_elem_of_In, filter_In, in_seq. unfold numSymbols. lia. }
  intros needs Hn. apply ensures_for_each. intros i Hi%(proj1 (Forall_forall _ _) Hn). apply candidate_then; [done|].
  intros q h w u h' w'. destruct (q_isValid q); cbn [when].
  - right. exists w. split; [apply calm_refl|done].
  - intros [= <- <- <-]. left. exists w. split; [done|]. split; [apply calm_refl|done].
Qed.

(** ** Snapshots and events *)

Lemma requestSnapshot_chain i : ensures (chain None) (requestSnapshot i) anything.
Proof.
  unfold requestSnapshot. repeat chain_step. apply puts_chain. intros h.
  by destruct (enqueueRequest (Z.of_nat i) x (snapshotWorker_ h)).
Qed.

Lemma expire_chain now i : ensures (chain None) (expire_request now i) anything.
Proof. unfold expire_request. repeat chain_step. Qed.

Lemma apply_result_chain now r : ensures (chain None) (apply_result now r) anything.
Proof.
  unfold apply_result.
  repeat first [apply book_do_chain; intros v; by apply onSnapshot_chain | chain_step].
Qed.

Lemma applySnapshotResults_chain : ensures (chain None) applySnapshotResults anything.
Proof.
  unfold applySnapshotResults.
  repeat first [apply expire_chain | apply apply_result_chain | chain_step].
  intros h w out h' w' Hc. destruct (drainResults _) as [o wk]. intros [= <- <- <-].
  split; [|done]. by apply (chain_same None h).
Qed.

Lemma request_if_needed_chain i : ensures (chain None) (request_if_needed i) anything.
Proof. unfold request_if_needed. repeat first [apply requestSnapshot_chain | chain_step]. Qed.

(** The book is as it was read. *)
Lemma book_get_then {R A} i (d : R) (f : BookConfig -> View -> R) (k : R -> M QH W A) Q :
  (i < length uppers)%nat ->
  (forall r, triple (fun h w => chain None h w /\ at_book i (fun v => f bookCfg v = r) (bookMgr_ h)) (k r) Q) ->
  triple (chain None) (r <- book_get i d f ;; k r) Q.
Proof.
  intros Hi Hk h w x h' w' Hc. pose proof Hc as [[Hcfg _ Hlen _] _ _ _]. unfold bind, book_get, gets.
  apply Hk. split; [done|]. intros b Hb. unfold at_sym. by rewrite Hb, Hcfg.
Qed.

Lemma refresh_if_wanted_chain i : (i < length uppers)%nat -> ensures (chain None) (refresh_if_wanted i) anything.
Proof.
  intros Hi. unfold refresh_if_wanted. apply book_get_then; [done|]. intros want.
  destruct want; cbn [when]; [|apply triple_ret; by intros h w []].
  set (P := fun h w => chain None h w /\ at_book i (fun v => wantsRefresh bookCfg v = true) (bookMgr_ h)).
  apply (triple_bind _ _ _ (fun _ => P)).
  { intros h w x h' w' [Hc Hb]. unfold steadyNowMs, world. pose proof (steady_calm w) as C.
    destruct (steady_now w). intros [= <- <- <-]. split; [by eapply chain_calm|done]. }
  intros now. apply (triple_bind _ _ _ (fun _ => P)).
  { intros h w x h' w' [Hc Hb]. unfold sched_try. destruct (tryAcquire i now _). intros [= <- <- <-].
    split; [by apply (chain_same None h)|done]. }
  intros ok. destruct ok; cbn [when]; [|apply triple_ret; by intros h w []].
  apply (triple_bind _ _ _ (fun _ => chain None)).
  - apply (book_do_at i tt _ _ (fun _ => None)). intros v Hw Hv.
    pose proof (beginRefresh_chain bookCfg v Hv Hw). split; [done|]. split; [by apply (ch_weak bookCfg)|done].
  - intros _. apply requestSnapshot_chain.
Qed.

(** The event is refused: the hole is marked before the book is reset. *)
Lemma refused_chain i st t :
  (i < length uppers)%nat ->
  triple (chain (Some i))
    ((if bool_decide (st = VALID) then puts (fun h => h <| ctrSequenceGaps_ ::= Z.succ |>)
      else now <- steadyNowMs ;; sched_failure i now 0 0 (-1)) ;;;
     puts (fun h => h <| ctrResyncs_ ::= Z.succ |>) ;;;
     publishInvalid fuel i t ;;; book_set i (fun _ => reset))
    (fun _ => chain None).
Proof.
  intros Hi. apply (ensures_triple _ _ _ anything); [repeat chain_step|intros _ _].
  apply (ensures_triple _ _ _ anything); [chain_step|intros _ _].
  apply (triple_bind _ _ _ (fun _ h w => chain None h w /\ unmarked i (bookMgr_ h))).
  - intros h w u h' w' Hc E. apply (publishInvalid_chain (Some i)) in E as (? & ? & _); auto.
  - intros _. apply (book_do_at i tt _ _ (fun _ => None)). intros v Hp _. pose proof (reset_chain bookCfg v Hp) as Hr.
    split; [done|]. split; [by apply (ch_weak bookCfg)|done].
Qed.

Lemma bufferDelta_chain d v : state (sb v) = INIT -> chain_ok bookCfg v ->
  seen (snd (bufferDelta d v)) = seen v /\ chain_ok bookCfg (snd (bufferDelta d v)).
Proof.
  intros Hst Hc. destruct (bufferDelta_ranges d v) as (Es & _). destruct (bufferDelta_fields d v) as (F1 & F2 & F3 & _ & F5).
  split; [done|]. pose proof Hc as [[Hb Hr _] _].
  assert (refreshPending_ (sb v) = false) as Er by (destruct (refreshPending_ (sb v)); [|done]; by destruct (Hr eq_refl) as (_ & ? & _)).
  constructor; [constructor; rewrite ?F1, ?F3, ?Er, ?Hst; done|]. rewrite (seen_valid _ _ Es).
  intros Hp. apply (chain_state bookCfg) in Hp; [congruence|done].
Qed.

(** What [handleDelta] does with an event in state SYNCING or VALID. *)
Lemma take_event_chain i st d t (P : QH -> W -> Prop) :
  (i < length uppers)%nat -> ordered (qc_sync m) d ->
  triple (fun h w => chain None h w /\ P h w)
    (ok <- book_do i false (fun c => applyDelta c d) ;;
     if negb ok then
       (if bool_decide (st = VALID) then puts (fun h => h <| ctrSequenceGaps_ ::= Z.succ |>)
        else now <- steadyNowMs ;; sched_failure i now 0 0 (-1)) ;;;
       puts (fun h => h <| ctrResyncs_ ::= Z.succ |>) ;;;
       publishInvalid fuel i t ;;; book_set i (fun _ => reset)
     else
       valid <- book_get i false (fun _ => isValid) ;;
       when valid
         (when (bool_decide (st = SYNCING)) (puts (fun h => h <| snapshotScheduler_ ::= onSynced i |>)) ;;;
          maybePublish fuel i t ;;; refresh_if_wanted i)) (fun _ => chain None).
Proof.
  intros Hi Ho. apply (triple_bind _ _ _ (fun ok : bool => chain (if ok then None else Some i))).
  - apply (triple_pre _ (fun h w => chain None h w /\ at_book i (fun _ => True) (bookMgr_ h))); [|by intros h w [? _]].
    apply (book_do_at i false (fun c => applyDelta c d) _ (fun ok : bool => if ok then None else Some i)).
    intros v _ Hv. destruct (bookCfg_fields symbols m) as (_ & _ & _ & Hsync). rewrite <-Hsync in Ho.
    pose proof (applyDelta_chain bookCfg d v Hv (fun _ => Ho)) as Ha.
    destruct (applyDelta bookCfg d v) as [[] v']; destruct Ha as (? & ? & Hok); cbn [fst snd]; auto.
    split; [done|]. by split.
  - intros [|]; cbn [negb]; [|by apply refused_chain].
    eapply triple_pre; [apply (ensures_drop _ (fun _ _ => True) _ anything)|by intros h w ?].
    ensures_step; [apply book_get_chain|]. ensures_step. ensures_step; [repeat chain_step|].
    ensures_step; [by apply maybePublish_chain|by apply refresh_if_wanted_chain].
Qed.

Lemma handleDelta_chain i d t :
  (i < length uppers)%nat -> ordered (qc_sync m) d -> ensures (chain None) (handleDelta fuel i d t) anything.
Proof.
  intros Hi Ho. apply (triple_conseq (chain None) (chain None) _ _ (fun _ => chain None)); [|done|by intros ??? ?].
  unfold handleDelta. apply book_get_then; [done|]. intros st. destruct st; [|by apply take_event_chain..|].
  - apply (triple_bind _ _ _ (fun _ => chain None)).
    + apply (book_do_at i true _ _ (fun _ => None)). intros v Hv Hc. destruct (bufferDelta_chain d v Hv Hc) as [? ?].
      split; [done|]. split; [by apply (ch_weak bookCfg)|done].
    + intros _. eapply triple_pre; [eapply (ensures_drop _ (fun _ _ => True)), request_if_needed_chain|by intros h w ?].
  - apply (book_do_at i tt _ _ (fun _ => None)). intros v Hv Hc.
    assert (lastPublishedValid v = false) as Hp by
      (destruct (lastPublishedValid v) eqn:E; [|done]; apply (chain_state bookCfg) in E; [congruence|done]).
    pose proof (reset_chain bookCfg v Hp). split; [done|]. split; [by apply (ch_weak bookCfg)|done].
Qed.

Lemma processMessage_chain msg t :
  (forall sym d, parse_message (bool_decide (qc_sync m = Futures)) msg = Some (sym, d) -> ordered (qc_sync m) d) ->
  ensures (chain None) (processMessage fuel msg t) anything.
Proof.
  intros Hfeed. unfold processMessage.
  apply ensures_bind with (Q := fun f => f = bool_decide (qc_sync m = Futures)).
  { apply ensures_gets. intros h w [_ Hc _ _]. by rewrite Hc. }
  intros f ->. destruct (parse_message _ msg) as [[sym d]|] eqn:Ep; [|by chain_step].
  apply ensures_bind with (Q := fun i => forall j, i = Some j -> uppers !! j = Some sym).
  { apply ensures_gets. intros h w [Hm _ _ _] j Hj. by apply (mg_index _ Hm). }
  intros [i|] Hi; [|by ensures_step]. specialize (Hi i eq_refl).
  ensures_step; [by chain_step|]. apply handleDelta_chain; [by eapply lookup_lt_Some|]. by eapply Hfeed.
Qed.

(** ** Connections *)

Definition all_unmarked (g : OrderBookManager) : Prop := forall j, unmarked j g.

Lemma resetAll_chain qs g :
  manager_ok g -> books_chain None qs g -> all_unmarked g ->
  manager_ok (resetAll g) /\ books_chain None qs (resetAll g).
Proof.
  unfold resetAll. generalize (List.seq 0 (numSymbols g)). intros l. revert g.
  induction l as [|i l IH]; intros g Hm Hg Hu; cbn [fold_left]; [done|].
  assert (at_book i (fun v => lastPublishedValid v = false) g) as Hi by apply Hu.
  apply IH; unfold upd_sym.
  - by apply on_sym_manager.
  - apply on_sym_chain; [done|]. intros b Hb Hc. pose proof (reset_chain bookCfg _ (Hi _ Hb)).
    split; [done|]. split; [by apply (ch_weak bookCfg)|done].
  - intros j b Hb. rewrite on_sym_syms in Hb. case_decide; [|by apply Hu in Hb]. subst j.
    destruct (syms g !! i) as [b0|] eqn:E; [|done]. apply (inj Some) in Hb as <-. exact (Hu i b0 E).
Qed.

(** The connection to TP is up, as it is whenever the flag is set: every live
    row is followed by the mark of the hole, and the books start afresh. *)
Definition chain_up (h : QH) (w : W) : Prop := chain None h w /\ connected (tp_ h) = true.

Lemma mark_hole_chain t i (l : list nat) :
  (i < length uppers)%nat ->
  triple (fun h w => chain None h w /\ forall j, j ∈ l -> unmarked j (bookMgr_ h)) (mark_hole fuel t i)
    (fun _ h w => chain None h w /\ forall j, j ∈ l ++ [i] -> unmarked j (bookMgr_ h)).
Proof.
  intros Hi h w u h' w' [Hc Hl]. unfold mark_hole, bind, book_get, gets.
  destruct (at_sym i false _ _) eqn:Ev; cbn [when].
  - intros E. apply (publishInvalid_chain None) in E as (Hc' & Hui & Huj); [|by left|done|done].
    split; [done|]. intros j [Hj|Hj%list_elem_of_singleton]%elem_of_app; [by apply Huj, Hl|by subst j].
  - intros [= <- <- <-]. split; [done|]. intros j [Hj|Hj%list_elem_of_singleton]%elem_of_app; [by apply Hl|subst j].
    intros b Hb. unfold at_sym in Ev. by rewrite Hb in Ev.
Qed.

Lemma mark_all_chain t :
  triple (chain None) (n <- gets (fun h => numSymbols (bookMgr_ h)) ;; for_each (List.seq 0 n) (mark_hole fuel t))
    (fun _ h w => chain None h w /\ all_unmarked (bookMgr_ h)).
Proof.
  apply (ensures_triple _ _ _ (fun n => n = length uppers)).
  { apply ensures_gets. intros h w [[_ _ Hl _] _ _ _]. unfold numSymbols. congruence. }
  intros n ->.
  apply (triple_conseq _ (fun h w => chain None h w /\ forall j, j ∈ [] -> unmarked j (bookMgr_ h)) _ _
    (fun _ h w => chain None h w /\ forall j, j ∈ List.seq 0 (length uppers) -> unmarked j (bookMgr_ h))).
  - apply (triple_for_each _ _ (fun l h w => chain None h w /\ forall j, j ∈ l -> unmarked j (bookMgr_ h))).
    intros l1 i l2 E. apply mark_hole_chain.
    assert (i ∈ List.seq 0 (length uppers)) as Hin by (rewrite E; apply elem_of_app; right; left).
    apply elem_of_seq in Hin. lia.
  - intros h w Hc. split; [done|]. by intros j Hj%elem_of_nil.
  - intros _ h w [Hc Hl]. split; [done|]. intros j b Hb. apply (Hl j); [|done]. apply elem_of_seq.
    apply lookup_lt_Some in Hb. destruct Hc as [[_ _ Hlen _] _ _ _]. lia.
Qed.

Lemma reset_on_reconnect_chain : triple chain_up (reset_on_reconnect fuel) (fun _ => chain None).
Proof.
  unfold reset_on_reconnect. apply (triple_bind _ _ _ (fun _ => chain_up)).
  { apply triple_puts. intros h w [Hc Hu]. split; [by apply (chain_same None h)|done]. }
  intros _. apply (triple_bind _ _ _ (fun up h w => chain None h w /\ up = true)).
  { apply triple_gets. by intros h w []. }
  intros up. apply (triple_pure _ _ _ (up = true)); [by intros h w []|intros ->]. cbn [when].
  apply (triple_pre _ (chain None)); [|by intros h w []].
  apply (triple_bind _ _ _ (fun _ h w => chain None h w /\ all_unmarked (bookMgr_ h))).
  { apply (ensures_triple _ _ _ anything); [apply world_chain, system_calm|intros t _]. apply mark_all_chain. }
  intros _. apply (triple_bind _ _ _ (fun _ => chain None)).
  { apply triple_puts. intros h w [[Hm Hc (qs & rows & Hp & Hq & Hb) Hu] Hall].
    destruct (resetAll_chain qs (bookMgr_ h) Hm Hb Hall). constructor; try done. by exists qs, rows. }
  intros _. eapply triple_pre; [eapply (ensures_drop _ (fun _ _ => True) _ anything)|by intros h w ?].
  repeat chain_step.
Qed.

Lemma send_calm f args w k :
  (f = ".u.upd"%string -> forall row, args <> [ks (tc_table tpc); row]) -> calm w (snd (k_send k f args w)).
Proof. intros Hf. split; [by apply quiet_send|apply stopped_send]. Qed.

(** The health rows go to another table. *)
Hypothesis Htable : qc_tpTable m <> "health_feed_handler"%string.

Lemma publishHealth_chain x : ensures (chain x) publishHealth anything.
Proof.
  unfold publishHealth. ensures_step; [by ensures_step|]. ensures_step.
  ensures_step; [apply world_chain, system_calm|]. ensures_step; [by ensures_step|].
  ensures_step.
  { apply world_chain. intros w. apply send_calm. intros _ row. unfold ks. cbn. congruence. }
  unfold sendFhStats. destruct (handle_ (tp_ x2) <=? 0); [repeat chain_step|].
  ensures_step; [|by ensures_step]. apply world_chain. intros w. by apply send_calm.
Qed.

Lemma on_message_chain msg last :
  (forall sym d, parse_message (bool_decide (qc_sync m = Futures)) msg = Some (sym, d) -> ordered (qc_sync m) d) ->
  ensures (chain None) (on_message fuel msg last) anything.
Proof.
  intros Hfeed. unfold on_message.
  repeat first [by apply processMessage_chain | apply checkPublishTimeouts_chain | apply publishHealth_chain | chain_step].
Qed.

Lemma get_calm c target w : calm w (snd (get c target w)).
Proof.
  unfold get. case_match; [apply calm_refl|].
  pose proof (quiet_get (rc_host c) (rc_port c) target w). pose proof (stopped_get (rc_host c) (rc_port c) target w).
  by destruct (http_get _ _ _ _).
Qed.

Lemma worker_turns_calm c limit n wk w : calm w (snd (worker_turns c limit n wk w)).
Proof.
  revert wk w. induction n as [|n IH]; intros wk w; cbn [worker_turns]; [apply calm_refl|].
  assert (calm w (snd (worker_turn c limit wk w))) as Hone.
  { unfold worker_turn. destruct (thread wk) as [| |r|]; try apply calm_refl. unfold fetchSnapshot.
    pose proof (get_calm c (rc_path c +:+ "?symbol=" +:+ rq_sym r +:+ "&limit=" +:+ to_string limit)%string w) as Hg.
    destruct (get c _ w) as [x w1]. cbn [snd] in *. destruct (negb (String.eqb (hr_error x) "")); [done|].
    by destruct (negb (hr_status x =? 200)). }
  destruct (worker_turn c limit wk w) as [wk1 w1]. eapply calm_trans; [exact Hone|apply IH].
Qed.

Lemma background_chain x : ensures (chain x) background anything.
Proof.
  intros h w y h' w' Hc. unfold background.
  assert (calm w (snd (worker_steps w))) as C1 by (split; [apply quiet_steps|apply stopped_steps]).
  destruct (worker_steps w) as [n w1]. cbn [snd] in C1.
  pose proof (worker_turns_calm (mkRestClient (qc_restHost (qcfg h)) (qc_restPort (qcfg h)) (qc_restPath (qcfg h)))
    (qc_snapshotLimit (qcfg h)) n (snapshotWorker_ h) w1) as C2.
  destruct (worker_turns _ _ n _ w1) as [wk w2]. cbn [snd] in C2. intros [= <- <- <-]. split; [|done].
  apply (chain_calm x _ w); [by eapply calm_trans|]. by apply (chain_same x h).
Qed.

(** ** The loops *)

(** A futures event does not end before it starts. *)
Hypothesis Hfeed : forall w msg sym d,
  fst (ws_read w) = Some msg -> parse_message (bool_decide (qc_sync m = Futures)) msg = Some (sym, d) ->
  ordered (qc_sync m) d.

Lemma running_chain x : ensures (chain x) (world is_running) anything.
Proof. apply world_chain, running_calm. Qed.

Lemma message_loop_chain frames last : ensures (chain None) (message_loop fuel frames last) anything.
Proof.
  revert last. induction frames as [|frames IH]; intros last; cbn [message_loop]; [by intros ? ? ? ? ?|].
  ensures_step; [apply running_chain|]. ensures_step; [by ensures_step|].
  ensures_step; [apply background_chain|]. ensures_step; [apply applySnapshotResults_chain|].
  ensures_step; [apply background_chain|].
  apply ensures_bind with (Q := fun o => forall msg sym d, o = Some msg ->
    parse_message (bool_decide (qc_sync m = Futures)) msg = Some (sym, d) -> ordered (qc_sync m) d).
  { intros h w o h' w' Hc. unfold world.
    assert (calm w (snd (ws_read w))) as C by (split; [apply quiet_read|apply stopped_wsread]).
    pose proof (Hfeed w) as Hf. destruct (ws_read w) as [o1 w1]. cbn [fst snd] in *. intros [= <- <- <-].
    split; [by eapply chain_calm|]. intros msg sym d ->. by apply Hf. }
  intros [msg|] Hmsg; [|by ensures_step].
  ensures_step; [apply running_chain|]. ensures_step; [by ensures_step|].
  ensures_step; [|apply IH]. apply on_message_chain. intros sym d. by apply Hmsg.
Qed.

Lemma runWebSocketLoop_chain frames : triple chain_up (runWebSocketLoop fuel frames) (fun _ => chain None).
Proof.
  unfold runWebSocketLoop. apply (triple_bind _ _ _ (fun _ => chain_up)); [by apply triple_gets|intros target].
  apply (triple_bind _ _ _ (fun _ => chain None)); [apply reset_on_reconnect_chain|intros _].
  eapply triple_pre; [eapply (ensures_drop _ (fun _ _ => True) _ anything)|by intros h w ?].
  repeat first [apply message_loop_chain | apply running_chain | chain_step].
  - intros h w. apply chain_calm. split; [apply quiet_connect|apply stopped_connect].
  - intros h w. apply chain_calm. split; [apply quiet_ws_close|apply stopped_wsclose].
Qed.

Lemma sleep_calm mult initial max n w : calm w (snd (sleepWithBackoff mult initial max n w)).
Proof. split; [apply sleepWithBackoff_same|apply sleepWithBackoff_stopped]. Qed.

Lemma run_loop_chain rounds frames : triple (chain None) (run_loop fuel rounds frames) (fun _ => chain None).
Proof.
  induction rounds as [|rounds IH]; cbn [run_loop]; [by intros ? ? ? ? ?|].
  assert (triple (chain None) (world is_running) (fun r h w => chain None h w /\ (r = true -> connected (tp_ h) = true))) as Hrun.
  { intros h w r h' w' Hc. unfold world. pose proof (running_calm w) as C. pose proof (stopped_reads w) as Hst.
    destruct (is_running w) as [r1 w1]. cbn [fst snd] in *. intros [= <- <- <-]. split; [by eapply chain_calm|].
    intros ->. destruct Hc as [_ _ _ [|Hs]]; [done|]. by destruct (Hst Hs). }
  apply (triple_bind _ _ _ _ _ Hrun). intros [|]; cbn [negb].
  2: { apply triple_ret. by intros h w []. }
  apply (triple_bind _ _ _ (fun _ => chain None)).
  { apply (triple_pre _ chain_up); [apply runWebSocketLoop_chain|]. intros h w [? Hu]. split; auto. }
  intros [|]; [|done]. apply (ensures_triple _ _ _ anything); [apply running_chain|intros [|] _]; cbn [negb]; [|done].
  do 3 (apply (ensures_triple _ _ _ anything); [by chain_step|intros ? _]).
  apply (ensures_triple _ _ _ anything); [apply world_chain; intros w; apply sleep_calm|intros [|] _]; [done|].
  by apply triple_ret.
Qed.

Lemma new_manager_ok now : manager_ok (newManager uppers (bookConfigOf m) now).
Proof.
  constructor; [done|done|by cbn; rewrite length_replicate|].
  unfold getSymbolIndex, newManager. cbn [symToIdx]. intros s i Hs.
  apply index_symbols_spec in Hs as [Hs|[_ Hs]]; [done|]. by rewrite Nat.sub_0_r in Hs.
Qed.

Lemma new_books_chain now : books_chain None [] (newManager uppers (bookConfigOf m) now).
Proof.
  intros i b Hb. unfold newManager in Hb. cbn [syms] in Hb. apply lookup_replicate in Hb as [-> _].
  assert (chain_ok bookCfg (mkView (new_SymBook now) (ctrs (newManager uppers (bookConfigOf m) now)))) as Hc by (by constructor).
  split; [done|]. split; [by intros ? ? ? ?|]. split; [by apply (ch_weak bookCfg)|done].
Qed.

Lemma run_chain rounds frames steadyNs w0 h w :
  t_last w0 = None -> t_log w0 = [] ->
  run fuel rounds frames (newQuoteFeedHandler symbols m tpHost tpPort startNs steadyNs) w0 = Some (tt, h, w) ->
  (exists h1 w1, chain None h1 w1 /\ fhSeqNo_ h = fhSeqNo_ h1 /\
     rowsUnresendable_ (tp_ h1) = rowsUnresendable_ (tp_ h) /\ t_same w1 w) \/
  (fhSeqNo_ h = 0 /\ t_log w = []).
Proof.
  intros Hl Hlog. unfold run, bind at 1, puts. set (h0 := _ <| snapshotWorker_ ::= start |>).
  assert (manager_ok (bookMgr_ h0) /\ books_chain None [] (bookMgr_ h0) /\ qcfg h0 = m /\ fhSeqNo_ h0 = 0 /\
    tp_ h0 = newTpPublisher tpc) as (Hm & Hb & Hc & Hn & Ht)
    by (split; [apply new_manager_ok|]; by split; [apply new_books_chain|]).
  clearbody h0. unfold bind at 1. rewrite Ht, Hn. change (0 + 1) with 1.
  destruct (connect fuel 1 (newTpPublisher tpc) w0) as [[[ok p1] w1]|] eqn:Ec; [|done].
  destruct (connect_published tpc anything _ _ _ _ _ Hl Hlog Ec) as [Hp Hlog1].
  destruct ok; cbn [negb]; [|intros [= <- <-]; by right]. specialize (Hp eq_refl).
  unfold connect in Ec. apply connect_loop_up in Ec as [_ Hup].
  unfold bind at 1. intros E. left. revert E. set (h1 := h0 <| tp_ := p1 |>).
  assert (chain None h1 w1) as Hch.
  { constructor; [done|done| |done]. exists [], []. unfold h1. cbn [fhSeqNo_ tp_ modify eta_QuoteFeedHandler].
    rewrite Hn. split; [done|]. by split. }
  clearbody h1. destruct (run_loop fuel rounds frames h1 w1) as [[[[] h2] w2]|] eqn:Er; [|done].
  apply run_loop_chain in Er; [|done]. exists h2, w2. split; [done|]. revert E.
  unfold bind. destruct (close _ w2) as [p3 w3] eqn:Ecl. intros [= <- <-].
  unfold close in Ecl. cbn [tp_ modify eta_QuoteFeedHandler] in *.
  destruct (0 <? handle_ (tp_ h2)); injection Ecl as <- <-; (split; [done|]); (split; [done|]);
    [apply law_close|apply t_same_refl].
Qed.
End inv.
End handler.

(** C2: no hole goes unmarked. For any run of the quote handler, whatever the
    exchange sends (a futures event only must not end before the event it says it
    follows) and whatever connections are lost on either side: take the rows of one
    symbol in their order. From each row marked valid to the next, if that is valid
    too, no update id is skipped: the second is not beyond the
    first, or its id range starts no later than right after the first's last id.
    Wherever ids are missing a row marked invalid stands in between. The rows are
    the ones TP's log holds, in order and once each. *)
Theorem every_hole_is_marked (symbols : list string) (m : QuoteMarketConfig) (tpHost : string)
    (tpPort startNs : Z) {W V : Type}
    `{TpSession W (tpConfigOf m tpHost tpPort startNs) row_seq} `{Host W} `{WebSocket W} `{HttpLib W}
    `{Background W} `{JsonLib V} `{!TpQuiet W (tpConfigOf m tpHost tpPort startNs)} `{!FlagStays W}
    fuel rounds frames steadyNs (w0 w : W) h :
  0 <= qc_depth m -> NoDup (uppers symbols) -> qc_tpTable m <> "health_feed_handler"%string ->
  (forall w msg sym d, fst (ws_read w) = Some msg ->
     parse_message (bool_decide (qc_sync m = Futures)) msg = Some (sym, d) -> ordered (qc_sync m) d) ->
  t_last w0 = None -> t_log w0 = [] ->
  run fuel rounds frames (newQuoteFeedHandler symbols m tpHost tpPort startNs steadyNs) w0 = Some (tt, h, w) ->
  exists rows qs,
    Forall2 (row_of m) rows qs /\ fhSeqNo_ h = Z.of_nat (length rows) /\
    t_log w `sublist_of` rows /\
    (rowsUnresendable_ (tp_ h) = 0 -> t_log w `prefix_of` rows) /\
    forall s, s ∈ uppers symbols -> adjacent (no_hole (qc_sync m)) (quotes_of s qs).
Proof.
  intros Hd Hnd Htab Hfeed Hl Hlog Hrun.
  destruct (run_chain symbols m tpHost tpPort startNs Hd Hnd fuel Htab Hfeed _ _ _ _ _ _ Hl Hlog Hrun)
    as [(h1 & w1 & [Hm _ (qs & rows & Hp & Hq & Hb) _] & Hn & Hu & Hs)|[Hn Hempty]].
  - exists rows, qs. destruct (published_log _ _ _ _ _ _ Hp) as (l & _ & Hbound & Hsub & _ & Hall).
    destruct Hp as [_ _ _ Hc _], Hs as (_ & -> & _). split; [done|]. split; [congruence|].
    split; [etrans; [exact Hsub|apply sublist_take]|].
    split; [intros Hz; rewrite Hall by (by rewrite Hu); apply prefix_take|].
    intros s [i Hi]%list_elem_of_lookup. rewrite <-(symName_lookup symbols i s Hi).
    destruct Hm as [_ _ Hlen _]. apply lookup_lt_Some in Hi.
    destruct (lookup_lt_is_Some_2 (syms (bookMgr_ h1)) i) as [b Hbi]; [lia|].
    by destruct (Hb _ _ Hbi) as (_ & ? & _).
  - exists [], []. rewrite Hempty. split; [done|]. split; [done|]. split; [done|]. split; [done|]. by intros ? ? ? ? ?.
Qed.
