(* ===== verification/QuoteLive.v ===== *)
(** * No symbol waits for a snapshot for ever

    A request may be lost: the worker's queue may be full, the answer may never
    come or come too late. This file shows that the handler never forgets one it
    waits for. A symbol marked as waiting always has the time of its request
    noted, so that the timeout of [applySnapshotResults] finds it; after that it
    may ask again. Nothing is assumed about the exchange, TP or the schedule. *)

From S2P Require Import Prelude Double CStdlib JsonReader MarketConfig Effects Backoff RowClock.
From S2P Require Import KObject TpPublisher Scheduler BookSide RestClient SnapshotWorker.
From S2P Require Import OrderBook OrderBookSpec BookProps Rows QuoteHandler QuoteChain.

Open Scope Z_scope.
Local Open Scope rec_scope.
Local Open Scope effect_scope.

Local Abbreviation QH := QuoteFeedHandler.

(** Does symbol [i] wait for a snapshot, is it for a refresh, and since when? *)
Definition book_flag (f : SymBook -> bool) (i : nat) (g : OrderBookManager) : bool :=
  match syms g !! i with Some b => f b | None => false end.
Definition waits (i : nat) (h : QH) : bool := book_flag snapshotRequested i (bookMgr_ h).
Definition refreshes (i : nat) (h : QH) : bool := book_flag refreshPending_ i (bookMgr_ h).
Definition since (i : nat) (h : QH) : Z := vget (snapshotRequestedAtMs_ h) i.

(** Every wait has a start [ok] says is right; [x] is a symbol whose request is
    just being made or given up. A refresh waits for its snapshot. *)
Record waiting (ok : nat -> Z -> Prop) (x : option nat) (h : QH) : Prop := {
  wt_length : length (snapshotRequestedAtMs_ h) = length (syms (bookMgr_ h));
  wt_since i : x <> Some i -> waits i h = true -> ok i (since i h);
  wt_refresh i : refreshes i h = true -> waits i h = true
}.

Lemma book_flag_on_sym {R} f i (d : R) g0 (F : View -> R * View) j :
  book_flag f j (snd (on_sym i d F g0)) =
    if decide (i = j) then
      match syms g0 !! i with Some b => f (sb (snd (F (mkView b (ctrs g0))))) | None => false end
    else book_flag f j g0.
Proof. unfold book_flag. rewrite on_sym_syms. case_decide; [|done]. by destruct (syms g0 !! i). Qed.

Lemma on_sym_length {R} i (d : R) F g : length (syms (snd (on_sym i d F g))) = length (syms g).
Proof.
  unfold on_sym. destruct (syms g !! i); [|done]. destruct (F _). cbn. by rewrite length_insert.
Qed.

(** Calls that make no request: what they leave of a wait. *)
Definition settles_wait (v v' : View) : Prop :=
  (snapshotRequested (sb v') = true -> snapshotRequested (sb v) = true) /\
  (refreshPending_ (sb v') = true -> refreshPending_ (sb v) = true /\ snapshotRequested (sb v') = snapshotRequested (sb v)).

(** Events and publications leave it alone. *)
Definition same_wait (v v' : View) : Prop :=
  snapshotRequested (sb v') = snapshotRequested (sb v) /\ refreshPending_ (sb v') = refreshPending_ (sb v).
Lemma same_settles v v' : same_wait v v' -> settles_wait v v'.
Proof. unfold same_wait, settles_wait. by intros [-> ->]. Qed.
Lemma same_wait_trans v1 v2 v3 : same_wait v1 v2 -> same_wait v2 v3 -> same_wait v1 v3.
Proof. intros [? ?] [? ?]. split; congruence. Qed.

Lemma bufferDelta_wait d v : same_wait v (snd (bufferDelta d v)).
Proof. unfold bufferDelta. by case_match. Qed.

Lemma shadowEvent_wait cfg d v : same_wait v (shadowEvent cfg d v).
Proof. unfold shadowEvent. by destruct (checkSequence _ _ _) as [[] ?]. Qed.

Lemma applyEvent_wait cfg d v : same_wait v (applyEvent cfg d v).
Proof.
  unfold applyEvent, same_wait. generalize (applyLevels cfg (bids d) (asks d) (book (sb v))). intros b. fields.
  by repeat case_match.
Qed.

Lemma after_event_wait cfg d v : same_wait v (after_event cfg d v).
Proof.
  unfold after_event. set (v1 := if refreshPending_ (sb v) then _ else v).
  assert (same_wait v v1) as H1 by (unfold v1; case_match; [apply bufferDelta_wait|done]). cbv zeta.
  case_match; [|done]. eapply same_wait_trans; [exact H1|apply shadowEvent_wait].
Qed.

Lemma applyDelta_wait cfg d v : same_wait v (snd (applyDelta cfg d v)).
Proof.
  destruct (decide (state (sb v) = SYNCING \/ state (sb v) = VALID)) as [Hs|Hs].
  2: { unfold applyDelta. destruct (state (sb v)); tauto || done. }
  rewrite applyDelta_eq by done. destruct (checkSequence cfg (seq (sb v)) d) as [vd s']. cbv zeta.
  assert (same_wait v (v <|. seq := s' |>)) as H1 by done. revert H1. generalize (v <|. seq := s' |>). intros v1 H1.
  eapply same_wait_trans; [exact H1|]. destruct vd; cbn [snd]; [apply after_event_wait| |done].
  eapply same_wait_trans; [apply applyEvent_wait|apply after_event_wait].
Qed.

Lemma replay_wait cfg buf v : same_wait v (snd (replay cfg buf v)).
Proof.
  revert v. induction buf as [|d buf IH]; intros v; cbn [replay]; [done|].
  pose proof (applyDelta_wait cfg d v). destruct (applyDelta cfg d v) as [[] v1]; cbn [snd] in *; [|done].
  by eapply same_wait_trans.
Qed.

(** A snapshot ends the wait, whatever it is good for. *)
Lemma onSnapshot_wait cfg id bs asks v :
  let v' := snd (onSnapshot cfg id bs asks v) in
  snapshotRequested (sb v') = false /\ refreshPending_ (sb v') = false.
Proof.
  cbv zeta. unfold onSnapshot. fields. case_match.
  - destruct (finishRefresh cfg id bs asks _) as [o v'] eqn:E. apply finishRefresh_cases in E as (_ & Hr & Hq & _).
    cbn [snd]. by rewrite Hr, Hq.
  - case_match; [done|]. set (v0 := applySnapshot _ _ _ _ _). destruct (replay_wait cfg (deltaBuffer (sb v0)) v0) as [E1 E2].
    destruct (replay cfg _ v0) as [ok v1]. cbn [snd] in *. destruct ok; cbn [negb snd]; fields; by rewrite E1, E2.
Qed.

(** ** The handler's methods *)

Section handler.
Context {W V : Type} `{Process W} `{TpLink W} `{Host W} `{WebSocket W} `{HttpLib W} `{Background W} `{JsonLib V}.
Context (fuel : nat).

Section keeps.
Context (ok : nat -> Z -> Prop) (x : option nat).

Definition waits_ok (h : QH) (_ : W) : Prop := waiting ok x h.
Definition keeps_wait {A} (mm : M QH W A) : Prop := ensures waits_ok mm anything.

Lemma waiting_same h h' :
  bookMgr_ h' = bookMgr_ h -> snapshotRequestedAtMs_ h' = snapshotRequestedAtMs_ h -> waiting ok x h -> waiting ok x h'.
Proof. intros E1 E2 []. constructor; unfold waits, refreshes, since in *; by rewrite ?E1, ?E2. Qed.

Lemma puts_wait f :
  (forall h, bookMgr_ (f h) = bookMgr_ h /\ snapshotRequestedAtMs_ (f h) = snapshotRequestedAtMs_ h) ->
  keeps_wait (puts f).
Proof. intros Hf. apply ensures_puts. intros h w. destruct (Hf h). by apply waiting_same. Qed.
Lemma world_wait {A} (f : W -> A * W) : keeps_wait (world f).
Proof. by apply ensures_world. Qed.
Lemma steady_wait : keeps_wait steadyNowMs.
Proof. apply world_wait. Qed.
Lemma book_get_wait {R} i (d : R) f : keeps_wait (book_get i d f).
Proof. by apply ensures_gets. Qed.
Lemma try_wait i now : keeps_wait (sched_try i now).
Proof.
  intros h w y h' w' Hw. unfold sched_try. destruct (tryAcquire i now _). intros [= <- <- <-].
  split; [by apply (waiting_same h)|done].
Qed.
Lemma failure_wait i now st ra u : keeps_wait (sched_failure i now st ra u).
Proof. unfold sched_failure. apply ensures_bind with (Q := anything); [apply world_wait|intros j _; by apply puts_wait]. Qed.

(** A call that makes no request, from what is known of the book. *)
Lemma book_do_wait {R} i (d : R) f (phi : View -> Prop) :
  (forall c v, phi v -> settles_wait v (snd (f c v))) ->
  triple (fun h w => waits_ok h w /\ at_book i phi (bookMgr_ h)) (book_do i d f) (fun _ => waits_ok).
Proof.
  intros Hf h w r h' w' [[Hl Hs Hr] Hphi]. unfold book_do.
  pose proof (on_sym_length i d (f (OrderBook.cfg_ (bookMgr_ h))) (bookMgr_ h)) as Hlen.
  assert (forall j, book_flag snapshotRequested j (snd (on_sym i d (f (OrderBook.cfg_ (bookMgr_ h))) (bookMgr_ h))) = true ->
    waits j h = true) as Hw1.
  { intros j. rewrite book_flag_on_sym. case_decide; [|done]. subst j. unfold waits, book_flag.
    destruct (syms (bookMgr_ h) !! i) as [b|] eqn:E; [|done]. apply (Hf _ _ (Hphi _ E)). }
  assert (forall j, book_flag refreshPending_ j (snd (on_sym i d (f (OrderBook.cfg_ (bookMgr_ h))) (bookMgr_ h))) = true ->
    book_flag snapshotRequested j (snd (on_sym i d (f (OrderBook.cfg_ (bookMgr_ h))) (bookMgr_ h))) = true) as Hw2.
  { intros j. rewrite !book_flag_on_sym. case_decide; [|apply Hr]. subst j. specialize (Hr i).
    unfold refreshes, waits, book_flag in Hr. destruct (syms (bookMgr_ h) !! i) as [b|] eqn:E; [|done].
    intros Hp. destruct (proj2 (Hf _ _ (Hphi _ E)) Hp) as [Hp0 ->]. by apply Hr. }
  destruct (on_sym _ _ _ _) as [r0 g]. cbn [snd] in *. intros [= <- <- <-].
  constructor; cbn [bookMgr_ snapshotRequestedAtMs_ modify eta_QuoteFeedHandler] in *.
  - congruence.
  - intros j Hj Hw. apply Hs; [done|]. by apply Hw1.
  - exact Hw2.
Qed.

Lemma book_do_keeps {R} i (d : R) f : (forall c v, settles_wait v (snd (f c v))) -> keeps_wait (book_do i d f).
Proof.
  intros Hf. eapply triple_conseq; [apply (book_do_wait i d f (fun _ => True)); intros c v _; apply Hf| |].
  - by intros h w ?.
  - by intros r h w ?.
Qed.
Lemma book_set_wait i f : (forall c v, settles_wait v (f c v)) -> keeps_wait (book_set i f).
Proof. apply (book_do_keeps i tt (fun c v => (tt, f c v))). Qed.
End keeps.

Lemma cancel_settles v : settles_wait v (cancelRefresh v).
Proof. unfold cancelRefresh. destruct (refreshPending_ (sb v)) eqn:E; cbn [negb]; [|by apply same_settles]. by split. Qed.
Lemma reset_settles v : settles_wait v (reset v).
Proof. by split. Qed.

(** A call after which symbol [i] no longer waits. *)
Lemma book_clear {R} ok i (d : R) f (phi : View -> Prop) :
  (forall c v, phi v -> settles_wait v (snd (f c v)) /\ snapshotRequested (sb (snd (f c v))) = false) ->
  triple (fun h w => waits_ok ok (Some i) h w /\ at_book i phi (bookMgr_ h)) (book_do i d f) (fun _ => waits_ok ok None).
Proof.
  intros Hf h w r h' w' [Hw Hphi] E.
  assert (waits i h' = false) as Hi.
  { revert E. unfold book_do. pose proof (book_flag_on_sym snapshotRequested i d (bookMgr_ h) (f (OrderBook.cfg_ (bookMgr_ h))) i) as Ef.
    rewrite decide_True in Ef by done. destruct (on_sym _ _ _ _) as [r0 g]. intros [= <- <- <-]. unfold waits. cbn in *.
    rewrite Ef. destruct (syms (bookMgr_ h) !! i) as [b|] eqn:Eb; [|done]. apply (Hf _ _ (Hphi _ Eb)). }
  apply (book_do_wait ok (Some i) i d f phi) in E as [Hl Hs Hr]; [|intros c v Hv; by apply Hf|done].
  constructor; [done| |done]. intros j _ Hj. apply Hs; [|done]. congruence.
Qed.

(** The end of a failed wait: [cancelRefresh], then [setSnapshotRequested(false)]. *)
Definition given_up (ok : nat -> Z -> Prop) (i : nat) (h : QH) (w : W) : Prop :=
  waits_ok ok (Some i) h w /\ at_book i (fun v => refreshPending_ (sb v) = false) (bookMgr_ h).

Lemma cancel_wait ok i :
  triple (waits_ok ok (Some i)) (book_set i (fun _ => cancelRefresh)) (fun _ => given_up ok i).
Proof.
  intros h w u h' w' Hw E. split; [by eapply (book_set_wait ok (Some i) i _ (fun _ => cancel_settles)) in E as [? _]|].
  revert E. unfold book_set, book_do. pose proof (fun j => on_sym_syms i tt (fun v => (tt, cancelRefresh v)) (bookMgr_ h) j) as Es.
  destruct (on_sym _ _ _ _) as [r0 g]. cbn [snd] in Es. intros [= <- <- <-]. intros b Hb. cbn in Hb. rewrite Es in Hb.
  rewrite decide_True in Hb by done. destruct (syms (bookMgr_ h) !! i) as [b0|]; [|done]. apply (inj Some) in Hb as <-.
  unfold cancelRefresh. cbn [sb]. by destruct (refreshPending_ b0) eqn:Er.
Qed.

Lemma clear_wait ok i :
  triple (given_up ok i) (book_set i (fun _ => setSnapshotRequested false)) (fun _ => waits_ok ok None).
Proof. apply book_clear. intros _ v Hv. split; [|done]. split; [done|]. cbn. congruence. Qed.

Lemma waiting_mono ok ok' x x' h :
  x = None \/ x = x' -> (forall j s, x' <> Some j -> ok j s -> ok' j s) -> waiting ok x h -> waiting ok' x' h.
Proof.
  intros Hx Hok []. constructor; [done| |done]. intros j Hj Hw. apply Hok; [done|].
  apply wt_since0; [by destruct Hx as [->| ->]|done].
Qed.

(** The start of a wait is set, or forgotten. *)
Lemma start_wait ok ok' x x' i t :
  (x = None \/ x = x' \/ x = Some i) -> (forall j s, x' <> Some j -> j <> i -> ok j s -> ok' j s) ->
  x' = Some i \/ ok' i t ->
  triple (waits_ok ok x) (puts (fun h => h <| snapshotRequestedAtMs_ ::= <[i := t]> |>)) (fun _ => waits_ok ok' x').
Proof.
  intros Hx Hok Ht. apply triple_puts. intros h w [Hl Hs Hr].
  constructor; unfold waits, refreshes, since in *; cbn [bookMgr_ snapshotRequestedAtMs_ modify eta_QuoteFeedHandler]; [|intros j Hj Hw|done].
  - by rewrite length_insert.
  - destruct (decide (j = i)) as [->|Hji].
    + assert (i < length (snapshotRequestedAtMs_ h))%nat as Hi.
      { rewrite Hl. unfold book_flag in Hw. destruct (syms _ !! i) eqn:E; [|done]. by eapply lookup_lt_Some. }
      unfold vget. rewrite list_lookup_insert_eq by done. by destruct Ht.
    + unfold vget. rewrite list_lookup_insert_ne by done. apply Hok; [done|done|]. apply Hs; [|done].
      intros E. by destruct Hx as [->|[->| ->]]; simplify_eq.
Qed.

(** A request is marked before its time is noted. *)
Lemma ask_wait ok x i f :
  x = None \/ x = Some i -> (forall c v, snapshotRequested (sb (f c v)) = true) ->
  triple (waits_ok ok x) (book_set i f) (fun _ => waits_ok ok (Some i)).
Proof.
  intros Hx Hf h w u h' w' [Hl Hs Hr]. unfold book_set, book_do.
  set (F := fun v => (tt, f (OrderBook.cfg_ (bookMgr_ h)) v)).
  pose proof (on_sym_length i tt F (bookMgr_ h)) as Hlen.
  pose proof (fun g j => book_flag_on_sym g i tt (bookMgr_ h) F j) as Hflag.
  destruct (on_sym i tt F (bookMgr_ h)) as [r0 g]. cbn [snd] in *. intros [= <- <- <-].
  constructor; unfold waits, refreshes, since in *; cbn [bookMgr_ snapshotRequestedAtMs_ modify eta_QuoteFeedHandler]; [congruence|intros j Hj|intros j]; rewrite ?Hflag.
  - rewrite decide_False by congruence. apply Hs. by destruct Hx as [->| ->].
  - case_decide; [|apply Hr]. subst j. destruct (syms (bookMgr_ h) !! i); [|done]. intros _. apply Hf.
Qed.

Lemma requestSnapshot_wait ok x i :
  x = None \/ x = Some i -> (forall w, ok i (Z.quot (fst (steady_now w)) 1000000)) ->
  triple (waits_ok ok x) (requestSnapshot i) (fun _ => waits_ok ok None).
Proof.
  intros Hx Ht. unfold requestSnapshot. apply (ensures_triple _ _ _ anything); [by apply ensures_gets|intros sym _].
  apply (triple_bind _ _ _ (fun _ => waits_ok ok (Some i))); [by apply ask_wait|intros _].
  apply (triple_bind _ _ _ (fun t h w => waits_ok ok (Some i) h w /\ ok i t)).
  { intros h w t h' w' Hw. unfold steadyNowMs, world. specialize (Ht w). destruct (steady_now w). by intros [= <- <- <-]. }
  intros t. apply (triple_pure _ _ _ (ok i t)); [by intros ? ? []|intros Hok].
  apply (triple_pre _ (waits_ok ok (Some i))); [|by intros ? ? []].
  apply (triple_bind _ _ _ (fun _ => waits_ok ok None)); [apply start_wait; [by auto|done|by right]|intros _].
  apply triple_puts. intros h w. destruct (enqueueRequest (Z.of_nat i) sym (snapshotWorker_ h)). by apply waiting_same.
Qed.

Ltac wait_step :=
  first [simple apply world_wait | simple apply steady_wait | simple apply book_get_wait | simple apply try_wait | simple apply failure_wait
        | simple apply book_set_wait; intros ? ?; first [by apply same_settles | apply cancel_settles | apply reset_settles]
        | simple apply puts_wait; by intros ?
        | ensures_step].

(** A request that has been waited for too long is given up. *)
Lemma expire_wait ok now i :
  (forall s, ok i s -> s <> 0) ->
  triple (waits_ok ok None) (expire_request now i)
    (fun _ => waits_ok (fun j s => ok j s /\ (j = i -> now - s <= SNAPSHOT_TIMEOUT_MS)) None).
Proof.
  intros Hok. unfold expire_request.
  apply (triple_bind _ _ _ (fun a h w => waits_ok ok None h w /\ a = since i h)); [by apply triple_gets|intros a].
  destruct (negb (a =? 0) && _) eqn:Ea; cbn [when].
  - apply (triple_pre _ (waits_ok ok None)); [|by intros ? ? []].
    apply (ensures_triple _ _ _ anything); [wait_step|intros _ _].
    apply (triple_bind _ _ _ (fun _ => waits_ok (fun j s => ok j s /\ (j = i -> now - s <= SNAPSHOT_TIMEOUT_MS)) (Some i))).
    { apply start_wait; [by left| |by left]. intros j s Hj Hji Hs. by split. }
    intros _. apply (triple_bind _ _ _ _ _ (cancel_wait _ i)). intros _. apply (triple_bind _ _ _ _ _ (clear_wait _ i)). intros _.
    eapply triple_pre; [eapply (ensures_drop _ (fun _ _ => True) _ anything)|by intros h w ?]. repeat wait_step.
  - apply triple_ret. intros h w [[Hl Hs Hr] ->]. constructor; [done| |done]. intros j _ Hj. pose proof (Hs j ltac:(done) Hj) as Hsj.
    split; [done|]. intros ->. pose proof (Hok _ Hsj). lia.
Qed.

Lemma apply_result_wait ok now r : keeps_wait ok None (apply_result now r).
Proof.
  unfold keeps_wait, apply_result. do 2 wait_step.
  apply (triple_conseq (waits_ok ok None) (waits_ok ok None) _ _ (fun _ => waits_ok ok None)); [|done|by intros ? ? ? ?].
  set (i := Z.to_nat (rs_symIdx r)).
  apply (triple_bind _ _ _ (fun _ => waits_ok ok (Some i))); [apply start_wait; auto|intros _].
  destruct (negb _).
  - do 2 (apply (ensures_triple _ _ _ anything); [wait_step|intros _ _]).
    apply (triple_bind _ _ _ _ _ (cancel_wait ok i)). intros _. apply clear_wait.
  - apply (ensures_triple _ _ _ anything); [wait_step|intros _ _].
    apply (triple_bind _ _ _ (fun _ => waits_ok ok None)).
    { apply (triple_pre _ (fun h w => waits_ok ok (Some i) h w /\ at_book i (fun _ => True) (bookMgr_ h))); [|by intros h w ?].
      apply book_clear. intros c v _. destruct (onSnapshot_wait c (sd_lastUpdateId (rs_data r)) (sd_bids (rs_data r)) (sd_asks (rs_data r)) v) as [E1 E2].
      split; [|done]. by split; rewrite ?E1, ?E2. }
    intros o. eapply triple_pre; [eapply (ensures_drop _ (fun _ _ => True) _ anything)|by intros h w ?]. repeat wait_step.
Qed.
(** Every request still open when it comes to the results has been given its time. *)
Lemma applySnapshotResults_bound h w h' w' :
  waiting (fun _ t => 0 < t) None h -> applySnapshotResults h w = Some (tt, h', w') ->
  let now := Z.quot (fst (steady_now w)) 1000000 in
  waiting (fun i s => 0 < s /\ waits i h = true /\ s = since i h /\ now - s <= SNAPSHOT_TIMEOUT_MS) None h'.
Proof.
  intros Hw E now. set (ok := fun i s => 0 < s /\ waits i h = true /\ s = since i h).
  set (late := fun (l : list nat) i s => ok i s /\ (i ∈ l -> now - s <= SNAPSHOT_TIMEOUT_MS)).
  set (n := length (snapshotRequestedAtMs_ h)).
  assert (waiting (late []) None h) as H0'.
  { destruct Hw as [Hl Hs Hr]. constructor; [done| |done]. intros i _ Hi. split; [split; [by apply Hs|done]|].
    by intros ?%elem_of_nil. }
  revert E. unfold applySnapshotResults, bind at 1, steadyNowMs, world. subst now.
  destruct (steady_now w) as [t w1]. cbn [fst] in *. unfold bind at 1, gets. fold n.
  intros E. apply (waiting_mono (late (List.seq 0 n)) _ None); [by left| |].
  { intros i s _ [(Hs & Hi & Es) Hb]. split; [done|]. split; [done|]. split; [done|]. apply Hb, elem_of_seq.
    unfold waits, book_flag in Hi. destruct (syms _ !! i) eqn:Eb; [|done]. apply lookup_lt_Some in Eb.
    unfold n. rewrite (wt_length _ _ _ Hw). lia. }
  match type of E with ?mm _ _ = _ =>
    assert (triple (waits_ok (late []) None) mm (fun _ => waits_ok (late (List.seq 0 n)) None)) as Ht; [|exact (Ht _ _ _ _ _ H0' E)]
  end.
  apply (triple_bind _ _ _ (fun _ => waits_ok (late (List.seq 0 n)) None)).
  - apply (triple_for_each _ _ (fun l => waits_ok (late l) None)). intros l1 i l2 _.
    assert (forall s, late l1 i s -> s <> 0) as Hpos by (intros s [(? & _) _]; lia).
    apply (triple_conseq _ _ _ _ _ (expire_wait (late l1) (Z.quot t 1000000) i Hpos)); [done|].
    intros _ h1 w2 Hp. apply (waiting_mono _ (late (l1 ++ [i])) _ None _ (or_introl eq_refl)) in Hp; [exact Hp|].
    intros j s _ [[Hj Hold] Hnew]. split; [done|]. intros [Hin|Hin%list_elem_of_singleton]%elem_of_app; auto.
  - intros _. apply (ensures_triple _ _ _ anything).
    + intros h1 w2 out h2 w3 Hp. destruct (drainResults _) as [o wk]. intros [= <- <- <-].
      split; [by apply (waiting_same _ _ h1)|done].
    + intros rs _. apply (triple_conseq (waits_ok (late (List.seq 0 n)) None) (waits_ok (late (List.seq 0 n)) None) _ _
        (fun _ h w => waits_ok (late (List.seq 0 n)) None h w /\ anything tt)); [|done|by intros ? ? ? []].
      apply ensures_for_each. intros r _. apply apply_result_wait.
Qed.

(** ** Every method and both loops *)

(** The clock is past its first millisecond: a time 0 means no request. *)
Hypothesis Hclock : forall w, 1000000 <= fst (steady_now w).

Definition timed (_ : nat) (t : Z) : Prop := 0 < t.
Definition well_waiting : QH -> W -> Prop := waits_ok timed None.
Definition keeps {A} (mm : M QH W A) : Prop := ensures well_waiting mm anything.

Lemma clock_timed i w : timed i (Z.quot (fst (steady_now w)) 1000000).
Proof.
  unfold timed. pose proof (Hclock w). assert (1 <= Z.quot (fst (steady_now w)) 1000000); [|lia].
  by apply Z.quot_le_lower_bound.
Qed.

Lemma triple_keeps {A} (mm : M QH W A) : triple well_waiting mm (fun _ => well_waiting) -> keeps mm.
Proof. intros Hm h w x h' w' Hw E. split; [by eapply Hm|done]. Qed.

Lemma applySnapshotResults_keeps : keeps applySnapshotResults.
Proof.
  intros h w u h' w' Hw E. split; [|done]. destruct u. apply applySnapshotResults_bound in E; [|done].
  eapply waiting_mono; [by left| |exact E]. by intros j s _ (? & _).
Qed.

Lemma requestSnapshot_keeps i : keeps (requestSnapshot i).
Proof. apply triple_keeps, requestSnapshot_wait; [by left|]. apply clock_timed. Qed.

Lemma begin_keeps i : keeps (book_set i (fun _ => beginRefresh) ;;; requestSnapshot i).
Proof.
  apply triple_keeps, (triple_bind _ _ _ (fun _ => waits_ok timed (Some i))); [apply ask_wait; [by left|done]|intros _].
  apply requestSnapshot_wait; [by right|]. apply clock_timed.
Qed.

Lemma request_keeps i : keeps (request_if_needed i).
Proof. unfold keeps, well_waiting, request_if_needed. repeat first [apply requestSnapshot_keeps | wait_step]. Qed.

Lemma refresh_keeps i : keeps (refresh_if_wanted i).
Proof. unfold keeps, well_waiting, refresh_if_wanted. repeat first [apply begin_keeps | wait_step]. Qed.

Lemma commit_keeps i q : keeps (commit_quote fuel i q).
Proof.
  unfold keeps, well_waiting, commit_quote, publishQuote. repeat wait_step.
  - intros h w st h' w' Hw. destruct (stamp _ _ _). intros [= <- <- <-]. split; [by apply (waiting_same _ _ h)|done].
  - intros h w [] h' w' Hw. destruct (publish _ _ _ _ _) as [[[ok p] w1]|]; [|done]. intros [= <- <-].
    split; [by apply (waiting_same _ _ h)|done].
Qed.

Lemma publishInvalid_keeps i t : keeps (publishInvalid fuel i t).
Proof. unfold keeps, well_waiting, publishInvalid. repeat wait_step. apply commit_keeps. Qed.

Lemma candidate_keeps i t : keeps (candidate i t).
Proof. unfold keeps, well_waiting, candidate. repeat wait_step. Qed.

Lemma maybePublish_keeps i t : keeps (maybePublish fuel i t).
Proof. unfold keeps, well_waiting, maybePublish. repeat first [apply commit_keeps | apply candidate_keeps | wait_step]. Qed.

Lemma checkPublishTimeouts_keeps t : keeps (checkPublishTimeouts fuel t).
Proof. unfold keeps, well_waiting, checkPublishTimeouts. repeat first [apply commit_keeps | apply candidate_keeps | wait_step]. Qed.

Lemma handleDelta_keeps i d t : keeps (handleDelta fuel i d t).
Proof.
  unfold keeps, well_waiting, handleDelta.
  repeat first [apply request_keeps | apply refresh_keeps | apply maybePublish_keeps | apply publishInvalid_keeps
    | apply book_do_keeps; intros ? ?; apply same_settles; first [apply bufferDelta_wait | apply applyDelta_wait]
    | wait_step].
Qed.
Lemma processMessage_keeps msg t : keeps (processMessage fuel msg t).
Proof. unfold keeps, well_waiting, processMessage. repeat first [apply handleDelta_keeps | wait_step]. Qed.

(** Nobody waits when the books have just been reset. *)
Definition calm_books (g : OrderBookManager) : Prop :=
  forall i b, syms g !! i = Some b -> snapshotRequested b = false /\ refreshPending_ b = false.

Lemma resetAll_calm g : calm_books (resetAll g) /\ length (syms (resetAll g)) = length (syms g).
Proof.
  unfold resetAll, numSymbols.
  enough (forall l g', length (syms (fold_left (fun g i => upd_sym i reset g) l g')) = length (syms g') /\
    forall i b, syms (fold_left (fun g i => upd_sym i reset g) l g') !! i = Some b ->
      i ∈ l \/ (forall b0, syms g' !! i = Some b0 -> snapshotRequested b0 = false /\ refreshPending_ b0 = false) ->
      snapshotRequested b = false /\ refreshPending_ b = false) as Hall.
  { destruct (Hall (List.seq 0 (length (syms g))) g) as [Hl Hb]. split; [|done]. intros i b E. apply (Hb i b E). left.
    apply elem_of_seq. apply lookup_lt_Some in E. lia. }
  induction l as [|j l IH]; intros g'; cbn [fold_left].
  - split; [done|]. intros i b E [Hi%elem_of_nil|Hi]; [done|by apply Hi].
  - destruct (IH (upd_sym j reset g')) as [Hl Hb]. split; [rewrite Hl; apply on_sym_length|].
    intros i b E Hi. apply (Hb i b E). unfold upd_sym. destruct (decide (j = i)) as [->|Hji].
    + right. intros b0. rewrite on_sym_syms, decide_True by done. destruct (syms g' !! i); [|done].
      intros Hb0. by apply (inj Some) in Hb0; rewrite <-Hb0.
    + destruct Hi as [[->|Hi]%elem_of_cons|Hi]; [done|by left|right]. intros b0. rewrite on_sym_syms, decide_False by done. apply Hi.
Qed.

Lemma resetAll_wait ok ok' x : triple (waits_ok ok x) (puts (fun h => h <| bookMgr_ ::= resetAll |>)) (fun _ => waits_ok ok' None).
Proof.
  apply triple_puts. intros h w [Hl _ _]. destruct (resetAll_calm (bookMgr_ h)) as [Hc Hlen].
  assert (forall i, waits i (h <| bookMgr_ ::= resetAll |>) = false /\ refreshes i (h <| bookMgr_ ::= resetAll |>) = false) as Hno.
  { intros i. unfold waits, refreshes, book_flag. cbn [bookMgr_ modify eta_QuoteFeedHandler].
    destruct (syms (resetAll (bookMgr_ h)) !! i) as [b|] eqn:E; [by apply Hc in E|done]. }
  constructor; [cbn; congruence| |]; intros i; destruct (Hno i); congruence.
Qed.

(** The start of no wait is of no account. *)
Lemma forget_wait i t :
  ensures (waits_ok (fun _ _ => False) None) (puts (fun h => h <| snapshotRequestedAtMs_ ::= <[i := t]> |>)) anything.
Proof.
  apply ensures_puts. intros h w [Hl Hs Hr]. constructor; [cbn; by rewrite length_insert|exact Hs|exact Hr].
Qed.

Lemma reset_on_reconnect_keeps : keeps (reset_on_reconnect fuel).
Proof.
  apply triple_keeps. unfold reset_on_reconnect, well_waiting.
  apply (ensures_triple _ _ _ anything); [wait_step|intros _ _].
  apply (ensures_triple _ _ _ anything); [repeat wait_step|intros up _].
  apply (ensures_triple _ _ _ anything); [unfold mark_hole; repeat first [apply publishInvalid_keeps | wait_step]|intros _ _].
  apply (triple_bind _ _ _ (fun _ => waits_ok (fun _ _ => False) None)); [apply resetAll_wait|intros _].
  apply (triple_conseq (waits_ok (fun _ _ => False) None) (waits_ok (fun _ _ => False) None) _ _
    (fun _ h w => waits_ok (fun _ _ => False) None h w /\ anything tt)); [|done|].
  - apply (ensures_triple _ _ _ anything); [wait_step|intros n _]. apply ensures_for_each. intros i _.
    do 2 wait_step. wait_step; [by wait_step|]. apply forget_wait.
  - intros _ h w [Hw _]. revert Hw. by apply waiting_mono; [left|].
Qed.

Lemma publishHealth_keeps : keeps publishHealth.
Proof. unfold keeps, well_waiting, publishHealth, sendFhStats. repeat wait_step. Qed.

Lemma on_message_keeps msg last : keeps (on_message fuel msg last).
Proof.
  unfold keeps, well_waiting, on_message.
  repeat first [apply processMessage_keeps | apply checkPublishTimeouts_keeps | apply publishHealth_keeps | wait_step].
Qed.

Lemma background_keeps : keeps background.
Proof.
  intros h w u h' w' Hw. unfold background. destruct (worker_steps w) as [n w1].
  destruct (worker_turns _ _ n _ w1) as [wk w2]. intros [= <- <- <-]. split; [by apply (waiting_same _ _ h)|done].
Qed.

Lemma message_loop_keeps frames last : keeps (message_loop fuel frames last).
Proof.
  revert last. induction frames as [|frames IH]; intros last; unfold keeps, well_waiting in *; cbn [message_loop]; [by intros ? ? ? ? ?|].
  repeat first [apply IH | apply background_keeps | apply applySnapshotResults_keeps | apply on_message_keeps | wait_step].
Qed.

Lemma runWebSocketLoop_keeps frames : keeps (runWebSocketLoop fuel frames).
Proof.
  unfold keeps, well_waiting, runWebSocketLoop.
  repeat first [apply reset_on_reconnect_keeps | apply message_loop_keeps | wait_step].
Qed.

Lemma run_loop_keeps rounds frames : keeps (run_loop fuel rounds frames).
Proof.
  induction rounds as [|rounds IH]; unfold keeps, well_waiting in *; cbn [run_loop]; [by intros ? ? ? ? ?|].
  repeat first [apply IH | apply runWebSocketLoop_keeps | wait_step].
Qed.

Lemma run_keeps rounds frames : keeps (run fuel rounds frames).
Proof.
  unfold keeps, well_waiting, run. repeat first [apply run_loop_keeps | wait_step].
  - intros h w ok h' w' Hw. destruct (connect _ _ _ _) as [[[ok1 p] w1]|]; [|done]. intros [= <- <- <-].
    split; [by apply (waiting_same _ _ h)|done].
  - intros h w u h' w' Hw. destruct (close _ _) as [p w1]. intros [= <- <- <-].
    split; [by apply (waiting_same _ _ h)|done].
Qed.

Lemma new_waiting symbols m tpHost tpPort startNs steadyNs :
  waiting timed None (newQuoteFeedHandler symbols m tpHost tpPort startNs steadyNs).
Proof.
  constructor; [cbn; by rewrite !length_replicate|intros i _|intros i]; unfold waits, refreshes, book_flag;
    cbn [bookMgr_ newQuoteFeedHandler syms newManager];
    (destruct (replicate _ _ !! i) as [b|] eqn:E; [apply lookup_replicate in E as [-> _]|]; done).
Qed.

(** A symbol that needs a snapshot is asked for as soon as the scheduler lets it. *)
Lemma request_made i b h w :
  syms (bookMgr_ h) !! i = Some b -> state b = INIT -> snapshotRequested b = false ->
  fst (tryAcquire i (Z.quot (fst (steady_now w)) 1000000) (snapshotScheduler_ h)) = true ->
  exists h' w', request_if_needed i h w = Some (tt, h', w') /\ waits i h' = true.
Proof.
  intros Hb Hs Hr Ht. unfold request_if_needed, bind at 1, book_get, gets, at_sym. rewrite Hb.
  unfold needsSnapshot. cbn [sb]. rewrite bool_decide_true, Hr by done. cbn [negb andb when].
  unfold bind at 1, steadyNowMs, world. destruct (steady_now w) as [t w1]. cbn [fst] in Ht.
  unfold bind at 1, sched_try. destruct (tryAcquire i _ _) as [ok s]. cbn [fst] in Ht. subst ok. cbn [when].
  unfold requestSnapshot, bind at 1, gets. unfold bind at 1, book_set, book_do. cbn [bookMgr_ modify eta_QuoteFeedHandler].
  set (F := fun v => (tt, setSnapshotRequested true v)).
  pose proof (book_flag_on_sym snapshotRequested i tt (bookMgr_ h) F i) as Hflag. rewrite decide_True, Hb in Hflag by done.
  destruct (on_sym i tt F (bookMgr_ h)) as [[] g]. unfold bind, steadyNowMs, world, puts.
  destruct (steady_now w1) as [t2 w2]. cbn [bookMgr_ snapshotWorker_ modify eta_QuoteFeedHandler].
  destruct (enqueueRequest _ _ _) as [id wk]. eexists _, _. split; [done|]. unfold waits. cbn. exact Hflag.
Qed.
End handler.

