(* ===== verification/TradeBackfill.v ===== *)
(** * Backfill of trade-id gaps (trade_backfill.hpp)

    The REST reply as trades ([parseBackfillBody]), one page request
    ([RestTradeFetcher]), and the driver [TradeBackfill]: a queue of gaps, one
    page in flight at a time, every request through the rate scheduler. The two
    callbacks of [pump] and the fetcher act on the client, a type of its own:
    the driver is a method in the effect monad with the client as its world.
    The worker thread's steps are functions of their own, so that a run can
    place them between any two calls. *)

From S2P Require Import Prelude Double CStdlib JsonReader MarketConfig Effects Backoff Scheduler.
From S2P Require Import RestClient SnapshotWorker TradeGap.

Open Scope Z_scope.
Local Open Scope rec_scope.
Local Open Scope effect_scope.

(** ** Trades and pages *)

Record BackfillTrade := mkBackfillTrade {
  bt_id : Z; bt_price : double; bt_qty : double; bt_qtyExRpi : double;
  bt_firstTradeId : Z; bt_lastTradeId : Z; bt_tradeTimeMs : Z; bt_buyerIsMaker : bool
}.

Record BackfillPage := mkPage {
  pg_ok : bool; pg_tooOld : bool; pg_httpStatus : Z; pg_retryAfterSec : Z; pg_usedWeight1m : Z;
  pg_recvTimeUtcNs : Z; pg_error : string; pg_trades : list BackfillTrade
}.
#[export] Instance eta_BackfillPage : Eta BackfillPage := fun p =>
  mkPage (pg_ok p) (pg_tooOld p) (pg_httpStatus p) (pg_retryAfterSec p) (pg_usedWeight1m p)
    (pg_recvTimeUtcNs p) (pg_error p) (pg_trades p).
Definition empty_page : BackfillPage := mkPage false false 0 0 (-1) 0 "" [].

Section parse.
Context {V : Type} `{JsonLib V}.

(** The three field readers; [v] is an object's member lookup. *)
Definition bf_num (o : string -> option V) (k : string) : option double :=
  match o k with
  | Some f => match as_string f with Some s => strtod_full s | None => None end
  | None => None
  end.
Definition bf_i64 (o : string -> option V) (k : string) : option Z :=
  match o k with Some f => as_int64 f | None => None end.
Definition bf_flag (o : string -> option V) (k : string) : option bool :=
  match o k with Some f => as_bool f | None => None end.

Definition parse_trade (schema : TradeSchema) (o : string -> option V) : option BackfillTrade :=
  match schema with
  | SpotTrade =>
      match bf_i64 o "id", bf_num o "price", bf_num o "qty", bf_i64 o "time", bf_flag o "isBuyerMaker" with
      | Some id, Some p, Some q, Some t, Some m => Some (mkBackfillTrade id p q dnan 0 0 t m)
      | _, _, _, _, _ => None
      end
  | FuturesAggTrade =>
      match bf_i64 o "a", bf_num o "p", bf_num o "q", bf_i64 o "f", bf_i64 o "l", bf_i64 o "T",
            bf_flag o "m" with
      | Some id, Some p, Some q, Some f, Some l, Some t, Some m =>
          Some (mkBackfillTrade id p q (default dnan (bf_num o "nq")) f l t m)
      | _, _, _, _, _, _, _ => None
      end
  end.

(** The trades read before the first bad element stay in [out]. *)
Fixpoint parse_trades (schema : TradeSchema) (vs : list V) (out : list BackfillTrade)
    : bool * list BackfillTrade * string :=
  match vs with
  | [] => (true, out, ""%string)
  | v :: vs =>
      match as_object v with
      | None => (false, out, "array element is not an object"%string)
      | Some o =>
          match parse_trade schema o with
          | None => (false, out, "trade object lacks an expected field"%string)
          | Some t => parse_trades schema vs (out ++ [t])
          end
      end
  end.

Definition parseBackfillBody (body : string) (schema : TradeSchema) : bool * list BackfillTrade * string :=
  match json_parse body with
  | inr _ => (false, [], "reply is not a JSON array"%string)
  | inl doc =>
      match as_array doc with
      | None => (false, [], "reply is not a JSON array"%string)
      | Some vs => parse_trades schema vs []
      end
  end.
End parse.

Section fetch.
Context {W V : Type} `{HttpLib W} `{Host W} `{JsonLib V}.

(** [RestTradeFetcher::fetch]. *)
Definition fetch_page (c : RestClient) (path : string) (schema : TradeSchema)
    (sym : string) (fromId limit : Z) (w : W) : BackfillPage * W :=
  let '(r, w) := get c (path +:+ "?symbol=" +:+ sym +:+ "&fromId=" +:+ to_string fromId +:+
                        "&limit=" +:+ to_string limit)%string w in
  let '(now, w) := system_now w in
  let page := mkPage false false (hr_status r) (hr_retryAfterSec r) (hr_usedWeight1m r) now "" [] in
  if negb (String.eqb (hr_error r) "") then (page <| pg_error := hr_error r |>, w)
  else if negb (hr_status r =? 200) then
    (page <| pg_error := ("HTTP " +:+ to_string (hr_status r) +:+ " " +:+ String.substring 0 160 (hr_body r))%string |>
          <| pg_tooOld := (hr_status r =? 400) && bool_decide (is_Some (String.index 0 "-4166" (hr_body r))) |>, w)
  else
    let '(ok, trades, err) := parseBackfillBody (hr_body r) schema in
    (page <| pg_ok := ok |> <| pg_trades := trades |> <| pg_error := err |>, w).
End fetch.

(** ** The driver *)

Record TradeBackfillConfig := mkBackfillConfig {
  bf_enabled : bool; bf_maxGapIds : Z; bf_pageLimit : Z; bf_maxFailures : Z; bf_inlineFetch : bool;
  bf_sched : SnapshotSchedulerConfig
}.
Definition default_TradeBackfillConfig : TradeBackfillConfig :=
  mkBackfillConfig true 500000 1000 10 false default_SnapshotSchedulerConfig.

Record Job := mkJob { j_gap : TradeGap; j_failures : Z }.
#[export] Instance eta_Job : Eta Job := fun j => mkJob (j_gap j) (j_failures j).
Record Request := mkBfRequest { br_sym : string; br_fromId : Z; br_limit : Z }.

Inductive BfThread := BfIdle | BfWaiting | BfFetching (req : Request) | BfExited.

Record TradeBackfill := mkBackfill {
  bfcfg : TradeBackfillConfig;
  sched_ : SnapshotScheduler;
  queue_ : list Job;
  inFlight_ : bool;
  inlinePage_ : option BackfillPage;
  bf_requests : BoundedQueue Request;
  bf_results : BoundedQueue BackfillPage;
  bf_thread : BfThread;
  bf_running : bool;
  pagesRequested_ : Z; pagesFailed_ : Z; tradesBackfilled_ : Z; gapsRecovered_ : Z; gapsUnrecoverable_ : Z
}.
#[export] Instance eta_TradeBackfill : Eta TradeBackfill := fun b =>
  mkBackfill (bfcfg b) (sched_ b) (queue_ b) (inFlight_ b) (inlinePage_ b) (bf_requests b) (bf_results b)
    (bf_thread b) (bf_running b) (pagesRequested_ b) (pagesFailed_ b) (tradesBackfilled_ b)
    (gapsRecovered_ b) (gapsUnrecoverable_ b).

Definition newBackfill (cfg : TradeBackfillConfig) : TradeBackfill :=
  mkBackfill cfg (newScheduler 1 (bf_sched cfg)) [] false None (newQueue 4) (newQueue 4) BfIdle false
    0 0 0 0 0.

Definition bf_start (b : TradeBackfill) : TradeBackfill :=
  if bf_inlineFetch (bfcfg b) || bf_running b then b
  else b <| bf_running := true |> <| bf_thread := BfWaiting |>.

(** [stop], up to the join. *)
Definition bf_stop (b : TradeBackfill) : TradeBackfill :=
  if negb (bf_running b) then b
  else b <| bf_running := false |> <| bf_requests ::= shutdown |> <| bf_results ::= shutdown |>.

Definition addGap (gap : TradeGap) (b : TradeBackfill) : TradeBackfill :=
  b <| queue_ ::= fun q => q ++ [mkJob gap 0] |>.

(** The worker thread ([runLoop]): the loop test with the pop, and the end of a fetch. *)
Definition bf_pop (b : TradeBackfill) : option TradeBackfill :=
  match bf_thread b with
  | BfWaiting =>
      if negb (bf_running b) then Some (b <| bf_thread := BfExited |>)
      else
        match pop_blocking (bf_requests b) with
        | None => None
        | Some (None, _) => Some (b <| bf_thread := BfExited |>)
        | Some (Some req, q) => Some (b <| bf_requests := q |> <| bf_thread := BfFetching req |>)
        end
  | _ => None
  end.

Definition bf_fetched (page : BackfillPage) (b : TradeBackfill) : option TradeBackfill :=
  match bf_thread b with
  | BfFetching _ => Some (b <| bf_results ::= fun q => snd (push page q) |> <| bf_thread := BfWaiting |>)
  | _ => None
  end.

(** ** pump *)

Section pump.
(** The client: its two callbacks (which may fail to return: the publisher's
    retry loop), the page fetcher for [inlineFetch], and the jitter device. *)
Context {C : Type}.
Context (publishRow : string -> BackfillTrade -> Z -> C -> option C).
Context (recordEvent : TradeGap -> GapStatus -> string -> C -> option C).
Context (fetcher : string -> Z -> Z -> C -> BackfillPage * C).
Context (jitter : C -> double * C).

Local Abbreviation BM := (M TradeBackfill C).

Definition call (f : C -> option C) : BM unit := fun b c =>
  match f c with Some c => Some (tt, b, c) | None => None end.

Definition front : BM Job := gets (fun b => default (mkJob (mkTradeGap "" 0 0 0 0) 0) (head (queue_ b))).
Definition set_front (j : Job) : BM unit :=
  puts (fun b => b <| queue_ ::= fun q => match q with [] => [] | _ :: q => j :: q end |>).

Definition finish (status : GapStatus) (reason : string) : BM unit :=
  j <- front ;;
  call (recordEvent (j_gap j) status reason) ;;;
  puts (fun b => (if bool_decide (status = Recovered) then b <| gapsRecovered_ ::= Z.succ |>
                  else b <| gapsUnrecoverable_ ::= Z.succ |>) <| queue_ ::= tail |>).

Definition fail_page (page : BackfillPage) (nowMs : Z) (giveUpReason : string) : BM unit :=
  puts (fun b => b <| pagesFailed_ ::= Z.succ |>) ;;;
  j <- world jitter ;;
  puts (fun b => b <| sched_ ::= onFailure 0 nowMs (pg_httpStatus page) (pg_retryAfterSec page)
                                   (pg_usedWeight1m page) j |>) ;;;
  job <- front ;;
  cfg <- gets bfcfg ;;
  let job := job <| j_failures ::= Z.succ |> in
  set_front job ;;;
  when (bf_maxFailures cfg <=? j_failures job) (finish Unrecoverable giveUpReason).

(** The loop over a page: skip what is before [expected], publish the run of
    ids from it on, stop at the first hole or beyond the gap. *)
Fixpoint publish_run (sym : string) (lastId recv expected n : Z) (trades : list BackfillTrade) : BM (Z * Z) :=
  match trades with
  | [] => ret (expected, n)
  | t :: trades =>
      if bt_id t <? expected then publish_run sym lastId recv expected n trades
      else if negb (bt_id t =? expected) || (lastId <? bt_id t) then ret (expected, n)
      else call (publishRow sym t recv) ;;; publish_run sym lastId recv (expected + 1) (n + 1) trades
  end.

Definition onPage (page : BackfillPage) (nowMs : Z) : BM unit :=
  job <- front ;;
  let g := j_gap job in
  if negb (pg_ok page) then
    if pg_tooOld page then
      puts (fun b => b <| pagesFailed_ ::= Z.succ |>) ;;;
      puts (fun b => b <| sched_ ::= onFetchOk nowMs (pg_usedWeight1m page) |>) ;;;
      finish Unrecoverable "tooOld"
    else fail_page page nowMs "restFailed"
  else
    puts (fun b => b <| sched_ ::= onFetchOk nowMs (pg_usedWeight1m page) |>) ;;;
    let expected := nextNeededId g in
    match pg_trades page with
    | [] => fail_page page nowMs "notServed"
    | t :: _ =>
        if expected <? bt_id t then
          puts (fun b => b <| pagesFailed_ ::= Z.succ |>) ;;;
          finish Unrecoverable "notServed"
        else
          r <- publish_run (g_sym g) (g_lastId g) (pg_recvTimeUtcNs page) expected 0 (pg_trades page) ;;
          let '(expected, n) := r in
          if n =? 0 then fail_page page nowMs "notServed"
          else
            let g := g <| g_recovered ::= Z.add n |> <| g_recoveredThroughId := expected - 1 |> in
            puts (fun b => b <| tradesBackfilled_ ::= Z.add n |>) ;;;
            set_front (mkJob g 0) ;;;
            puts (fun b => b <| sched_ ::= onSynced 0 |>) ;;;
            if g_lastId g <=? g_recoveredThroughId g then finish Recovered ""
            else call (recordEvent g Partial "")
    end.

(** Step 1: a finished page, if any. True if there was one. *)
Definition take_page (nowMs : Z) : BM bool :=
  fl <- gets inFlight_ ;;
  if fl then
    page <- (fun b c =>
      if bf_inlineFetch (bfcfg b) then Some (inlinePage_ b, b <| inlinePage_ := None |>, c)
      else let '(p, q) := try_pop (bf_results b) in
           Some (p, b <| bf_results := q |> <| inlinePage_ := None |>, c)) ;;
    match page with
    | Some page => puts (fun b => b <| inFlight_ := false |>) ;;; onPage page nowMs ;;; ret true
    | None => ret false
    end
  else ret false.

(** Step 2: the gaps at the head that need no request. [None] from [settles]
    is the [break]. *)
Definition settles (cfg : TradeBackfillConfig) (g : TradeGap) : option (GapStatus * string) :=
  if negb (bf_enabled cfg) then Some (Unrecoverable, "backfillDisabled"%string)
  else if bf_maxGapIds cfg <? missing g then Some (Unrecoverable, "tooLarge"%string)
  else if g_lastId g <? nextNeededId g then Some (Recovered, ""%string)
  else None.

Fixpoint settle_loop (jobs : nat) : BM bool :=
  match jobs with
  | O => ret false
  | S jobs =>
      b <- gets (fun b => b) ;;
      if inFlight_ b then ret false
      else
        match queue_ b with
        | [] => ret false
        | job :: _ =>
            match settles (bfcfg b) (j_gap job) with
            | Some (status, reason) => finish status reason ;;; settle_loop jobs ;;; ret true
            | None => ret false
            end
        end
  end.

(** Every iteration pops a job: the queue's length bounds the loop. *)
Definition settle : BM bool := n <- gets (fun b => length (queue_ b)) ;; settle_loop n.

(** Step 3: the next request, if the rate limits allow. *)
Definition request_next (nowMs : Z) : BM bool :=
  b <- gets (fun b => b) ;;
  match inFlight_ b, queue_ b with
  | false, job :: _ =>
      let '(ok, s) := tryAcquire 0 nowMs (sched_ b) in
      puts (fun b => b <| sched_ := s |>) ;;;
      if negb ok then ret false
      else
        let g := j_gap job in
        let from := nextNeededId g in
        let limit := Z.min (bf_pageLimit (bfcfg b)) (g_lastId g - from + 1) in
        puts (fun b => b <| pagesRequested_ ::= Z.succ |> <| inFlight_ := true |>) ;;;
        if bf_inlineFetch (bfcfg b) then
          page <- world (fetcher (g_sym g) from limit) ;;
          puts (fun b => b <| inlinePage_ := Some page |>) ;;; ret true
        else
          puts (fun b => b <| bf_requests ::= fun q => snd (push (mkBfRequest (g_sym g) from limit) q) |>) ;;;
          ret false
  | _, _ => ret false
  end.

Fixpoint pump_loop (guard : nat) (nowMs : Z) : BM unit :=
  match guard with
  | O => ret tt
  | S guard =>
      p1 <- take_page nowMs ;;
      p2 <- settle ;;
      p3 <- request_next nowMs ;;
      if p1 || p2 || p3 then pump_loop guard nowMs else ret tt
  end.

Definition PUMP_GUARD : nat := Z.to_nat 100000.
Definition pump (nowMs : Z) : BM unit := pump_loop PUMP_GUARD nowMs.
End pump.
