(* ===== verification/TradeBackfillProps.v ===== *)
(** * What the backfill promises: every id once, in order, and an honest verdict

    The driver against an abstract specification: a queue of gaps where the only
    trade that may be published is the next missing one of the oldest gap, and a
    gap is reported recovered only when nothing of it is missing. The client
    is arbitrary, with a log beside it of the calls it gets; pages are arbitrary
    too (the exchange, or anything the network makes of it). *)

From S2P Require Import Prelude Double MarketConfig Effects Backoff Scheduler RestClient.
From S2P Require Import SnapshotWorker TradeGap TradeBackfill.

Open Scope Z_scope.
Local Open Scope rec_scope.
Local Open Scope effect_scope.

#[export] Instance TradeGap_eq_dec : EqDecision TradeGap.
Proof. solve_decision. Defined.

(** ** The specification *)

(** What the client sees: gaps it adds, trades to publish, progress to record. *)
Inductive bf_event :=
  | Added (g : TradeGap)
  | Published (sym : string) (id : Z)
  | Recorded (g : TradeGap) (status : GapStatus) (reason : string).

(** The gap after one more id. *)
Definition advance (n : Z) (g : TradeGap) : TradeGap :=
  if n =? 0 then g
  else mkTradeGap (g_sym g) (g_firstId g) (g_lastId g) (n + g_recovered g) (nextNeededId g + n - 1).

Definition spec_step (e : bf_event) (q : list TradeGap) : option (list TradeGap) :=
  match e, q with
  | Added g, _ => Some (q ++ [g])
  | Published sym id, g :: q =>
      if bool_decide (sym = g_sym g) && (id =? nextNeededId g) && (id <=? g_lastId g)
      then Some (advance 1 g :: q) else None
  | Recorded g' status _, g :: q =>
      if bool_decide (g = g') then
        match status with
        | Partial => if nextNeededId g <=? g_lastId g then Some (g :: q) else None
        | Recovered => if g_lastId g <? nextNeededId g then Some q else None
        | Unrecoverable => Some q
        | Detected => None
        end
      else None
  | _, [] => None
  end.

Definition spec_run (l : list bf_event) : option (list TradeGap) :=
  foldl (fun q e => q ≫= spec_step e) (Some []) l.

Lemma spec_run_snoc l e : spec_run (l ++ [e]) = spec_run l ≫= spec_step e.
Proof. unfold spec_run. by rewrite foldl_app. Qed.

(** Trade ids are positive. *)
Definition gap_ok (g : TradeGap) : Prop := 1 <= g_firstId g.

Lemma nextNeeded_pos g : gap_ok g -> 1 <= nextNeededId g.
Proof. unfold gap_ok, nextNeededId. intros H. destruct (Z.ltb_spec 0 (g_recoveredThroughId g)); lia. Qed.

Lemma advance_next n g : gap_ok g -> 0 <= n -> nextNeededId (advance n g) = nextNeededId g + n.
Proof.
  intros H%nextNeeded_pos Hn. unfold advance. destruct (Z.eqb_spec n 0) as [->|]; [lia|].
  unfold nextNeededId at 1. cbn [g_recoveredThroughId modify].
  destruct (Z.ltb_spec 0 (nextNeededId g + n - 1)); lia.
Qed.

Lemma advance_fixed n g :
  g_sym (advance n g) = g_sym g /\ g_lastId (advance n g) = g_lastId g /\ g_firstId (advance n g) = g_firstId g.
Proof. unfold advance. by destruct (n =? 0). Qed.

Lemma advance_advance n g : gap_ok g -> 0 <= n -> advance 1 (advance n g) = advance (n + 1) g.
Proof.
  intros Hg Hn. pose proof (advance_next n g Hg Hn) as He.
  unfold advance at 1 3. cbn [Z.eqb]. replace (n + 1 =? 0) with false by lia. rewrite He. unfold advance.
  destruct (Z.eqb_spec n 0) as [->|]; cbn [g_sym g_firstId g_lastId g_recovered]; f_equal; lia.
Qed.

(** ** The driver with a log beside its client *)

(** The queue and the log agree; a page in flight is for the gap at the head. *)
Record agrees_log (b : TradeBackfill) (l : list bf_event) : Prop := {
  agrees_queue : spec_run l = Some (j_gap <$> queue_ b);
  agrees_ok : Forall (fun j => gap_ok (j_gap j)) (queue_ b);
  agrees_flight : inFlight_ b = true -> queue_ b <> []
}.

Section run.
Context {X : Type}.
Context (publishRow : string -> BackfillTrade -> Z -> X -> option X).
Context (recordEvent : TradeGap -> GapStatus -> string -> X -> option X).
Context (fetcher : string -> Z -> Z -> X -> BackfillPage * X).
Context (jitter : X -> double * X).

(** The client and its log. *)
Local Abbreviation C := (X * list bf_event)%type.

Definition log_publish (sym : string) (t : BackfillTrade) (recv : Z) (c : C) : option C :=
  match publishRow sym t recv (fst c) with
  | Some x => Some (x, snd c ++ [Published sym (bt_id t)])
  | None => None
  end.
Definition log_record (g : TradeGap) (st : GapStatus) (reason : string) (c : C) : option C :=
  match recordEvent g st reason (fst c) with
  | Some x => Some (x, snd c ++ [Recorded g st reason])
  | None => None
  end.
Definition log_fetch (sym : string) (from limit : Z) (c : C) : BackfillPage * C :=
  let '(p, x) := fetcher sym from limit (fst c) in (p, (x, snd c)).
Definition log_jitter (c : C) : double * C := let '(j, x) := jitter (fst c) in (j, (x, snd c)).

Local Abbreviation finish := (finish log_record).
Local Abbreviation fail_page := (fail_page log_record log_jitter).
Local Abbreviation publish_run := (publish_run log_publish).
Local Abbreviation onPage := (onPage log_publish log_record log_jitter).
Local Abbreviation take_page := (take_page log_publish log_record log_jitter).
Local Abbreviation settle_loop := (settle_loop log_record).
Local Abbreviation settle := (settle log_record).
Local Abbreviation request_next := (request_next log_fetch).
Local Abbreviation pump_loop := (pump_loop log_publish log_record log_fetch log_jitter).
Local Abbreviation pump := (pump log_publish log_record log_fetch log_jitter).

Definition agrees (b : TradeBackfill) (c : C) : Prop := agrees_log b (snd c).

(** The same, with [g] known to be at the head and nothing in flight. *)
Definition at_head (g : TradeGap) (b : TradeBackfill) (l : C) : Prop :=
  agrees b l /\ inFlight_ b = false /\ exists f q, queue_ b = mkJob g f :: q.

(** Assignments to members other than the queue and the flag. *)
Lemma agrees_same b b' l :
  queue_ b' = queue_ b -> inFlight_ b' = inFlight_ b -> agrees b l -> agrees b' l.
Proof. intros E1 E2 []. constructor; by rewrite ?E1, ?E2. Qed.

Lemma at_head_same g b b' l :
  queue_ b' = queue_ b -> inFlight_ b' = inFlight_ b -> at_head g b l -> at_head g b' l.
Proof. intros E1 E2 (H & Hf & Hq). unfold at_head. rewrite E1, E2. eauto using agrees_same. Qed.

Lemma puts_head g f :
  (forall b, queue_ (f b) = queue_ b /\ inFlight_ (f b) = inFlight_ b) ->
  ensures (at_head g) (puts f) anything.
Proof. intros H. apply ensures_puts. intros b l Hb. destruct (H b). by apply (at_head_same g b). Qed.

Lemma front_head g : triple (at_head g) front (fun j b l => at_head g b l /\ j_gap j = g).
Proof.
  apply triple_gets. intros b l Hb. split; [done|].
  destruct Hb as (_ & _ & f & q & ->). done.
Qed.

Lemma finish_triple g status reason :
  (status = Recovered -> g_lastId g < nextNeededId g) -> status = Recovered \/ status = Unrecoverable ->
  triple (at_head g) (finish status reason) (fun _ b l => agrees b l /\ inFlight_ b = false).
Proof.
  intros Hrec Hst b l x b' l' (Hb & Hf & f & q & Hq). unfold TradeBackfill.finish, front, call, bind, gets, puts, log_record.
  rewrite Hq. cbn. destruct (recordEvent _ _ _ _) as [x1|]; [|done].
  intros [= <- <- <-]. destruct Hb as [Hb Hok Hfl]. rewrite Hq in *. cbn in Hb.
  assert (spec_run (snd l ++ [Recorded g status reason]) = Some (j_gap <$> q)) as Hl.
  { rewrite spec_run_snoc, Hb. cbn. rewrite bool_decide_eq_true_2 by done.
    destruct Hst as [->| ->]; [|done]. specialize (Hrec eq_refl). by replace (_ <? _) with true by lia. }
  apply Forall_cons in Hok as [_ Hok].
  case_bool_decide; (split; [constructor|]); cbn [queue_ inFlight_ modify eta_TradeBackfill]; rewrite ?Hq, ?Hf; done.
Qed.

Lemma fail_triple g page nowMs why :
  triple (at_head g) (fail_page page nowMs why) (fun _ b l => agrees b l /\ inFlight_ b = false).
Proof.
  unfold TradeBackfill.fail_page.
  eapply ensures_triple; [by apply puts_head|intros _ _].
  eapply ensures_triple; [apply ensures_world; intros b c Hc; unfold log_jitter; by destruct (jitter (fst c))|intros j _].
  eapply ensures_triple; [by apply puts_head|intros _ _].
  eapply triple_bind; [apply front_head|intros job].
  eapply triple_bind with (R := fun _ b l => at_head g b l /\ j_gap job = g).
  { by apply triple_gets. }
  intros c. eapply triple_bind with (R := fun _ b l => at_head g b l /\ j_gap job = g).
  - apply triple_puts. intros b l [(Hb & Hf & f & q & Hq) Hj]. split; [|done].
    split; [|split; [done|]].
    + destruct Hb as [Hb Hok Hfl]. constructor; cbn [queue_ inFlight_ modify eta_TradeBackfill]; rewrite ?Hq in *.
      * rewrite Hb. cbn. by rewrite Hj.
      * apply Forall_cons in Hok as [? ?]. constructor; [cbn in *; by rewrite Hj|done].
      * done.
    + cbn [queue_ modify eta_TradeBackfill]. rewrite Hq. subst g. destruct job. eauto.
  - intros _. unfold when. case_match.
    + apply triple_pre with (P' := at_head g); [apply finish_triple; [discriminate|by right]|by intros ?? []].
    + apply triple_ret. intros b l [(? & ? & ?) _]. done.
Qed.

(** While a page is being published: [n] ids of the gap at the head so far. *)
Definition publishing (b0 : TradeBackfill) (g : TradeGap) (n : Z) (b : TradeBackfill) (l : C) : Prop :=
  b = b0 /\ exists l0, at_head g b0 l0 /\ 0 <= n /\
  spec_run (snd l) = Some (advance n g :: tail (j_gap <$> queue_ b0)).

Lemma publish_run_triple b0 g recv trades e n :
  e = nextNeededId g + n ->
  triple (publishing b0 g n) (publish_run (g_sym g) (g_lastId g) recv e n trades)
    (fun r => publishing b0 g (snd r)).
Proof.
  revert e n. induction trades as [|t ts IH]; intros e n He; cbn [TradeBackfill.publish_run].
  { by apply triple_ret. }
  destruct (Z.ltb_spec (bt_id t) e); [by apply IH|].
  destruct (Z.eqb_spec (bt_id t) e) as [Hid|]; cbn [negb orb]; [|by apply triple_ret].
  destruct (Z.ltb_spec (g_lastId g) (bt_id t)); [by apply triple_ret|].
  eapply triple_bind with (R := fun _ => publishing b0 g (n + 1)); [|intros _; apply IH; lia].
  intros b l x b' l' (-> & l0 & Hh & Hn & Hl). unfold call, log_publish.
  destruct (publishRow _ _ _ _) as [x1|]; [|done]. intros [= <- <- <-].
  split; [done|]. exists l0. split; [done|]. split; [lia|].
  destruct Hh as ([_ Hok _] & _ & f & q & Hq). rewrite Hq in Hok. apply Forall_cons in Hok as [Hg _].
  cbn [j_gap] in Hg. pose proof (advance_fixed n g) as (Es & El & _).
  cbn [snd]. rewrite spec_run_snoc, Hl. cbn [mbind option_bind spec_step]. rewrite bool_decide_eq_true_2 by done.
  rewrite (advance_next n g Hg Hn), El.
  replace (bt_id t =? nextNeededId g + n) with true by lia. replace (bt_id t <=? g_lastId g) with true by lia.
  cbn [andb]. by rewrite advance_advance.
Qed.

Lemma advance_page n g expected :
  n <> 0 -> expected = nextNeededId g + n ->
  g <| g_recovered ::= Z.add n |> <| g_recoveredThroughId := expected - 1 |> = advance n g.
Proof. intros Hn ->. unfold advance. destruct (Z.eqb_spec n 0); [done|]. by destruct g. Qed.

Lemma publish_run_count sym last recv trades e n b l r b' l' :
  publish_run sym last recv e n trades b l = Some (r, b', l') -> fst r - snd r = e - n.
Proof.
  revert e n l. induction trades as [|t ts IH]; intros e n l; cbn [TradeBackfill.publish_run].
  { intros E. injection E as <-. done. }
  case_match; [apply IH|]. case_match; [intros E; injection E as <-; done|].
  unfold bind, call, log_publish. destruct (publishRow _ _ _ _); [|done]. intros Hr. apply IH in Hr. lia.
Qed.

Lemma advance_through n g :
  gap_ok g -> 0 < n -> nextNeededId (advance n g) = g_recoveredThroughId (advance n g) + 1.
Proof.
  intros Hg Hn. rewrite advance_next by (done || lia). unfold advance.
  destruct (Z.eqb_spec n 0); [lia|]. cbn [g_recoveredThroughId]. lia.
Qed.

(** The end of a page that brought something: the gap moves on, then the verdict. *)
Lemma page_end_triple b0 g n :
  gap_ok g -> 0 < n ->
  triple (publishing b0 g n)
    (puts (fun b => b <| tradesBackfilled_ ::= Z.add n |>) ;;;
     set_front (mkJob (advance n g) 0) ;;;
     puts (fun b => b <| sched_ ::= onSynced 0 |>) ;;;
     if g_lastId (advance n g) <=? g_recoveredThroughId (advance n g) then finish Recovered ""
     else call (log_record (advance n g) Partial ""))
    (fun _ b l => agrees b l /\ inFlight_ b = false).
Proof.
  intros Hg0 Hn0. pose proof (advance_through n g Hg0 Hn0) as Hth.
  eapply triple_bind with (R := fun _ b l => exists b1, publishing b1 g n b l); [|intros _].
  { apply triple_puts. intros b l (-> & l0 & (Hb & Hf & Hq) & Hn & Hl). eexists. split; [done|].
    exists l0. split; [|done]. by apply (at_head_same g b0). }
  eapply triple_bind with (R := fun _ => at_head (advance n g)); [|intros _].
  { apply triple_puts. intros b l (b1 & -> & l0 & ([Hb Hok Hfl] & Hf & f & q & Hq) & Hn & Hl).
    rewrite Hq in Hl, Hok. apply Forall_cons in Hok as [Hg Hok].
    split; [constructor|]; cbn [queue_ inFlight_ modify eta_TradeBackfill]; rewrite Hq; cbn.
    - done.
    - constructor; [|done]. unfold gap_ok. cbn. by destruct (advance_fixed n g) as (_ & _ & ->).
    - done.
    - split; [done|]. eauto. }
  eapply ensures_triple; [by apply puts_head|intros _ _].
  destruct (Z.leb_spec (g_lastId (advance n g)) (g_recoveredThroughId (advance n g))) as [Hle|Hgt].
  - apply finish_triple; [intros _; lia|by left].
  - intros b l x b' l' (Hb & Hf & f & q & Hq). unfold call, log_record.
    destruct (recordEvent _ _ _ _) as [x1|]; [|done]. intros [= <- <- <-].
    split; [|done]. destruct Hb as [Hb Hok Hfl].
    constructor; [|done..]. cbn [snd]. rewrite spec_run_snoc, Hb, Hq. cbn [fmap list_fmap mbind option_bind spec_step j_gap].
    rewrite bool_decide_eq_true_2 by done. rewrite Hth. by replace (_ <=? _) with true by lia.
Qed.

Lemma onPage_triple g page nowMs :
  triple (at_head g) (onPage page nowMs) (fun _ b l => agrees b l /\ inFlight_ b = false).
Proof.
  unfold TradeBackfill.onPage.
  eapply triple_bind; [apply front_head|intros job].
  apply triple_pure with (phi := j_gap job = g); [by intros ?? []|intros Hj].
  apply triple_pre with (P' := at_head g); [|by intros ?? []]. rewrite Hj. clear job Hj.
  destruct (pg_ok page); cbn [negb].
  2: { destruct (pg_tooOld page); [|apply fail_triple].
       do 2 (eapply ensures_triple; [by apply puts_head|intros _ _]).
       apply finish_triple; [discriminate|by right]. }
  eapply ensures_triple; [by apply puts_head|intros _ _].
  destruct (pg_trades page) as [|t ts] eqn:Et; [apply fail_triple|].
  destruct (nextNeededId g <? bt_id t).
  { eapply ensures_triple; [by apply puts_head|intros _ _].
    apply finish_triple; [discriminate|by right]. }
  apply triple_pure with (phi := gap_ok g).
  { intros b l ([_ Hok _] & _ & f & q & Hq). rewrite Hq in Hok. by apply Forall_cons in Hok as [? _]. }
  intros Hg b0 l0 x b' l' Hh. unfold bind at 1.
  destruct (publish_run _ _ _ _ _ _ b0 l0) as [[[[e n] b1] l1]|] eqn:Er; [|done].
  pose proof (publish_run_count _ _ _ _ _ _ _ _ _ _ _ Er) as Hc. cbn [fst snd] in Hc.
  apply (publish_run_triple b0 g) in Er; [|lia|].
  2: { split; [done|]. exists l0. split; [done|]. split; [lia|]. destruct Hh as ([Hb _ _] & _ & f & q & Hq).
       by rewrite Hb, Hq. }
  cbn [snd] in Er. pose proof Er as (-> & l0' & _ & Hn & Hl).
  destruct (Z.eqb_spec n 0) as [->|Hn0].
  - intros Ef. apply (fail_triple g) in Ef; [exact Ef|]. destruct Hh as ([Hb Hok Hfl] & Hf & f & q & Hq). split; [constructor|]; eauto.
    rewrite Hl, Hq. done.
  - rewrite advance_page by (done || lia). intros Ef.
    apply (page_end_triple b0 g n) in Ef; [exact Ef|done|lia|done].
Qed.

Lemma take_page_triple nowMs : triple agrees (take_page nowMs) (fun _ => agrees).
Proof.
  unfold TradeBackfill.take_page.
  intros b l x b' l' Hb. unfold bind at 1, gets. destruct (inFlight_ b) eqn:Hf; [|by intros [= <- <- <-]].
  unfold bind at 1.
  set (b1 := if bf_inlineFetch (bfcfg b) then b <| inlinePage_ := None |>
             else b <| bf_results := snd (try_pop (bf_results b)) |> <| inlinePage_ := None |>).
  assert (queue_ b1 = queue_ b /\ inFlight_ b1 = inFlight_ b) as [Eq Ef] by (subst b1; by case_match).
  assert (exists pg, (if bf_inlineFetch (bfcfg b) then Some (inlinePage_ b, b <| inlinePage_ := None |>, l)
      else let '(p, q) := try_pop (bf_results b) in
           Some (p, b <| bf_results := q |> <| inlinePage_ := None |>, l)) = Some (pg, b1, l)) as [pg ->].
  { subst b1. case_match; [by eexists|]. destruct (try_pop _). by eexists. }
  apply (agrees_same _ b1) in Hb; [|done..]. rewrite Hf in Ef. clearbody b1. clear b Eq Hf.
  destruct pg as [page|]; [|by intros [= <- <- <-]].
  unfold bind at 1, puts. set (b2 := b1 <| inFlight_ := false |>).
  assert (exists g, at_head g b2 l) as [g Hh].
  { destruct Hb as [Hb Hok Hfl]. specialize (Hfl Ef). destruct (queue_ b1) as [|[g f] q] eqn:Eq; [done|].
    exists g. split; [constructor|]; unfold b2; cbn [queue_ inFlight_ modify eta_TradeBackfill]; rewrite ?Eq; eauto. }
  clearbody b2. unfold bind. destruct (onPage page nowMs b2 l) as [[[[] b3] l3]|] eqn:Ep; [|done].
  intros [= <- <- <-]. by apply (onPage_triple g) in Ep as [? _].
Qed.

(** What a gap must have passed before a page is requested for it. *)
Definition head_ready (b : TradeBackfill) : Prop :=
  inFlight_ b = true \/ match queue_ b with [] => True | j :: _ => settles (bfcfg b) (j_gap j) = None end.

Lemma finish_eq status reason g f q b l x b' l' :
  queue_ b = mkJob g f :: q -> finish status reason b l = Some (x, b', l') ->
  queue_ b' = q /\ inFlight_ b' = inFlight_ b /\ bfcfg b' = bfcfg b.
Proof.
  intros Hq. unfold TradeBackfill.finish, front, call, bind, gets, puts, log_record. rewrite Hq. cbn.
  destruct (recordEvent _ _ _ _); [|done]. intros [= <- <- <-]. case_bool_decide; cbn [queue_ inFlight_ bfcfg modify eta_TradeBackfill]; by rewrite Hq.
Qed.

Lemma settle_loop_triple n :
  triple (fun b l => agrees b l /\ length (queue_ b) = n) (settle_loop n)
    (fun _ b l => agrees b l /\ head_ready b).
Proof.
  induction n as [|n IH]; cbn [TradeBackfill.settle_loop].
  { apply triple_ret. intros b l [Hb Hn]. split; [done|]. right. by apply nil_length_inv in Hn as ->. }
  intros b l x b' l' [Hb Hn]. unfold bind at 1, gets.
  destruct (inFlight_ b) eqn:Ef; [intros [= <- <- <-]; split; [done|by left]|].
  destruct (queue_ b) as [|[g f] q] eqn:Eq; [done|]. cbn [j_gap].
  destruct (settles (bfcfg b) g) as [[st why]|] eqn:Es.
  2: { intros [= <- <- <-]. split; [done|]. right. by rewrite Eq. }
  unfold bind at 1. destruct (finish st why b l) as [[[[] b1] l1]|] eqn:E1; [|done].
  assert (at_head g b l) as Hh by (split; [done|]; eauto).
  destruct (finish_eq _ _ _ _ _ _ _ _ _ _ Eq E1) as (Eq1 & _ & _).
  apply (finish_triple g) in E1 as [Hb1 _]; [| |..|done].
  3: { revert Es. unfold settles. repeat case_match; intros [= <- <-]; auto. }
  2: { intros ->. revert Es. unfold settles. case_match; [done|]. case_match; [done|].
       destruct (Z.ltb_spec (g_lastId g) (nextNeededId g)); [lia|done]. }
  unfold bind. destruct (settle_loop n b1 l1) as [[[y b2] l2]|] eqn:E2; [|done].
  intros [= <- <- <-]. apply IH in E2; [done|]. split; [done|]. rewrite Eq1. cbn in Hn. lia.
Qed.

Lemma request_triple nowMs :
  triple (fun b l => agrees b l /\ head_ready b) (request_next nowMs) (fun _ => agrees).
Proof.
  intros b l x b' l' [Hb Hr]. unfold TradeBackfill.request_next, bind, gets, puts, world, log_fetch.
  destruct (inFlight_ b) eqn:Ef; [by intros [= <- <- <-]|].
  destruct (queue_ b) as [|j q] eqn:Eq; [by intros [= <- <- <-]|].
  destruct (tryAcquire 0 nowMs (sched_ b)) as [ok s]. destruct ok; cbn [negb].
  - destruct Hb as [Hb Hok _].
    destruct (bf_inlineFetch (bfcfg b)); [destruct (fetcher _ _ _ _)|];
      intros [= <- <- <-]; constructor; cbn [queue_ inFlight_ modify eta_TradeBackfill]; rewrite ?Eq in *; done.
  - intros [= <- <- <-]. by apply (agrees_same b).
Qed.

(** ** One request at a time, and only when it is needed *)

Definition fetching (b : TradeBackfill) : list Request :=
  match bf_thread b with BfFetching r => [r] | _ => [] end.
Definition outstanding (b : TradeBackfill) : list Request := fetching b ++ q_ (bf_requests b).
Definition ready (b : TradeBackfill) : list BackfillPage := q_ (bf_results b) ++ option_list (inlinePage_ b).

(** The request is for what the gap still misses, at most one page of it. *)
Definition asks (c : TradeBackfillConfig) (g : TradeGap) (r : Request) : Prop :=
  r = mkBfRequest (g_sym g) (nextNeededId g) (Z.min (bf_pageLimit c) (g_lastId g - nextNeededId g + 1)).

Definition counted (b : TradeBackfill) : Prop := pagesRequested_ b = requests_ (sched_ b).
Definition quiet (b : TradeBackfill) : Prop :=
  counted b /\ inFlight_ b = false /\ outstanding b = [] /\ ready b = [].
Definition busy (b : TradeBackfill) : Prop :=
  counted b /\ inFlight_ b = true /\ (length (outstanding b) + length (ready b) <= 1)%nat /\
  exists j q, queue_ b = j :: q /\ settles (bfcfg b) (j_gap j) = None /\
    Forall (asks (bfcfg b) (j_gap j)) (outstanding b).
Definition disciplined (b : TradeBackfill) : Prop := quiet b \/ busy b.

Local Abbreviation quietly := (fun (b : TradeBackfill) (_ : C) => quiet b).

Lemma quiet_puts f :
  (forall b, requests_ (sched_ (f b)) = requests_ (sched_ b) /\ pagesRequested_ (f b) = pagesRequested_ b /\
     inFlight_ (f b) = inFlight_ b /\ outstanding (f b) = outstanding b /\ ready (f b) = ready b) ->
  ensures quietly (puts f) anything.
Proof.
  intros H. apply ensures_puts. intros b _ (Hc & Hf & Ho & Hr). destruct (H b) as (E1 & E2 & E3 & E4 & E5).
  unfold quiet, counted. by rewrite E1, E2, E3, E4, E5.
Qed.

Ltac quiet_step :=
  first [ensures_step
        | lazymatch goal with
          | |- ensures _ (puts _) _ =>
              apply quiet_puts; intros ?;
              first [done | by (split; [first [apply onFailure_requests | apply onFetchOk_requests]|]) | by case_bool_decide]
          | |- ensures _ (call _) _ => intros ? ? ? ? ? ?; unfold call, log_publish, log_record; case_match; [|done]; by intros [= <- <- <-]
          end].

Lemma finish_quiet st why : ensures quietly (finish st why) anything.
Proof. unfold TradeBackfill.finish, front. repeat quiet_step. Qed.
Lemma fail_quiet page nowMs why : ensures quietly (fail_page page nowMs why) anything.
Proof.
  unfold TradeBackfill.fail_page, front, set_front.
  repeat first [apply finish_quiet | quiet_step].
Qed.
Lemma publish_run_quiet sym last recv e n ts : ensures quietly (publish_run sym last recv e n ts) anything.
Proof.
  revert e n. induction ts as [|t ts IH]; intros e n; cbn [TradeBackfill.publish_run]; [by apply ensures_ret|].
  case_match; [done|]. case_match; [by apply ensures_ret|].
  apply (ensures_bind _ _ _ anything); [quiet_step|intros _ _; apply IH].
Qed.
Lemma onPage_quiet page nowMs : ensures quietly (onPage page nowMs) anything.
Proof.
  unfold TradeBackfill.onPage, front, set_front.
  repeat first [apply finish_quiet | apply fail_quiet | apply publish_run_quiet | quiet_step].
Qed.

Definition orderly (b : TradeBackfill) (_ : C) : Prop := disciplined b.

Lemma take_page_orderly nowMs : triple orderly (take_page nowMs) (fun _ => orderly).
Proof.
  intros b l x b' l' Hd. unfold TradeBackfill.take_page, bind at 1, gets.
  destruct (inFlight_ b) eqn:Hf; [|by intros [= <- <- <-]].
  destruct Hd as [(_ & Hf' & _)|(Hc & _ & Hlen & j & q & Hq & Hs & Ha)]; [congruence|].
  unfold bind at 1.
  assert (forall b1 pg, length (outstanding b1) = length (outstanding b) -> inFlight_ b1 = true -> counted b1 ->
    (S (length (outstanding b)) <= 1)%nat -> ready b1 = [] ->
    (puts (fun b => b <| inFlight_ := false |>) ;;; onPage pg nowMs ;;; ret true) b1 l = Some (x, b', l') ->
    orderly b' l') as Hpage.
  { intros b1 pg Ho _ Hc1 Hl Hr. unfold bind, puts.
    destruct (onPage pg nowMs _ l) as [[[[] b3] l3]|] eqn:Ep; [|done]. intros [= <- <- <-]. left.
    apply onPage_quiet in Ep as [Hq3 _]; [done|]. split; [done|]. split; [done|].
    assert (outstanding b1 = []) as Ho1 by (apply nil_length_inv; lia). done. }
  assert (forall b1, pagesRequested_ b1 = pagesRequested_ b -> sched_ b1 = sched_ b -> inFlight_ b1 = inFlight_ b ->
    outstanding b1 = outstanding b -> (length (ready b1) <= length (ready b))%nat -> queue_ b1 = queue_ b ->
    bfcfg b1 = bfcfg b -> orderly b1 l) as Hsame.
  { intros b1 E1 E2 E3 E4 E5 E6 E7. right. unfold busy, counted. rewrite E1, E2, E3, E4, E6, E7.
    split; [done|]. split; [done|]. split; [lia|]. eauto. }
  unfold ready in *. destruct (bf_inlineFetch (bfcfg b)) eqn:Ei.
  - destruct (inlinePage_ b) as [pg|] eqn:Ep; cbn [option_list] in *; rewrite length_app in Hlen; cbn in Hlen.
    + apply Hpage; [done..|lia|]. cbn [bf_results inlinePage_ modify eta_TradeBackfill option_list].
      rewrite app_nil_r. apply nil_length_inv. lia.
    + intros [= <- <- <-]. by apply Hsame.
  - unfold try_pop. destruct (q_ (bf_results b)) as [|pg qr] eqn:Eq; cbn in Hlen.
    + intros [= <- <- <-]. apply Hsame; try done.
      change (length (q_ (bf_results b) ++ []) <= length ([] ++ option_list (inlinePage_ b)))%nat. rewrite Eq. apply Nat.le_0_l.
    + apply Hpage; [done..|lia|]. rewrite length_app in Hlen.
      change (qr ++ [] = []). rewrite app_nil_r. apply nil_length_inv. lia.
Qed.

Lemma settle_loop_orderly n : triple orderly (settle_loop n) (fun _ => orderly).
Proof.
  induction n as [|n IH]; cbn [TradeBackfill.settle_loop]; [by apply triple_ret|].
  intros b l x b' l' Hd. unfold bind at 1, gets.
  destruct (inFlight_ b) eqn:Ef; [by intros [= <- <- <-]|].
  destruct Hd as [Hq|(_ & Hf & _)]; [|congruence].
  destruct (queue_ b) as [|j q]; [intros [= <- <- <-]; by left|].
  destruct (settles (bfcfg b) (j_gap j)) as [[st why]|]; [|intros [= <- <- <-]; by left].
  unfold bind. destruct (finish st why b l) as [[[[] b1] l1]|] eqn:E1; [|done].
  apply finish_quiet in E1 as [Hq1 _]; [|done].
  destruct (settle_loop n b1 l1) as [[[y b2] l2]|] eqn:E2; [|done].
  intros [= <- <- <-]. apply IH in E2; [done|by left].
Qed.

Lemma request_orderly nowMs :
  triple (fun b l => orderly b l /\ head_ready b) (request_next nowMs) (fun _ => orderly).
Proof.
  intros b l x b' l' [Hd Hr]. unfold TradeBackfill.request_next, bind, gets, puts, world, log_fetch.
  destruct (inFlight_ b) eqn:Ef; [by intros [= <- <- <-]|].
  destruct Hd as [(Hc & _ & Ho & Hp)|(_ & Hf & _)]; [|congruence].
  destruct Hr as [Hr|Hr]; [congruence|].
  destruct (queue_ b) as [|j q] eqn:Eq; [intros [= <- <- <-]; by left|].
  pose proof (tryAcquire_requests 0 nowMs (sched_ b)) as Hreq.
  destruct (tryAcquire 0 nowMs (sched_ b)) as [ok s]. cbn [fst snd] in Hreq.
  unfold ready in Hp. apply app_eq_nil in Hp as [Hp1 Hp2]. apply app_eq_nil in Ho as [Ho1 Ho2].
  destruct ok; cbn [negb].
  - assert (forall b1, pagesRequested_ b1 = Z.succ (pagesRequested_ b) -> sched_ b1 = s -> inFlight_ b1 = true ->
      queue_ b1 = queue_ b -> bfcfg b1 = bfcfg b -> (length (outstanding b1) + length (ready b1) <= 1)%nat ->
      Forall (asks (bfcfg b) (j_gap j)) (outstanding b1) -> orderly b1 l) as Hbusy.
    { intros b1 E1 E2 E3 E4 E5 E6 E7. right. unfold busy, counted. rewrite E1, E2, E4, E5, Hc, Hreq.
      split; [lia|]. split; [done|]. split; [done|]. eauto. }
    destruct (bf_inlineFetch (bfcfg b)); [destruct (fetcher _ _ _ _) as [pg x1]|];
      intros [= <- <- <-]; apply Hbusy; try done; unfold outstanding, ready.
    + change (length (fetching b ++ q_ (bf_requests b)) + length (q_ (bf_results b) ++
[pg]) <= 1)%nat.
      by rewrite Ho1, Ho2, Hp1.
    + change (Forall (asks (bfcfg b) (j_gap j)) (fetching b ++ q_ (bf_requests b))). by rewrite Ho1, Ho2.
    + change (length (fetching b ++ q_ (snd (push (mkBfRequest (g_sym (j_gap j)) (nextNeededId (j_gap j))
        (Z.min (bf_pageLimit (bfcfg b)) (g_lastId (j_gap j) - nextNeededId (j_gap j) + 1))) (bf_requests b)))) +
        length (q_ (bf_results b) ++ option_list (inlinePage_ b)) <= 1)%nat.
      rewrite Ho1, Hp1, Hp2. unfold push. rewrite Ho2. case_match; cbn [fst snd]; rewrite ?Ho2; [cbn; lia|by case_match].
    + change (Forall (asks (bfcfg b) (j_gap j)) (fetching b ++ q_ (snd (push (mkBfRequest (g_sym (j_gap j))
        (nextNeededId (j_gap j)) (Z.min (bf_pageLimit (bfcfg b)) (g_lastId (j_gap j) - nextNeededId (j_gap j) + 1)))
        (bf_requests b))))).
      rewrite Ho1. unfold push. rewrite Ho2. case_match; cbn; rewrite ?Ho2; [done|].
      case_match; by repeat constructor.
  - intros [= <- <- <-]. left. split; [|split; [done|split]].
    + unfold counted. cbn. rewrite Hc. lia.
    + change (fetching b ++ q_ (bf_requests b) = []). by rewrite Ho1, Ho2.
    + change (q_ (bf_results b) ++ option_list (inlinePage_ b) = []). by rewrite Hp1, Hp2.
Qed.

Definition good (b : TradeBackfill) (l : C) : Prop := agrees b l /\ orderly b l.

Lemma settle_good : triple good settle (fun _ b l => good b l /\ head_ready b).
Proof.
  intros b l x b' l' [Hb Hd]. unfold TradeBackfill.settle, bind at 1, gets. intros E.
  pose proof (settle_loop_orderly _ _ _ _ _ _ Hd E) as Hd'.
  apply settle_loop_triple in E as [? ?]; [done|]. done.
Qed.

Lemma pump_good guard nowMs : triple good (pump_loop guard nowMs) (fun _ => good).
Proof.
  induction guard as [|guard IH]; cbn [TradeBackfill.pump_loop]; [by apply triple_ret|].
  eapply triple_bind; [apply (triple_and _ _ _ _ _ (take_page_triple nowMs) (take_page_orderly nowMs))|intros p1].
  eapply triple_bind; [apply settle_good|intros p2].
  apply (triple_bind _ _ _ (fun _ => good)).
  { intros b l x b' l' [[Ha Ho] Hh] E. split.
    - by apply (request_triple nowMs b l x b' l').
    - by apply (request_orderly nowMs b l x b' l'). }
  intros p3. case_match; [done|by apply triple_ret].
Qed.
End run.

(** ** What a client keeps through its callbacks, it keeps through [pump] *)

Section client.
Context {C : Type} (R : C -> Prop).
Context (publishRow : string -> BackfillTrade -> Z -> C -> option C).
Context (recordEvent : TradeGap -> GapStatus -> string -> C -> option C).
Context (fetcher : string -> Z -> Z -> C -> BackfillPage * C).
Context (jitter : C -> double * C).
Hypothesis Hpublish : forall sym t recv c c', R c -> publishRow sym t recv c = Some c' -> R c'.
Hypothesis Hrecord : forall g st why c c', R c -> recordEvent g st why c = Some c' -> R c'.
Hypothesis Hfetch : forall sym from limit c, R c -> R (snd (fetcher sym from limit c)).
Hypothesis Hjitter : forall c, R c -> R (snd (jitter c)).

Local Abbreviation keep := (fun (_ : TradeBackfill) c => R c).

Lemma call_client (f : C -> option C) :
  (forall c c', R c -> f c = Some c' -> R c') -> ensures keep (call f) anything.
Proof.
  intros Hf b c x b' c' Hc. unfold call. destruct (f c) as [c1|] eqn:E; [|done]. intros [= <- <- <-].
  split; [by eapply Hf|done].
Qed.

Ltac client_step :=
  lazymatch goal with
  | |- ensures _ (call (publishRow _ _ _)) _ => apply call_client, Hpublish
  | |- ensures _ (call (recordEvent _ _ _)) _ => apply call_client, Hrecord
  | |- ensures _ (world jitter) _ => apply ensures_world; intros ?; apply Hjitter
  | |- ensures _ (world (fetcher _ _ _)) _ => apply ensures_world; intros ?; apply Hfetch
  | |- ensures _ (puts _) _ => apply ensures_puts; by intros ? ? ?
  | |- _ => ensures_step
  end.

Lemma finish_client st why : ensures keep (finish recordEvent st why) anything.
Proof. unfold finish, front. repeat client_step. Qed.
Lemma fail_client page nowMs why : ensures keep (fail_page recordEvent jitter page nowMs why) anything.
Proof. unfold fail_page, front, set_front. repeat first [apply finish_client | client_step]. Qed.
Lemma publish_run_client sym last recv e n ts : ensures keep (publish_run publishRow sym last recv e n ts) anything.
Proof.
  revert e n. induction ts as [|t ts IH]; intros e n; cbn [publish_run]; repeat first [apply IH | client_step].
Qed.
Lemma onPage_client page nowMs : ensures keep (onPage publishRow recordEvent jitter page nowMs) anything.
Proof.
  unfold onPage, front, set_front.
  repeat first [apply finish_client | apply fail_client | apply publish_run_client | client_step].
Qed.
Lemma take_page_client nowMs : ensures keep (take_page publishRow recordEvent jitter nowMs) anything.
Proof.
  unfold take_page. repeat first [apply onPage_client | client_step].
  intros b c x b' c' Hc. case_match; [|destruct (try_pop (bf_results b))]; by intros [= <- <- <-].
Qed.
Lemma settle_client n : ensures keep (settle_loop recordEvent n) anything.
Proof. induction n as [|n IH]; cbn [settle_loop]; repeat first [apply IH | apply finish_client | client_step]. Qed.
Lemma request_client nowMs : ensures keep (request_next fetcher nowMs) anything.
Proof. unfold request_next. repeat client_step. Qed.

Lemma pump_client guard nowMs :
  ensures keep (pump_loop publishRow recordEvent fetcher jitter guard nowMs) anything.
Proof.
  induction guard as [|guard IH]; cbn [pump_loop]; [by apply ensures_ret|]. unfold settle.
  repeat first [apply IH | apply take_page_client | apply settle_client | apply request_client | client_step].
Qed.
End client.

(** ** Any client can be given a log *)

Section logged.
Context {X : Type}.

Definition logs {A} (m : M TradeBackfill X A) (m' : M TradeBackfill (X * list bf_event) A) : Prop :=
  forall b x l r b' x', m b x = Some (r, b', x') -> exists l', m' b (x, l) = Some (r, b', (x', l')).

Lemma logs_ret {A} (r : A) : logs (ret r) (ret r).
Proof. intros b x l r' b' x' [= <- <- <-]. by exists l. Qed.
Lemma logs_gets {A} (f : TradeBackfill -> A) : logs (gets f) (gets f).
Proof. intros b x l r' b' x' [= <- <- <-]. by exists l. Qed.
Lemma logs_puts f : logs (puts f) (puts f).
Proof. intros b x l r' b' x' [= <- <- <-]. by exists l. Qed.
Lemma logs_bind {A B} (m : M TradeBackfill X A) m' (k : A -> M TradeBackfill X B) k' :
  logs m m' -> (forall r, logs (k r) (k' r)) -> logs (bind m k) (bind m' k').
Proof.
  intros Hm Hk b x l r b' x'. unfold bind. destruct (m b x) as [[[r1 b1] x1]|] eqn:E; [|done].
  intros E2. destruct (Hm _ _ l _ _ _ E) as [l1 ->]. by apply Hk.
Qed.
Lemma logs_when c (m : M TradeBackfill X unit) m' : logs m m' -> logs (when c m) (when c m').
Proof. intros H. destruct c; [done|]. apply logs_ret. Qed.

Context (publishRow : string -> BackfillTrade -> Z -> X -> option X).
Context (recordEvent : TradeGap -> GapStatus -> string -> X -> option X).
Context (fetcher : string -> Z -> Z -> X -> BackfillPage * X).
Context (jitter : X -> double * X).
Local Abbreviation pub := (log_publish publishRow).
Local Abbreviation rec := (log_record recordEvent).
Local Abbreviation fet := (log_fetch fetcher).
Local Abbreviation jit := (log_jitter jitter).

Lemma logs_publish sym t recv : logs (call (publishRow sym t recv)) (call (pub sym t recv)).
Proof.
  intros b x l r b' x'. unfold call, log_publish. cbn [fst snd].
  destruct (publishRow sym t recv x); [|done]. intros [= <- <- <-]. by eexists.
Qed.
Lemma logs_record g st why : logs (call (recordEvent g st why)) (call (rec g st why)).
Proof.
  intros b x l r b' x'. unfold call, log_record. cbn [fst snd].
  destruct (recordEvent g st why x); [|done]. intros [= <- <- <-]. by eexists.
Qed.
Lemma logs_fetch sym from limit : logs (world (fetcher sym from limit)) (world (fet sym from limit)).
Proof.
  intros b x l r b' x'. unfold world, log_fetch. cbn [fst snd].
  destruct (fetcher sym from limit x). intros [= <- <- <-]. by eexists.
Qed.
Lemma logs_jitter : logs (world jitter) (world jit).
Proof.
  intros b x l r b' x'. unfold world, log_jitter. cbn [fst snd].
  destruct (jitter x). intros [= <- <- <-]. by eexists.
Qed.

Ltac logs_step :=
  first [apply logs_ret | apply logs_gets | apply logs_puts | apply logs_when | apply logs_publish
        | apply logs_record | apply logs_fetch | apply logs_jitter
        | apply logs_bind; [|intros ?]
        | match goal with |- logs (match ?x with _ => _ end) _ => destruct x end].

Lemma logs_finish st why : logs (finish recordEvent st why) (finish rec st why).
Proof. unfold finish, front. repeat logs_step. Qed.
Lemma logs_fail page nowMs why :
  logs (fail_page recordEvent jitter page nowMs why) (fail_page rec jit page nowMs why).
Proof. unfold fail_page, front, set_front. repeat first [apply logs_finish | logs_step]. Qed.
Lemma logs_run sym last recv e n ts :
  logs (publish_run publishRow sym last recv e n ts) (publish_run pub sym last recv e n ts).
Proof.
  revert e n. induction ts as [|t ts IH]; intros e n; cbn [publish_run]; repeat first [apply IH | logs_step].
Qed.
Lemma logs_onPage page nowMs :
  logs (onPage publishRow recordEvent jitter page nowMs) (onPage pub rec jit page nowMs).
Proof.
  unfold onPage, front, set_front. repeat first [apply logs_finish | apply logs_fail | apply logs_run | logs_step].
Qed.
Lemma logs_take_page nowMs :
  logs (take_page publishRow recordEvent jitter nowMs) (take_page pub rec jit nowMs).
Proof.
  unfold take_page. repeat first [apply logs_onPage | logs_step].
  intros b x l r' b' x'. case_match; [|destruct (try_pop (bf_results b))]; intros [= <- <- <-]; by eexists.
Qed.
Lemma logs_settle_loop n : logs (settle_loop recordEvent n) (settle_loop rec n).
Proof. induction n as [|n IH]; cbn [settle_loop]; repeat first [apply IH | apply logs_finish | logs_step]. Qed.
Lemma logs_request nowMs : logs (request_next fetcher nowMs) (request_next fet nowMs).
Proof. unfold request_next. repeat logs_step. Qed.
Lemma logs_pump guard nowMs :
  logs (pump_loop publishRow recordEvent fetcher jitter guard nowMs) (pump_loop pub rec fet jit guard nowMs).
Proof.
  induction guard as [|guard IH]; cbn [pump_loop]; [apply logs_ret|]. unfold settle.
  repeat first [apply IH | apply logs_take_page | apply logs_settle_loop | apply logs_request | logs_step].
Qed.
End logged.

(** ** Runs *)

Section runs.
Context (cfg : TradeBackfillConfig).

(** The handler, whatever its callbacks do, adds gaps and pumps; the worker
    thread pops and fetches; the exchange answers anything at all. *)
Inductive bf_run : TradeBackfill -> list bf_event -> Prop :=
  | run_new : bf_run (newBackfill cfg) []
  | run_start b l : bf_thread b = BfIdle \/ bf_thread b = BfExited -> bf_run b l -> bf_run (bf_start b) l
  | run_stop b l : bf_run b l -> bf_run (bf_stop b) l
  | run_add g b l : gap_ok g -> bf_run b l -> bf_run (addGap g b) (l ++ [Added g])
  | run_pump X pub rec fetch jit nowMs b (x : X) l b' x' l' :
      bf_run b l ->
      pump (log_publish pub) (log_record rec) (log_fetch fetch) (log_jitter jit) nowMs b (x, l)
        = Some (tt, b', (x', l')) ->
      bf_run b' l'
  | run_pop b l b' : bf_run b l -> bf_pop b = Some b' -> bf_run b' l
  | run_fetched page b l b' : bf_run b l -> bf_fetched page b = Some b' -> bf_run b' l.

Definition good_log (b : TradeBackfill) (l : list bf_event) : Prop := agrees_log b l /\ disciplined b.

Lemma good_same b b' l :
  queue_ b' = queue_ b -> inFlight_ b' = inFlight_ b -> bfcfg b' = bfcfg b ->
  pagesRequested_ b' = pagesRequested_ b -> sched_ b' = sched_ b ->
  (length (outstanding b') + length (ready b') <= length (outstanding b) + length (ready b))%nat ->
  outstanding b' `sublist_of` outstanding b -> good_log b l -> good_log b' l.
Proof.
  intros E1 E2 E3 E4 E5 Hlen Hsub [Ha Ho]. split; [destruct Ha; constructor; by rewrite ?E1, ?E2|].
  destruct Ho as [(Hc & Hf & Hout & Hr)|(Hc & Hf & Hl & j & q & Hq & Hs & Hall)].
  - left. unfold quiet, counted. rewrite E2, E4, E5. rewrite Hout, Hr in Hlen. cbn in Hlen.
    split; [done|]. split; [done|]. split; apply nil_length_inv; lia.
  - right. unfold busy, counted. rewrite E1, E2, E3, E4, E5. split; [done|]. split; [done|]. split; [lia|].
    exists j, q. split; [done|]. split; [done|]. by eapply sublist_Forall.
Qed.

Lemma add_good g b l : gap_ok g -> good_log b l -> good_log (addGap g b) (l ++ [Added g]).
Proof.
  intros Hg [[Hb Hok Hfl] Ho]. split; [constructor|].
  - rewrite spec_run_snoc, Hb. cbn. by rewrite fmap_app.
  - apply Forall_app. split; [done|]. by constructor.
  - intros _ H. by apply app_eq_nil in H as [_ ?].
  - destruct Ho as [Hq|(Hc & Hf & Hl & j & q & Hq & Hs & Ha)]; [by left|right].
    split; [done|]. split; [done|]. split; [done|]. exists j, (q ++ [mkJob g 0]). split; [|done].
    cbn [queue_ addGap modify eta_TradeBackfill]. by rewrite Hq.
Qed.

Lemma new_good : good_log (newBackfill cfg) [].
Proof. split; [by constructor|]. by left. Qed.

Lemma start_good b l : bf_thread b = BfIdle \/ bf_thread b = BfExited -> good_log b l -> good_log (bf_start b) l.
Proof.
  intros Ht Hg. unfold bf_start. destruct (_ || _); [done|]. apply (good_same b); try done.
  - unfold outstanding, fetching, ready. cbn. rewrite !length_app. destruct Ht as [-> | ->]; cbn; lia.
  - unfold outstanding, fetching. cbn. by destruct Ht as [-> | ->].
Qed.

Lemma stop_good b l : good_log b l -> good_log (bf_stop b) l.
Proof. intros Hg. unfold bf_stop. destruct (negb _); [done|]. by apply (good_same b). Qed.

Lemma pop_good b l b' : good_log b l -> bf_pop b = Some b' -> good_log b' l.
Proof.
  intros Hg Hp. unfold bf_pop in Hp. destruct (bf_thread b) eqn:Et; try done.
  destruct (bf_running b); cbn [negb] in Hp.
  2: { injection Hp as <-. apply (good_same b); try done; unfold outstanding, fetching, ready; cbn;
       rewrite Et; cbn; [lia|done]. }
  unfold pop_blocking in Hp. destruct (q_shutdown (bf_requests b) || negb (is_empty (q_ (bf_requests b)))); [|done].
  unfold try_pop in Hp. destruct (q_ (bf_requests b)) as [|r rs] eqn:Eq; injection Hp as <-;
    apply (good_same b); try done; unfold outstanding, fetching, ready; cbn; rewrite Et, Eq; cbn; done || lia.
Qed.

Lemma fetched_good page b l b' : good_log b l -> bf_fetched page b = Some b' -> good_log b' l.
Proof.
  intros Hg Hp. unfold bf_fetched in Hp. destruct (bf_thread b) as [| |r|] eqn:Et; try done. injection Hp as <-.
  apply (good_same b); try done; unfold outstanding, fetching, ready; cbn; rewrite Et; cbn.
  - rewrite !length_app. unfold push. case_match; cbn; [lia|]. rewrite length_app. cbn.
    destruct (q_ (bf_results b)); case_match; cbn; lia.
  - by apply sublist_cons.
Qed.

Lemma run_good b l : bf_run b l -> good_log b l.
Proof.
  induction 1 as [| | | |X pub rec fetch jit nowMs b x l b' x' l' _ IH Hp| |];
    eauto using new_good, start_good, stop_good, add_good, pop_good, fetched_good.
  by apply (pump_good pub rec fetch jit) in Hp.
Qed.
End runs.

(** C13: whatever the exchange answers and however the worker thread is
    scheduled, the trades handed on for publication are exactly the next missing
    ids of the oldest open gap, each once and in order; a gap is reported
    recovered only when none of its ids is missing, partial only while some are;
    and the gaps still queued, with their progress, are those the reports say. *)
Theorem backfill_refines_spec cfg b l :
  bf_run cfg b l -> spec_run l = Some (j_gap <$> queue_ b).
Proof. intros H. by apply run_good in H as [[? _ _] _]. Qed.

(** C25: at most one page is outstanding; it is for the oldest gap, which needs
    it (backfill enabled, not too large, not complete), and asks for its next
    missing ids, no more than a page or what is left; and every request has been
    allowed by the rate scheduler. *)
Theorem one_request_at_a_time cfg b l :
  bf_run cfg b l ->
  pagesRequested_ b = requests_ (sched_ b) /\
  (length (outstanding b) + length (ready b) <= 1)%nat /\
  forall r, r ∈ outstanding b ->
    exists j q, queue_ b = j :: q /\ settles (bfcfg b) (j_gap j) = None /\
      r = mkBfRequest (g_sym (j_gap j)) (nextNeededId (j_gap j))
            (Z.min (bf_pageLimit (bfcfg b)) (g_lastId (j_gap j) - nextNeededId (j_gap j) + 1)).
Proof.
  intros H. apply run_good in H as [_ [(Hc & _ & Ho & Hr)|(Hc & _ & Hl & j & q & Hq & Hs & Ha)]].
  - split; [done|]. rewrite Ho, Hr. split; [cbn; lia|]. intros r Hr'. by apply elem_of_nil in Hr'.
  - split; [done|]. split; [done|]. intros r Hr. exists j, q. split; [done|]. split; [done|].
    by apply (proj1 (Forall_forall _ _) Ha).
Qed.

(** ** One gap, from detection to verdict *)

Definition added (l : list bf_event) : list TradeGap := omap (fun e => match e with Added g => Some g | _ => None end) l.
Definition published (l : list bf_event) : list Z :=
  omap (fun e => match e with Published _ id => Some id | _ => None end) l.
Definition is_recovered (e : bf_event) : bool :=
  match e with Recorded _ Recovered _ => true | _ => false end.
Definition recovered (l : list bf_event) : bool := existsb is_recovered l.

(** A gap as the tracker reports it: nothing of it backfilled yet. *)
Definition fresh_gap (g : TradeGap) : Prop := 1 <= g_firstId g <= g_lastId g /\ g_recoveredThroughId g <= 0.

Definition one_gap (g : TradeGap) (l : list bf_event) (q : list TradeGap) : Prop :=
  exists n, 0 <= n <= missing g /\ published l = seqZ (g_firstId g) n /\ (q = [advance n g] \/ q = []) /\
    (recovered l = true -> n = missing g /\ q = []).

Lemma omap_snoc {A B} (f : A -> option B) (l : list A) x :
  omap f (l ++ [x]) = omap f l ++ option_list (f x).
Proof. rewrite omap_app. cbn. by destruct (f x). Qed.

Lemma recovered_snoc l e : recovered (l ++ [e]) = recovered l || is_recovered e.
Proof. unfold recovered. rewrite existsb_app. cbn [existsb]. by rewrite orb_false_r. Qed.

Lemma spec_step_added e q q' :
  spec_step e q = Some q' -> match e with Added g => q' = q ++ [g] | _ => q <> [] end.
Proof. destruct e, q; cbn; try done; by intros [= <-]. Qed.

Lemma one_gap_step g l q e q' :
  fresh_gap g -> one_gap g l q -> spec_step e q = Some q' -> (forall g', e <> Added g') ->
  one_gap g (l ++ [e]) q'.
Proof.
  intros [Hg Ht] (n & Hn & Hp & Hq & Hr) He Hna. unfold one_gap, published.
  setoid_rewrite omap_snoc. fold (published l). rewrite Hp, recovered_snoc.
  assert (gap_ok g) as Hok by (unfold gap_ok; lia).
  assert (nextNeededId g = g_firstId g) as Hnext.
  { unfold nextNeededId. by replace (0 <? g_recoveredThroughId g) with false by lia. }
  pose proof (advance_fixed n g) as (_ & Hlast & _). pose proof (advance_next n g Hok ltac:(lia)) as Hnn.
  destruct Hq as [->| ->]; [|apply spec_step_added in He; by destruct e; [destruct (Hna g0)|..]].
  destruct e as [g'|sym id|g' st why]; [by destruct (Hna g')| |]; cbn [spec_step] in He; cbn [is_recovered].
  - destruct (bool_decide _ && _ && _) eqn:Ec; [|done]. injection He as <-.
    apply andb_true_iff in Ec as [[_ Hid]%andb_true_iff Hle].
    apply Z.eqb_eq in Hid. apply Z.leb_le in Hle. rewrite Hnn in Hid. rewrite Hlast in Hle.
    exists (n + 1). unfold missing. split; [lia|]. split.
    { rewrite seqZ_app by lia. f_equal. subst id. rewrite Hnext. cbn. f_equal; lia. }
    split; [left; by rewrite advance_advance by (done || lia)|].
    rewrite orb_false_r. intros [-> [=]]%Hr.
  - case_bool_decide; [|done]. subst g'. exists n. rewrite app_nil_r. split; [done|]. split; [done|].
    destruct st; try done.
    + destruct (_ <=? _); [|done]. injection He as <-. split; [by left|].
      rewrite orb_false_r. intros [-> [=]]%Hr.
    + destruct (Z.ltb_spec (g_lastId (advance n g)) (nextNeededId (advance n g))); [|done].
      injection He as <-. split; [by right|]. intros _. unfold missing in *. split; [lia|done].
    + injection He as <-. split; [by right|]. rewrite orb_false_r. intros [-> [=]]%Hr.
Qed.

Lemma one_gap_run g l q :
  fresh_gap g -> spec_run l = Some q ->
  (added l = [] -> q = [] /\ l = []) /\ (added l = [g] -> one_gap g l q).
Proof.
  intros Hg. revert q. induction l as [|e l IH] using rev_ind; intros q.
  { cbn. intros [= <-]. done. }
  rewrite spec_run_snoc. destruct (spec_run l) as [q0|] eqn:E0; [|done]. cbn.
  intros He. destruct (IH q0 eq_refl) as [IH0 IH1]. unfold added in *. rewrite omap_snoc.
  pose proof (spec_step_added _ _ _ He) as Hs.
  destruct e as [g'|sym id|g' st why]; cbn [option_list]; rewrite ?app_nil_r.
  - split; [by intros [_ [=]]%app_eq_nil|]. intros Ha.
    destruct (omap _ l) as [|? l'] eqn:Eo; [|by destruct l']. injection Ha as ->.
    destruct (IH0 eq_refl) as [-> ->]. subst q. exists 0. destruct Hg as [? ?]. unfold missing.
    split; [lia|]. split; [done|]. split; [by left|done].
  - split; [intros Ha; by destruct (IH0 Ha) as [-> _]|].
    intros Ha. apply (one_gap_step g l q0); [done|auto|done|discriminate].
  - split; [intros Ha; by destruct (IH0 Ha) as [-> _]|].
    intros Ha. apply (one_gap_step g l q0); [done|auto|done|discriminate].
Qed.


(** ** A concrete run: ids 5 to 7 missing, served in two pages *)

Definition ex_gap : TradeGap := mkTradeGap "BTCUSDT" 5 7 0 0.
Definition ex_trade (id : Z) : BackfillTrade := mkBackfillTrade id (d_of_Z 100) (d_of_Z 1) dnan 0 0 1700 true.
Definition ex_page (ids : list Z) : BackfillPage := mkPage true false 200 0 10 1000 "" (ex_trade <$> ids).
(** A client that does nothing. *)
Definition no_fetch (_ : string) (_ _ : Z) (u : unit) : BackfillPage * unit := (empty_page, u).
Definition no_jitter (u : unit) : double * unit := (d0, u).
Definition ex_pump (nowMs : Z) (s : TradeBackfill * list bf_event) : TradeBackfill * list bf_event :=
  match pump (log_publish (fun _ _ _ => Some)) (log_record (fun _ _ _ => Some)) (log_fetch no_fetch)
          (log_jitter no_jitter) nowMs (fst s) (tt, snd s) with
  | Some (_, b, (_, l)) => (b, l)
  | None => s
  end.
Definition ex_worker (page : BackfillPage) (s : TradeBackfill * list bf_event) : TradeBackfill * list bf_event :=
  match bf_pop (fst s) with
  | Some b => match bf_fetched page b with Some b => (b, snd s) | None => s end
  | None => s
  end.

Definition ex_bf_cfg : TradeBackfillConfig := default_TradeBackfillConfig.
(** After the first request; after the first page; at the end. *)
Definition ex_bf1 : TradeBackfill * list bf_event :=
  ex_pump 1000 (addGap ex_gap (bf_start (newBackfill ex_bf_cfg)), [Added ex_gap]).
Definition ex_bf2 : TradeBackfill * list bf_event := ex_pump 7000 (ex_worker (ex_page [4; 5; 6]) ex_bf1).
Definition ex_bf3 : TradeBackfill * list bf_event := ex_pump 13000 (ex_worker (ex_page [7; 8]) ex_bf2).

Lemma ex_pump_run cfg nowMs s : bf_run cfg (fst s) (snd s) -> bf_run cfg (fst (ex_pump nowMs s)) (snd (ex_pump nowMs s)).
Proof.
  intros H. unfold ex_pump. destruct (pump _ _ _ _ _ _ _) as [[[[] b] [x l]]|] eqn:E; [|done].
  by eapply run_pump.
Qed.
Lemma ex_worker_run cfg page s :
  bf_run cfg (fst s) (snd s) -> bf_run cfg (fst (ex_worker page s)) (snd (ex_worker page s)).
Proof.
  intros H. unfold ex_worker. destruct (bf_pop (fst s)) as [b|] eqn:E1; [|done].
  destruct (bf_fetched page b) as [b'|] eqn:E2; [|done].
  cbn [fst snd]. eapply run_fetched; [|exact E2]. by eapply run_pop.
Qed.
Lemma ex_bf1_run : bf_run ex_bf_cfg (fst ex_bf1) (snd ex_bf1).
Proof.
  apply ex_pump_run. apply (run_add _ ex_gap _ []); [unfold gap_ok; cbn; lia|].
  apply run_start; [by left|]. apply run_new.
Qed.
Lemma ex_bf3_run : bf_run ex_bf_cfg (fst ex_bf3) (snd ex_bf3).
Proof. unfold ex_bf3, ex_bf2. do 2 apply ex_pump_run, ex_worker_run. apply ex_bf1_run. Qed.

Lemma backfill_refines_spec_witness :
  published (snd ex_bf3) = [5; 6; 7] /\ spec_run (snd ex_bf3) = Some (j_gap <$> queue_ (fst ex_bf3)).
Proof.
  split; [vm_compute; reflexivity|]. exact (backfill_refines_spec ex_bf_cfg _ _ ex_bf3_run).
Defined.

Lemma one_request_at_a_time_witness :
  pagesRequested_ (fst ex_bf1) = requests_ (sched_ (fst ex_bf1)) /\
  outstanding (fst ex_bf1) = [mkBfRequest "BTCUSDT" 5 3] /\
  (length (outstanding (fst ex_bf1)) + length (ready (fst ex_bf1)) <= 1)%nat.
Proof.
  destruct (one_request_at_a_time ex_bf_cfg _ _ ex_bf1_run) as (H1 & H2 & _).
  split; [exact H1|]. split; [vm_compute; reflexivity|exact H2].
Defined.

