(* ===== verification/TradeBackfillLive.v ===== *)
(** * An exchange that serves a gap gets it recovered

    The other direction of TradeBackfillProps: if the pages hold what was asked
    for, every one of them brings the gap forward by a whole page, none is asked
    for twice, and after as many as the gap is long the gap is reported recovered.
    When requests may go out is the rate scheduler's business (Scheduler). *)

From S2P Require Import Prelude Double MarketConfig Effects Backoff Scheduler RestClient.
From S2P Require Import SnapshotWorker TradeGap TradeBackfill TradeBackfillProps.

Open Scope Z_scope.
Local Open Scope rec_scope.
Local Open Scope effect_scope.

(** The page holds the ids asked for. *)
Definition honest (r : Request) (p : BackfillPage) : Prop :=
  pg_ok p = true /\ bt_id <$> pg_trades p = seqZ (br_fromId r) (br_limit r).

Section served.
Context (cfg : TradeBackfillConfig) (g : TradeGap).
Hypothesis Henabled : bf_enabled cfg = true.
Hypothesis Hthread : bf_inlineFetch cfg = false.
Hypothesis Hlimit : 1 <= bf_pageLimit cfg.
Hypothesis Hsize : missing g <= bf_maxGapIds cfg.
Hypothesis Hfresh : fresh_gap g.

(** The handler pumps, the worker thread pops and fetches what was asked. *)
Inductive served_run : TradeBackfill -> list bf_event -> Prop :=
  | served_start : served_run (addGap g (bf_start (newBackfill cfg))) [Added g]
  | served_pump X pub rec fetch jit nowMs b (x : X) l b' x' l' :
      served_run b l ->
      pump (log_publish pub) (log_record rec) (log_fetch fetch) (log_jitter jit) nowMs b (x, l)
        = Some (tt, b', (x', l')) ->
      served_run b' l'
  | served_pop b l b' : served_run b l -> bf_pop b = Some b' -> served_run b' l
  | served_fetched r page b l b' :
      served_run b l -> bf_thread b = BfFetching r -> honest r page -> bf_fetched page b = Some b' ->
      served_run b' l.

(** Pages taken so far, and the ids they brought. *)
Definition pages (b : TradeBackfill) : Z := pagesRequested_ b - (if inFlight_ b then 1 else 0).
Definition progress (n : Z) : Z := Z.min (missing g) (bf_pageLimit cfg * n).

Definition asked (k : Z) : Request :=
  mkBfRequest (g_sym g) (g_firstId g + k) (Z.min (bf_pageLimit cfg) (missing g - k)).

(** Where the one page in flight is: requested, being fetched, or served. *)
Inductive travelling (r : Request) (b : TradeBackfill) : Prop :=
  | at_request : q_ (bf_requests b) = [r] -> bf_thread b = BfWaiting -> q_ (bf_results b) = [] -> travelling r b
  | at_fetch : q_ (bf_requests b) = [] -> bf_thread b = BfFetching r -> q_ (bf_results b) = [] -> travelling r b
  | at_result p : q_ (bf_requests b) = [] -> bf_thread b = BfWaiting -> q_ (bf_results b) = [p] -> honest r p ->
      travelling r b.

Definition resting (b : TradeBackfill) : Prop :=
  q_ (bf_requests b) = [] /\ bf_thread b = BfWaiting /\ q_ (bf_results b) = [].

(** The queues are open, the driver is configured and running. *)
Record steady (b : TradeBackfill) : Prop := {
  st_cfg : bfcfg b = cfg;
  st_running : bf_running b = true;
  st_inline : inlinePage_ b = None;
  st_requests : q_shutdown (bf_requests b) = false;
  st_results : q_shutdown (bf_results b) = false;
  st_failed : pagesFailed_ b = 0
}.

(** With [k] ids backfilled: not finished, or all of it. *)
Definition at_progress (k : Z) (b : TradeBackfill) (l : list bf_event) : Prop :=
  published l = seqZ (g_firstId g) k /\
  ((k < missing g /\ queue_ b = [mkJob (advance k g) 0]) \/
   (k = missing g /\ queue_ b = [] /\ inFlight_ b = false /\ recovered l = true)).

Definition served (b : TradeBackfill) (l : list bf_event) : Prop :=
  steady b /\ 0 <= pages b /\ at_progress (progress (pages b)) b l /\
  if inFlight_ b then travelling (asked (progress (pages b))) b else resting b.

(** ** The gap *)

Lemma fresh_next : gap_ok g /\ nextNeededId g = g_firstId g.
Proof.
  destruct Hfresh as [Hg Ht]. split; [unfold gap_ok; lia|]. unfold nextNeededId.
  by replace (0 <? g_recoveredThroughId g) with false by lia.
Qed.

Lemma advanced_gap k :
  0 <= k -> nextNeededId (advance k g) = g_firstId g + k /\ g_lastId (advance k g) = g_lastId g /\
  g_sym (advance k g) = g_sym g /\ missing (advance k g) = missing g.
Proof.
  intros Hk. destruct fresh_next as [Hok Hn]. rewrite (advance_next k g Hok Hk), Hn.
  destruct (advance_fixed k g) as (E1 & E2 & E3). unfold missing. by rewrite E1, E2, E3.
Qed.

Lemma advance_more k n : 0 <= k -> 0 < n ->
  advance n (advance k g) = advance (n + k) g /\
  g_recoveredThroughId (advance (n + k) g) = g_firstId g + (n + k) - 1.
Proof.
  intros Hk Hn. destruct fresh_next as [Hok Hf]. destruct (advanced_gap k Hk) as (Hnk & _).
  unfold advance at 1 3 4. replace (n =? 0) with false by lia. replace (n + k =? 0) with false by lia.
  rewrite Hnk, Hf. cbn [g_recoveredThroughId]. split; [|lia].
  unfold advance. destruct (Z.eqb_spec k 0) as [->|]; cbn [g_sym g_firstId g_lastId g_recovered]; f_equal; lia.
Qed.

Lemma unfinished k : 0 <= k < missing g -> settles cfg (advance k g) = None.
Proof.
  intros Hk. destruct (advanced_gap k ltac:(lia)) as (E1 & E2 & _ & E4). unfold settles.
  rewrite Henabled, E1, E2, E4. cbn [negb]. unfold missing in *.
  destruct (Z.ltb_spec (bf_maxGapIds cfg) (g_lastId g - g_firstId g + 1)); [lia|].
  destruct (Z.ltb_spec (g_lastId g) (g_firstId g + k)); [lia|done].
Qed.

(** ** A page with what was asked for *)

Section client.
Context {X : Type}.
Context (publishRow : string -> BackfillTrade -> Z -> X -> option X).
Context (recordEvent : TradeGap -> GapStatus -> string -> X -> option X).
Context (fetcher : string -> Z -> Z -> X -> BackfillPage * X).
Context (jitter : X -> double * X).
Local Abbreviation pub := (log_publish publishRow).
Local Abbreviation rec := (log_record recordEvent).
Local Abbreviation fet := (log_fetch fetcher).
Local Abbreviation jit := (log_jitter jitter).

Lemma publish_run_all sy last recv ts e n len b c r b' c' :
  bt_id <$> ts = seqZ e len -> 0 <= len -> e + len - 1 <= last ->
  publish_run pub sy last recv e n ts b c = Some (r, b', c') ->
  r = (e + len, n + len) /\ b' = b /\ snd c' = snd c ++ (Published sy <$> seqZ e len).
Proof.
  revert e n len c. induction ts as [|t ts IH]; intros e n len c Hids Hlen Hlast; cbn [publish_run].
  { cbn in Hids. assert (len = 0) as ->. { pose proof (length_seqZ e len) as Hl. rewrite <-Hids in Hl. cbn in Hl. lia. }
    intros [= <- <- <-]. rewrite !Z.add_0_r. cbn. by rewrite app_nil_r. }
  assert (0 < len) as Hpos.
  { destruct (decide (len = 0)) as [->|]; [|lia]. by cbn in Hids. }
  rewrite (seqZ_cons e len) in Hids |- * by lia. cbn [fmap list_fmap] in Hids |- *. injection Hids as Hid Hids.
  rewrite Hid, Z.ltb_irrefl, Z.eqb_refl. cbn [negb orb]. replace (last <? e) with false by lia.
  unfold bind, call, log_publish. rewrite Hid. destruct (publishRow sy t recv (fst c)) as [x1|]; [|done].
  intros E. apply (IH (e + 1) (n + 1) (Z.pred len)) in E as (-> & -> & ->); [|done|lia..].
  split; [f_equal; lia|]. split; [done|]. cbn [snd]. rewrite <-app_assoc.
  by replace (Z.succ e) with (e + 1) by lia.
Qed.

Lemma published_run l sy ids : published (l ++ (Published sy <$> ids)) = published l ++ ids.
Proof.
  unfold published. rewrite omap_app. f_equal. induction ids as [|i ids IH]; [done|]. cbn. by rewrite IH.
Qed.

(** The members [onPage] leaves alone. *)
Definition frame (b : TradeBackfill) :=
  (bfcfg b, bf_running b, inlinePage_ b, bf_requests b, bf_results b, bf_thread b,
   (pagesFailed_ b, pagesRequested_ b, inFlight_ b)).

Lemma onPage_honest k page nowMs b c u b' c' :
  0 <= k < missing g -> queue_ b = [mkJob (advance k g) 0] -> inFlight_ b = false ->
  honest (asked k) page -> published (snd c) = seqZ (g_firstId g) k ->
  onPage pub rec jit page nowMs b c = Some (u, b', c') ->
  frame b' = frame b /\ at_progress (k + br_limit (asked k)) b' (snd c').
Proof.
  intros Hk Hq Hf [Hok Hids] Hp. destruct (advanced_gap k ltac:(lia)) as (En & El & Es & _).
  set (len := br_limit (asked k)) in *.
  assert (1 <= len <= missing g - k) as Hlen by (unfold len, asked; cbn; lia).
  unfold onPage, bind, front, gets, puts, set_front. cbv beta zeta. rewrite Hq. cbn [head default j_gap id].
  rewrite Hok. cbn [negb]. rewrite En, El, Es.
  destruct (pg_trades page) as [|t ts] eqn:Et; [rewrite (seqZ_cons _ len) in Hids by lia; done|].
  assert (bt_id t = g_firstId g + k) as Hid.
  { rewrite (seqZ_cons _ len) in Hids by lia. by injection Hids as ? _. }
  rewrite Hid, Z.ltb_irrefl. set (b1 := b <| sched_ ::= _ |>).
  destruct (publish_run pub _ _ _ _ 0 (t :: ts) b1 c) as [[[r b2] c2]|] eqn:Er; [|done].
  apply (publish_run_all _ _ _ _ _ _ len) in Er as (-> & -> & Hl2); [|done|lia|unfold missing in *; lia].
  rewrite Z.add_0_l. replace (len =? 0) with false by lia.
  rewrite (advance_page len (advance k g)) by (lia || rewrite En; lia).
  destruct (advance_more k len ltac:(lia) ltac:(lia)) as [-> Hthrough]. rewrite Hthrough.
  destruct (advanced_gap (len + k) ltac:(lia)) as (_ & El' & _). rewrite El'.
  assert (published (snd c2) = seqZ (g_firstId g) (k + len)) as Hp2.
  { rewrite Hl2, published_run, Hp, seqZ_app by lia. done. }
  unfold puts. set (b2 := b1 <| tradesBackfilled_ ::= Z.add len |> <| queue_ ::= _ |> <| sched_ ::= _ |>).
  assert (queue_ b2 = [mkJob (advance (len + k) g) 0] /\ inFlight_ b2 = false /\ frame b2 = frame b) as (Hq2 & Hf2 & Hfr2).
  { unfold b2, b1. cbn [queue_ modify eta_TradeBackfill]. rewrite Hq. done. }
  rewrite <-Hfr2. clearbody b2. clear Hfr2 Hl2. unfold at_progress. unfold missing in *.
  destruct (Z.leb_spec (g_lastId g) (g_firstId g + (len + k) - 1)) as [Hle|Hgt].
  - unfold finish, front, bind, gets, call, puts, log_record. rewrite Hq2.
    destruct (recordEvent _ _ _ _) as [x1|]; [|done]. rewrite bool_decide_eq_true_2 by done. intros [= _ <- <-].
    split; [done|]. cbn [snd]. split; [unfold published; rewrite omap_app; cbn; by rewrite app_nil_r|]. right.
    cbn [queue_ inFlight_ modify eta_TradeBackfill]. rewrite Hq2, Hf2, recovered_snoc, orb_true_r. split; [lia|done].
  - unfold call, log_record. destruct (recordEvent _ _ _ _) as [x1|]; [|done]. intros [= _ <- <-].
    split; [done|]. cbn [snd]. split; [unfold published; rewrite omap_app; cbn; by rewrite app_nil_r|]. left.
    rewrite Hq2. split; [lia|]. by replace (len + k) with (k + len) by lia.
Qed.

(** ** The steps of [pump] *)

Lemma progress_range n : 0 <= n -> 0 <= progress n <= missing g.
Proof. intros Hn. destruct Hfresh as [? _]. unfold progress, missing.
  assert (0 <= bf_pageLimit cfg * n) by (apply Z.mul_nonneg_nonneg; lia). lia.
Qed.

(** One more page. *)
Lemma progress_next n : 0 <= n -> progress n < missing g -> progress n + br_limit (asked (progress n)) = progress (n + 1).
Proof. intros Hn. unfold progress, asked. cbn [br_limit]. rewrite Z.mul_add_distr_l. lia. Qed.

Local Abbreviation servedc := (fun (b : TradeBackfill) (c : X * list bf_event) => served b (snd c)).

Lemma served_frame b b' l :
  frame b' = frame b -> queue_ b' = queue_ b -> served b l -> served b' l.
Proof.
  intros E Eq. injection E as E1 E2 E3 E4 E5 E6 E7 E8 E9. intros ([] & Hn & Hp & Ht).
  unfold served, pages, at_progress in *. rewrite E8, E9, Eq. split; [constructor; congruence|]. split; [done|].
  split; [done|]. destruct (inFlight_ b); [|unfold resting in *; by rewrite E4, E5, E6].
  destruct Ht as [| |page]; [apply at_request|apply at_fetch|apply (at_result _ _ page)]; first [congruence | done].
Qed.

Lemma take_page_served nowMs : triple servedc (take_page pub rec jit nowMs) (fun _ => servedc).
Proof.
  intros b c y b' c' Hs. unfold take_page, bind at 1, gets. destruct (inFlight_ b) eqn:Hf; [|by intros [= <- <- <-]].
  pose proof Hs as (Hst & Hn & [Hp Hq] & Ht). rewrite Hf in Ht. pose proof Hst as [Hc _ Hin _ _ _].
  unfold bind at 1. rewrite Hc, Hthread.
  destruct Hq as [[Hk Hq]|(_ & _ & Hf' & _)]; [|congruence].
  destruct Ht as [Hrq Hth Hrs|Hrq Hth Hrs|page Hrq Hth Hrs Hh]; unfold try_pop; rewrite Hrs.
  1, 2: intros [= <- <- <-]; apply (served_frame b); [unfold frame; cbn; by rewrite Hin|done|done].
  unfold bind, puts. set (b1 := b <| bf_results := _ |> <| inlinePage_ := None |> <| inFlight_ := false |>).
  destruct (onPage pub rec jit page nowMs b1 c) as [[[u b2] c2]|] eqn:E; [|done]. intros [= <- <- <-].
  pose proof (progress_range _ Hn) as Hrange.
  apply (onPage_honest (progress (pages b))) in E as [Hfr Hp2]; [|lia|exact Hq|done|exact Hh|exact Hp].
  rewrite progress_next in Hp2 by done.
  assert (pages b2 = pages b + 1 /\ inFlight_ b2 = false) as [Hpg Hf2].
  { injection Hfr as _ _ _ _ _ _ _ E8 E9. unfold pages. rewrite E8, E9, Hf. cbn. split; [lia|done]. }
  injection Hfr as E1 E2 E3 E4 E5 E6 E7 E8 E9. unfold served. rewrite Hpg, Hf2. destruct Hst.
  split; [constructor; rewrite ?E1, ?E2, ?E3, ?E4, ?E5, ?E7; done|]. split; [lia|]. split; [exact Hp2|].
  unfold resting. rewrite E4, E5, E6. done.
Qed.

Lemma settle_served n : triple servedc (settle_loop rec n) (fun _ => servedc).
Proof.
  destruct n as [|n]; cbn [settle_loop]; [by apply triple_ret|].
  intros b c y b' c' Hs. unfold bind at 1, gets. destruct (inFlight_ b); [by intros [= <- <- <-]|].
  pose proof Hs as ([Hc _ _ _ _ _] & Hn & [_ Hq] & _). destruct Hq as [[Hk Hq]|(_ & Hq & _)]; rewrite Hq.
  - cbn [j_gap]. rewrite Hc, unfinished by (pose proof (progress_range _ Hn); lia). by intros [= <- <- <-].
  - by intros [= <- <- <-].
Qed.

Lemma push_empty {T} (x : T) q : q_shutdown q = false -> q_ q = [] ->
  q_ (snd (push x q)) = [x] /\ q_shutdown (snd (push x q)) = false.
Proof. intros Hs Hq. unfold push. rewrite Hs, Hq. cbn. by case_match. Qed.

Lemma request_served nowMs : triple servedc (request_next fet nowMs) (fun _ => servedc).
Proof.
  intros b c y b' c' Hs. unfold request_next, bind, gets, puts.
  destruct (inFlight_ b) eqn:Hf; [by intros [= <- <- <-]|].
  pose proof Hs as (Hst & Hn & [Hp Hq] & Ht). rewrite Hf in Ht. destruct Ht as (Hrq & Hth & Hrs).
  destruct Hq as [[Hk Hq]|(_ & Hq & _)]; rewrite Hq; [|by intros [= <- <- <-]].
  destruct (tryAcquire 0 nowMs (sched_ b)) as [ok sc]. destruct ok; cbn [negb].
  2: { intros [= <- <- <-]. by apply (served_frame b). }
  pose proof (progress_range _ Hn) as Hrange.
  destruct (advanced_gap (progress (pages b)) ltac:(lia)) as (En & El & Es & _). pose proof Hst as [Hc _ _ Hsq _ _].
  rewrite Hc, Hthread. cbn [j_gap]. rewrite En, El, Es. intros [= <- <- <-].
  assert (mkBfRequest (g_sym g) (g_firstId g + progress (pages b))
    (Z.min (bf_pageLimit cfg) (g_lastId g - (g_firstId g + progress (pages b)) + 1)) = asked (progress (pages b))) as ->.
  { unfold asked, missing. f_equal. lia. }
  destruct (push_empty (asked (progress (pages b))) (bf_requests b) Hsq Hrq) as [Hq1 Hq2].
  set (b1 := b <| sched_ := sc |> <| pagesRequested_ ::= Z.succ |> <| inFlight_ := true |> <| bf_requests ::= _ |>).
  assert (pages b1 = pages b) as Hpg.
  { unfold pages. rewrite Hf. unfold b1. cbn. lia. }
  destruct Hst. unfold served. rewrite Hpg. split; [by constructor|]. split; [done|].
  split; [split; [done|]; left; by rewrite <-Hq|]. by apply at_request.
Qed.

Lemma pump_served guard nowMs : triple servedc (pump_loop pub rec fet jit guard nowMs) (fun _ => servedc).
Proof.
  induction guard as [|guard IH]; cbn [pump_loop]; [by apply triple_ret|].
  apply (triple_bind _ _ _ (fun _ => servedc)); [apply take_page_served|intros p1].
  apply (triple_bind _ _ _ (fun _ => servedc)).
  { unfold settle. apply (triple_bind _ _ _ (fun _ => servedc)); [by apply triple_gets|intros n; apply settle_served]. }
  intros p2. apply (triple_bind _ _ _ (fun _ => servedc)); [apply request_served|intros p3].
  case_match; [done|by apply triple_ret].
Qed.
End client.

(** ** Runs *)

Lemma start_served : served (addGap g (bf_start (newBackfill cfg))) [Added g].
Proof.
  unfold bf_start. cbn [bfcfg newBackfill bf_running]. rewrite Hthread. cbn [orb].
  split; [by constructor|]. split; [done|].
  assert (progress 0 = 0) as Hp by (unfold progress, missing; destruct Hfresh as [? _]; lia).
  split; [|done]. match goal with |- at_progress (progress ?n) _ _ => change n with 0 end. rewrite Hp. split; [done|]. left. split; [unfold missing; destruct Hfresh as [? _]; lia|done].
Qed.

Lemma pop_served b l b' : served b l -> bf_pop b = Some b' -> served b' l.
Proof.
  intros Hs. pose proof Hs as ([] & Hn & Hp & Ht). unfold bf_pop. destruct (bf_thread b) eqn:Eth; try done.
  rewrite st_running0. cbn [negb]. unfold pop_blocking, try_pop. rewrite st_requests0. cbn [orb].
  destruct (inFlight_ b) eqn:Hf.
  - destruct Ht as [Hrq Hth Hrs|Hrq Hth Hrs|page Hrq Hth Hrs Hh]; rewrite Hrq; cbn; [|done..]. intros [= <-].
    unfold served, pages. cbn [inFlight_ pagesRequested_ modify eta_TradeBackfill]. rewrite Hf.
    unfold pages in *. rewrite Hf in *. split; [by constructor|]. split; [done|]. split; [exact Hp|]. by apply at_fetch.
  - destruct Ht as (Hrq & _). rewrite Hrq. done.
Qed.

Lemma fetched_served r page b l b' :
  served b l -> bf_thread b = BfFetching r -> honest r page -> bf_fetched page b = Some b' -> served b' l.
Proof.
  intros Hs Eth Hh. pose proof Hs as ([] & Hn & Hp & Ht). unfold bf_fetched. rewrite Eth. intros [= <-].
  destruct (inFlight_ b) eqn:Hf; [|destruct Ht as (_ & Hth & _); congruence].
  destruct Ht as [Hrq Hth Hrs|Hrq Hth Hrs|page' Hrq Hth Hrs Hh']; [congruence| |congruence].
  destruct (push_empty page (bf_results b) st_results0 Hrs) as [Hq1 Hq2].
  unfold served, pages. cbn [inFlight_ pagesRequested_ modify eta_TradeBackfill]. rewrite Hf.
  unfold pages in *. rewrite Hf in *. split; [by constructor|]. split; [done|]. split; [exact Hp|].
  apply (at_result _ _ page); [done..|congruence].
Qed.

Lemma run_served b l : served_run b l -> served b l.
Proof.
  induction 1 as [|X pub rec fetch jit nowMs b x l b' x' l' _ IH Hp| |]; eauto using start_served, pop_served, fetched_served.
  by apply (pump_served pub rec fetch jit) in Hp.
Qed.
End served.


(** ** A concrete run: ids 5 to 7, two to a page *)

Definition ex_live_cfg : TradeBackfillConfig := mkBackfillConfig true 500000 2 10 false default_SnapshotSchedulerConfig.
Definition ex_live0 : TradeBackfill * list bf_event := (addGap ex_gap (bf_start (newBackfill ex_live_cfg)), [Added ex_gap]).
Definition ex_live1 : TradeBackfill * list bf_event := ex_pump 1000 ex_live0.
Definition ex_live2 : TradeBackfill * list bf_event := ex_pump 7000 (ex_worker (ex_page [5; 6]) ex_live1).
Definition ex_live3 : TradeBackfill * list bf_event := ex_pump 13000 (ex_worker (ex_page [7]) ex_live2).

Lemma ex_pump_served nowMs s :
  served_run ex_live_cfg ex_gap (fst s) (snd s) ->
  served_run ex_live_cfg ex_gap (fst (ex_pump nowMs s)) (snd (ex_pump nowMs s)).
Proof.
  intros H. unfold ex_pump. destruct (pump _ _ _ _ _ _ _) as [[[[] b] [x l]]|] eqn:E; [|done].
  by eapply served_pump.
Qed.
Lemma ex_worker_served page s :
  (forall b r, bf_pop (fst s) = Some b -> bf_thread b = BfFetching r -> honest r page) ->
  served_run ex_live_cfg ex_gap (fst s) (snd s) ->
  served_run ex_live_cfg ex_gap (fst (ex_worker page s)) (snd (ex_worker page s)).
Proof.
  intros Hh H. unfold ex_worker. destruct (bf_pop (fst s)) as [b|] eqn:E1; [|done].
  destruct (bf_fetched page b) as [b'|] eqn:E2; [|done]. cbn [fst snd].
  destruct (bf_thread b) as [| |r|] eqn:Et; try (by unfold bf_fetched in E2; rewrite Et in E2).
  eapply served_fetched; [by eapply served_pop|exact Et|by apply (Hh b)|exact E2].
Qed.
(** What the thread takes from the queue, if it takes something. *)
Definition ex_asked (s : TradeBackfill * list bf_event) : option BfThread := bf_thread <$> bf_pop (fst s).

Lemma ex_live3_run : served_run ex_live_cfg ex_gap (fst ex_live3) (snd ex_live3).
Proof.
  assert (forall s r page, ex_asked s = Some (BfFetching r) -> honest r page ->
    forall b r', bf_pop (fst s) = Some b -> bf_thread b = BfFetching r' -> honest r' page) as Hask.
  { intros s r page Hs Hh b r' E Et. unfold ex_asked in Hs. rewrite E in Hs. cbn in Hs. congruence. }
  apply ex_pump_served, ex_worker_served; [apply (Hask _ (mkBfRequest "BTCUSDT" 7 1)); vm_compute; done|].
  apply ex_pump_served, ex_worker_served; [apply (Hask _ (mkBfRequest "BTCUSDT" 5 2)); vm_compute; done|].
  apply ex_pump_served. apply served_start.
Qed.

