(* ===== verification/TradeLedger.v ===== *)
(** * The ledger of a trade handler: every id is accounted for

    What a trade handler has done, as a list of entries: trades received from the
    stream, gaps noted, and what the backfill did. From the ledger alone one can
    tell, for any trade id between the first known and the last one seen, whether
    its trade was published, is still owed by an open gap, or was given up. *)

From S2P Require Import Prelude Double KObject TpPublisher TradeGap TradeBackfill TradeBackfillProps.

Open Scope Z_scope.

Inductive entry :=
  | Received (sym : string) (id : Z)
  | Noted (g : TradeGap) (reason : string)
  | Backfilled (e : bf_event).
Local Abbreviation ledger := (list entry).

(** The trades received, the backfill's events, the rows that must have been
    published, and the gap events that must have been recorded. *)
Definition live (H : ledger) : list (string * Z) :=
  omap (fun e => match e with Received s i => Some (s, i) | _ => None end) H.
Definition bf_part (H : ledger) : list bf_event :=
  omap (fun e => match e with Backfilled e => Some e | _ => None end) H.
(** Each published row's trade, and whether it came from the backfill. *)
Definition origins (H : ledger) : list (string * Z * bool) :=
  omap (fun e => match e with
                 | Received s i => Some (s, i, false)
                 | Backfilled (Published s i) => Some (s, i, true)
                 | _ => None
                 end) H.
Definition keys (H : ledger) : list (string * Z) := (origins H).*1.
(** The ones from the stream. *)
Definition live_origins (l : list (string * Z * bool)) : list (string * Z) :=
  omap (fun x : string * Z * bool => if snd x then None else Some (fst x)) l.
Definition records (H : ledger) : list (TradeGap * GapStatus * string) :=
  omap (fun e => match e with
                 | Noted g why => Some (g, Detected, why)
                 | Backfilled (Recorded g st why) => Some (g, st, why)
                 | _ => None
                 end) H.

Definition noted (H : ledger) : list TradeGap :=
  omap (fun e => match e with Noted g _ => Some g | _ => None end) H.

(** ** Gaps of a stream *)

(** The gap the tracker reports with a result, as the handler records it. *)
Definition gap_of (sym : string) (r : Result) : list TradeGap :=
  match kind r with Gap => [mkTradeGap sym (firstMissing r) (lastMissing r) 0 0] | _ => [] end.

(** The gaps a stream of trades leaves, and the tracker after it. *)
Fixpoint detect (t : TradeIdTracker) (l : list (string * Z)) : list TradeGap * TradeIdTracker :=
  match l with
  | [] => ([], t)
  | (s, i) :: l =>
      let '(r, t) := onId s i t in
      let '(gs, t) := detect t l in (gap_of s r ++ gs, t)
  end.

Lemma detect_snoc t l s i :
  detect t (l ++ [(s, i)]) =
    let '(gs, t1) := detect t l in let '(r, t2) := onId s i t1 in (gs ++ gap_of s r, t2).
Proof.
  revert t. induction l as [|[s' i'] l IH]; intros t; cbn [detect app].
  - destruct (onId s i t) as [r t1]. by rewrite app_nil_r.
  - destruct (onId s' i' t) as [r t1]. rewrite IH. destruct (detect t1 l) as [gs t2].
    destruct (onId s i t2). by rewrite app_assoc.
Qed.

(** Where the accounting of a symbol starts: the id TP had logged, or else the
    first one received. *)
Definition first_known (t : TradeIdTracker) (l : list (string * Z)) (sym : string) : option Z :=
  match t !! sym with
  | Some p => Some p
  | None => snd <$> List.find (fun x => String.eqb (fst x) sym) l
  end.

Definition in_gap (sym : string) (id : Z) (g : TradeGap) : Prop :=
  g_sym g = sym /\ nextNeededId g <= id <= g_lastId g.

Lemma find_app {A} (f : A -> bool) l k :
  List.find f (l ++ k) = match List.find f l with Some x => Some x | None => List.find f k end.
Proof. induction l as [|x l IH]; cbn; [done|]. by destruct (f x). Qed.

Lemma onId_first sym id t r t' :
  t !! sym = None -> onId sym id t = (r, t') -> t' !! sym = Some id /\ gap_of sym r = [].
Proof. unfold onId. intros ->. intros [= <- <-]. split; [apply lookup_insert_eq|done]. Qed.

(** Detected gaps start above the ids known before, which are not negative. *)
Definition nonneg (t : TradeIdTracker) : Prop := forall s p, t !! s = Some p -> 0 <= p.

Lemma onId_nonneg sym id t r t' : 0 <= id -> nonneg t -> onId sym id t = (r, t') -> nonneg t'.
Proof.
  intros Hid Ht E s p Hp. destruct (decide (s = sym)) as [->|Hs].
  - destruct (t !! sym) as [prev|] eqn:El.
    + destruct (onId_step _ _ _ _ _ _ El E) as [E' _]. rewrite E' in Hp. injection Hp as <-. lia.
    + destruct (onId_first _ _ _ _ _ El E) as [E' _]. rewrite E' in Hp. by injection Hp as <-.
  - rewrite (onId_other _ _ _ _ _ _ E Hs) in Hp. by apply (Ht s).
Qed.

Lemma gap_of_ok sym id t r t' :
  nonneg t -> onId sym id t = (r, t') ->
  Forall (fun g => gap_ok g /\ nextNeededId g = g_firstId g /\ g_firstId g <= g_lastId g) (gap_of sym r).
Proof.
  intros Ht. unfold onId. destruct (t !! sym) as [prev|] eqn:El; [|intros [= <- _]; constructor].
  intros [= <- _]. unfold gap_of. specialize (Ht _ _ El).
  repeat case_match; cbn [kind] in *; try constructor; try discriminate; [|constructor].
  unfold gap_ok, nextNeededId. cbn. lia.
Qed.

(** One more id: what it settles between the last known id and itself. *)
Lemma onId_covers sym id t prev r t' x :
  nonneg t -> t !! sym = Some prev -> onId sym id t = (r, t') -> prev < x <= Z.max prev id ->
  x = id \/ exists g, g ∈ gap_of sym r /\ in_gap sym x g.
Proof.
  intros Hn Ht E Hx. destruct (onId_step _ _ _ _ _ _ Ht E) as [_ Hs].
  assert (x ∈ speaks_for id r) as Hin by (rewrite Hs; apply elem_of_seqZ; lia).
  specialize (Hn _ _ Ht). revert E Hin. unfold speaks_for, gap_of, onId. rewrite Ht. intros [= <- _].
  repeat case_match; cbn [kind firstMissing lastMissing] in *; try discriminate; rewrite ?elem_of_nil; try done.
  - intros ->%list_elem_of_singleton. by left.
  - rewrite elem_of_app, elem_of_seqZ, list_elem_of_singleton. intros [Hin| ->]; [right|by left].
    eexists. split; [by left|]. split; [done|]. unfold nextNeededId. cbn. lia.
Qed.

Lemma detect_nonneg t0 l gs t :
  nonneg t0 -> Forall (fun p => 0 <= snd p) l -> detect t0 l = (gs, t) -> nonneg t.
Proof.
  intros Hn. revert gs t. induction l as [|[s i] l IH] using rev_ind; intros gs t Hl E; [by injection E as _ <-|].
  apply Forall_snoc in Hl as [Hl Hi]. rewrite detect_snoc in E. destruct (detect t0 l) as [g1 t1].
  destruct (onId s i t1) as [r t2] eqn:E2. injection E as _ <-.
  eapply onId_nonneg; [exact Hi| |exact E2]. by eapply IH.
Qed.

Lemma first_known_snoc t0 l s i sym :
  first_known t0 (l ++ [(s, i)]) sym =
    match first_known t0 l sym with
    | Some p => Some p
    | None => if String.eqb s sym then Some i else None
    end.
Proof.
  unfold first_known. destruct (t0 !! sym); [done|]. rewrite find_app.
  destruct (List.find _ l); [done|]. cbn. by destruct (String.eqb s sym).
Qed.

(** The tracker knows a symbol once its accounting has started. *)
Lemma detect_known t0 l gs t sym :
  detect t0 l = (gs, t) -> t !! sym = None <-> first_known t0 l sym = None.
Proof.
  revert gs t. induction l as [|[s i] l IH] using rev_ind; intros gs t E.
  { injection E as _ <-. unfold first_known. cbn. by destruct (t0 !! sym). }
  rewrite detect_snoc in E. destruct (detect t0 l) as [g1 t1]. specialize (IH _ _ eq_refl).
  destruct (onId s i t1) as [r t2] eqn:E2. injection E as _ <-. rewrite first_known_snoc.
  destruct (String.eqb_spec s sym) as [->|Hs].
  - destruct (t1 !! sym) as [prev|] eqn:El.
    + destruct (onId_step _ _ _ _ _ _ El E2) as [-> _]. destruct (first_known t0 l sym); [done|].
      by pose proof (proj2 IH eq_refl).
    + destruct (onId_first _ _ _ _ _ El E2) as [-> _]. by destruct (first_known t0 l sym).
  - rewrite (onId_other _ _ _ _ _ _ E2) by done. rewrite IH. by destruct (first_known t0 l sym).
Qed.

(** Between the first known id and the last one seen, every id was received or
    lies in a gap. *)
Lemma detect_covers t0 l gs t sym lo last x :
  nonneg t0 -> Forall (fun p => 0 <= snd p) l -> detect t0 l = (gs, t) ->
  first_known t0 l sym = Some lo -> t !! sym = Some last -> lo < x <= last ->
  (sym, x) ∈ l \/ exists g, g ∈ gs /\ in_gap sym x g.
Proof.
  intros Hn. revert gs t last. induction l as [|[s i] l IH] using rev_ind; intros gs t last Hl E Hlo Hlast Hx.
  { injection E as <- <-. unfold first_known in Hlo. rewrite Hlast in Hlo. injection Hlo as <-. lia. }
  apply Forall_snoc in Hl as [Hl Hi]. rewrite detect_snoc in E. rewrite first_known_snoc in Hlo.
  destruct (detect t0 l) as [gs1 t1] eqn:E1. pose proof (detect_known _ _ _ _ sym E1) as Hk.
  pose proof (detect_nonneg _ _ _ _ Hn Hl E1) as Hn1.
  destruct (onId s i t1) as [r t2] eqn:E2. injection E as <- <-.
  setoid_rewrite elem_of_app.
  assert (forall last', first_known t0 l sym = Some lo -> t1 !! sym = Some last' -> x <= last' ->
    ((sym, x) ∈ l \/ (sym, x) ∈ [(s, i)]) \/ exists g, (g ∈ gs1 \/ g ∈ gap_of s r) /\ in_gap sym x g) as Hold.
  { intros last' H1 H2 H3. destruct (IH gs1 t1 last' Hl eq_refl H1 H2 ltac:(lia)) as [?|(g & ? & ?)]; eauto. }
  destruct (t1 !! sym) as [prev|] eqn:El.
  2: { rewrite (proj1 Hk eq_refl) in Hlo. destruct (String.eqb_spec s sym) as [->|]; [|done]. injection Hlo as <-.
       destruct (onId_first _ _ _ _ _ El E2) as [E' _]. rewrite E' in Hlast. injection Hlast as <-. lia. }
  destruct (first_known t0 l sym) as [p|] eqn:Ef; [|by pose proof (proj2 Hk eq_refl)].
  destruct (decide (x <= prev)) as [Hle|Hgt]; [by eapply Hold|].
  destruct (decide (s = sym)) as [->|Hs].
  - destruct (onId_step _ _ _ _ _ _ El E2) as [E' _]. rewrite E' in Hlast. injection Hlast as <-.
    destruct (onId_covers _ _ _ _ _ _ x Hn1 El E2 ltac:(lia)) as [->|(g & ? & ?)]; [|eauto].
    left. right. by left.
  - rewrite (onId_other _ _ _ _ _ _ E2) in Hlast by done. rewrite El in Hlast. injection Hlast as <-. lia.
Qed.

(** ** What becomes of a gap *)

Definition given_up (l : list bf_event) (sym : string) (x : Z) : Prop :=
  exists g why, Recorded g Unrecoverable why ∈ l /\ in_gap sym x g.
Definition still_open (q : list TradeGap) (sym : string) (x : Z) : Prop := exists g, g ∈ q /\ in_gap sym x g.

Definition settled (l : list bf_event) (q : list TradeGap) (sym : string) (x : Z) : Prop :=
  Published sym x ∈ l \/ still_open q sym x \/ given_up l sym x.

Lemma settled_more l l' q sym x :
  (forall e, e ∈ l -> e ∈ l') -> Published sym x ∈ l \/ given_up l sym x -> settled l' q sym x.
Proof. intros Hl [?|(g & why & ? & ?)]; [left; auto|right; right; exists g, why; auto]. Qed.

(** One event of the specification keeps every id it owed. *)
Lemma spec_step_settled e l q q' sym x :
  Forall gap_ok q -> spec_step e q = Some q' -> settled l q sym x -> settled (l ++ [e]) q' sym x.
Proof.
  intros Hok He Hs. assert (forall e', e' ∈ l -> e' ∈ l ++ [e]) as Hl by (intros e'; rewrite elem_of_app; auto).
  destruct Hs as [Hp|[(g & Hg & Hsym & Hx)|Hu]]; [apply (settled_more l); auto| |apply (settled_more l); auto].
  assert (forall q2, g ∈ q2 -> settled (l ++ [e]) q2 sym x) as Hstay.
  { intros q2 H. right. left. by exists g. }
  assert (e ∈ l ++ [e]) as Hlast by (rewrite elem_of_app, list_elem_of_singleton; auto).
  destruct e as [g'|s i|g' st why]; destruct q as [|g1 q]; cbn [spec_step] in He; try done.
  - by apply elem_of_nil in Hg.
  - injection He as <-. apply Hstay. rewrite elem_of_cons, elem_of_app. apply elem_of_cons in Hg. tauto.
  - destruct (bool_decide _ && _ && _) eqn:Ec; [|done]. injection He as <-.
    apply andb_true_iff in Ec as [[Ec1 Ec2]%andb_true_iff Ec3].
    apply bool_decide_eq_true in Ec1. apply Z.eqb_eq in Ec2. subst s i.
    apply elem_of_cons in Hg as [->|Hg]; [|apply Hstay; by right].
    destruct (decide (x = nextNeededId g1)) as [->|Hne]; [subst sym; by left|].
    right. left. exists (advance 1 g1). split; [by left|]. apply Forall_cons in Hok as [Hok _].
    destruct (advance_fixed 1 g1) as (? & ? & _). split; [congruence|]. rewrite advance_next by (done || lia). lia.
  - case_bool_decide; [|done]. subst g'. destruct st; try done.
    + destruct (_ <=? _); [|done]. injection He as <-. by apply Hstay.
    + destruct (Z.ltb_spec (g_lastId g1) (nextNeededId g1)); [|done]. injection He as <-.
      apply elem_of_cons in Hg as [->|Hg]; [lia|by apply Hstay].
    + injection He as <-. apply elem_of_cons in Hg as [->|Hg]; [|by apply Hstay].
      right. right. by exists g1, why.
Qed.

Lemma spec_step_ok e q q' :
  (match e with Added g => gap_ok g | _ => True end) -> Forall gap_ok q -> spec_step e q = Some q' -> Forall gap_ok q'.
Proof.
  intros He Hq E. destruct e as [g|s i|g st why]; destruct q as [|g1 q]; cbn [spec_step] in E; try done.
  - injection E as <-. by constructor.
  - injection E as <-. apply (proj2 (Forall_snoc _ (g1 :: q) g)). by split.
  - case_match; [|done]. injection E as <-. apply Forall_cons in Hq as [H1 ?]. by constructor.
  - apply Forall_cons in Hq as [? ?]. case_bool_decide; [|done].
    destruct st; try done; [case_match; [|done]|case_match; [|done]|]; injection E as <-; first [done | by constructor].
Qed.

(** Every id of every gap handed to the backfill is published, owed by an open
    gap, or given up in a recorded verdict. *)
Lemma gaps_settled l q g sym x :
  Forall gap_ok (added l) -> spec_run l = Some q -> g ∈ added l -> in_gap sym x g ->
  settled l q sym x.
Proof.
  intros Hok Hr. enough (Forall gap_ok q /\ (g ∈ added l -> in_gap sym x g -> settled l q sym x)) as [_ ?] by auto.
  revert q Hok Hr. induction l as [|e l IH] using rev_ind; intros q Hok Hr.
  { injection Hr as <-. split; [constructor|]. intros H. by apply elem_of_nil in H. }
  rewrite spec_run_snoc in Hr. destruct (spec_run l) as [q0|] eqn:E0; [|done]. cbn in Hr.
  unfold added in *. rewrite omap_snoc, Forall_app in Hok. destruct Hok as [Hok He].
  destruct (IH q0 Hok eq_refl) as [Hq0 IH']. split.
  { eapply spec_step_ok; [|exact Hq0|exact Hr]. destruct e; [|done..]. cbn in He; by apply Forall_cons in He as [? _]. }
  rewrite omap_snoc, elem_of_app. intros [Hg|Hg] Hin.
  - eapply spec_step_settled; eauto.
  - destruct e; cbn in Hg; try by apply elem_of_nil in Hg. apply list_elem_of_singleton in Hg. subst g0.
    rewrite (spec_step_added _ _ _ Hr). right. left. exists g. rewrite elem_of_app, list_elem_of_singleton. auto.
Qed.

(** ** The books balance *)

Lemma detect_gaps_ok t0 l gs t :
  nonneg t0 -> Forall (fun p => 0 <= snd p) l -> detect t0 l = (gs, t) -> Forall gap_ok gs.
Proof.
  intros Hn. revert gs t. induction l as [|[s i] l IH] using rev_ind; intros gs t Hl E; [by injection E as <- _|].
  apply Forall_snoc in Hl as [Hl _]. rewrite detect_snoc in E. destruct (detect t0 l) as [g1 t1] eqn:E1.
  destruct (onId s i t1) as [r t2] eqn:E2. injection E as <- <-. apply Forall_app. split; [by eapply IH|].
  eapply Forall_impl; [eapply gap_of_ok; [|exact E2]; by eapply detect_nonneg|]. by intros g [].
Qed.

Lemma live_origins_spec H : live_origins (origins H) = live H.
Proof.
  induction H as [|e H IH]; [done|]. unfold live_origins, origins, live in *.
  destruct e as [| |[]]; cbn; rewrite ?IH; done.
Qed.
Lemma live_keys H s i : (s, i) ∈ live H -> (s, i) ∈ keys H.
Proof.
  rewrite <-live_origins_spec. unfold live_origins, keys. rewrite list_elem_of_omap, list_elem_of_fmap.
  intros ([k b] & Ho & E). exists (k, b). split; [|done]. by destruct b; cbn in E; [|injection E as <-].
Qed.
Lemma published_keys H s i : Published s i ∈ bf_part H -> (s, i) ∈ keys H.
Proof.
  unfold bf_part, keys, origins. rewrite list_elem_of_omap, list_elem_of_fmap. intros (e & He & E).
  exists (s, i, true). split; [done|]. apply list_elem_of_omap. exists e. split; [done|].
  destruct e; simplify_eq/=. done.
Qed.

(** [t0] is what TP had logged when the run began and [g0] the gaps it still
    had open; [t] and [q] are the tracker and the open gaps now. *)
Record balanced (t0 : TradeIdTracker) (g0 : list TradeGap) (H : ledger)
    (t : TradeIdTracker) (q : list TradeGap) : Prop := {
  bal_track : snd (detect t0 (live H)) = t;
  bal_added : added (bf_part H) = g0 ++ fst (detect t0 (live H));
  bal_spec : spec_run (bf_part H) = Some q
}.

Definition accounted (H : ledger) (q : list TradeGap) (sym : string) (x : Z) : Prop :=
  (sym, x) ∈ keys H \/ still_open q sym x \/ given_up (bf_part H) sym x.

Lemma ids_accounted t0 g0 H t q sym x :
  nonneg t0 -> Forall gap_ok g0 -> Forall (fun p => 0 <= snd p) (live H) -> balanced t0 g0 H t q ->
  (exists lo last, first_known t0 (live H) sym = Some lo /\ t !! sym = Some last /\ lo < x <= last) \/
  (exists g, g ∈ g0 /\ in_gap sym x g) ->
  accounted H q sym x.
Proof.
  intros Hn Hg0 Hl [Ht Ha Hs] Hx. destruct (detect t0 (live H)) as [gs t1] eqn:Ed. cbn [fst snd] in *. subst t1.
  assert (forall g, g ∈ added (bf_part H) -> in_gap sym x g -> accounted H q sym x) as Hgap.
  { intros g Hg Hin. destruct (gaps_settled (bf_part H) q g sym x) as [Hp|Hr]; try done.
    - rewrite Ha. apply Forall_app. split; [done|]. by eapply detect_gaps_ok.
    - left. by apply published_keys.
    - by right. }
  destruct Hx as [(lo & last & H1 & H2 & H3)|(g & Hg & Hin)].
  - destruct (detect_covers _ _ _ _ _ _ _ x Hn Hl Ed H1 H2 H3) as [Hlive|(g & Hg & Hin)].
    + left. by apply live_keys.
    + apply (Hgap g); [|done]. rewrite Ha, elem_of_app. auto.
  - apply (Hgap g); [|done]. rewrite Ha, elem_of_app. auto.
Qed.

(** ** Gap events on their way to TP *)

(** The row of a gap event, built when it was recorded. *)
Definition is_gap_row (tbl : string) (row : K) (r : TradeGap * GapStatus * string) : Prop :=
  exists now, row = buildGapRow now (fst (fst r)) tbl (snd (fst r)) (snd r).

(** Every event recorded so far was answered by TP, and counted, or waits in the
    queue, in order. *)
Definition events_kept (tbl : string) (q : GapEventQueue) (rs : list (TradeGap * GapStatus * string)) : Prop :=
  exists G, Forall2 (is_gap_row tbl) G rs /\ pending_ q `suffix_of` G /\
    acked_ q + rejected_ q + Z.of_nat (length (pending_ q)) = Z.of_nat (length rs).

Lemma push_kept tbl q rs now g st why :
  events_kept tbl q rs -> events_kept tbl (gap_push (buildGapRow now g tbl st why) q) (rs ++ [(g, st, why)]).
Proof.
  intros (G & HG & [G1 Hp] & Hc). exists (G ++ [buildGapRow now g tbl st why]). split.
  { apply Forall2_app; [done|]. constructor; [by exists now|constructor]. }
  cbn [pending_ acked_ rejected_ gap_push modify eta_GapEventQueue]. split.
  - exists G1. by rewrite Hp, app_assoc.
  - rewrite !length_app. cbn. lia.
Qed.

Lemma flush_kept {W} `{TpLink W} tbl q rs p w b q' p' (w' : W) :
  events_kept tbl q rs -> flush q p w = (b, q', p', w') -> events_kept tbl q' rs.
Proof.
  intros (G & HG & [G1 Hp] & Hc) E. destruct (flush_spec _ _ _ _ _ _ _ E) as (a & Ha & Hn & _).
  exists G. split; [done|]. split.
  - exists (G1 ++ a). by rewrite Hp, Ha, app_assoc.
  - rewrite Ha, length_app in Hc. lia.
Qed.

(** The events that say a gap was found. *)
Definition detections (rs : list (TradeGap * GapStatus * string)) : list TradeGap :=
  omap (fun r : TradeGap * GapStatus * string =>
    if bool_decide (snd (fst r) = Detected) then Some (fst (fst r)) else None) rs.

(** They are the noted gaps: the backfill reports none. *)
Lemma detections_records H q : spec_run (bf_part H) = Some q -> detections (records H) = noted H.
Proof.
  intros Hr. assert (forall g why, Recorded g Detected why ∉ bf_part H) as Hnone.
  { intros g why. revert q Hr. induction (bf_part H) as [|e l IH] using rev_ind; intros q Hr; [apply not_elem_of_nil|].
    rewrite spec_run_snoc in Hr. destruct (spec_run l) as [q0|]; [|done]. specialize (IH q0 eq_refl).
    rewrite elem_of_app, list_elem_of_singleton. intros [?|<-]; [done|].
    destruct q0; cbn in Hr; [done|]. by case_bool_decide. }
  clear Hr. induction H as [|e H IH]; [done|].
  destruct e as [| |[|s i|g st why]]; unfold detections, records, noted, bf_part in *; cbn [omap list_omap] in *;
    try (f_equal; apply IH; intros; apply Hnone); try (by apply IH).
  - apply IH. intros g' why' Hg. apply (Hnone g' why'). by right.
  - apply IH. intros g' why' Hg. apply (Hnone g' why'). by right.
  - cbn [fst snd]. rewrite bool_decide_eq_false_2.
    + apply IH. intros g' why' Hg. apply (Hnone g' why'). by right.
    + intros ->. apply (Hnone g why). by left.
Qed.
