(* ===== verification/TradeHandler.v ===== *)
(** * The trade feed handler (trade_feed_handler.cpp)

    Its members as a record and its methods in the effect monad: trade events in,
    trade rows and gap events out, gaps backfilled over REST. The driver of the
    backfill ([TradeBackfill]) calls back into the handler's methods. Log lines
    are not modelled. *)

From S2P Require Import Prelude Double CStdlib JsonReader MarketConfig Effects Backoff RowClock.
From S2P Require Import KObject TpPublisher TradeGap Scheduler RestClient SnapshotWorker Rows.
From S2P Require Import TradeBackfill.

Open Scope Z_scope.
Local Open Scope rec_scope.
Local Open Scope effect_scope.

Definition INITIAL_BACKOFF_MS : Z := 1000.
Definition MAX_BACKOFF_MS : Z := 8000.
Definition BACKOFF_MULTIPLIER : Z := 2.
Definition HEALTH_INTERVAL_SEC : Z := 5.
Definition KDB_EPOCH_OFFSET_NS : Z := kdb_epoch_offset_ns.

Record TradeFeedHandler := mkTradeHandler {
  symbols_ : list string;
  cfg_ : MarketConfig;
  fhSeqNo_ : Z;
  idTracker_ : TradeIdTracker;
  seededSyms_ : gset string;
  gapEvents_ : GapEventQueue;
  backfill_ : TradeBackfill;
  ctrBackfilled_ : Z;
  tp_ : TpPublisher;
  binanceReconnectAttempt_ : nat;
  startTime_ : Z;
  msgsReceived_ : Z;
  msgsPublished_ : Z;
  ctrWsReconnects_ : Z;
  ctrExchGaps_ : Z;
  ctrExchMissed_ : Z;
  ctrExchOutOfOrder_ : Z;
  ctrExchDuplicates_ : Z;
  ctrNqMissing_ : Z;
  parseFailures_ : Z;
  rowClock_ : RowClock;
  lastMsgTime_ : Z;
  lastPubTime_ : Z;
  connState_ : string
}.
#[export] Instance eta_TradeFeedHandler : Eta TradeFeedHandler := fun h =>
  mkTradeHandler (symbols_ h) (cfg_ h) (fhSeqNo_ h) (idTracker_ h) (seededSyms_ h) (gapEvents_ h)
    (backfill_ h) (ctrBackfilled_ h) (tp_ h) (binanceReconnectAttempt_ h) (startTime_ h)
    (msgsReceived_ h) (msgsPublished_ h) (ctrWsReconnects_ h) (ctrExchGaps_ h) (ctrExchMissed_ h)
    (ctrExchOutOfOrder_ h) (ctrExchDuplicates_ h) (ctrNqMissing_ h) (parseFailures_ h) (rowClock_ h)
    (lastMsgTime_ h) (lastPubTime_ h) (connState_ h).

Definition rowWidthOf (s : TradeSchema) : Z :=
  match s with SpotTrade => TRADE_ROW_WIDTH | FuturesAggTrade => AGG_TRADE_ROW_WIDTH end.

Definition backfillConfigOf (m : MarketConfig) : TradeBackfillConfig :=
  mkBackfillConfig (mc_backfillEnabled m) (mc_backfillMaxGapIds m) 1000 10 false
    (default_SnapshotSchedulerConfig <| weightPerRequest := mc_backfillWeight m |>
       <| weightLimitPerMin := mc_backfillWeightLimit m |>).

(** The constructor; [startNs] is the clock it reads. *)
Definition newTradeFeedHandler (symbols : list string) (m : MarketConfig) (tpHost : string)
    (tpPort startNs : Z) : TradeFeedHandler :=
  let tpCfg := mkTpConfig tpHost tpPort (mc_tpTable m) (rowWidthOf (mc_schema m)) startNs 4096 1000 8000 in
  mkTradeHandler symbols m 0 ∅ ∅ (newGapEventQueue "trade_gap") (newBackfill (backfillConfigOf m)) 0
    (newTpPublisher tpCfg) O startNs 0 0 0 0 0 0 0 0 0 (newRowClock (mc_clockLagMs m)) 0 0 "disconnected".

(** One parsed event. [te_nq]: the optional futures field was usable. *)
Record TradeEvent := mkTradeEvent {
  te_sym : string; te_price : double; te_qty : double; te_buyerIsMaker : bool;
  te_eventTimeMs : Z; te_tradeTimeMs : Z;
  te_primaryId : Z; te_firstAggId : Z; te_lastAggId : Z; te_qtyExRpi : option double
}.

Section handler.
Context {W V : Type} `{Process W} `{TpLink W} `{Host W} `{HttpLib W} `{JsonLib V}.
Context (fuel : nat).

Local Abbreviation HM := (M TradeFeedHandler W).

(** ** Gap events *)

Definition flushGapEvents : HM unit := fun h w =>
  let '(_, q, p, w) := flush (gapEvents_ h) (tp_ h) w in
  Some (tt, h <| gapEvents_ := q |> <| tp_ := p |>, w).

(** [if (gapEvents_.size() > 0) gapEvents_.flush( *tp_ )]. *)
Definition flushIfPending : HM unit :=
  n <- gets (fun h => length (pending_ (gapEvents_ h))) ;;
  when (0 <? n)%nat flushGapEvents.

Definition recordGap (gap : TradeGap) (status : GapStatus) (reason : string) : HM unit :=
  nowNs <- world system_now ;;
  puts (fun h => h <| gapEvents_ ::= gap_push (buildGapRow nowNs gap (mc_tpTable (cfg_ h)) status reason) |>) ;;;
  flushGapEvents.

Definition validateTradeId (sym : string) (tradeId : Z) : HM unit :=
  r <- (fun h w => let '(r, t) := onId sym tradeId (idTracker_ h) in
                   Some (r, h <| idTracker_ := t |>, w)) ;;
  (match kind r with
   | First | InOrder => ret tt
   | OutOfOrder => puts (fun h => h <| ctrExchOutOfOrder_ ::= Z.succ |>)
   | Duplicate => puts (fun h => h <| ctrExchDuplicates_ ::= Z.succ |>)
   | Gap =>
       let gap := mkTradeGap sym (firstMissing r) (lastMissing r) 0 0 in
       puts (fun h => h <| ctrExchGaps_ ::= Z.succ |> <| ctrExchMissed_ ::= Z.add (missing gap) |>) ;;;
       afterRestart <- gets (fun h => bool_decide (sym ∈ seededSyms_ h)) ;;
       recordGap gap Detected (if afterRestart then "handlerRestart" else "") ;;;
       puts (fun h => h <| backfill_ ::= addGap gap |>)
   end) ;;;
  puts (fun h => h <| seededSyms_ ::= fun s => s ∖ {[ sym ]} |>).

(** ** Publishing *)

Definition stampRow (recv own : Z) : HM RowStamp := fun h w =>
  let '(s, c) := stamp recv own (rowClock_ h) in Some (s, h <| rowClock_ := c |>, w).

Definition publishRowToTp (row : K) : HM unit := fun h w =>
  match publish fuel row (fhSeqNo_ h) (tp_ h) w with
  | Some (_, p, w) => Some (tt, h <| tp_ := p |>, w)
  | None => None
  end.

Definition publishBackfilled (sym : string) (t : BackfillTrade) (recvTimeUtcNs : Z) : HM unit :=
  st <- stampRow recvTimeUtcNs 0 ;;
  puts (fun h => h <| fhSeqNo_ ::= Z.succ |>) ;;;
  h <- gets (fun h => h) ;;
  let row :=
    match mc_schema (cfg_ h) with
    | SpotTrade =>
        buildTradeRow (timeUtcNs st) recvTimeUtcNs sym (bt_id t) (bt_price t) (bt_qty t) (bt_buyerIsMaker t)
          GAP_NULL_LONG (bt_tradeTimeMs t) 0 0 (fhSeqNo_ h) KDB_EPOCH_OFFSET_NS
    | FuturesAggTrade =>
        buildAggTradeRow (timeUtcNs st) recvTimeUtcNs sym (bt_id t) (bt_firstTradeId t) (bt_lastTradeId t)
          (bt_price t) (bt_qty t) (bt_qtyExRpi t) (bt_buyerIsMaker t)
          GAP_NULL_LONG (bt_tradeTimeMs t) 0 0 (fhSeqNo_ h) KDB_EPOCH_OFFSET_NS
    end in
  publishRowToTp row ;;;
  now <- world system_now ;;
  puts (fun h => h <| lastPubTime_ := now |> <| msgsPublished_ ::= Z.succ |> <| ctrBackfilled_ ::= Z.succ |>).

(** [backfill_->pump], whose callbacks are methods of this handler. *)
Definition as_callback (m : HM unit) : TradeFeedHandler * W -> option (TradeFeedHandler * W) := fun '(h, w) =>
  match m h w with Some (_, h, w) => Some (h, w) | None => None end.

Definition fetcherOf (m : MarketConfig) (sym : string) (from limit : Z) (w : W) : BackfillPage * W :=
  fetch_page (mkRestClient (mc_backfillRestHost m) (mc_backfillRestPort m) (mc_backfillRestPath m))
    (mc_backfillRestPath m) (mc_schema m) sym from limit w.

Definition pumpBackfill : HM unit :=
  t <- world steady_now ;;
  fun h w =>
    match pump (fun sym t recv => as_callback (publishBackfilled sym t recv))
               (fun g st reason => as_callback (recordGap g st reason))
               (fun sym from limit '(h, w) =>
                  let '(p, w) := fetcherOf (cfg_ h) sym from limit w in (p, (h, w)))
               (fun '(h, w) => let '(j, w) := draw_jitter w in (j, (h, w)))
               (Z.quot t 1000000) (backfill_ h) (h, w) with
    | Some (_, b, (h, w)) => Some (tt, h <| backfill_ := b |>, w)
    | None => None
    end.

(** ** Trade events *)

(** [nq]: read beside the reader, so that its absence is not an error. *)
Definition read_nq (doc : V) : option double :=
  match as_object doc with
  | Some o =>
      match o "data"%string with
      | Some dv => match as_object dv with Some d => bf_num d "nq" | None => None end
      | None => None
      end
  | None => None
  end.

Definition read_trade_event (schema : TradeSchema) (doc : V) : option TradeEvent :=
  let '(d, _) := obj "data" (bind_reader doc) in
  let '(sym, d) := string_ "s" d in
  let '(price, d) := priceString "p" d in
  let '(qty, d) := priceString "q" d in
  let '(buyerMkr, d) := boolean "m" d in
  let '(evtTime, d) := int64 "E" d in
  let '(trdTime, d) := int64 "T" d in
  let '(id, f, l, d) :=
    match schema with
    | SpotTrade => let '(t, d) := int64 "t" d in (t, Some 0, Some 0, d)
    | FuturesAggTrade =>
        let '(a, d) := int64 "a" d in
        let '(f, d) := int64 "f" d in
        let '(l, d) := int64 "l" d in (a, f, l, d)
    end in
  if hasError d then None
  else
    match sym, price, qty, buyerMkr, evtTime, trdTime, id, f, l with
    | Some sym, Some p, Some q, Some m, Some e, Some t, Some id, Some f, Some l =>
        Some (mkTradeEvent sym p q m e t id f l
                (match schema with SpotTrade => None | FuturesAggTrade => read_nq doc end))
    | _, _, _, _, _, _, _, _, _ => None
    end.

Definition parse_trade_message (schema : TradeSchema) (msg : string) : option TradeEvent :=
  match json_parse msg with
  | inr _ => None
  | inl doc => read_trade_event schema doc
  end.

Definition build_row (e : TradeEvent) (st : RowStamp) (recv parseUs sendUs : Z) (h : TradeFeedHandler) : K * Z :=
  match mc_schema (cfg_ h) with
  | SpotTrade =>
      (buildTradeRow (timeUtcNs st) recv (te_sym e) (te_primaryId e) (te_price e) (te_qty e)
         (te_buyerIsMaker e) (te_eventTimeMs e) (te_tradeTimeMs e) parseUs sendUs (fhSeqNo_ h)
         KDB_EPOCH_OFFSET_NS, TRADE_ROW_SEND_US_IDX)
  | FuturesAggTrade =>
      (buildAggTradeRow (timeUtcNs st) recv (te_sym e) (te_primaryId e) (te_firstAggId e) (te_lastAggId e)
         (te_price e) (te_qty e) (default dnan (te_qtyExRpi e)) (te_buyerIsMaker e) (te_eventTimeMs e)
         (te_tradeTimeMs e) parseUs sendUs (fhSeqNo_ h) KDB_EPOCH_OFFSET_NS, AGG_TRADE_ROW_SEND_US_IDX)
  end.

(** A trade event from its id check to its row in TP. *)
Definition handle_trade (e : TradeEvent) (recv parseStart : Z) : HM unit :=
  schema <- gets (fun h => mc_schema (cfg_ h)) ;;
  when (bool_decide (schema = FuturesAggTrade) && bool_decide (te_qtyExRpi e = None))
    (puts (fun h => h <| ctrNqMissing_ ::= Z.succ |>)) ;;;
  validateTradeId (te_sym e) (te_primaryId e) ;;;
  parseEnd <- world steady_now ;;
  let parseUs := Z.quot (parseEnd - parseStart) 1000 in
  st <- stampRow recv (te_eventTimeMs e) ;;
  puts (fun h => h <| fhSeqNo_ ::= Z.succ |>) ;;;
  h <- gets (fun h => h) ;;
  let '(row, slot) := build_row e st recv parseUs 0 h in
  sendEnd <- world steady_now ;;
  let row := patch_long slot (Z.quot (sendEnd - parseEnd) 1000) row in
  puts (fun h => if connected (tp_ h) then h else h <| connState_ := "reconnecting" |>) ;;;
  publishRowToTp row ;;;
  puts (fun h => h <| connState_ := if connected (tp_ h) then "connected" else "disconnected" |>) ;;;
  now <- world system_now ;;
  puts (fun h => h <| lastPubTime_ := now |> <| msgsPublished_ ::= Z.succ |>) ;;;
  flushIfPending.

Definition processMessage (msg : string) : HM unit :=
  recv <- world system_now ;;
  puts (fun h => h <| lastMsgTime_ := recv |> <| msgsReceived_ ::= Z.succ |>) ;;;
  parseStart <- world steady_now ;;
  schema <- gets (fun h => mc_schema (cfg_ h)) ;;
  match parse_trade_message schema msg with
  | None => puts (fun h => h <| parseFailures_ ::= Z.succ |>)
  | Some e => handle_trade e recv parseStart
  end.

(** ** Health *)

Definition to_kdb (ns : Z) : Z := ns - KDB_EPOCH_OFFSET_NS.
Definition handlerName (h : TradeFeedHandler) : string :=
  match mc_schema (cfg_ h) with FuturesAggTrade => "trade_fh_fut" | SpotTrade => "trade_fh" end.
Definition fh_stats (h : TradeFeedHandler) : list (string * Z) :=
  let b := backfill_ h in
  [("msgsReceived", msgsReceived_ h); ("rowsPublished", msgsPublished_ h);
   ("wsReconnects", ctrWsReconnects_ h); ("exchGaps", ctrExchGaps_ h); ("exchMissed", ctrExchMissed_ h);
   ("exchOutOfOrder", ctrExchOutOfOrder_ h); ("exchDuplicates", ctrExchDuplicates_ h);
   ("nqMissing", ctrNqMissing_ h); ("gapEventsPending", Z.of_nat (length (pending_ (gapEvents_ h))));
   ("gapsOpen", Z.of_nat (length (queue_ b))); ("gapsRecovered", gapsRecovered_ b);
   ("gapsUnrecoverable", gapsUnrecoverable_ b); ("tradesBackfilled", ctrBackfilled_ h);
   ("backfillRequests", pagesRequested_ b); ("backfillFailures", pagesFailed_ b);
   ("rateLimitPauses", rateLimitPauses_ (sched_ b)); ("tpReconnects", reconnects_ (tp_ h));
   ("rowsResent", rowsResent_ (tp_ h)); ("rowsUnresendable", rowsUnresendable_ (tp_ h));
   ("clockLagRows", correctedRows_ (rowClock_ h))]%string.

Definition publishHealth : HM unit :=
  flushIfPending ;;;
  up <- gets (fun h => connected (tp_ h)) ;;
  when up
    (now <- world system_now ;;
     h <- gets (fun h => h) ;;
     let row := knk [ktp (to_kdb now); ks (handlerName h); ktp (to_kdb (startTime_ h));
                     kj (Z.quot (now - startTime_ h) 1000000000); kj (msgsReceived_ h); kj (msgsPublished_ h);
                     ktp (to_kdb (lastMsgTime_ h)); ktp (to_kdb (lastPubTime_ h)); ks (connState_ h);
                     ki (Z.of_nat (length (symbols_ h)))] in
     world (k_send (handle_ (tp_ h)) ".u.upd" [ks "health_feed_handler"; row]) ;;;
     match sendFhStats (handle_ (tp_ h)) (mc_tpTable (cfg_ h)) (fh_stats h) with
     | Some (_, f, args) => world (k_send (handle_ (tp_ h)) f args) ;;; ret tt
     | None => ret tt
     end).

(** What [run] does with TP's answer: seed the tracker, pick up the open gaps. *)
Definition seed_from (st : TradeState) (h : TradeFeedHandler) : TradeFeedHandler :=
  if ts_ok st then
    let h := fold_left (fun h kv => h <| idTracker_ ::= seed (fst kv) (snd kv) |>
                                      <| seededSyms_ ::= fun s => {[ fst kv ]} ∪ s |>) (ts_lastIds st) h in
    fold_left (fun h g => h <| backfill_ ::= addGap (mkTradeGap (og_sym g) (og_firstId g) (og_lastId g)
                                                      (og_recovered g) (og_recoveredThroughId g)) |>)
              (ts_openGaps st) h
  else h.

Definition streamTarget (h : TradeFeedHandler) : string :=
  ((match mc_schema (cfg_ h) with FuturesAggTrade => "/market" | SpotTrade => "" end) +:+
   buildStreamPath (symbols_ h) (mc_streamSuffix (cfg_ h)))%string.
End handler.

(** ** The loops *)

Section loops.
Context {W V : Type} `{Process W} `{TpLink W} `{Host W} `{WebSocket W} `{Background W}
  `{HttpLib W} `{JsonLib V}.
Context (fuel : nat).

Local Abbreviation HM := (M TradeFeedHandler W).

(** The backfill thread's steps up to here. *)
Definition backfill_turn (m : MarketConfig) (b : TradeBackfill) (w : W) : TradeBackfill * W :=
  match bf_thread b with
  | BfFetching r =>
      let '(page, w) := fetcherOf m (br_sym r) (br_fromId r) (br_limit r) w in
      (default b (bf_fetched page b), w)
  | _ => (default b (bf_pop b), w)
  end.
Fixpoint backfill_turns (m : MarketConfig) (n : nat) (b : TradeBackfill) (w : W) : TradeBackfill * W :=
  match n with
  | O => (b, w)
  | S n => let '(b, w) := backfill_turn m b w in backfill_turns m n b w
  end.
Definition background : HM unit := fun h w =>
  let '(n, w) := worker_steps w in
  let '(b, w) := backfill_turns (cfg_ h) n (backfill_ h) w in
  Some (tt, h <| backfill_ := b |>, w).

Definition on_message (msg : string) (lastHealthPub : Z) : HM Z :=
  processMessage fuel msg ;;;
  pumpBackfill fuel ;;;
  now <- world steady_now ;;
  if HEALTH_INTERVAL_SEC <=? Z.quot (now - lastHealthPub) 1000000000
  then publishHealth ;;; ret now else ret lastHealthPub.

(** The message loop; [frames] bounds its iterations. *)
Fixpoint message_loop (frames : nat) (lastHealthPub : Z) : HM LoopEnd :=
  match frames with
  | O => fun _ _ => None
  | S frames =>
      r <- world is_running ;;
      if negb r then ret Finished
      else
        background ;;;
        m <- world ws_read ;;
        match m with
        | None => ret Threw
        | Some msg =>
            r <- world is_running ;;
            if negb r then ret Finished
            else
              last <- on_message msg lastHealthPub ;;
              message_loop frames last
        end
  end.

Definition runWebSocketLoop (frames : nat) : HM LoopEnd :=
  puts (fun h => h <| connState_ := "connecting" |>) ;;;
  h <- gets (fun h => h) ;;
  ok <- world (ws_connect (mc_host (cfg_ h)) (mc_port (cfg_ h)) (streamTarget h)) ;;
  if negb ok then ret Threw
  else
    puts (fun h => h <| connState_ := "connected" |> <| binanceReconnectAttempt_ := O |>) ;;;
    lastHealthPub <- world steady_now ;;
    e <- message_loop frames lastHealthPub ;;
    match e with
    | Threw => ret Threw
    | Finished =>
        puts (fun h => h <| connState_ := "disconnected" |>) ;;;
        r <- world is_running ;;
        (if negb r then world (fun w => (tt, ws_close w)) else ret tt) ;;;
        ret Finished
    end.

Fixpoint run_loop (rounds frames : nat) : HM unit :=
  match rounds with
  | O => fun _ _ => None
  | S rounds =>
      r <- world is_running ;;
      if negb r then ret tt
      else
        e <- runWebSocketLoop frames ;;
        match e with
        | Finished => run_loop rounds frames
        | Threw =>
            r <- world is_running ;;
            if negb r then run_loop rounds frames
            else
              puts (fun h => h <| ctrWsReconnects_ ::= Z.succ |>) ;;;
              a <- gets binanceReconnectAttempt_ ;;
              puts (fun h => h <| binanceReconnectAttempt_ ::= S |>) ;;;
              ok <- world (sleepWithBackoff BACKOFF_MULTIPLIER INITIAL_BACKOFF_MS MAX_BACKOFF_MS a) ;;
              if ok then run_loop rounds frames else ret tt
        end
  end.

(** [run]: connect to TP, learn what it has logged, then the connections. *)
Definition resume : HM unit :=
  st <- (fun h w => let '(st, p, w) := tradeState (tp_ h) w in Some (st, h <| tp_ := p |>, w)) ;;
  puts (seed_from st) ;;;
  puts (fun h => h <| backfill_ ::= bf_start |>).

Definition run (rounds frames : nat) : HM unit :=
  ok <- (fun h w =>
    match connect fuel (fhSeqNo_ h + 1) (tp_ h) w with
    | Some (ok, p, w) => Some (ok, h <| tp_ := p |>, w)
    | None => None
    end) ;;
  if negb ok then ret tt
  else
    resume ;;;
    run_loop rounds frames ;;;
    puts (fun h => h <| backfill_ ::= bf_stop |>) ;;;
    (fun h w => let '(p, w) := close (tp_ h) w in Some (tt, h <| tp_ := p |>, w)).
End loops.
