(* ===== verification/TradeHandlerProps.v ===== *)
(** * The trade handler from the exchange to TP's log

    The handler keeps a ledger ([TradeLedger]): its methods, run in any order the
    code allows, only append to it, and its tracker, its backfill, its queue of
    gap events and the rows in TP's session all agree with it. What the ledger
    says of ids and gaps is thereby true of the handler after any run. *)

From S2P Require Import Prelude Double CStdlib JsonReader MarketConfig Effects Backoff RowClock.
From S2P Require Import KObject TpPublisher TpSession TradeGap Scheduler RestClient SnapshotWorker Rows Delivery.
From S2P Require Import TradeBackfill TradeBackfillProps TradeLedger TradeHandler.

Open Scope Z_scope.
Local Open Scope rec_scope.
Local Open Scope effect_scope.

Definition tradeTpConfigOf (m : MarketConfig) (tpHost : string) (tpPort startNs : Z) : TpPublisherConfig :=
  tp_cfg (tp_ (newTradeFeedHandler [] m tpHost tpPort startNs)).

(** Where a trade row has exchEventTimeMs. *)
Definition event_column (s : TradeSchema) : nat := match s with SpotTrade => 6 | FuturesAggTrade => 9 end.

(** A row's symbol and id, and whether it was backfilled: the null event time
    marks it. *)
Definition row_origin (s : TradeSchema) (row : K) : option (string * Z * bool) :=
  match kK row with
  | _ :: KSym sym :: KLong i :: _ =>
      match kK row !! event_column s with Some (KLong t) => Some (sym, i, t =? GAP_NULL_LONG) | _ => None end
  | _ => None
  end.

(** The column types kdb/schemas.q has for the layout. *)
Definition trade_schema (s : TradeSchema) : list Z :=
  match s with
  | SpotTrade => [- KP; - KS; - KJ; - KF; - KF; - KB; - KJ; - KJ; - KJ; - KJ; - KJ; - KJ]
  | FuturesAggTrade => [- KP; - KS; - KJ; - KJ; - KJ; - KF; - KF; - KF; - KB; - KJ; - KJ; - KJ; - KJ; - KJ; - KJ]
  end.

(** A trade the exchange streamed, as the handler reads it. *)
Definition streamed (W : Type) {V : Type} `{WebSocket W} `{JsonLib V} (s : TradeSchema) (e : TradeEvent) : Prop :=
  exists (w : W) msg, fst (ws_read w) = Some msg /\ parse_trade_message s msg = Some e.

(** What is promised of a row: it is that of a streamed trade, or of a backfilled
    one, with the trade's own fields. *)
Definition live_row (m : MarketConfig) (e : TradeEvent) (row : K) : Prop :=
  exists st recv parse send h, cfg_ h = m /\ row = fst (build_row e st recv parse send h).
Definition backfilled_row (s : TradeSchema) (sym : string) (t : BackfillTrade) (row : K) : Prop :=
  exists time recv n, row =
    match s with
    | SpotTrade =>
        buildTradeRow time recv sym (bt_id t) (bt_price t) (bt_qty t) (bt_buyerIsMaker t)
          GAP_NULL_LONG (bt_tradeTimeMs t) 0 0 n KDB_EPOCH_OFFSET_NS
    | FuturesAggTrade =>
        buildAggTradeRow time recv sym (bt_id t) (bt_firstTradeId t) (bt_lastTradeId t)
          (bt_price t) (bt_qty t) (bt_qtyExRpi t) (bt_buyerIsMaker t)
          GAP_NULL_LONG (bt_tradeTimeMs t) 0 0 n KDB_EPOCH_OFFSET_NS
    end.
Definition good_trade (W : Type) {V : Type} `{WebSocket W} `{JsonLib V} (m : MarketConfig) (row : K) : Prop :=
  (exists e, streamed W (mc_schema m) e /\ live_row m e row) \/
  (exists sym t, backfilled_row (mc_schema m) sym t row).

Lemma good_trade_types {W V : Type} `{WebSocket W} `{JsonLib V} m row :
  good_trade W m row -> k_types row = trade_schema (mc_schema m).
Proof.
  intros [(e & _ & st & recv & parse & send & h & Hm & ->)|(sym & t & time & recv & n & ->)].
  - unfold build_row. rewrite Hm. by destruct (mc_schema m).
  - by destruct (mc_schema m).
Qed.

Lemma good_trade_width {W V : Type} `{WebSocket W} `{JsonLib V} m row :
  good_trade W m row -> k_n row = rowWidthOf (mc_schema m).
Proof.
  intros Hg. rewrite (k_types_n _ (trade_schema (mc_schema m)) ltac:(by destruct (mc_schema m)) (good_trade_types _ _ Hg)).
  by destruct (mc_schema m).
Qed.

(** What TP's answer at the start says: the last id per symbol, and the gaps
    still open. *)
Definition seeded (st : TradeState) : TradeIdTracker :=
  if ts_ok st then fold_left (fun t kv => seed (fst kv) (snd kv) t) (ts_lastIds st) ∅ else ∅.
Definition gap_from (g : OpenGap) : TradeGap :=
  mkTradeGap (og_sym g) (og_firstId g) (og_lastId g) (og_recovered g) (og_recoveredThroughId g).
Definition reopened (st : TradeState) : list TradeGap :=
  if ts_ok st then gap_from <$> ts_openGaps st else [].

(** Ids TP has logged are not negative, and the first id of a gap is positive. *)
Definition state_ok (st : TradeState) : Prop :=
  Forall (fun kv => 0 <= snd kv) (ts_lastIds st) /\ Forall (fun g => 1 <= og_firstId g) (ts_openGaps st).

Lemma seeded_nonneg st : state_ok st -> nonneg (seeded st).
Proof.
  intros [Hl _]. unfold seeded. destruct (ts_ok st); [|by intros s p; rewrite lookup_empty].
  assert (nonneg ∅) as Hn by (by intros s p; rewrite lookup_empty).
  revert Hn. generalize (∅ : TradeIdTracker) as t. induction (ts_lastIds st) as [|[s i] l IH]; intros t Hn; [done|].
  apply Forall_cons in Hl as [Hi Hl]. cbn [fold_left]. apply (IH Hl). intros s' p. unfold seed.
  rewrite lookup_insert_Some. intros [[_ <-]|[_ H]]; [done|by eapply Hn].
Qed.

Lemma reopened_ok st : state_ok st -> Forall gap_ok (reopened st).
Proof. intros [_ Hg]. unfold reopened. destruct (ts_ok st); [|done]. apply Forall_fmap. done. Qed.

(** What the exchange promises of a trade: its id is not negative, its event time
    not the null. *)
Definition trade_ok (e : TradeEvent) : Prop := 0 <= te_primaryId e /\ te_eventTimeMs e <> GAP_NULL_LONG.

Section handler.
Context (m : MarketConfig) (tpHost : string) (tpPort startNs : Z).
Context {W V : Type} `{TpSession W (tradeTpConfigOf m tpHost tpPort startNs) row_seq} `{Host W} `{WebSocket W}
  `{HttpLib W} `{Background W} `{JsonLib V} `{!TpQuiet W (tradeTpConfigOf m tpHost tpPort startNs)}.
Context (fuel : nat).
(** Where the accounting starts. *)
Context (t0 : TradeIdTracker) (g0 : list TradeGap).
Hypothesis Ht0 : nonneg t0.

Local Abbreviation tpc := (tradeTpConfigOf m tpHost tpPort startNs).
Local Abbreviation TH := TradeFeedHandler.
Local Abbreviation good := (good_trade W m).

(** What the backfill's callbacks touch. [k] rows have been numbered but not
    published; [pend] is in the ledger but its row is not in the session. *)
Record client (k : Z) (pend : list (string * Z * bool)) (L : list entry) (h : TH) (w : W) : Prop := {
  cl_cfg : cfg_ h = m;
  cl_track : snd (detect t0 (live L)) = idTracker_ h;
  cl_ids : Forall (fun p => 0 <= snd p) (live L);
  cl_events : events_kept (mc_tpTable m) (gapEvents_ h) (records L);
  cl_rows : exists rows, published_rows tpc good (fhSeqNo_ h - k) rows (tp_ h) w /\
              (row_origin (mc_schema m) <$> rows) ++ (Some <$> pend) = Some <$> origins L
}.

(** The gaps found and not yet noted, or not yet handed to the backfill. *)
Definition owes (missNoted missAdded : list TradeGap) (L : list entry) : Prop :=
  noted L ++ missNoted = fst (detect t0 (live L)) /\
  added (bf_part L) ++ missAdded = g0 ++ fst (detect t0 (live L)).

Definition inv (k : Z) (pend : list (string * Z * bool)) (h : TH) (w : W) : Prop :=
  exists L, client k pend L h w /\ owes [] [] L /\ good_log (backfill_ h) (bf_part L).

(** ** Members and clocks *)

Lemma client_same k pend L h h' w :
  cfg_ h' = cfg_ h -> idTracker_ h' = idTracker_ h -> gapEvents_ h' = gapEvents_ h ->
  fhSeqNo_ h' = fhSeqNo_ h -> tp_ h' = tp_ h -> client k pend L h w -> client k pend L h' w.
Proof. intros E1 E2 E3 E4 E5 []. constructor; by rewrite ?E1, ?E2, ?E3, ?E4, ?E5. Qed.

Lemma client_quiet k pend L h w w' : t_same w w' -> client k pend L h w -> client k pend L h w'.
Proof.
  intros Hs [? ? ? ? (rows & Hp & Hr)]. constructor; try done. exists rows. split; [|done].
  by apply (published_same _ _ _ _ _ w).
Qed.

Lemma trade_inv_same k pend h h' w :
  cfg_ h' = cfg_ h -> idTracker_ h' = idTracker_ h -> gapEvents_ h' = gapEvents_ h ->
  fhSeqNo_ h' = fhSeqNo_ h -> tp_ h' = tp_ h -> backfill_ h' = backfill_ h -> inv k pend h w -> inv k pend h' w.
Proof.
  intros E1 E2 E3 E4 E5 E6 (L & Hc & Ho & Hg). exists L. rewrite E6. split; [|done]. by apply (client_same _ _ _ h).
Qed.

Lemma trade_inv_quiet k pend h w w' : t_same w w' -> inv k pend h w -> inv k pend h w'.
Proof. intros Hs (L & Hc & Ho). exists L. split; [|done]. by apply (client_quiet _ _ _ _ w). Qed.

Lemma trade_world_inv {A} k pend (f : W -> A * W) :
  (forall w, t_same w (snd (f w))) -> ensures (inv k pend) (world f) anything.
Proof. intros Hf. apply ensures_world. intros h w. apply trade_inv_quiet, Hf. Qed.

Lemma trade_puts_inv k pend f :
  (forall h, cfg_ (f h) = cfg_ h /\ idTracker_ (f h) = idTracker_ h /\ gapEvents_ (f h) = gapEvents_ h /\
     fhSeqNo_ (f h) = fhSeqNo_ h /\ tp_ (f h) = tp_ h /\ backfill_ (f h) = backfill_ h) ->
  ensures (inv k pend) (puts f) anything.
Proof. intros Hf. apply ensures_puts. intros h w. destruct (Hf h) as (?&?&?&?&?&?). by apply trade_inv_same. Qed.

Lemma trade_steady_inv k pend : ensures (inv k pend) (world steady_now) anything.
Proof. apply trade_world_inv, quiet_steady. Qed.
Lemma trade_system_inv k pend : ensures (inv k pend) (world system_now) anything.
Proof. apply trade_world_inv, quiet_system. Qed.

Lemma stampRow_inv k pend recv own : ensures (inv k pend) (stampRow recv own) anything.
Proof.
  intros h w x h' w' Hi. unfold stampRow. destruct (stamp _ _ _) as [s c]. intros [= <- <- <-].
  split; [|done]. by apply (trade_inv_same k pend h).
Qed.

(** One step of a method. *)
Ltac inv_step :=
  first [apply trade_steady_inv | apply trade_system_inv | apply stampRow_inv
        | apply trade_puts_inv; by intros ?
        | ensures_step].

(** ** Gap events *)

Lemma flush_client k pend L h w b q p w' :
  client k pend L h w -> flush (gapEvents_ h) (tp_ h) w = (b, q, p, w') ->
  client k pend L (h <| gapEvents_ := q |> <| tp_ := p |>) w'.
Proof.
  intros [? ? ? He (rows & Hp & Hr)] E. constructor; try done.
  - by apply (flush_kept _ _ _ _ _ _ _ _ _ He) in E.
  - exists rows. split; [|done]. exact (flush_published tpc good _ _ _ _ _ _ _ _ _ Hp E).
Qed.

Lemma flushIfPending_inv k pend : ensures (inv k pend) flushIfPending anything.
Proof.
  unfold flushIfPending. ensures_step; [by ensures_step|]. ensures_step.
  intros h w y h' w' (L & Hc & Ho & Hg). unfold flushGapEvents.
  destruct (flush (gapEvents_ h) (tp_ h) w) as [[[b q] p] w1] eqn:E. intros [= <- <- <-]. split; [|done].
  exists L. split; [|done]. by apply (flush_client _ _ _ _ _ _ _ _ _ Hc E).
Qed.

(** An entry that records a gap event and publishes nothing. *)
Definition is_record (e : entry) (r : TradeGap * GapStatus * string) : Prop :=
  match e with
  | Noted g why => r = (g, Detected, why)
  | Backfilled (Recorded g st why) => r = (g, st, why)
  | _ => False
  end.

Lemma live_snoc L e : live (L ++ [e]) = live L ++ match e with Received s i => [(s, i)] | _ => [] end.
Proof. unfold live. rewrite omap_app. by destruct e. Qed.
Lemma bf_part_snoc L e : bf_part (L ++ [e]) = bf_part L ++ match e with Backfilled x => [x] | _ => [] end.
Proof. unfold bf_part. rewrite omap_app. by destruct e. Qed.
Lemma noted_snoc L e : noted (L ++ [e]) = noted L ++ match e with Noted g _ => [g] | _ => [] end.
Proof. unfold noted. rewrite omap_app. by destruct e. Qed.
Lemma origins_snoc L e :
  origins (L ++ [e]) = origins L ++
    match e with
    | Received s i => [(s, i, false)]
    | Backfilled (Published s i) => [(s, i, true)]
    | _ => []
    end.
Proof. unfold origins. rewrite omap_app. by destruct e as [| |[]]. Qed.
Lemma records_snoc L e :
  records (L ++ [e]) = records L ++
    match e with
    | Noted g why => [(g, Detected, why)]
    | Backfilled (Recorded g st why) => [(g, st, why)]
    | _ => []
    end.
Proof. unfold records. rewrite omap_app. by destruct e as [| |[]]. Qed.

Lemma recordGap_client k pend L e h w g st why x h' w' :
  client k pend L h w -> is_record e (g, st, why) -> recordGap g st why h w = Some (x, h', w') ->
  client k pend (L ++ [e]) h' w' /\ backfill_ h' = backfill_ h.
Proof.
  intros [Hc Ht Hi He (rows & Hp & Hr)] Hrec. unfold recordGap, bind, world, puts.
  pose proof (quiet_system w) as Hq. destruct (system_now w) as [now w1]. cbn [snd] in Hq.
  rewrite Hc. set (h1 := h <| gapEvents_ ::= _ |>). unfold flushGapEvents.
  destruct (flush (gapEvents_ h1) (tp_ h1) w1) as [[[b q] p] w2] eqn:E. intros [= <- <- <-]. split; [|done].
  apply (flush_client _ _ _ h1 w1 b q p w2); [|done].
  constructor.
  - exact Hc.
  - rewrite live_snoc. by destruct e; [|rewrite app_nil_r..].
  - rewrite live_snoc. by destruct e; [|rewrite app_nil_r..].
  - assert (records (L ++ [e]) = records L ++ [(g, st, why)]) as ->.
    { rewrite records_snoc. by destruct e as [| |[]]; try done; injection Hrec as -> -> ->. }
    by apply push_kept.
  - exists rows. split; [by apply (published_same _ _ _ _ _ w)|]. rewrite Hr, origins_snoc.
    by destruct e as [| |[]]; rewrite ?app_nil_r.
Qed.

(** ** Rows *)

(** A published row is the oldest one the ledger holds beyond the session. *)
Lemma publishRow_client L h w row o y h' w' :
  client 1 [o] L h w -> good row -> row_seq row = fhSeqNo_ h -> row_origin (mc_schema m) row = Some o ->
  publishRowToTp fuel row h w = Some (y, h', w') ->
  client 0 [] L h' w' /\ backfill_ h' = backfill_ h.
Proof.
  intros [? ? ? ? (rows & Hp & Hr)] Hg Hn Hk. unfold publishRowToTp.
  destruct (publish fuel row (fhSeqNo_ h) (tp_ h) w) as [[[ok p] w1]|] eqn:E; [|done].
  intros [= <- <- <-]. split; [|done]. constructor; try done.
  exists (rows ++ [row]). cbn [fhSeqNo_ tp_ modify eta_TradeFeedHandler]. split.
  - rewrite Z.sub_0_r. replace (fhSeqNo_ h) with (fhSeqNo_ h - 1 + 1) in E, Hn |- * by lia.
    exact (publish_published _ _ _ _ _ _ _ _ _ _ _ Hp Hg Hn (good_trade_width _ _ Hg) E).
  - cbn in Hr |- *. by rewrite app_nil_r, fmap_app, <-Hr, <-Hk.
Qed.

(** The next row gets a number. *)
Lemma numbered_client pend L h w : client 0 pend L h w -> client 1 pend L (h <| fhSeqNo_ ::= Z.succ |>) w.
Proof.
  intros [? ? ? ? (rows & Hp & Hr)]. constructor; try done. exists rows. split; [|done].
  cbn [fhSeqNo_ tp_ modify eta_TradeFeedHandler]. by replace (Z.succ (fhSeqNo_ h) - 1) with (fhSeqNo_ h - 0) by lia.
Qed.

Lemma expect_client L h w s i :
  client 0 [] L h w -> client 0 [(s, i, true)] (L ++ [Backfilled (Published s i)]) h w.
Proof.
  intros [? ? ? ? (rows & Hp & Hr)]. constructor; rewrite ?live_snoc, ?records_snoc, ?app_nil_r; try done.
  exists rows. split; [done|]. cbn in Hr |- *. by rewrite origins_snoc, fmap_app, <-Hr, app_nil_r.
Qed.

Lemma backfill_row_ok h (st : RowStamp) recv sym t :
  cfg_ h = m ->
  let row := match mc_schema (cfg_ h) with
    | SpotTrade =>
        buildTradeRow (timeUtcNs st) recv sym (bt_id t) (bt_price t) (bt_qty t) (bt_buyerIsMaker t)
          GAP_NULL_LONG (bt_tradeTimeMs t) 0 0 (fhSeqNo_ h) KDB_EPOCH_OFFSET_NS
    | FuturesAggTrade =>
        buildAggTradeRow (timeUtcNs st) recv sym (bt_id t) (bt_firstTradeId t) (bt_lastTradeId t)
          (bt_price t) (bt_qty t) (bt_qtyExRpi t) (bt_buyerIsMaker t)
          GAP_NULL_LONG (bt_tradeTimeMs t) 0 0 (fhSeqNo_ h) KDB_EPOCH_OFFSET_NS
    end in
  good row /\ row_seq row = fhSeqNo_ h /\ row_origin (mc_schema m) row = Some (sym, bt_id t, true).
Proof.
  intros ->. split; [|by destruct (mc_schema m)]. right. exists sym, t, (timeUtcNs st), recv, (fhSeqNo_ h).
  by destruct (mc_schema m).
Qed.

Lemma publishBackfilled_client L h w sym t recv y h' w' :
  client 0 [] L h w -> publishBackfilled fuel sym t recv h w = Some (y, h', w') ->
  client 0 [] (L ++ [Backfilled (Published sym (bt_id t))]) h' w' /\ backfill_ h' = backfill_ h.
Proof.
  intros Hc. apply (expect_client _ _ _ sym (bt_id t)) in Hc. revert Hc.
  generalize (L ++ [Backfilled (Published sym (bt_id t))]) as L1. intros L1 Hc.
  unfold publishBackfilled, bind at 1, stampRow. destruct (stamp _ _ _) as [st c].
  unfold bind at 1 2, puts, gets. set (h1 := _ <| fhSeqNo_ ::= Z.succ |>).
  assert (client 1 [(sym, bt_id t, true)] L1 h1 w) as Hc1.
  { apply numbered_client. by apply (client_same _ _ _ h). }
  assert (backfill_ h1 = backfill_ h) as <- by done. clearbody h1.
  destruct (backfill_row_ok h1 st recv sym t (cl_cfg _ _ _ _ _ Hc1)) as (Hg & Hn & Hk).
  revert Hg Hn Hk. cbv beta zeta. match goal with |- good ?r -> _ => generalize r end.
  intros row Hg Hn Hk. unfold bind at 1.
  destruct (publishRowToTp fuel row h1 w) as [[[u h2] w2]|] eqn:E; [|done].
  destruct (publishRow_client _ _ _ _ _ _ _ _ Hc1 Hg Hn Hk E) as [Hc2 <-].
  unfold bind, world. pose proof (quiet_system w2) as Hq. destruct (system_now w2) as [now w3]. cbn [snd] in Hq.
  intros [= <- <- <-]. split; [|done].
  apply (client_same _ _ _ h2); try done. by apply (client_quiet _ _ _ _ w2).
Qed.

(** ** The backfill *)

(** Along [pump], the ledger grows by the backfill's events. *)
Definition pumped (c : TH * W * list bf_event) : Prop :=
  exists L, client 0 [] L (fst (fst c)) (snd (fst c)) /\ owes [] [] L /\ bf_part L = snd c.

Lemma owes_event missN missA L e :
  owes missN missA L -> (forall g, e <> Added g) -> owes missN missA (L ++ [Backfilled e]).
Proof.
  unfold owes. intros [Hn Ha] He. rewrite live_snoc, noted_snoc, bf_part_snoc, !app_nil_r. split; [done|].
  unfold added. rewrite omap_app. destruct e; [by destruct (He g)|..]; by rewrite app_nil_r.
Qed.

Lemma trade_fetch_quiet mc sym from limit w : t_same w (snd (fetcherOf mc sym from limit w)).
Proof.
  unfold fetcherOf, fetch_page.
  match goal with |- context [get ?c ?target w] => pose proof (get_quiet tpc c target w) as Hq end.
  destruct (get _ _ w) as [r w1]. pose proof (quiet_system w1) as Hq1. destruct (system_now w1) as [now w2].
  cbn [snd] in Hq, Hq1. assert (t_same w w2) by (by eapply t_same_trans).
  repeat case_match; done.
Qed.

Lemma pumpBackfill_inv : ensures (inv 0 []) (pumpBackfill fuel) anything.
Proof.
  unfold pumpBackfill. apply (ensures_bind _ _ _ anything); [apply trade_steady_inv|intros t _].
  intros h w y h' w' (L & Hc & Ho & Hg). unfold pump.
  match goal with |- match pump_loop ?p ?r ?f ?j _ ?now ?b (h, w) with _ => _ end = _ -> _ =>
    set (pub := p); set (rec := r); set (fet := f); set (jit := j);
    destruct (pump_loop pub rec fet jit PUMP_GUARD now b (h, w)) as [[[u b'] [h1 w1]]|] eqn:E; [|done]
  end.
  intros [= <- <- <-]. split; [|done].
  apply (logs_pump pub rec fet jit PUMP_GUARD _ _ _ (bf_part L)) in E as [l' E].
  assert (TradeBackfillProps.good b' (h1, w1, l')) as Hg'.
  { apply (pump_good pub rec fet jit PUMP_GUARD) in E; [exact E|exact Hg]. }
  apply (pump_client pumped) in E as [(L1 & Hc1 & Ho1 & Hl1) _].
  - exists L1. split; [by apply (client_same _ _ _ h1)|]. split; [exact Ho1|]. rewrite Hl1. exact Hg'.
  - intros sym tr recv [[h2 w2] l2] c' (L2 & Hc2 & Ho2 & Hl2). unfold log_publish, pub, as_callback. cbn [fst snd] in *.
    destruct (publishBackfilled fuel sym tr recv h2 w2) as [[[v h3] w3]|] eqn:Ep; [|done]. intros [= <-].
    apply (publishBackfilled_client L2) in Ep as [Hc3 _]; [|done].
    eexists. split; [exact Hc3|]. split; [by apply owes_event|]. by rewrite bf_part_snoc, Hl2.
  - intros g st why [[h2 w2] l2] c' (L2 & Hc2 & Ho2 & Hl2). unfold log_record, rec, as_callback. cbn [fst snd] in *.
    destruct (recordGap g st why h2 w2) as [[[v h3] w3]|] eqn:Ep; [|done]. intros [= <-].
    destruct (recordGap_client _ _ L2 (Backfilled (Recorded g st why)) _ _ _ _ _ _ _ _ Hc2 eq_refl Ep) as [Hc3 _].
    eexists. split; [exact Hc3|]. split; [by apply owes_event|]. by rewrite bf_part_snoc, Hl2.
  - intros sym from limit [[h2 w2] l2] (L2 & Hc2 & Ho2 & Hl2). unfold log_fetch, fet. cbn [fst snd] in *.
    pose proof (trade_fetch_quiet (cfg_ h2) sym from limit w2) as Hq. destruct (fetcherOf _ _ _ _ w2) as [pg w3].
    exists L2. split; [by apply (client_quiet _ _ _ _ w2)|done].
  - intros [[h2 w2] l2] (L2 & Hc2 & Ho2 & Hl2). unfold log_jitter, jit. cbn [fst snd] in *.
    pose proof (quiet_draw w2) as Hq. destruct (draw_jitter w2) as [jv w3].
    exists L2. split; [by apply (client_quiet _ _ _ _ w2)|done].
  - by exists L.
Qed.

(** ** A trade's id *)

Lemma receive_client L h w s i r t :
  0 <= i -> client 0 [] L h w -> onId s i (idTracker_ h) = (r, t) ->
  client 0 [(s, i, false)] (L ++ [Received s i]) (h <| idTracker_ := t |>) w.
Proof.
  intros Hi [? Ht ? ? (rows & Hp & Hr)] E. constructor; rewrite ?records_snoc, ?app_nil_r; try done.
  - rewrite live_snoc, detect_snoc. destruct (detect t0 (live L)) as [gs t1]. cbn [snd] in Ht. subst t1.
    by rewrite E.
  - rewrite live_snoc. by apply Forall_snoc.
  - exists rows. split; [done|]. cbn in Hr |- *. by rewrite origins_snoc, fmap_app, <-Hr, app_nil_r.
Qed.

Lemma owes_received L h w s i r t :
  client 0 [] L h w -> owes [] [] L -> onId s i (idTracker_ h) = (r, t) ->
  owes (gap_of s r) (gap_of s r) (L ++ [Received s i]).
Proof.
  intros [_ Ht _ _ _] [Hn Ha] E. unfold owes. rewrite noted_snoc, bf_part_snoc, live_snoc, detect_snoc.
  destruct (detect t0 (live L)) as [gs t1]. cbn [fst snd] in *. subst t1. rewrite E. cbn [fst].
  rewrite !app_nil_r in *. by rewrite Hn, Ha, app_assoc.
Qed.

Lemma add_client L h w pend gap :
  client 0 pend L h w -> owes [] [gap] L -> gap_ok gap -> good_log (backfill_ h) (bf_part L) ->
  inv 0 pend (h <| backfill_ ::= addGap gap |>) w.
Proof.
  intros [? ? ? ? (rows & Hp & Hr)] [Hn Ha] Hok Hg. exists (L ++ [Backfilled (Added gap)]). split; [|split].
  - constructor; rewrite ?live_snoc, ?records_snoc, ?app_nil_r; try done.
    exists rows. split; [done|]. by rewrite origins_snoc, app_nil_r.
  - unfold owes in *. rewrite live_snoc, noted_snoc, bf_part_snoc, !app_nil_r in *. split; [done|].
    unfold added in *. rewrite omap_app. exact Ha.
  - rewrite bf_part_snoc. by apply add_good.
Qed.

Lemma note_gap_inv L h w gap pend why y h' w' :
  client 0 pend L h w -> owes [gap] [gap] L -> gap_ok gap -> good_log (backfill_ h) (bf_part L) ->
  (recordGap gap Detected why ;;; puts (fun h => h <| backfill_ ::= addGap gap |>)) h w = Some (y, h', w') ->
  inv 0 pend h' w'.
Proof.
  intros Hc [Hn Ha] Hok Hg. unfold bind.
  destruct (recordGap gap Detected why h w) as [[[u h1] w1]|] eqn:E; [|done]. intros [= <- <- <-].
  destruct (recordGap_client _ _ _ (Noted gap why) _ _ _ _ _ _ _ _ Hc eq_refl E) as [Hc1 Eb].
  apply (add_client (L ++ [Noted gap why])); [done| |done|].
  - unfold owes. rewrite live_snoc, noted_snoc, bf_part_snoc, !app_nil_r in *. by split.
  - by rewrite bf_part_snoc, app_nil_r, Eb.
Qed.

Lemma validateTradeId_inv s i :
  0 <= i -> triple (inv 0 []) (validateTradeId s i) (fun _ => inv 0 [(s, i, false)]).
Proof.
  intros Hi. unfold validateTradeId.
  set (found r h w := exists L, client 0 [(s, i, false)] L h w /\ owes (gap_of s r) (gap_of s r) L /\
    good_log (backfill_ h) (bf_part L) /\ Forall gap_ok (gap_of s r)).
  apply (triple_bind _ _ _ found).
  { intros h w r h' w' (L & Hc & Ho & Hg). destruct (onId s i (idTracker_ h)) as [r1 t1] eqn:E.
    intros [= <- <- <-]. exists (L ++ [Received s i]). split; [by apply (receive_client _ _ _ _ _ r1)|].
    split; [by apply (owes_received _ _ _ _ _ _ _ Hc Ho E)|]. split; [by rewrite bf_part_snoc, app_nil_r|].
    assert (nonneg (idTracker_ h)) as Hnn.
    { destruct Hc as [_ Ht Hids _ _]. destruct (detect t0 (live L)) as [gs t] eqn:Ed. cbn [snd] in Ht. subst t.
      exact (detect_nonneg _ _ _ _ Ht0 Hids Ed). }
    eapply Forall_impl; [exact (gap_of_ok _ _ _ _ _ Hnn E)|]. by intros g []. }
  intros r. apply (triple_bind _ _ _ (fun _ => inv 0 [(s, i, false)])).
  - destruct (kind r) eqn:Ek;
      try (assert (gap_of s r = []) as Hnil by (unfold gap_of; by rewrite Ek));
      try (intros h w y h' w' (L & Hc & Ho & Hg & _) [= <- <- <-]; rewrite Hnil in Ho; exists L;
           split; [by apply (client_same _ _ _ h)|done]).
    assert (gap_of s r = [mkTradeGap s (firstMissing r) (lastMissing r) 0 0]) as Eg by (unfold gap_of; by rewrite Ek).
    intros h w y h' w' (L & Hc & Ho & Hg & Hok). rewrite Eg in Ho, Hok. apply Forall_cons in Hok as [Hok _].
    unfold bind at 1 2, puts at 1, gets. set (h1 := _ <| ctrExchMissed_ ::= _ |>).
    apply (note_gap_inv L h1); [by apply (client_same _ _ _ h)|done..].
  - intros _. apply triple_puts. intros h w. by apply trade_inv_same.
Qed.

(** ** A trade from the stream *)

Lemma build_row_ok e st recv parse send send' h :
  cfg_ h = m -> streamed W (mc_schema m) e ->
  let '(row, slot) := build_row e st recv parse send h in
  let row' := patch_long slot send' row in
  good row' /\ row_seq row' = fhSeqNo_ h /\
  row_origin (mc_schema m) row' = Some (te_sym e, te_primaryId e, te_eventTimeMs e =? GAP_NULL_LONG).
Proof.
  intros Hm He. destruct (build_row e st recv parse send h) as [row slot] eqn:Er.
  assert (patch_long slot send' row = fst (build_row e st recv parse send' h)) as ->.
  { revert Er. unfold build_row. rewrite Hm. by destruct (mc_schema m); intros [= <- <-]. }
  split; [left; exists e; split; [done|by exists st, recv, parse, send', h]|].
  unfold build_row. rewrite Hm. by destruct (mc_schema m).
Qed.

Lemma number_inv pend : triple (inv 0 pend) (puts (fun h => h <| fhSeqNo_ ::= Z.succ |>)) (fun _ => inv 1 pend).
Proof.
  apply triple_puts. intros h w (L & Hc & Ho & Hg). exists L. split; [by apply numbered_client|done].
Qed.

(** The row of [e] is built with the number [n] and has not been sent yet. *)
Definition sending (e : TradeEvent) (n : Z) (h : TH) (w : W) : Prop :=
  inv 1 [(te_sym e, te_primaryId e, false)] h w /\ fhSeqNo_ h = n.

Lemma sending_read e n : ensures (sending e n) (world steady_now) anything.
Proof. apply ensures_world. intros h w [Hi Hn]. split; [by apply (trade_inv_quiet _ _ _ w), Hi; apply quiet_steady|done]. Qed.

Lemma sending_puts e n f :
  (forall h, f h = h \/ exists c, f h = h <| connState_ := c |>) -> ensures (sending e n) (puts f) anything.
Proof.
  intros Hf. apply ensures_puts. intros h w [Hi Hn]. destruct (Hf h) as [->|[c ->]]; [done|].
  split; [by apply (trade_inv_same _ _ h)|done].
Qed.

Lemma publish_sending e n row :
  good row -> row_seq row = n -> row_origin (mc_schema m) row = Some (te_sym e, te_primaryId e, false) ->
  triple (sending e n) (publishRowToTp fuel row) (fun _ => inv 0 []).
Proof.
  intros Hrow Hs Hk h w y h' w' [(L & Hc & Ho & Hg) Hn] E. rewrite <-Hn in Hs.
  destruct (publishRow_client _ _ _ _ _ _ _ _ Hc Hrow Hs Hk E) as [Hc' Hb]. exists L. by rewrite Hb.
Qed.

Lemma handle_trade_inv e recv parseStart :
  trade_ok e -> streamed W (mc_schema m) e -> ensures (inv 0 []) (handle_trade fuel e recv parseStart) anything.
Proof.
  intros [Hid Hev] He. unfold handle_trade. ensures_step; [by ensures_step|].
  ensures_step; [ensures_step; by inv_step|].
  apply (triple_bind _ _ _ (fun _ => inv 0 [(te_sym e, te_primaryId e, false)])); [by apply validateTradeId_inv|intros _].
  eapply ensures_triple; [apply trade_steady_inv|intros parseEnd _].
  eapply ensures_triple; [apply stampRow_inv|intros st _].
  apply (triple_bind _ _ _ (fun _ => inv 1 [(te_sym e, te_primaryId e, false)])); [apply number_inv|intros _].
  apply (triple_bind _ _ _ (fun h0 h w => sending e (fhSeqNo_ h0) h w /\ cfg_ h0 = m)).
  { apply triple_gets. intros h w Hi. split; [done|]. by destruct Hi as (L & [] & _). }
  intros h0. apply triple_pure with (phi := cfg_ h0 = m); [by intros ?? []|intros Hm].
  apply triple_pre with (P' := sending e (fhSeqNo_ h0)); [|by intros ?? []].
  pose proof (build_row_ok e st recv (Z.quot (parseEnd - parseStart) 1000) 0) as Hrow.
  destruct (build_row e st recv _ 0 h0) as [row slot] eqn:Er.
  eapply ensures_triple; [apply sending_read|intros sendEnd _].
  specialize (Hrow (Z.quot (sendEnd - parseEnd) 1000) h0 Hm He). rewrite Er in Hrow. destruct Hrow as (Hg & Hs & Hk).
  rewrite (proj2 (Z.eqb_neq _ _) Hev) in Hk.
  eapply ensures_triple; [apply sending_puts; intros h; destruct (connected (tp_ h)); eauto|intros _ _].
  apply (triple_bind _ _ _ (fun _ => inv 0 [])); [by apply publish_sending|intros _].
  change (ensures (inv 0 []) (puts (fun h => h <| connState_ := if connected (tp_ h) then "connected" else "disconnected" |>) ;;;
    now <- world system_now ;;
    puts (fun h => h <| lastPubTime_ := now |> <| msgsPublished_ ::= Z.succ |>) ;;; flushIfPending) anything).
  repeat first [apply flushIfPending_inv | inv_step].
Qed.

Lemma trade_processMessage_inv msg :
  (forall e, parse_trade_message (mc_schema m) msg = Some e -> trade_ok e /\ streamed W (mc_schema m) e) ->
  ensures (inv 0 []) (processMessage fuel msg) anything.
Proof.
  intros Hfeed. unfold processMessage. ensures_step; [by inv_step|]. ensures_step; [by inv_step|].
  ensures_step; [by inv_step|].
  apply ensures_bind with (Q := fun s => s = mc_schema m).
  { apply ensures_gets. intros h w (L & [] & _). congruence. }
  intros s ->. destruct (parse_trade_message _ msg) as [e|] eqn:Ep; [by destruct (Hfeed e eq_refl); apply handle_trade_inv|by inv_step].
Qed.

(** ** The loops *)

(** The health rows go to another table. *)
Hypothesis Htable : mc_tpTable m <> "health_feed_handler"%string.

Lemma trade_publishHealth_inv : ensures (inv 0 []) publishHealth anything.
Proof.
  unfold publishHealth. ensures_step; [apply flushIfPending_inv|]. ensures_step; [by ensures_step|]. ensures_step.
  ensures_step; [apply trade_system_inv|]. ensures_step; [by ensures_step|].
  ensures_step.
  { apply trade_world_inv. intros w. apply quiet_send. intros _ row. unfold ks. cbn. congruence. }
  unfold sendFhStats. match goal with |- ensures _ (match (if ?c then _ else _) with _ => _ end) _ => destruct c end;
    [by ensures_step|].
  ensures_step; [|by ensures_step]. apply trade_world_inv. intros w. by apply quiet_send.
Qed.

(** What the exchange streams. *)
Hypothesis Hfeed : forall w msg e,
  fst (ws_read w) = Some msg -> parse_trade_message (mc_schema m) msg = Some e -> trade_ok e.

Lemma trade_on_message_inv msg last :
  (forall e, parse_trade_message (mc_schema m) msg = Some e -> trade_ok e /\ streamed W (mc_schema m) e) ->
  ensures (inv 0 []) (on_message fuel msg last) anything.
Proof.
  intros Hm. unfold on_message.
  repeat first [by apply trade_processMessage_inv | apply pumpBackfill_inv | apply trade_publishHealth_inv | inv_step].
Qed.

Lemma backfill_turns_good n b l w :
  good_log b l -> let '(b', w') := backfill_turns m n b w in good_log b' l /\ t_same w w'.
Proof.
  revert b w. induction n as [|n IH]; intros b w Hg; cbn [backfill_turns]; [split; [done|apply t_same_refl]|].
  assert (let '(b', w') := backfill_turn m b w in good_log b' l /\ t_same w w') as Hone.
  { unfold backfill_turn. destruct (bf_thread b) as [| |r|] eqn:Et.
    1, 2, 4: split; [destruct (bf_pop b) as [b1|] eqn:Ep; [by apply (pop_good b)|done]|apply t_same_refl].
    pose proof (trade_fetch_quiet m (br_sym r) (br_fromId r) (br_limit r) w) as Hq.
    destruct (fetcherOf _ _ _ _ w) as [page w1]. split; [|exact Hq].
    destruct (bf_fetched page b) as [b1|] eqn:Ep; [by apply (fetched_good page b)|done]. }
  destruct (backfill_turn m b w) as [b1 w1]. destruct Hone as [Hg1 Hs1].
  specialize (IH b1 w1 Hg1). destruct (backfill_turns m n b1 w1) as [b2 w2].
  destruct IH as [? Hs2]. split; [done|]. by eapply t_same_trans.
Qed.

Lemma trade_background_inv : ensures (inv 0 []) background anything.
Proof.
  intros h w y h' w' Hi. unfold background. pose proof (quiet_steps w) as Hq.
  destruct (worker_steps w) as [n w1]. cbn [snd] in Hq. apply (trade_inv_quiet _ _ _ _ _ Hq) in Hi.
  destruct Hi as (L & Hc & Ho & Hg). rewrite (cl_cfg _ _ _ _ _ Hc). pose proof (backfill_turns_good n _ _ w1 Hg) as Ht.
  destruct (backfill_turns m n _ w1) as [b w2]. destruct Ht as [Hg2 Hs2]. intros [= <- <- <-].
  split; [|done]. exists L. split; [|done]. apply (client_quiet _ _ _ _ w1); [done|]. by apply (client_same _ _ _ h).
Qed.

Lemma trade_running_inv : ensures (inv 0 []) (world is_running) anything.
Proof. apply trade_world_inv, law_running. Qed.

Lemma trade_message_loop_inv frames last : ensures (inv 0 []) (message_loop fuel frames last) anything.
Proof.
  revert last. induction frames as [|frames IH]; intros last; cbn [message_loop]; [by intros ? ? ? ? ?|].
  ensures_step; [apply trade_running_inv|]. ensures_step; [by ensures_step|].
  ensures_step; [apply trade_background_inv|].
  apply ensures_bind with (Q := fun o => forall msg e, o = Some msg ->
    parse_trade_message (mc_schema m) msg = Some e -> trade_ok e /\ streamed W (mc_schema m) e).
  { intros h w o h' w' Hi. unfold world. pose proof (quiet_read w) as Hq. pose proof (Hfeed w) as Hf.
    destruct (ws_read w) as [o1 w1] eqn:Er. cbn [fst snd] in *. intros [= <- <- <-].
    split; [by apply (trade_inv_quiet _ _ _ w)|]. intros msg e -> Hp. split; [by apply (Hf msg)|].
    exists w, msg. by rewrite Er. }
  intros [msg|] Hmsg; [|by ensures_step].
  ensures_step; [apply trade_running_inv|]. ensures_step; [by ensures_step|].
  ensures_step; [|apply IH]. apply trade_on_message_inv. intros e. by apply Hmsg.
Qed.

Lemma trade_runWebSocketLoop_inv frames : ensures (inv 0 []) (runWebSocketLoop fuel frames) anything.
Proof.
  unfold runWebSocketLoop.
  repeat first [apply trade_message_loop_inv | apply trade_running_inv | inv_step].
  - intros h w. apply trade_inv_quiet, quiet_connect.
  - intros h w. apply trade_inv_quiet, quiet_ws_close.
Qed.

Lemma trade_run_loop_inv rounds frames : ensures (inv 0 []) (run_loop fuel rounds frames) anything.
Proof.
  induction rounds as [|rounds IH]; cbn [run_loop]; [by intros ? ? ? ? ?|].
  repeat first [apply trade_runWebSocketLoop_inv | apply IH | apply trade_running_inv | inv_step].
  intros h w. apply trade_inv_quiet, sleepWithBackoff_same.
Qed.
End handler.

(** ** A whole run *)

(** What TP's answer changes in a handler. *)
Record resumes (t : TradeIdTracker) (gs : list TradeGap) (h h' : TradeFeedHandler) : Prop := {
  rs_track : idTracker_ h' = t;
  rs_backfill : backfill_ h' = fold_left (fun b g => addGap g b) gs (backfill_ h);
  rs_cfg : cfg_ h' = cfg_ h;
  rs_events : gapEvents_ h' = gapEvents_ h;
  rs_seq : fhSeqNo_ h' = fhSeqNo_ h;
  rs_tp : tp_ h' = tp_ h
}.

Lemma seed_from_resumes st h :
  idTracker_ h = ∅ -> resumes (seeded st) (reopened st) h (seed_from st h).
Proof.
  intros Ht. unfold seed_from, seeded, reopened. destruct (ts_ok st); [|by constructor].
  set (h1 := fold_left _ (ts_lastIds st) h).
  assert (resumes (fold_left (fun t kv => seed (fst kv) (snd kv) t) (ts_lastIds st) ∅) [] h h1) as H1.
  { subst h1. rewrite <-Ht. clear Ht. revert h. induction (ts_lastIds st) as [|kv l IH]; intros h; [by constructor|].
    cbn [fold_left]. destruct (IH (h <| idTracker_ ::= seed (fst kv) (snd kv) |>
      <| seededSyms_ ::= fun s => {[ fst kv ]} ∪ s |>)). by constructor. }
  clearbody h1. generalize dependent h1. induction (ts_openGaps st) as [|g l IH] using rev_ind; intros h1 H1; [done|].
  rewrite fold_left_app, fmap_app. specialize (IH h1 H1). cbn [fold_left]. destruct IH as [E1 E2 E3 E4 E5 E6].
  constructor; try done. rewrite fold_left_app. cbn [fold_left fmap list_fmap].
  cbn [backfill_ modify eta_TradeFeedHandler]. by rewrite E2.
Qed.

Lemma added_snoc l e : added (l ++ [e]) = added l ++ match e with Added g => [g] | _ => [] end.
Proof. unfold added. rewrite omap_app. by destruct e. Qed.

(** The gaps TP reports are the first ones the backfill is given. *)
Lemma reopen_good cfg gs :
  Forall gap_ok gs ->
  good_log (fold_left (fun b g => addGap g b) gs (newBackfill cfg)) (Added <$> gs) /\ added (Added <$> gs) = gs /\
  bf_thread (fold_left (fun b g => addGap g b) gs (newBackfill cfg)) = BfIdle.
Proof.
  induction gs as [|g gs IH] using rev_ind; intros Hok; [split; [apply new_good|done]|].
  apply Forall_snoc in Hok as [Hok Hg]. destruct (IH Hok) as (H1 & H2 & H3).
  rewrite fold_left_app, fmap_app. split; [by apply add_good|]. cbn [fmap list_fmap]. split; [|exact H3].
  by rewrite added_snoc, H2.
Qed.

(** TP's answer when the run begins. *)
Definition answer_at_start {W} `{Process W} `{TpLink W} (cfg : TpPublisherConfig) (fuel : nat) (w0 : W) : TradeState :=
  match connect fuel 1 (newTpPublisher cfg) w0 with
  | Some (true, p, w) => fst (fst (tradeState p w))
  | _ => no_TradeState
  end.

(** The rows a handler has published, and TP's log. *)
Record published_trades (W : Type) {V : Type} `{WebSocket W} `{JsonLib V} (m : MarketConfig) (rows : list K) (h : TradeFeedHandler) (log : list K) : Prop := {
  pt_count : fhSeqNo_ h = Z.of_nat (length rows);
  pt_numbered : forall i row, rows !! i = Some row -> row_seq row = Z.of_nat i + 1;
  pt_good : Forall (good_trade W m) rows;
  pt_types : Forall (fun row => k_types row = trade_schema (mc_schema m)) rows;
  pt_sublist : log `sublist_of` rows;
  pt_prefix : rowsUnresendable_ (tp_ h) = 0 -> log `prefix_of` rows
}.

(** The trades from the stream among published rows. *)
Definition live_trades (s : TradeSchema) (rows : list K) : list (string * Z) :=
  live_origins (omap (row_origin s) rows).

Lemma omap_all {A B} (f : A -> option B) (l : list A) (k : list B) : f <$> l = Some <$> k -> omap f l = k.
Proof.
  revert k. induction l as [|x l IH]; intros [|y k] E; try done. injection E as E1 E2. cbn. rewrite E1. f_equal. auto.
Qed.

(** What is known after a run: the ledger, the rows, and where they stand. *)
Record summary (W : Type) {V : Type} `{WebSocket W} `{JsonLib V} (m : MarketConfig) (st : TradeState) (L : list entry) (rows : list K)
    (h : TradeFeedHandler) (log : list K) : Prop := {
  su_state : state_ok st;
  su_ids : Forall (fun p => 0 <= snd p) (live L);
  su_balanced : balanced (seeded st) (reopened st) L (idTracker_ h) (j_gap <$> queue_ (backfill_ h));
  su_noted : noted L = fst (detect (seeded st) (live L));
  su_events : events_kept (mc_tpTable m) (gapEvents_ h) (records L);
  su_origins : row_origin (mc_schema m) <$> rows = Some <$> origins L;
  su_rows : published_trades W m rows h log
}.

Lemma quiet_events tbl : events_kept tbl (newGapEventQueue "trade_gap") [].
Proof. exists []. split; [constructor|]. split; [by exists []|done]. Qed.

Section run.
Context (m : MarketConfig) (tpHost : string) (tpPort startNs : Z).
Context {W V : Type} `{TpSession W (tradeTpConfigOf m tpHost tpPort startNs) row_seq} `{Host W} `{WebSocket W}
  `{HttpLib W} `{Background W} `{JsonLib V} `{!TpQuiet W (tradeTpConfigOf m tpHost tpPort startNs)}.
Context (fuel : nat).
Hypothesis Htable : mc_tpTable m <> "health_feed_handler"%string.
Hypothesis Hfeed : forall w msg e,
  fst (ws_read w) = Some msg -> parse_trade_message (mc_schema m) msg = Some e -> trade_ok e.
Local Abbreviation tpc := (tradeTpConfigOf m tpHost tpPort startNs).
Local Abbreviation good := (good_trade W m).

Lemma resume_inv h w y h' w' :
  published_rows tpc good (fhSeqNo_ h) [] (tp_ h) w -> cfg_ h = m -> idTracker_ h = ∅ ->
  gapEvents_ h = newGapEventQueue "trade_gap" -> backfill_ h = newBackfill (backfillConfigOf m) ->
  resume h w = Some (y, h', w') ->
  let st := fst (fst (tradeState (tp_ h) w)) in
  state_ok st -> inv m tpHost tpPort startNs (seeded st) (reopened st) 0 [] h' w'.
Proof.
  intros Hp Hc Ht He Hb. unfold resume, bind, puts.
  destruct (tradeState (tp_ h) w) as [[st p] w1] eqn:E.
  apply (tradeState_published _ _ _ _ _ _ _ _ _ Hp) in E. intros [= <- <- <-]. cbn [fst]. intros Hok.
  set (h1 := h <| tp_ := p |>). destruct (seed_from_resumes st h1 Ht) as [E1 E2 E3 E4 E5 E6].
  set (h2 := seed_from st h1) in *. clearbody h2.
  destruct (reopen_good (backfillConfigOf m) (reopened st) (reopened_ok _ Hok)) as (Hg & Ha & Hi).
  change (backfill_ h1) with (backfill_ h) in E2. rewrite Hb in E2. rewrite <-E2 in Hg, Hi.
  exists (Backfilled <$> (Added <$> reopened st)).
  assert (forall gs, live (Backfilled <$> (Added <$> gs)) = [] /\ origins (Backfilled <$> (Added <$> gs)) = [] /\
    records (Backfilled <$> (Added <$> gs)) = [] /\ noted (Backfilled <$> (Added <$> gs)) = [] /\
    bf_part (Backfilled <$> (Added <$> gs)) = Added <$> gs) as Hparts.
  { induction gs as [|g gs (I1 & I2 & I3 & I4 & I5)]; [done|]. repeat split; try done. cbn in I5 |- *. by f_equal. }
  destruct (Hparts (reopened st)) as (I1 & I2 & I3 & I4 & I5). unfold owes. rewrite I4, I5, I1. split; [|split].
  - constructor; rewrite ?I1, ?I2, ?I3; cbn [cfg_ idTracker_ gapEvents_ fhSeqNo_ tp_ modify eta_TradeFeedHandler].
    + by rewrite E3.
    + by rewrite E1.
    + done.
    + rewrite E4. change (gapEvents_ h1) with (gapEvents_ h). rewrite He. apply quiet_events.
    + exists []. rewrite E5, E6, Z.sub_0_r. by split.
  - by rewrite Ha, !app_nil_r.
  - apply start_good; [by left|done].
Qed.

Lemma inv_summary st h w p w' h' :
  inv m tpHost tpPort startNs (seeded st) (reopened st) 0 [] h w -> state_ok st -> t_same w w' ->
  h' = h <| backfill_ ::= bf_stop |> <| tp_ := p |> -> rowsUnresendable_ p = rowsUnresendable_ (tp_ h) ->
  exists L rows, summary W m st L rows h' (t_log w').
Proof.
  intros (L & [Hc Ht Hi He (rows & Hp & Hr)] & [Hn Ha] & Hg) Hok (_ & -> & _) -> Hu. exists L, rows.
  rewrite !app_nil_r in *. destruct (published_log _ _ _ _ _ _ Hp) as (l & _ & _ & Hsub & _ & Hall).
  destruct Hp as [_ _ Hnum Hcnt Hgood].
  constructor; cbn [idTracker_ backfill_ gapEvents_ fhSeqNo_ tp_ modify eta_TradeFeedHandler]; try done.
  - constructor; [done..|]. apply stop_good in Hg as [[Hs _ _] _]. exact Hs.
  - constructor; cbn [fhSeqNo_ tp_ modify eta_TradeFeedHandler]; try done; [lia| | | |].
    + intros i row Hrow. rewrite (proj1 (Hnum i row Hrow)). lia.
    + eapply Forall_impl; [exact Hgood|]. apply good_trade_types.
    + etrans; [exact Hsub|apply sublist_take].
    + intros Hz. rewrite Hall by congruence. apply prefix_take.
Qed.

Lemma run_summary symbols rounds frames w0 h w :
  t_last w0 = None -> t_log w0 = [] -> state_ok (answer_at_start tpc fuel w0) ->
  run fuel rounds frames (newTradeFeedHandler symbols m tpHost tpPort startNs) w0 = Some (tt, h, w) ->
  exists L rows, summary W m (answer_at_start tpc fuel w0) L rows h (t_log w).
Proof.
  intros Hl Hlog. unfold answer_at_start, run, bind at 1. set (h0 := newTradeFeedHandler symbols m tpHost tpPort startNs).
  change (fhSeqNo_ h0 + 1) with 1. change (tp_ h0) with (newTpPublisher tpc).
  destruct (connect fuel 1 (newTpPublisher tpc) w0) as [[[ok p1] w1]|] eqn:Ec; [|done].
  destruct (connect_published tpc good _ _ _ _ _ Hl Hlog Ec) as [Hp Hlog1].
  destruct ok; cbn [negb].
  2: { intros Hok [= <- <-]. exists [], []. rewrite Hlog1.
       constructor; try done. apply quiet_events. }
  specialize (Hp eq_refl). intros Hok. unfold bind at 1.
  destruct (resume (h0 <| tp_ := p1 |>) w1) as [[[u h1] w2]|] eqn:Er; [|done].
  apply resume_inv in Er as Hi; [|done..]. change (tp_ (h0 <| tp_ := p1 |>)) with p1 in Hi.
  revert Hok Hi. generalize (fst (fst (tradeState p1 w1))). intros st Hok Hi. clear Hp Hlog1 Ec. clearbody h0.
  unfold bind at 1. destruct (run_loop fuel rounds frames h1 w2) as [[[[] h2] w3]|] eqn:El; [|done].
  apply (trade_run_loop_inv m tpHost tpPort startNs fuel (seeded st) (reopened st)) in El as [Hi2 _];
    [|by apply seeded_nonneg|done..].
  unfold bind, puts. destruct (close _ w3) as [p3 w4] eqn:Ecl. intros [= <- <-].
  unfold close in Ecl. cbn [tp_ modify eta_TradeFeedHandler] in Ecl.
  destruct (0 <? handle_ (tp_ h2)); injection Ecl as <- <-;
    (eapply inv_summary; [exact Hi2|exact Hok| |reflexivity|reflexivity]); [apply law_close|apply t_same_refl].
Qed.

Lemma summary_live st L rows h log :
  summary W m st L rows h log -> live_trades (mc_schema m) rows = live L.
Proof. intros []. unfold live_trades. rewrite (omap_all _ _ _ su_origins0). apply live_origins_spec. Qed.

Lemma summary_key st L rows h log sym x :
  summary W m st L rows h log -> (sym, x) ∈ keys L -> exists row b, row ∈ rows /\ row_origin (mc_schema m) row = Some (sym, x, b).
Proof.
  intros [] Hk. unfold keys in Hk. apply list_elem_of_fmap in Hk as ([k b] & -> & Ho).
  apply (list_elem_of_fmap_2 Some) in Ho. rewrite <-su_origins0 in Ho.
  apply list_elem_of_fmap in Ho as (row & Hrow & Hin). exists row, b. split; [done|]. rewrite <-Hrow. by destruct k.
Qed.

(** What became of an id, for an id a run has to account for. *)
Lemma summary_accounted st L rows h log sym x :
  summary W m st L rows h log ->
  (exists lo last, first_known (seeded st) (live_trades (mc_schema m) rows) sym = Some lo /\
     idTracker_ h !! sym = Some last /\ lo < x <= last) \/
  (exists g, g ∈ reopened st /\ in_gap sym x g) ->
  (exists row backfilled, row ∈ rows /\ row_origin (mc_schema m) row = Some (sym, x, backfilled)) \/
  (exists j, j ∈ queue_ (backfill_ h) /\ in_gap sym x (j_gap j)) \/
  (exists g why, (g, Unrecoverable, why) ∈ records L /\ in_gap sym x g).
Proof.
  intros Hsum Hx. pose proof Hsum as []. rewrite (summary_live _ _ _ _ _ Hsum) in Hx.
  destruct (ids_accounted _ _ _ _ _ sym x (seeded_nonneg _ su_state0) (reopened_ok _ su_state0)
    su_ids0 su_balanced0 Hx) as [Hk|[(g & Hg & Hin)|(g & why & Hg & Hin)]].
  - left. by apply (summary_key _ _ _ _ _ _ _ Hsum).
  - right. left. apply list_elem_of_fmap in Hg as (j & -> & Hj). eauto.
  - right. right. exists g, why. split; [|done]. unfold records. apply list_elem_of_omap.
    unfold bf_part in Hg. apply list_elem_of_omap in Hg as (e & He & E). exists e. split; [done|].
    destruct e; simplify_eq/=. done.
Qed.


(** C4: no trade is lost silently. After any run, take any id of a symbol
    between the first one known (what TP had logged, or the first trade
    received) and the last one seen, or in a gap TP still had open: its trade is
    among the published rows, or it is in a gap the backfill still works on, or
    in one given up in a gap event; and every gap event was answered by TP, and
    counted, or still waits to be sent. *)
Theorem every_trade_id_accounted symbols rounds frames w0 h w :
  t_last w0 = None -> t_log w0 = [] -> state_ok (answer_at_start tpc fuel w0) ->
  run fuel rounds frames (newTradeFeedHandler symbols m tpHost tpPort startNs) w0 = Some (tt, h, w) ->
  let st := answer_at_start tpc fuel w0 in
  exists rows events,
    published_trades W m rows h (t_log w) /\
    events_kept (mc_tpTable m) (gapEvents_ h) events /\
    forall sym x,
      (exists lo last, first_known (seeded st) (live_trades (mc_schema m) rows) sym = Some lo /\
         idTracker_ h !! sym = Some last /\ lo < x <= last) \/
      (exists g, g ∈ reopened st /\ in_gap sym x g) ->
      (exists row backfilled, row ∈ rows /\ row_origin (mc_schema m) row = Some (sym, x, backfilled)) \/
      (exists j, j ∈ queue_ (backfill_ h) /\ in_gap sym x (j_gap j)) \/
      (exists g why, (g, Unrecoverable, why) ∈ events /\ in_gap sym x g).
Proof.
  intros Hl Hlog Hst Hrun st. destruct (run_summary _ _ _ _ _ _ Hl Hlog Hst Hrun) as (L & rows & Hsum).
  exists rows, (records L). pose proof Hsum as []. split; [done|]. split; [done|]. intros sym x.
  by apply (summary_accounted _ _ _ _ _ _ _ Hsum).
Qed.

(** C14: gaps are found exactly. The gap events recorded as detected are, in
    order, the gaps the stream's ids leave after the last ids TP had logged, one
    each; all gap events, verdicts included, were answered by TP, and counted, or
    still wait to be sent, in order. *)
Theorem detected_gaps_are_recorded symbols rounds frames w0 h w :
  t_last w0 = None -> t_log w0 = [] -> state_ok (answer_at_start tpc fuel w0) ->
  run fuel rounds frames (newTradeFeedHandler symbols m tpHost tpPort startNs) w0 = Some (tt, h, w) ->
  exists rows events,
    published_trades W m rows h (t_log w) /\
    events_kept (mc_tpTable m) (gapEvents_ h) events /\
    detections events = fst (detect (seeded (answer_at_start tpc fuel w0)) (live_trades (mc_schema m) rows)).
Proof.
  intros Hl Hlog Hst Hrun. destruct (run_summary _ _ _ _ _ _ Hl Hlog Hst Hrun) as (L & rows & Hsum).
  exists rows, (records L). rewrite (summary_live _ _ _ _ _ Hsum). destruct Hsum.
  split; [done|]. split; [done|]. rewrite <-su_noted0. by eapply detections_records, bal_spec.
Qed.
End run.

(** ** One id, branch by branch *)

Definition id_counters (h : TradeFeedHandler) : Z * Z * Z * Z :=
  (ctrExchGaps_ h, ctrExchMissed_ h, ctrExchOutOfOrder_ h, ctrExchDuplicates_ h).

(** C17: every trade id is judged against the last one of its symbol: the first
    one and the next one pass; an equal one counts as a duplicate, a smaller one
    as out of order, and neither moves the tracker back; a jump counts one gap
    and the ids in between as missed, queues the gap for the backfill, and sends
    a detected event whose reason is "handlerRestart" exactly if the symbol's
    last id came from TP and this is its first trade since. *)
Theorem trade_ids_are_judged {W} `{Process W} `{TpLink W} `{Host W} sym id h (w : W) :
  exists h' w', validateTradeId sym id h w = Some (tt, h', w') /\
    seededSyms_ h' = seededSyms_ h ∖ {[ sym ]} /\ fhSeqNo_ h' = fhSeqNo_ h /\
    let '(gaps, missed, outOfOrder, duplicates) := id_counters h in
    match idTracker_ h !! sym with
    | None =>
        idTracker_ h' = <[sym := id]> (idTracker_ h) /\ id_counters h' = id_counters h /\
        backfill_ h' = backfill_ h /\ gapEvents_ h' = gapEvents_ h /\ w' = w
    | Some prev =>
        if prev + 1 <? id then
          let gap := mkTradeGap sym (prev + 1) (id - 1) 0 0 in
          let reason := if bool_decide (sym ∈ seededSyms_ h) then "handlerRestart"%string else ""%string in
          idTracker_ h' = <[sym := id]> (idTracker_ h) /\
          id_counters h' = (gaps + 1, id - prev - 1 + missed, outOfOrder, duplicates) /\
          backfill_ h' = addGap gap (backfill_ h) /\
          let '(now, w1) := system_now w in
          exists sent, flush (gap_push (buildGapRow now gap (mc_tpTable (cfg_ h)) Detected reason) (gapEvents_ h))
            (tp_ h) w1 = (sent, gapEvents_ h', tp_ h', w')
        else
          backfill_ h' = backfill_ h /\ gapEvents_ h' = gapEvents_ h /\ w' = w /\
          if id =? prev + 1 then
            idTracker_ h' = <[sym := id]> (idTracker_ h) /\ id_counters h' = id_counters h
          else
            idTracker_ h' = idTracker_ h /\
            id_counters h' = if id =? prev then (gaps, missed, outOfOrder, duplicates + 1)
                             else (gaps, missed, outOfOrder + 1, duplicates)
    end.
Proof.
  unfold validateTradeId, bind at 1, onId, id_counters. destruct (idTracker_ h !! sym) as [prev|].
  2: { eexists _, _. split; [reflexivity|]. done. }
  destruct (Z.eqb_spec id (prev + 1)) as [->|Hn].
  { replace (prev + 1 <? prev + 1) with false by lia. replace (prev <? prev + 1) with true by lia.
    eexists _, _. split; [reflexivity|]. done. }
  destruct (Z.eqb_spec id prev) as [->|Hne].
  { replace (prev + 1 <? prev) with false by lia. rewrite Z.ltb_irrefl. eexists _, _. split; [reflexivity|]. done. }
  destruct (Z.ltb_spec id prev).
  { replace (prev + 1 <? id) with false by lia. replace (prev <? id) with false by lia.
    eexists _, _. split; [reflexivity|]. done. }
  replace (prev + 1 <? id) with true by lia. replace (prev <? id) with true by lia.
  cbn [kind firstMissing lastMissing]. unfold recordGap, bind, puts, gets, world, flushGapEvents.
  cbn [seededSyms_ cfg_ gapEvents_ tp_ modify eta_TradeFeedHandler].
  destruct (system_now w) as [now w1]. destruct (flush _ _ w1) as [[[b q] p] w2] eqn:E.
  eexists _, _. split; [reflexivity|]. split; [done|]. split; [done|]. split; [done|]. split; [|split; [done|by exists b]].
  cbn. unfold missing. cbn. repeat f_equal; lia.
Qed.
