(* ===== verification/TpMemory.v ===== *)
(** * What TP remembers of a trade table (kdb/tick/tp.q)

    A trade handler that starts asks TP what it has logged: the last id of each
    symbol and the gaps that are still open ([.tp.tradeState]). TP keeps both in
    memory as rows and gap events pass. This file has those q functions, for one
    trade table, and what is left in memory after any sequence of rows and events.
    q's null long is its smallest value, so [|] (the larger one) ignores it. *)

From S2P Require Import Prelude Double KObject TpPublisher TradeGap TradeBackfill TradeBackfillProps TradeLedger.
From S2P Require Import TradeHandlerProps.
From S2P Require Import MarketConfig.

Open Scope Z_scope.
Local Open Scope rec_scope.

(** A line of [.tp.gaps]; its key is the symbol and the first missing id. *)
Record GapLine := mkGapLine {
  gl_lastMissingId : Z; gl_status : string; gl_recovered : Z; gl_recoveredThroughId : Z; gl_reason : string; gl_time : Z
}.
#[export] Instance eta_GapLine : Eta GapLine := fun e =>
  mkGapLine (gl_lastMissingId e) (gl_status e) (gl_recovered e) (gl_recoveredThroughId e) (gl_reason e) (gl_time e).

(** [.tp.lastId tbl], and the lines of [.tp.gaps] with [srcTable = tbl]. *)
Record TradeMemory := mkMemory { tm_lastId : gmap string Z; tm_gaps : gmap (string * Z) GapLine }.
#[export] Instance eta_TradeMemory : Eta TradeMemory := fun m => mkMemory (tm_lastId m) (tm_gaps m).

(** A backfilled row advances the gaps its id lies in. *)
Definition in_line (s : string) (id : Z) (k : string * Z) (e : GapLine) : bool :=
  bool_decide (fst k = s) && (snd k <=? id) && (id <=? gl_lastMissingId e).
Definition advance_line (id : Z) (k : string * Z) (e : GapLine) : GapLine :=
  let through := Z.max id (gl_recoveredThroughId e) in
  e <| gl_recoveredThroughId := through |> <| gl_recovered := 1 + through - snd k |>.
Definition noteBackfill (s : string) (id : Z) (m : TradeMemory) : TradeMemory :=
  m <| tm_gaps ::= map_imap (fun k e => Some (if in_line s id k e then advance_line id k e else e)) |>.

(** A row's symbol, id and null event time are read as [row_origin] does. *)
Definition noteTradeId (schema : TradeSchema) (row : K) (m : TradeMemory) : TradeMemory :=
  match row_origin schema row with
  | Some (s, id, backfilled) =>
      let m := m <| tm_lastId ::= <[s := Z.max id (default null_long (tm_lastId m !! s))]> |> in
      if backfilled then noteBackfill s id m else m
  | None => m
  end.

Definition noteGap (tbl : string) (row : K) (m : TradeMemory) : TradeMemory :=
  match row with
  | KList [KTimestamp time; KSym sym; KSym src; KLong first; KLong last; _; KSym status; KLong recovered;
           KLong through; KSym reason] =>
      if bool_decide (src = tbl)
      then m <| tm_gaps ::= <[(sym, first) := mkGapLine last status recovered through reason time]> |>
      else m
  | _ => m
  end.

Definition openGapStatuses : list string := ["detected"; "partial"]%string.
Definition is_open (e : GapLine) : bool := bool_decide (gl_status e ∈ openGapStatuses).

(** [.tp.tradeState]: seven lists; the order of the lines is of no account. *)
Definition open_lines (m : TradeMemory) : list (string * Z * GapLine) :=
  filter (fun ke => is_open (snd ke) = true) (map_to_list (tm_gaps m)).
Definition tradeState_reply (m : TradeMemory) : K :=
  let ids := map_to_list (tm_lastId m) in
  let g := open_lines m in
  KList [KSymList (fst <$> ids); KLongList (snd <$> ids);
         KSymList ((fun ke => fst (fst ke)) <$> g); KLongList ((fun ke => snd (fst ke)) <$> g);
         KLongList ((fun ke => gl_lastMissingId (snd ke)) <$> g); KLongList ((fun ke => gl_recovered (snd ke)) <$> g);
         KLongList ((fun ke => gl_recoveredThroughId (snd ke)) <$> g)].

(** What reaches TP, in the order it is logged: [upd] and [.tp.event]. *)
Inductive note := RowNote (row : K) | GapNote (row : K).
Section table.
Context (tbl : string) (schema : TradeSchema).
Definition take_note (m : TradeMemory) (n : note) : TradeMemory :=
  match n with RowNote row => noteTradeId schema row m | GapNote row => noteGap tbl row m end.
Definition remember (m : TradeMemory) (ns : list note) : TradeMemory := fold_left take_note ns m.

Definition rows_in (ns : list note) : list K := omap (fun n => match n with RowNote r => Some r | _ => None end) ns.
Definition events_in (ns : list note) : list K := omap (fun n => match n with GapNote r => Some r | _ => None end) ns.

(** ** The last ids *)

Lemma remember_snoc m ns n : remember m (ns ++ [n]) = take_note (remember m ns) n.
Proof. unfold remember. by rewrite fold_left_app. Qed.

Lemma noteGap_ids row m : tm_lastId (noteGap tbl row m) = tm_lastId m.
Proof. unfold noteGap. by repeat case_match. Qed.

Lemma noteTradeId_ids row m :
  tm_lastId (noteTradeId schema row m) =
    match row_origin schema row with
    | Some (s, id, _) => <[s := Z.max id (default null_long (tm_lastId m !! s))]> (tm_lastId m)
    | None => tm_lastId m
    end.
Proof. unfold noteTradeId. destruct (row_origin schema row) as [[[s id] []]|]; done. Qed.

(** A last id is one that was known, or that of a row, and no smaller than any. *)
Definition is_top (t t0 : gmap string Z) (os : list (string * Z * bool)) : Prop :=
  forall s,
    (forall v, t !! s = Some v -> t0 !! s = Some v \/ exists b, (s, v, b) ∈ os) /\
    (forall v, t0 !! s = Some v -> exists w, t !! s = Some w /\ v <= w) /\
    (forall v b, (s, v, b) ∈ os -> exists w, t !! s = Some w /\ v <= w).

Lemma rows_in_snoc ns n : rows_in (ns ++ [n]) = rows_in ns ++ match n with RowNote r => [r] | _ => [] end.
Proof. unfold rows_in. rewrite omap_app. by destruct n. Qed.
Lemma events_in_snoc ns n : events_in (ns ++ [n]) = events_in ns ++ match n with GapNote r => [r] | _ => [] end.
Proof. unfold events_in. rewrite omap_app. by destruct n. Qed.

Lemma is_top_snoc t t0 os s id b :
  null_long <= id -> is_top t t0 os ->
  is_top (<[s := Z.max id (default null_long (t !! s))]> t) t0 (os ++ [(s, id, b)]).
Proof.
  intros Hid IH s'. destruct (IH s') as (I1 & I2 & I3). setoid_rewrite elem_of_app. setoid_rewrite list_elem_of_singleton.
  destruct (decide (s' = s)) as [->|Hne].
  - rewrite lookup_insert_eq. split; [|split].
    + intros v [= Hv]. destruct (t !! s) as [p|] eqn:Et; cbn in Hv.
      * destruct (Z.max_spec id p) as [[_ E]|[_ E]]; [|right; exists b; right; congruence].
        destruct (I1 p eq_refl) as [?|[b' ?]]; [left; congruence|right; exists b'; left; congruence].
      * right. exists b. right. f_equal. f_equal. lia.
    + intros v Hv. destruct (I2 v Hv) as (w & Hw & Hle). rewrite Hw. eexists. split; [done|]. cbn. lia.
    + intros v b' [H|[= -> ->]]; [|eexists; split; [done|]; lia].
      destruct (I3 v b' H) as (w & Hw & Hle). rewrite Hw. eexists. split; [done|]. cbn. lia.
  - rewrite lookup_insert_ne by done. split; [|split; [exact I2|]].
    + intros v Hv. destruct (I1 v Hv) as [?|[b' ?]]; eauto.
    + intros v b' [H|[= E]]; [by eapply I3|congruence].
Qed.

Lemma remember_top m ns :
  (forall row s i b, row ∈ rows_in ns -> row_origin schema row = Some (s, i, b) -> null_long <= i) ->
  is_top (tm_lastId (remember m ns)) (tm_lastId m) (omap (row_origin schema) (rows_in ns)).
Proof.
  induction ns as [|n ns IH] using rev_ind; intros Hids.
  { intros s. split; [by left|]. split; [eauto with lia|]. intros v b H. by apply elem_of_nil in H. }
  rewrite remember_snoc. rewrite rows_in_snoc in Hids |- *. setoid_rewrite elem_of_app in Hids.
  specialize (IH (fun row s i b Hr => Hids row s i b (or_introl Hr))). rewrite omap_app.
  destruct n as [row|row]; cbn [take_note omap list_omap]; [|by rewrite noteGap_ids, app_nil_r].
  rewrite noteTradeId_ids. destruct (row_origin schema row) as [[[s id] b]|] eqn:Eo; [|by rewrite app_nil_r].
  apply is_top_snoc; [|done]. apply (Hids row s id b); [right; by left|done].
Qed.

(** Two such maps are the same. *)
Lemma is_top_unique t t' t0 os : is_top t t0 os -> is_top t' t0 os -> t = t'.
Proof.
  assert (forall t1 t2 s v, is_top t1 t0 os -> is_top t2 t0 os -> t1 !! s = Some v -> exists w, t2 !! s = Some w /\ v <= w) as Hle.
  { intros t1 t2 s v H1 H2 Hv. destruct (H1 s) as (I1 & _), (H2 s) as (_ & I2 & I3).
    destruct (I1 v Hv) as [?|[b ?]]; eauto. }
  intros H1 H2. apply map_eq. intros s. destruct (t !! s) as [v|] eqn:E.
  - destruct (Hle t t' s v H1 H2 E) as (w & Ew & H3). destruct (Hle t' t s w H2 H1 Ew) as (v' & Ev & H4).
    rewrite Ew. f_equal. assert (v = v') by congruence. lia.
  - destruct (t' !! s) as [w|] eqn:Ew; [|done]. destruct (Hle t' t s w H2 H1 Ew) as (v' & Ev & _). congruence.
Qed.

(** ** The gaps *)

(** A gap event's row, as TP stores it. *)
Definition line_of (g : TradeGap) (st : GapStatus) (why : string) (time : Z) : GapLine :=
  mkGapLine (g_lastId g) (gapStatusName st) (g_recovered g)
    (if 0 <? g_recoveredThroughId g then g_recoveredThroughId g else null_long) why time.

Lemma noteGap_row now g st why m :
  noteGap tbl (buildGapRow now g tbl st why) m =
    m <| tm_gaps ::= <[(g_sym g, g_firstId g) := line_of g st why (now - GAP_KDB_EPOCH_OFFSET_NS)]> |>.
Proof. unfold noteGap, buildGapRow, knk, ktp, ks, kj, line_of. by rewrite bool_decide_true. Qed.

(** What holds of a line at the start, of the events about it, and is kept when
    it advances, holds of it in the end. *)
Lemma remember_line (P : GapLine -> Prop) m ns s f rs :
  Forall2 (is_gap_row tbl) (events_in ns) rs ->
  (forall e, tm_gaps m !! (s, f) = Some e -> P e) ->
  (forall g st why time, (g, st, why) ∈ rs -> g_sym g = s -> g_firstId g = f -> P (line_of g st why time)) ->
  (forall row i e, row ∈ rows_in ns -> row_origin schema row = Some (s, i, true) -> P e ->
     f <= i <= gl_lastMissingId e -> P (advance_line i (s, f) e)) ->
  forall e, tm_gaps (remember m ns) !! (s, f) = Some e -> P e.
Proof.
  revert rs. induction ns as [|n ns IH] using rev_ind; intros rs Hrs Hm Hg Hr e He; [by apply Hm|].
  rewrite remember_snoc in He. rewrite rows_in_snoc in Hr. rewrite events_in_snoc in Hrs.
  setoid_rewrite elem_of_app in Hr.
  destruct n as [row|row]; cbn [take_note] in He.
  - rewrite app_nil_r in Hrs. assert (forall e, tm_gaps (remember m ns) !! (s, f) = Some e -> P e) as IH'
      by (eapply IH; [exact Hrs|done|done|]; intros row' i e' ?; apply (Hr row'); by left).
    unfold noteTradeId in He. destruct (row_origin schema row) as [[[s' i] []]|] eqn:Eo; [|by apply IH'..].
    unfold noteBackfill in He. cbn [tm_gaps modify eta_TradeMemory] in He. rewrite map_lookup_imap in He.
    destruct (tm_gaps (remember m ns) !! (s, f)) as [e0|] eqn:E0; cbn in He; [|done]. apply (inj Some) in He as <-.
    destruct (in_line s' i (s, f) e0) eqn:Ein; [|by apply IH'].
    unfold in_line in Ein. apply andb_true_iff in Ein as [[Es Hlo]%andb_true_iff Hhi].
    apply bool_decide_eq_true in Es. cbn in Es, Hlo. subst s'. apply (Hr row); [right; by left|done|by apply IH'|lia].
  - apply Forall2_app_inv_l in Hrs as (rs1 & rs2 & H1 & H2 & ->). setoid_rewrite elem_of_app in Hg.
    apply Forall2_cons_inv_l in H2 as (r & rs3 & (now & ->) & H3 & ->). apply Forall2_nil_inv_l in H3 as ->.
    destruct r as [[g st] why]. cbn [fst snd] in He. rewrite noteGap_row in He. cbn [tm_gaps modify eta_TradeMemory] in He.
    apply lookup_insert_Some in He as [[[= E1 E2] <-]|[_ He]].
    + apply Hg; [right; by left|done|done].
    + eapply (IH rs1); [exact H1|done| |intros row' i e' ?; apply (Hr row'); by left|exact He].
      intros g' st' why' time ?. apply Hg. by left.
Qed.

(** Lines do not vanish, and an event makes one. *)
Lemma remember_is_line m ns s f rs :
  Forall2 (is_gap_row tbl) (events_in ns) rs ->
  is_Some (tm_gaps m !! (s, f)) \/ (exists g st why, (g, st, why) ∈ rs /\ g_sym g = s /\ g_firstId g = f) ->
  is_Some (tm_gaps (remember m ns) !! (s, f)).
Proof.
  revert rs. induction ns as [|n ns IH] using rev_ind; intros rs Hrs Hs.
  { apply Forall2_nil_inv_l in Hrs as ->. destruct Hs as [?|(g & st & why & H & _)]; [done|by apply elem_of_nil in H]. }
  rewrite remember_snoc. rewrite events_in_snoc in Hrs. destruct n as [row|row]; cbn [take_note].
  - rewrite app_nil_r in Hrs. destruct (IH rs Hrs Hs) as [e He].
    unfold noteTradeId. destruct (row_origin schema row) as [[[s' i] []]|]; [|by exists e..].
    unfold noteBackfill. cbn [tm_gaps modify eta_TradeMemory]. rewrite map_lookup_imap, He. by eexists.
  - apply Forall2_app_inv_l in Hrs as (rs1 & rs2 & H1 & H2 & ->).
    apply Forall2_cons_inv_l in H2 as (r & rs3 & (now & ->) & H3 & ->). apply Forall2_nil_inv_l in H3 as ->.
    destruct r as [[g st] why]. cbn [fst snd]. rewrite noteGap_row. cbn [tm_gaps modify eta_TradeMemory].
    destruct (decide ((g_sym g, g_firstId g) = (s, f))) as [->|Hne]; [rewrite lookup_insert_eq; by eexists|].
    rewrite lookup_insert_ne by done. apply (IH rs1 H1). destruct Hs as [?|(g' & st' & why' & Hin & <- & <-)]; [by left|].
    apply elem_of_app in Hin as [Hin|Hin%list_elem_of_singleton]; [right; by exists g', st', why'|congruence].
Qed.
End table.

(** ** The answer *)

(** An open line as the handler reads it. *)
Definition gap_at (ke : string * Z * GapLine) : TradeGap :=
  mkTradeGap (fst (fst ke)) (snd (fst ke)) (gl_lastMissingId (snd ke)) (gl_recovered (snd ke))
    (if gl_recoveredThroughId (snd ke) =? null_long then 0 else gl_recoveredThroughId (snd ke)).

Lemma seed_all (l : list (string * Z)) t :
  NoDup l.*1 -> fold_left (fun t kv => seed (fst kv) (snd kv) t) l t = list_to_map l ∪ t.
Proof.
  revert t. induction l as [|[s i] l IH]; intros t; cbn [fold_left]; [by rewrite list_to_map_nil, (left_id_L ∅ (∪))|].
  intros [Hs Hl]%NoDup_cons. rewrite IH by done. unfold seed. cbn [fst snd list_to_map fold_right].
  rewrite <-insert_union_r by (by apply not_elem_of_list_to_map). by rewrite <-insert_union_l.
Qed.

Lemma reply_seeded m : seeded (parseTradeState (tradeState_reply m)) = tm_lastId m.
Proof.
  unfold seeded, parseTradeState, tradeState_reply. cbn [ts_ok ts_lastIds]. rewrite !length_fmap, Nat.eqb_refl, zip_fst_snd.
  rewrite seed_all by apply NoDup_fst_map_to_list. by rewrite list_to_map_to_list, (right_id_L ∅ (∪)).
Qed.

Lemma reply_reopened m : reopened (parseTradeState (tradeState_reply m)) = gap_at <$> open_lines m.
Proof.
  unfold reopened, parseTradeState, tradeState_reply. cbn [ts_ok ts_openGaps].
  generalize (open_lines m) as l. intros l. apply list_eq. intros i.
  rewrite !list_lookup_fmap, list_lookup_imap, !list_lookup_fmap. by destruct (l !! i) as [[[s f] e]|].
Qed.

(** A memory in order: known ids are not negative; a symbol's gaps are apart, end
    below its last id, and are recovered from their first id on, if at all. *)
Record memory_ok (m : TradeMemory) : Prop := {
  mo_ids : nonneg (tm_lastId m);
  mo_line : forall s f e, tm_gaps m !! (s, f) = Some e ->
    1 <= f <= gl_lastMissingId e /\ (gl_recoveredThroughId e = null_long \/ f <= gl_recoveredThroughId e + 1) /\
    exists p, tm_lastId m !! s = Some p /\ gl_lastMissingId e <= p;
  mo_apart : forall s f e f' e', tm_gaps m !! (s, f) = Some e -> tm_gaps m !! (s, f') = Some e' ->
    f < f' -> gl_lastMissingId e < f'
}.

Lemma open_lines_elem m k e :
  (k, e) ∈ open_lines m <-> tm_gaps m !! k = Some e /\ is_open e = true.
Proof. unfold open_lines. rewrite list_elem_of_filter, elem_of_map_to_list. cbn. tauto. Qed.

(** ** Reading notes again

    TP rebuilds its memory by reading today's log into what the session file has,
    which knows a part of that log already. Reading notes twice is reading them once,
    and of closed gaps nothing is ever told. *)

(** Steps that overwrite, or commute with each other and are idempotent, do nothing
    the second time. *)
Section twice.
Context {N A : Type} (f : A -> N -> A) (soft : N -> Prop).
Context (kinds : forall n, (forall x y, f x n = f y n) \/ soft n).
Context (comm : forall n n' x, soft n -> soft n' -> f (f x n) n' = f (f x n') n).
Context (idem : forall n x, soft n -> f (f x n) n = f x n).

Lemma fold_const_or_comm ns n :
  soft n ->
  (forall x y, fold_left f ns x = fold_left f ns y) \/ (forall x, fold_left f ns (f x n) = f (fold_left f ns x) n).
Proof.
  intros Hn. induction ns as [|n' ns IH] using rev_ind; [by right|]. setoid_rewrite fold_left_app. cbn.
  destruct (kinds n') as [Hk|Hs]; [left; auto|].
  destruct IH as [IH|IH]; [left; intros x y; by rewrite (IH x y)|right]. intros x. by rewrite IH, comm.
Qed.

Lemma fold_twice ns x : fold_left f ns (fold_left f ns x) = fold_left f ns x.
Proof.
  revert x. induction ns as [|n ns IH] using rev_ind; intros x; [done|]. rewrite !fold_left_app. cbn.
  destruct (kinds n) as [Hk|Hs]; [apply Hk|].
  destruct (fold_const_or_comm ns n Hs) as [Hc|Hc]; [by rewrite (Hc _ x)|]. by rewrite Hc, IH, idem.
Qed.
End twice.

Section reread.
Context (tbl : string) (schema : TradeSchema).

(** What a note does to one symbol's last id and to one line. *)
Definition id_note (s : string) (x : option Z) (n : note) : option Z :=
  match n with
  | RowNote row =>
      match row_origin schema row with
      | Some (s', id, _) => if bool_decide (s' = s) then Some (Z.max id (default null_long x)) else x
      | None => x
      end
  | GapNote _ => x
  end.
Definition gap_line (row : K) : option (string * Z * GapLine) :=
  match map_to_list (tm_gaps (noteGap tbl row (mkMemory ∅ ∅))) with ke :: _ => Some ke | [] => None end.
Definition line_note (k : string * Z) (x : option GapLine) (n : note) : option GapLine :=
  match n with
  | RowNote row =>
      match row_origin schema row with
      | Some (s, id, true) => (fun e => if in_line s id k e then advance_line id k e else e) <$> x
      | _ => x
      end
  | GapNote row =>
      match gap_line row with Some (k', e) => if bool_decide (k' = k) then Some e else x | None => x end
  end.

Lemma noteGap_line row m :
  noteGap tbl row m = match gap_line row with Some (k, e) => m <| tm_gaps ::= <[k := e]> |> | None => m end.
Proof.
  unfold gap_line, noteGap. repeat case_match; try done; cbn in *;
    repeat (rewrite insert_empty, map_to_list_singleton in *); simplify_eq; done.
Qed.

Lemma take_note_id n m s : tm_lastId (take_note tbl schema m n) !! s = id_note s (tm_lastId m !! s) n.
Proof.
  destruct n as [row|row]; cbn [take_note id_note]; [|by rewrite noteGap_ids].
  rewrite noteTradeId_ids. destruct (row_origin schema row) as [[[s' id] b]|]; [|done].
  case_bool_decide as Hs; [subst; by rewrite lookup_insert_eq|by rewrite lookup_insert_ne].
Qed.

Lemma take_note_line n m k : tm_gaps (take_note tbl schema m n) !! k = line_note k (tm_gaps m !! k) n.
Proof.
  destruct n as [row|row]; cbn [take_note line_note].
  - unfold noteTradeId. destruct (row_origin schema row) as [[[s id] []]|]; [|done..].
    unfold noteBackfill. cbn [tm_gaps modify eta_TradeMemory]. rewrite map_lookup_imap. by destruct (tm_gaps m !! k).
  - rewrite noteGap_line. destruct (gap_line row) as [[k' e]|]; [|done]. cbn [tm_gaps modify eta_TradeMemory].
    case_bool_decide as Hk; [subst; by rewrite lookup_insert_eq|by rewrite lookup_insert_ne].
Qed.

Lemma remember_id ns m s : tm_lastId (remember tbl schema m ns) !! s = fold_left (id_note s) ns (tm_lastId m !! s).
Proof. revert m. induction ns as [|n ns IH]; intros m; [done|]. cbn. unfold remember in IH. by rewrite IH, take_note_id. Qed.
Lemma remember_line_at ns m k : tm_gaps (remember tbl schema m ns) !! k = fold_left (line_note k) ns (tm_gaps m !! k).
Proof. revert m. induction ns as [|n ns IH]; intros m; [done|]. cbn. unfold remember in IH. by rewrite IH, take_note_line. Qed.

(** A note that does not overwrite the line advances it, or not. *)
Definition soft_line (k : string * Z) (n : note) : Prop :=
  exists (P : GapLine -> bool) id, (forall id' e, P (advance_line id' k e) = P e) /\
    forall x, line_note k x n = (fun e => if P e then advance_line id k e else e) <$> x.

Lemma line_note_kinds k n : (forall x y, line_note k x n = line_note k y n) \/ soft_line k n.
Proof.
  assert (forall g : option GapLine -> option GapLine, (forall x, g x = x) ->
    exists (P : GapLine -> bool) id, (forall id' e, P (advance_line id' k e) = P e) /\
      forall x, g x = (fun e => if P e then advance_line id k e else e) <$> x) as Hid.
  { intros g Hg. exists (fun _ => false), 0. split; [done|]. intros x. rewrite Hg. by destruct x. }
  destruct n as [row|row]; unfold soft_line; cbn [line_note].
  - right. destruct (row_origin schema row) as [[[s id] []]|]; [|by apply Hid..]. by exists (in_line s id k), id.
  - destruct (gap_line row) as [[k' e]|]; [|by right; apply Hid].
    case_bool_decide; [by left|by right; apply Hid].
Qed.

Lemma soft_line_comm k n n' x :
  soft_line k n -> soft_line k n' -> line_note k (line_note k x n) n' = line_note k (line_note k x n') n.
Proof.
  intros (P & id & HP & E) (P' & id' & HP' & E'). rewrite !E, !E'. destruct x as [e|]; [|done]. cbn. f_equal.
  destruct (P e) eqn:EP, (P' e) eqn:EP'; rewrite ?HP, ?HP', ?EP, ?EP'; try done.
  unfold advance_line. cbn. by rewrite !Z.max_assoc, (Z.max_comm id id').
Qed.

Lemma soft_line_idem k n x : soft_line k n -> line_note k (line_note k x n) n = line_note k x n.
Proof.
  intros (P & id & HP & E). rewrite !E. destruct x as [e|]; [|done]. cbn. f_equal.
  destruct (P e) eqn:EP; rewrite ?HP, EP; [|done]. unfold advance_line. cbn. by rewrite Z.max_assoc, Z.max_id.
Qed.

Lemma memory_ext (m1 m2 : TradeMemory) :
  (forall s, tm_lastId m1 !! s = tm_lastId m2 !! s) -> (forall k, tm_gaps m1 !! k = tm_gaps m2 !! k) -> m1 = m2.
Proof. destruct m1, m2. cbn. intros ?%map_eq ?%map_eq. congruence. Qed.

Lemma remember_twice m ns : remember tbl schema (remember tbl schema m ns) ns = remember tbl schema m ns.
Proof.
  apply memory_ext; intros k.
  - rewrite !remember_id. apply (fold_twice _ (fun _ => True)); [by right|..].
    + intros [row|row] [row'|row'] x _ _; cbn; try done; repeat case_match; try done; cbn; f_equal; lia.
    + intros [row|row] x _; cbn; try done. repeat case_match; try done. cbn. f_equal. lia.
  - rewrite !remember_line_at.
    apply (fold_twice _ (soft_line k)); [apply line_note_kinds|by apply soft_line_comm|by apply soft_line_idem].
Qed.

Lemma remember_app m ns ns' :
  remember tbl schema m (ns ++ ns') = remember tbl schema (remember tbl schema m ns) ns'.
Proof. unfold remember. by rewrite fold_left_app. Qed.

(** Reading a log whose first part is known. *)
Lemma remember_again m ns ns' :
  remember tbl schema (remember tbl schema m ns) (ns ++ ns') = remember tbl schema m (ns ++ ns').
Proof. by rewrite !remember_app, remember_twice. Qed.

(** *** What is told

    Memories that differ in closed gaps only. *)
Definition only_open (e : GapLine) : option GapLine := if is_open e then Some e else None.
Definition open_at (m : TradeMemory) (k : string * Z) : option GapLine := tm_gaps m !! k ≫= only_open.
#[export] Instance TradeMemory_equiv : Equiv TradeMemory := fun m m' =>
  tm_lastId m = tm_lastId m' /\ forall k, open_at m k = open_at m' k.
#[export] Instance TradeMemory_equivalence : Equivalence (≡@{TradeMemory}).
Proof.
  split; [by intros m|by intros m m' [? ?]; split|].
  intros m1 m2 m3 [H1 H2] [H3 H4]. split; [congruence|]. intros k. by rewrite H2.
Qed.

Lemma open_take m n k :
  open_at (take_note tbl schema m n) k = line_note k (open_at m k) n ≫= only_open.
Proof.
  unfold open_at. rewrite take_note_line. destruct (line_note_kinds k n) as [Hk|(P & id & _ & E)].
  - by rewrite (Hk _ (tm_gaps m !! k ≫= only_open)).
  - rewrite !E. destruct (tm_gaps m !! k) as [e|]; [|done]. cbn.
    assert (is_open (if P e then advance_line id k e else e) = is_open e) as He by (by destruct (P e)).
    unfold only_open at 1 3. rewrite He. destruct (is_open e); cbn; [|done]. unfold only_open. by rewrite He.
Qed.

#[export] Instance take_note_proper : Proper ((≡) ==> (=) ==> (≡)) (take_note tbl schema).
Proof.
  intros m m' [Hi Ho] n _ <-. split; [|intros k; by rewrite !open_take, Ho].
  apply map_eq. intros s. by rewrite !take_note_id, Hi.
Qed.
#[export] Instance remember_proper : Proper ((≡) ==> (=) ==> (≡)) (remember tbl schema).
Proof.
  intros m m' Hm ns _ <-. revert m m' Hm. induction ns as [|n ns IH]; intros m m' Hm; [done|]. cbn.
  apply IH. by rewrite Hm.
Qed.
End reread.

Lemma open_lines_at m k e : (k, e) ∈ open_lines m <-> open_at m k = Some e.
Proof.
  rewrite open_lines_elem. unfold open_at. destruct (tm_gaps m !! k) as [e'|]; cbn; [|by split; [intros [? _]|]].
  unfold only_open. destruct (is_open e') eqn:E; split;
    [by intros [[= ->] _]|by intros [= ->]|intros [[= ->] ?]; congruence|done].
Qed.

(** Such memories tell the same. *)
#[export] Instance open_lines_proper : Proper ((≡) ==> (≡ₚ)) open_lines.
Proof.
  intros m m' [_ Ho]. unfold open_lines.
  apply NoDup_Permutation; [by apply NoDup_filter, NoDup_map_to_list..|]. intros [k e].
  change ((k, e) ∈ open_lines m <-> (k, e) ∈ open_lines m'). by rewrite !open_lines_at, Ho.
Qed.

(** ** Answers

    TP answers from a memory that is [m], but for closed gaps. *)
Definition tells (m : TradeMemory) (st : TradeState) : Prop :=
  exists m', m' ≡ m /\ st = parseTradeState (tradeState_reply m').

Lemma tells_itself m : tells m (parseTradeState (tradeState_reply m)).
Proof. by exists m. Qed.

Lemma tells_seeded m st : tells m st -> seeded st = tm_lastId m.
Proof. intros (m' & [Hi _] & ->). by rewrite reply_seeded. Qed.
Lemma tells_reopened m st : tells m st -> reopened st ≡ₚ gap_at <$> open_lines m.
Proof. intros (m' & Hm & ->). by rewrite reply_reopened, Hm. Qed.

Lemma tells_ok m st : memory_ok m -> tells m st -> state_ok st.
Proof.
  intros Hm Ht. pose proof (tells_reopened _ _ Ht) as Hr. destruct Ht as (m' & [Hi _] & ->). split.
  - unfold parseTradeState, tradeState_reply. cbn [ts_lastIds]. rewrite !length_fmap, Nat.eqb_refl, zip_fst_snd, Hi.
    apply Forall_forall. intros [s i] Hk%elem_of_map_to_list. by apply (mo_ids _ Hm s).
  - unfold reopened in Hr. assert (ts_ok (parseTradeState (tradeState_reply m')) = true) as Hok by done. rewrite Hok in Hr.
    apply Forall_forall. intros g Hg. apply (list_elem_of_fmap_2 gap_from) in Hg. rewrite Hr in Hg.
    apply list_elem_of_fmap in Hg as ([[s f] e] & E & [Hke _]%open_lines_elem).
    apply mo_line in Hke as (? & _); [|done]. change (og_firstId g) with (g_firstId (gap_from g)). rewrite E. cbn. lia.
Qed.
