(* ===== verification/TradeRestart.v ===== *)
(** * A restart loses no trade

    A trade handler may stop and start again at any time: what it has not
    received, and the gaps it has not closed, are the next process's work. The
    next process knows of them what TP remembers. This file shows that that is
    enough, by comparing the ledger of the first run with TP's memory of it. *)

From S2P Require Import Prelude Double CStdlib JsonReader MarketConfig Effects Backoff RowClock.
From S2P Require Import KObject TpPublisher TpSession TradeGap Scheduler RestClient SnapshotWorker Rows Delivery.
From S2P Require Import TradeBackfill TradeBackfillProps TradeLedger TradeHandler TradeHandlerProps TpMemory.
From stdpp Require Import sorting.
From Stdlib Require Import Sorted.

Open Scope Z_scope.
Local Open Scope rec_scope.

(** ** Gaps that are apart *)

Definition same_gap (g g' : TradeGap) : Prop :=
  g_sym g = g_sym g' /\ g_firstId g = g_firstId g' /\ g_lastId g = g_lastId g'.
Definition within (s : string) (i : Z) (g : TradeGap) : Prop := g_sym g = s /\ g_firstId g <= i <= g_lastId g.
(** Not empty, and recovered from its first id on. *)
Definition gap_wf (g : TradeGap) : Prop := 1 <= g_firstId g <= g_lastId g /\ g_firstId g <= nextNeededId g.
Definition apart (g g' : TradeGap) : Prop :=
  g_sym g = g_sym g' -> g_lastId g < g_firstId g' \/ g_lastId g' < g_firstId g.

Lemma apart_sym g g' : apart g g' -> apart g' g.
Proof. unfold apart. intros H E. symmetry in E. destruct (H E); auto. Qed.
(** Being apart in pairs is not a matter of order. *)
#[local] Instance apart_proper : Proper ((≡ₚ) ==> iff) (StronglySorted apart).
Proof.
  enough (forall l l', l ≡ₚ l' -> StronglySorted apart l -> StronglySorted apart l') as Hp
    by (intros l l' Hl; split; by apply Hp).
  intros l l' Hl. induction Hl as [|g l l' Hl IH|g g' l|l1 l2 l3 _ IH1 _ IH2]; intros Hs; [done| | |auto].
  - apply StronglySorted_inv in Hs as [Hs Hg]. constructor; [auto|by rewrite <-Hl].
  - apply StronglySorted_inv in Hs as [[Hs Hg]%StronglySorted_inv Hg']. apply Forall_cons in Hg' as [Ha Hg'].
    constructor; [by constructor|]. constructor; [by apply apart_sym|done].
Qed.
Lemma apart_within s i g g' : apart g g' -> within s i g -> within s i g' -> False.
Proof. intros Ha [<- ?] [E ?]. destruct (Ha (eq_sym E)); lia. Qed.
Lemma apart_same g g0 g' : same_gap g g0 -> apart g0 g' -> apart g g'.
Proof. unfold apart. by intros (-> & -> & ->). Qed.
Lemma within_same s i g g0 : same_gap g g0 -> within s i g -> within s i g0.
Proof. unfold within. by intros (-> & -> & ->). Qed.
Lemma same_gap_sym g g' : same_gap g g' -> same_gap g' g.
Proof. by intros (? & ? & ?). Qed.
Lemma same_gap_trans g1 g2 g3 : same_gap g1 g2 -> same_gap g2 g3 -> same_gap g1 g3.
Proof. intros (? & ? & ?) (? & ? & ?). repeat split; congruence. Qed.
Lemma within_first g : gap_wf g -> within (g_sym g) (g_firstId g) g.
Proof. intros [? _]. split; [done|lia]. Qed.

(** Of gaps that are apart, those with a common id are the same. *)
Lemma apart_unique l s i g g' :
  StronglySorted apart l -> g ∈ l -> g' ∈ l -> within s i g -> within s i g' -> g = g'.
Proof.
  intros Hl. induction Hl as [|g0 l Hl IH Hg0]; intros Hg Hg' Hi Hi'; [by apply elem_of_nil in Hg|].
  apply elem_of_cons in Hg, Hg'. rewrite Forall_forall in Hg0.
  destruct Hg as [->|Hg], Hg' as [->|Hg']; [done| | |by apply IH].
  - destruct (apart_within _ _ _ _ (Hg0 _ Hg') Hi Hi').
  - destruct (apart_within _ _ _ _ (Hg0 _ Hg) Hi' Hi).
Qed.

Lemma apart_snoc l g : StronglySorted apart (l ++ [g]) <-> StronglySorted apart l /\ forall g0, g0 ∈ l -> apart g0 g.
Proof.
  rewrite StronglySorted_app. setoid_rewrite list_elem_of_singleton. split.
  - intros (H1 & H2 & _). split; [done|]. intros g0 H. by apply H1.
  - intros [H1 H2]. split; [by intros g0 g1 ? ->; apply H2|]. split; [done|]. repeat constructor.
Qed.

(** ** The backfill's events, about gaps that are apart *)

Record tidy (l : list bf_event) (q : list TradeGap) : Prop := {
  td_gaps : forall g, g ∈ q -> exists g0, g0 ∈ added l /\ same_gap g g0 /\ nextNeededId g0 <= nextNeededId g;
  td_apart : StronglySorted apart q;
  td_wf : Forall gap_wf q;
  td_published : forall s i, Published s i ∈ l ->
    (exists g0, g0 ∈ added l /\ within s i g0) /\ forall g, g ∈ q -> within s i g -> i < nextNeededId g;
  td_recorded : forall g st why, Recorded g st why ∈ l ->
    gap_wf g /\ (exists g0, g0 ∈ added l /\ same_gap g g0) /\
    forall g', g' ∈ q -> same_gap g g' -> st = Partial /\ nextNeededId g <= nextNeededId g'
}.

Lemma tidy_added l q g :
  (forall g0, g0 ∈ added l -> apart g0 g) -> gap_wf g -> tidy l q -> tidy (l ++ [Added g]) (q ++ [g]).
Proof.
  intros Ha Hg [H1 H2 H3 H4 H5].
  assert (forall g0, g0 ∈ added l -> g0 ∈ added (l ++ [Added g])) as Hmore.
  { intros g0 H. unfold added. rewrite omap_app. apply elem_of_app. by left. }
  constructor.
  - intros g' [Hg'|Hg'%list_elem_of_singleton]%elem_of_app.
    + destruct (H1 _ Hg') as (g0 & ? & ? & ?). eauto.
    + subst g'. exists g. split; [|by split]. unfold added. rewrite omap_app. apply elem_of_app. right. by left.
  - apply apart_snoc. split; [done|]. intros g' Hg'. destruct (H1 _ Hg') as (g0 & Hin & Hs & _).
    eapply apart_same; [exact Hs|]. by apply Ha.
  - apply Forall_snoc. by split.
  - intros s i [Hp|Hp%list_elem_of_singleton]%elem_of_app; [|done]. destruct (H4 _ _ Hp) as [(g0 & Hin & Hw) Hlt].
    split; [eauto|]. intros g' [Hg'|Hg'%list_elem_of_singleton]%elem_of_app Hw'; [by apply Hlt|]. subst g'.
    destruct (apart_within s i g0 g); auto.
  - intros g1 st why [Hr|Hr%list_elem_of_singleton]%elem_of_app; [|done].
    destruct (H5 _ _ _ Hr) as (Hwf & (g0 & Hin & Hs) & Hlt). split; [done|]. split; [eauto|].
    intros g' [Hg'|Hg'%list_elem_of_singleton]%elem_of_app Hsame; [by apply Hlt|]. subst g'.
    destruct (apart_within (g_sym g) (g_firstId g) g0 g); [by apply Ha| |by apply within_first].
    eapply within_same; [|by apply within_first]. eapply same_gap_trans; [apply same_gap_sym; exact Hsame|exact Hs].
Qed.

(** A queue's first gap moves on, or leaves. *)
Lemma advance_wf g : gap_wf g -> gap_wf (advance 1 g) /\ same_gap (advance 1 g) g /\ nextNeededId (advance 1 g) = nextNeededId g + 1.
Proof.
  intros [H1 H2]. destruct (advance_fixed 1 g) as (E1 & E2 & E3). unfold gap_wf. rewrite E2, E3, advance_next by (unfold gap_ok; lia).
  split; [lia|]. by repeat split.
Qed.

Lemma tidy_published l g q :
  nextNeededId g <= g_lastId g -> tidy l (g :: q) -> tidy (l ++ [Published (g_sym g) (nextNeededId g)]) (advance 1 g :: q).
Proof.
  intros Hle [H1 H2 H3 H4 H5]. apply Forall_cons in H3 as [Hg Hq]. destruct (advance_wf g Hg) as (Hwf & Hs & Hn).
  apply StronglySorted_inv in H2 as [H2 Hap]. rewrite Forall_forall in Hap.
  assert (added (l ++ [Published (g_sym g) (nextNeededId g)]) = added l) as Ea by (by rewrite added_snoc, app_nil_r).
  assert (within (g_sym g) (nextNeededId g) g) as Hw by (split; [done|destruct Hg; lia]).
  constructor; rewrite ?Ea.
  - intros g' [->|Hg']%elem_of_cons; [|by apply H1; right].
    destruct (H1 g) as (g0 & ? & ? & ?); [by left|]. exists g0. split; [done|]. split; [by eapply same_gap_trans|lia].
  - constructor; [done|]. apply Forall_forall. intros g' Hg'. eapply apart_same; [exact Hs|]. by apply Hap.
  - by constructor.
  - intros s i [Hp|Hp%list_elem_of_singleton]%elem_of_app.
    + destruct (H4 _ _ Hp) as [Hex Hlt]. split; [done|]. intros g' [->|Hg']%elem_of_cons Hwi; [|by apply Hlt; [right|]].
      rewrite Hn. assert (i < nextNeededId g); [|lia]. apply Hlt; [by left|]. by eapply within_same.
    + injection Hp as -> ->. split.
      * destruct (H1 g) as (g0 & ? & ? & _); [by left|]. exists g0. split; [done|]. by eapply within_same.
      * intros g' [->|Hg']%elem_of_cons Hwi; [lia|]. destruct (apart_within _ _ _ _ (Hap _ Hg') Hw Hwi).
  - intros g1 st why [Hr|Hr%list_elem_of_singleton]%elem_of_app; [|done].
    destruct (H5 _ _ _ Hr) as (Hwf1 & Hex & Hlt). split; [done|]. split; [done|].
    intros g' [->|Hg']%elem_of_cons Hsame; [|by apply Hlt; [right|]].
    destruct (Hlt g) as [-> ?]; [by left|by eapply same_gap_trans|]. split; [done|]. lia.
Qed.

Lemma tidy_recorded l g st why q q' :
  (q' = g :: q /\ st = Partial) \/ q' = q -> tidy l (g :: q) -> tidy (l ++ [Recorded g st why]) q'.
Proof.
  intros Hq' [H1 H2 H3 H4 H5].
  assert (added (l ++ [Recorded g st why]) = added l) as Ea by (by rewrite added_snoc, app_nil_r).
  assert (forall g', g' ∈ q' -> g' ∈ g :: q) as Hsub by (destruct Hq' as [[-> _]| ->]; [done|by right]).
  apply StronglySorted_inv in H2 as [H2 Hap]. rewrite Forall_forall in Hap.
  apply Forall_cons in H3 as [Hg Hq].
  constructor; rewrite ?Ea.
  - intros g' Hg'. by apply H1, Hsub.
  - destruct Hq' as [[-> _]| ->]; [|done]. constructor; [done|]. by apply Forall_forall.
  - destruct Hq' as [[-> _]| ->]; [by constructor|done].
  - intros s i [Hp|Hp%list_elem_of_singleton]%elem_of_app; [|done]. destruct (H4 _ _ Hp) as [Hex Hlt].
    split; [done|]. intros g' Hg'. apply Hlt, Hsub, Hg'.
  - intros g1 st1 why1 [Hr|Hr%list_elem_of_singleton]%elem_of_app.
    + destruct (H5 _ _ _ Hr) as (Hwf1 & Hex & Hlt). split; [done|]. split; [done|].
      intros g' Hg'. apply Hlt, Hsub, Hg'.
    + injection Hr as -> -> ->. split; [done|]. split; [destruct (H1 g) as (g0 & ? & ? & _); [by left|eauto]|]. intros g' Hg' Hsame.
      assert (g' ∈ q -> False) as Hno.
      { intros Hin. apply (apart_within (g_sym g) (g_firstId g) g g'); [by apply Hap|by apply within_first|].
        eapply within_same; [exact Hsame|]. by apply within_first. }
      destruct Hq' as [[-> ->]| ->]; [|done]. split; [done|]. by apply elem_of_cons in Hg' as [->|?].
Qed.

Lemma spec_run_tidy l q :
  StronglySorted apart (added l) -> Forall gap_wf (added l) -> spec_run l = Some q -> tidy l q.
Proof.
  revert q. induction l as [|e l IH] using rev_ind; intros q Ha Hwf Hr.
  { injection Hr as <-. constructor; try (intros ? ? H; by apply elem_of_nil in H); try (intros ? H; by apply elem_of_nil in H);
      try (intros ? ? ? H; by apply elem_of_nil in H); constructor. }
  rewrite spec_run_snoc in Hr. destruct (spec_run l) as [q0|]; [|done]. cbn in Hr. rewrite added_snoc in Ha, Hwf.
  assert (tidy l q0) as Ht.
  { apply IH; [|by apply Forall_app in Hwf as [? _]|done]. by apply StronglySorted_app in Ha as (_ & ? & _). }
  destruct e as [g|s i|g st why].
  - assert (q = q0 ++ [g]) as -> by (destruct q0; by injection Hr as <-).
    apply apart_snoc in Ha as [_ Ha]. apply Forall_app in Hwf as [_ Hg]. apply Forall_cons in Hg as [Hg _]. by apply tidy_added.
  - destruct q0 as [|g q0]; [done|]. cbn [spec_step] in Hr. destruct (bool_decide _ && _ && _) eqn:Ec; [|done].
    injection Hr as <-. apply andb_true_iff in Ec as [[Ec1 Ec2]%andb_true_iff Ec3].
    apply bool_decide_eq_true in Ec1. apply Z.eqb_eq in Ec2. subst s i. apply tidy_published; [lia|done].
  - destruct q0 as [|g0 q0]; [done|]. cbn [spec_step] in Hr. case_bool_decide; [|done]. subst g0.
    apply (tidy_recorded _ _ _ _ q0); [|done]. destruct st; try done.
    + destruct (_ <=? _); [|done]. injection Hr as <-. by left.
    + destruct (_ <? _); [|done]. injection Hr as <-. by right.
    + injection Hr as <-. by right.
Qed.

(** ** The gaps a stream leaves *)

(** What a gap found has to do with the last ids before and after it. *)
Definition found_between (t0 t : TradeIdTracker) (g : TradeGap) : Prop :=
  gap_wf g /\ (forall p, t0 !! g_sym g = Some p -> p < g_firstId g) /\
  exists v, t !! g_sym g = Some v /\ g_lastId g <= v.

Definition streamed_ids (l : list (string * Z)) : list (string * Z * bool) := (fun x => (x, false)) <$> l.

Lemma null_neg : null_long <= 0.
Proof. done. Qed.

Lemma onId_tops s i t r t' :
  null_long <= i -> onId s i t = (r, t') -> t' = <[s := Z.max i (default null_long (t !! s))]> t.
Proof.
  intros Hi. unfold onId. destruct (t !! s) as [prev|] eqn:E; intros [= <- <-]; cbn [default]; [|by rewrite Z.max_l].
  destruct (Z.ltb_spec prev i); cbn; [by rewrite Z.max_l by lia|]. rewrite Z.max_r by lia. by rewrite insert_id.
Qed.

Lemma onId_gap s i t r t' g :
  nonneg t -> onId s i t = (r, t') -> g ∈ gap_of s r ->
  exists prev, t !! s = Some prev /\ g = mkTradeGap s (prev + 1) (i - 1) 0 0 /\ prev + 1 < i.
Proof.
  intros Ht. unfold onId. destruct (t !! s) as [prev|] eqn:El; intros [= <- _]; [|intros H; by apply elem_of_nil in H].
  unfold gap_of. specialize (Ht _ _ El). destruct (Z.eqb_spec i (prev + 1)); [intros H; by apply elem_of_nil in H|].
  destruct (Z.eqb_spec i prev); [intros H; by apply elem_of_nil in H|].
  destruct (Z.ltb_spec i prev); cbn [kind firstMissing lastMissing]; [intros H'; by apply elem_of_nil in H'|].
  intros ->%list_elem_of_singleton. exists prev. repeat split. lia.
Qed.

Lemma detect_found t0 l gs t :
  nonneg t0 -> Forall (fun p => 0 <= snd p) l -> detect t0 l = (gs, t) ->
  is_top t t0 (streamed_ids l) /\ StronglySorted apart gs /\ Forall (found_between t0 t) gs.
Proof.
  intros Hn. revert gs t. induction l as [|[s i] l IH] using rev_ind; intros gs t Hl E.
  { injection E as <- <-. split; [|by repeat constructor]. intros s. split; [by left|]. split; [eauto with lia|].
    intros v b H. by apply elem_of_nil in H. }
  apply Forall_snoc in Hl as [Hl Hi]. cbn in Hi. rewrite detect_snoc in E. destruct (detect t0 l) as [g1 t1] eqn:E1.
  destruct (IH _ _ Hl eq_refl) as (Ht & Ha & Hf). pose proof (detect_nonneg _ _ _ _ Hn Hl E1) as Hn1.
  destruct (onId s i t1) as [r t2] eqn:E2. injection E as <- <-. assert (null_long <= i) as Hnull by (etrans; [apply null_neg|done]).
  pose proof (onId_tops _ _ _ _ _ Hnull E2) as Et2.
  assert (forall s' v, t1 !! s' = Some v -> exists w, t2 !! s' = Some w /\ v <= w) as Hup.
  { intros s' v Hv. rewrite Et2. destruct (decide (s' = s)) as [->|].
    - rewrite lookup_insert_eq, Hv. eexists. split; [done|]. cbn. lia.
    - rewrite lookup_insert_ne by done. eauto with lia. }
  assert (Forall (fun g => found_between t0 t2 g /\ forall g0, g0 ∈ g1 -> apart g0 g) (gap_of s r)) as Hnew.
  { apply Forall_forall. intros g Hg. destruct (onId_gap _ _ _ _ _ _ Hn1 E2 Hg) as (prev & Hp & -> & Hlt).
    specialize (Hn1 _ _ Hp). split; [split; [|split]|]; cbn.
    - unfold gap_wf, nextNeededId. cbn. lia.
    - intros p Hp0. destruct (proj1 (proj2 (Ht s)) p Hp0) as (w & Hw & Hle). cbn in *. assert (w = prev) by congruence. lia.
    - exists i. rewrite Et2, lookup_insert_eq, Hp. cbn. split; [f_equal; lia|lia].
    - intros g0 Hg0 Es. cbn in Es |- *. left. rewrite Forall_forall in Hf. destruct (Hf _ Hg0) as (_ & _ & v & Hv & Hle).
      rewrite Es in Hv. assert (v = prev) by congruence. lia. }
  split; [|split].
  - unfold streamed_ids. rewrite fmap_app, Et2. by apply is_top_snoc.
  - rewrite Forall_forall in Hnew. unfold gap_of in *. destruct (kind r); try (by rewrite app_nil_r).
    apply apart_snoc. split; [done|]. apply Hnew. by left.
  - apply Forall_app. split.
    + eapply Forall_impl; [exact Hf|]. intros g (Hw & Hp & v & Hv & Hle). split; [done|]. split; [done|].
      destruct (Hup _ _ Hv) as (w & ? & ?). exists w. split; [done|lia].
    + eapply Forall_impl; [exact Hnew|]. by intros g [? _].
Qed.

(** ** TP's memory of a run *)

Lemma gap_at_next ke :
  1 <= snd (fst ke) ->
  (gl_recoveredThroughId (snd ke) = null_long \/ snd (fst ke) <= gl_recoveredThroughId (snd ke) + 1) ->
  snd (fst ke) <= nextNeededId (gap_at ke) /\
  nextNeededId (gap_at ke) <= Z.max (snd (fst ke)) (gl_recoveredThroughId (snd ke) + 1).
Proof.
  destruct ke as [[s f] e]. unfold nextNeededId, gap_at. cbn [fst snd g_recoveredThroughId g_firstId]. pose proof null_neg.
  destruct (Z.eqb_spec (gl_recoveredThroughId e) null_long); [change (0 <? 0) with false; cbv iota; lia|]. destruct (Z.ltb_spec 0 (gl_recoveredThroughId e)); lia.
Qed.

Lemma gap_at_through ke : gl_recoveredThroughId (snd ke) < Z.max 1 (nextNeededId (gap_at ke)).
Proof.
  destruct ke as [[s f] e]. unfold nextNeededId, gap_at. cbn [fst snd g_recoveredThroughId g_firstId]. pose proof null_neg.
  destruct (Z.eqb_spec (gl_recoveredThroughId e) null_long); [lia|].
  destruct (Z.ltb_spec 0 (gl_recoveredThroughId e)); lia.
Qed.

(** An event says no more than how far its gap is recovered. *)
Lemma event_through g n :
  gap_wf g -> nextNeededId g <= n ->
  let through := if 0 <? g_recoveredThroughId g then g_recoveredThroughId g else null_long in
  through < n /\ (through = null_long \/ g_firstId g <= through + 1).
Proof.
  unfold gap_wf, nextNeededId. pose proof null_neg. destruct (Z.ltb_spec 0 (g_recoveredThroughId g)); cbv zeta; intros; [lia|].
  split; [lia|by left].
Qed.

(** The lines of a memory in order, as gaps. *)
Lemma lines_known m ke :
  memory_ok m -> tm_gaps m !! fst ke = Some (snd ke) ->
  gap_wf (gap_at ke) /\ exists p, tm_lastId m !! g_sym (gap_at ke) = Some p /\ g_lastId (gap_at ke) <= p.
Proof.
  destruct ke as [[s f] e]. cbn [fst snd]. intros Hm He. destruct (mo_line _ Hm _ _ _ He) as (Hf & Ht & Hp). split; [|exact Hp].
  split; [cbn; lia|]. apply (gap_at_next (s, f, e)); cbn; [lia|done].
Qed.

Lemma lines_apart m l :
  memory_ok m -> NoDup l.*1 -> (forall ke, ke ∈ l -> tm_gaps m !! fst ke = Some (snd ke)) ->
  StronglySorted apart (gap_at <$> l).
Proof.
  intros Hm. induction l as [|[[s f] e] l IH]; intros Hnd Hin; [constructor|].
  cbn [fmap list_fmap] in Hnd |- *. apply NoDup_cons in Hnd as [Hnew Hnd]. constructor.
  - apply IH; [done|]. intros ke Hke. apply Hin. by right.
  - apply Forall_forall. intros g ([[s' f'] e'] & -> & Hke)%list_elem_of_fmap Es. cbn in Es |- *. subst s'.
    pose proof (Hin (s, f, e) ltac:(by left)) as H1. pose proof (Hin (s, f', e') ltac:(by right)) as H2. cbn in H1, H2.
    assert (f <> f') as Hne by (intros <-; apply Hnew; by eapply (list_elem_of_fmap_2' fst) in Hke).
    destruct (Z.lt_total f f') as [Hlt|[?|Hlt]]; [left|done|right]; by eapply (mo_apart _ Hm).
Qed.

Lemma open_lines_keys m : NoDup (open_lines m).*1.
Proof.
  apply (sublist_NoDup _ (map_to_list (tm_gaps m)).*1); [apply NoDup_fst_map_to_list|]. apply fmap_sublist, sublist_filter.
Qed.

(** What TP has been told after a run: all its rows and all its gap events. *)
Record told (tbl : string) (schema : TradeSchema) (m : TradeMemory) (ns : list note) (L : list entry)
    (t : TradeIdTracker) (q : list TradeGap) : Prop := {
  to_memory : memory_ok m;
  to_balanced : exists l, l ≡ₚ gap_at <$> open_lines m /\ balanced (tm_lastId m) l L t q;
  to_ids : Forall (fun p => 0 <= snd p) (live L);
  to_noted : noted L = fst (detect (tm_lastId m) (live L));
  to_rows : row_origin schema <$> rows_in ns = Some <$> origins L;
  to_events : Forall2 (is_gap_row tbl) (events_in ns) (records L)
}.

Section told.
Context (tbl : string) (schema : TradeSchema) (m : TradeMemory) (ns : list note) (L : list entry)
  (t : TradeIdTracker) (q : list TradeGap).
Hypothesis Htold : told tbl schema m ns L t q.

Local Abbreviation t0 := (tm_lastId m).
Local Abbreviation gs := (fst (detect t0 (live L))).
Local Abbreviation m1 := (remember tbl schema m ns).

Lemma told_detect :
  is_top t t0 (streamed_ids (live L)) /\ StronglySorted apart gs /\ Forall (found_between t0 t) gs.
Proof.
  destruct Htold as [Hm (l & _ & [Ht _ _]) Hi _ _ _]. destruct (detect t0 (live L)) as [g1 t1] eqn:E. cbn in Ht |- *. subst t1.
  by apply (detect_found t0 (live L)); [apply mo_ids| |].
Qed.

Lemma told_line ke : tm_gaps m !! fst ke = Some (snd ke) ->
  gap_wf (gap_at ke) /\ exists p, t0 !! g_sym (gap_at ke) = Some p /\ g_lastId (gap_at ke) <= p.
Proof. apply lines_known, Htold. Qed.

(** Lines TP had, and the gaps found. *)
Lemma told_known l :
  NoDup l.*1 -> (forall ke, ke ∈ l -> tm_gaps m !! fst ke = Some (snd ke)) ->
  StronglySorted apart ((gap_at <$> l) ++ gs) /\ Forall gap_wf ((gap_at <$> l) ++ gs).
Proof.
  intros Hnd Hl. destruct told_detect as (_ & Ha & Hf). rewrite Forall_forall in Hf.
  assert (forall g, g ∈ gap_at <$> l -> gap_wf g /\ exists p, t0 !! g_sym g = Some p /\ g_lastId g <= p) as Hline.
  { intros g (ke & -> & Hke)%list_elem_of_fmap. by apply told_line, Hl. }
  split.
  - apply StronglySorted_app. split; [|split; [|done]].
    + intros g g' Hg Hg' Es. left. destruct (Hline _ Hg) as (_ & p & Hp & Hle). destruct (Hf _ Hg') as (_ & Hlt & _).
      rewrite Es in Hp. specialize (Hlt _ Hp). lia.
    + apply (lines_apart m); [apply Htold|done|done].
  - apply Forall_forall. intros g [Hg|Hg]%elem_of_app; [by apply Hline|by apply Hf].
Qed.

Lemma open_is_line ke : ke ∈ open_lines m -> tm_gaps m !! fst ke = Some (snd ke).
Proof. destruct ke. by intros [? _]%open_lines_elem. Qed.

(** The gaps of the run: those it took over, and those it found. *)
Lemma told_gaps : added (bf_part L) ≡ₚ (gap_at <$> open_lines m) ++ gs.
Proof. destruct (to_balanced _ _ _ _ _ _ _ Htold) as (l & Hl & Hb). by rewrite (bal_added _ _ _ _ _ Hb), Hl. Qed.
Lemma told_added :
  StronglySorted apart (added (bf_part L)) /\ Forall gap_wf (added (bf_part L)) /\
  forall g, g ∈ added (bf_part L) ->
    (exists ke, ke ∈ open_lines m /\ g = gap_at ke) \/ (g ∈ gs /\ found_between t0 t g).
Proof.
  destruct (told_known (open_lines m)) as [H1 H2]; [apply open_lines_keys|apply open_is_line|].
  split; [by rewrite told_gaps|]. split; [by rewrite told_gaps|]. setoid_rewrite told_gaps.
  destruct told_detect as (_ & _ & Hf). rewrite Forall_forall in Hf.
  intros g [Hg|Hg]%elem_of_app; [left|right; auto]. apply list_elem_of_fmap in Hg as (ke & -> & ?). eauto.
Qed.

Lemma told_tidy : tidy (bf_part L) q.
Proof. destruct told_added as (? & ? & _). destruct (to_balanced _ _ _ _ _ _ _ Htold) as (l & _ & Hb). by apply spec_run_tidy; [..|apply Hb]. Qed.

Lemma origins_elem (s : string) (i : Z) (b : bool) :
  (s, i, b) ∈ origins L -> if b then Published s i ∈ bf_part L else (s, i) ∈ live L.
Proof.
  unfold origins, bf_part, live. intros (e & He & E)%list_elem_of_omap.
  destruct e as [s' i'|g why|[g|s' i'|g st why]]; try done; injection E as -> -> <-;
    apply list_elem_of_omap; by eexists.
Qed.

Lemma live_origin (s : string) (i : Z) : (s, i) ∈ live L -> (s, i, false) ∈ origins L.
Proof.
  unfold origins, live. intros (e & He & E)%list_elem_of_omap. apply list_elem_of_omap. exists e. split; [done|].
  by destruct e; simplify_eq/=.
Qed.

(** Rows and the tracker agree on the last ids. *)
Lemma told_ids : tm_lastId m1 = t.
Proof.
  destruct told_detect as (Ht & _). destruct told_added as (_ & Hwf & Hsrc). destruct Htold as [Hm _ Hi _ Hr _].
  rewrite Forall_forall in Hwf. rewrite Forall_forall in Hi. destruct told_tidy as [_ _ _ Hpub _].
  pose proof (omap_all _ _ _ Hr) as Eo.
  assert (forall s i b, (s, i, b) ∈ origins L -> 0 <= i /\ exists w : Z, t !! s = Some w /\ i <= w) as Hids.
  { intros s i b Ho. apply origins_elem in Ho. destruct b.
    - destruct (Hpub _ _ Ho) as [(g0 & Hin & <- & Hlo & Hhi) _]. destruct (Hwf _ Hin) as [H1 _]. split; [lia|].
      destruct (Hsrc _ Hin) as [(ke & Hke & ->)|[_ (_ & _ & v & Hv & Hle)]]; [|exists v; split; [done|lia]].
      destruct (told_line ke) as (_ & p & Hp & Hle); [by apply open_is_line|].
      destruct (proj1 (proj2 (Ht _)) p Hp) as (w & Hw & ?). exists w. split; [done|lia].
    - split; [exact (Hi (s, i) Ho)|]. apply (proj2 (proj2 (Ht s)) i false). unfold streamed_ids.
      by apply (list_elem_of_fmap_2 (fun x : string * Z => (x, false))) in Ho. }
  apply (is_top_unique _ _ t0 (origins L)).
  - rewrite <-Eo. apply remember_top. intros row s i b Hrow E.
    assert ((s, i, b) ∈ origins L) as Ho by (rewrite <-Eo; apply list_elem_of_omap; eauto).
    apply Hids in Ho as [? _]. etrans; [apply null_neg|done].
  - intros s. destruct (Ht s) as (I1 & I2 & _). split; [|split; [exact I2|]].
    + intros v Hv. destruct (I1 v Hv) as [?|[b Hb]]; [by left|right]. exists false.
      apply list_elem_of_fmap in Hb as ([s' i'] & [= <- <- _] & Hl). by apply live_origin.
    + intros v b Hv. by apply (Hids s v b).
Qed.
(** Every event TP was told is about a gap of the run. *)
Lemma told_event g st why :
  (g, st, why) ∈ records L ->
  gap_wf g /\ (exists g0, g0 ∈ added (bf_part L) /\ same_gap g g0) /\
  forall g', g' ∈ q -> same_gap g g' -> (st = Detected \/ st = Partial) /\ nextNeededId g <= nextNeededId g'.
Proof.
  intros (e & He & E)%list_elem_of_omap. destruct told_added as (Ha & Hwf & _). rewrite Forall_forall in Hwf.
  pose proof told_tidy as [Hq _ Hqwf _ Hrec].
  destruct e as [|g1 why1|[| |g1 st1 why1]]; try done; injection E as -> -> ->.
  - assert (g ∈ added (bf_part L)) as Hg.
    { rewrite told_gaps, <-(to_noted _ _ _ _ _ _ _ Htold).
      apply elem_of_app. right. apply list_elem_of_omap. by eexists. }
    split; [by apply Hwf|]. split; [by exists g|]. intros g' Hg' Hs. split; [by left|].
    destruct (Hq _ Hg') as (g0 & Hg0 & Hs0 & Hle). enough (g = g0) by (subst g0; done).
    pose proof (within_first g (Hwf _ Hg)) as Hwi. apply (apart_unique _ (g_sym g) (g_firstId g) _ _ Ha Hg Hg0 Hwi).
    eapply within_same; [|exact Hwi]. by eapply same_gap_trans.
  - destruct (Hrec g st why) as (H1 & H2 & H3).
    { unfold bf_part. apply list_elem_of_omap. by eexists. }
    split; [done|]. split; [done|]. intros g' Hg' Hs. destruct (H3 g' Hg' Hs) as [-> ?]. auto.
Qed.

(** What TP's line of an unfinished gap says: it is open, and not further than
    the gap is. *)
Definition owed_line (g : TradeGap) (e : GapLine) : Prop :=
  gl_lastMissingId e = g_lastId g /\ is_open e = true /\ gl_recoveredThroughId e < nextNeededId g /\
  (gl_recoveredThroughId e = null_long \/ g_firstId g <= gl_recoveredThroughId e + 1).

(** Where an unfinished gap comes from: no other gap of the run has its first id. *)
Lemma told_source g :
  g ∈ q -> gap_wf g /\ exists g0, g0 ∈ added (bf_part L) /\ same_gap g g0 /\ nextNeededId g0 <= nextNeededId g /\
    forall g1, g1 ∈ added (bf_part L) -> within (g_sym g) (g_firstId g) g1 -> g1 = g0.
Proof.
  intros Hg. pose proof told_tidy as [Hq _ Hqwf _ _]. destruct told_added as (Ha & _ & _). rewrite Forall_forall in Hqwf.
  pose proof (Hqwf _ Hg) as Hwf. split; [done|]. destruct (Hq _ Hg) as (g0 & Hg0 & Hs0 & Hle0).
  exists g0. split; [done|]. split; [done|]. split; [done|]. intros g1 H1 Hw1.
  apply (apart_unique _ _ _ _ _ Ha H1 Hg0 Hw1). eapply within_same; [exact Hs0|by apply within_first].
Qed.

Lemma told_at_first g e : g ∈ q -> tm_gaps m !! (g_sym g, g_firstId g) = Some e -> owed_line g e.
Proof.
  intros Hg He. destruct (told_source g Hg) as (Hwf & g0 & Hg0 & (E1 & E2 & E3) & Hle0 & _).
  destruct told_added as (_ & _ & Hsrc). destruct (Hsrc _ Hg0) as [([[s' f'] e'] & Hke & ->)|[_ (_ & Hp & _)]].
  - pose proof (gap_at_through (s', f', e')) as Hth. cbn in E1, E2, E3, Hth, Hle0.
    apply open_lines_elem in Hke as [He' Ho]. rewrite E1, E2 in He. assert (e' = e) by congruence. subst e'.
    destruct (mo_line _ (to_memory _ _ _ _ _ _ _ Htold) _ _ _ He') as (_ & ? & _). unfold owed_line. rewrite E2.
    destruct Hwf. split; [done|]. split; [done|]. split; [lia|done].
  - destruct (told_line (g_sym g, g_firstId g, e) He) as ([[_ ?] _] & p & Hp1 & Hle). cbn in *.
    rewrite E1 in Hp1. specialize (Hp _ Hp1). lia.
Qed.

Lemma told_owed_line g e : g ∈ q -> tm_gaps m1 !! (g_sym g, g_firstId g) = Some e -> owed_line g e.
Proof.
  intros Hg. revert e. destruct (told_source g Hg) as (Hwf & g0 & Hg0 & Hs0 & _ & Huniq).
  apply (remember_line tbl schema (owed_line g) m ns (g_sym g) (g_firstId g) (records L)); [apply Htold|..].
  - intros e. by apply told_at_first.
  - intros g1 st why time Hrec E1 E2. destruct (told_event _ _ _ Hrec) as (Hwf1 & (g2 & Hg2 & Hs2) & Hev).
    assert (g2 = g0) as -> by (apply Huniq; [done|]; rewrite <-E1, <-E2; eapply within_same; [exact Hs2|by apply within_first]).
    destruct (Hev g Hg) as [Hst Hle]; [eapply same_gap_trans; [exact Hs2|by apply same_gap_sym]|].
    destruct Hs0 as (_ & _ & E3), Hs2 as (_ & _ & E4). unfold owed_line, line_of. cbn. split; [congruence|].
    split; [by destruct Hst as [->| ->]|]. rewrite <-E2. by apply event_through.
  - intros row i e Hrow Eo (H1 & H2 & H3 & H4) Hi. unfold owed_line, advance_line. cbn.
    split; [done|]. split; [done|]. split; [|right; lia].
    assert (i < nextNeededId g); [|lia]. apply (td_published _ _ told_tidy (g_sym g)); [|done|split; [done|lia]].
    apply (origins_elem _ _ true). rewrite <-(omap_all _ _ _ (to_rows _ _ _ _ _ _ _ Htold)).
    apply list_elem_of_omap. eauto.
Qed.

Lemma told_is_line g : g ∈ q -> is_Some (tm_gaps m1 !! (g_sym g, g_firstId g)).
Proof.
  intros Hg. destruct (told_source g Hg) as (_ & g0 & Hg0 & (E1 & E2 & _) & _). destruct told_added as (_ & _ & Hsrc).
  apply (remember_is_line tbl schema m ns _ _ (records L)); [apply Htold|]. rewrite E1, E2.
  destruct (Hsrc _ Hg0) as [([[s' f'] e] & Hke & ->)|[Hgs _]]; [left|right].
  - apply open_is_line in Hke. by eexists.
  - rewrite <-(to_noted _ _ _ _ _ _ _ Htold) in Hgs. apply list_elem_of_omap in Hgs as (en & Hen & E).
    destruct en as [|g1 why|]; try done. injection E as ->. exists g0, Detected, why.
    split; [apply list_elem_of_omap; by eexists|done].
Qed.

(** What is still owed at the end is in a gap TP has open. *)
Lemma told_open g s x :
  g ∈ q -> in_gap s x g -> exists g', g' ∈ gap_at <$> open_lines m1 /\ in_gap s x g'.
Proof.
  intros Hg (<- & Hlo & Hhi). destruct (told_is_line g Hg) as [e He]. destruct (told_source g Hg) as [[? Hn1] _].
  destruct (told_owed_line g e Hg He) as (E1 & E2 & E3 & E4). exists (gap_at ((g_sym g, g_firstId g), e)). split.
  - apply list_elem_of_fmap. eexists. split; [done|]. by apply open_lines_elem.
  - split; [done|]. destruct (gap_at_next (g_sym g, g_firstId g, e)) as [_ Hn]; cbn in *; [lia|done|]. lia.
Qed.

(** The memory is in order again, so that the next restart finds it so. *)
Lemma told_lines s f e :
  tm_gaps m1 !! (s, f) = Some e ->
  (exists g, g ∈ (gap_at <$> map_to_list (tm_gaps m)) ++ gs /\ g_sym g = s /\ g_firstId g = f /\
     g_lastId g = gl_lastMissingId e) /\
  (gl_recoveredThroughId e = null_long \/ f <= gl_recoveredThroughId e + 1).
Proof.
  revert e. apply (remember_line tbl schema _ m ns s f (records L)); [apply Htold|..].
  - intros e He. destruct (mo_line _ (to_memory _ _ _ _ _ _ _ Htold) _ _ _ He) as (_ & ? & _). split; [|done].
    exists (gap_at ((s, f), e)). split; [|done]. apply elem_of_app. left. apply list_elem_of_fmap_2.
    by apply elem_of_map_to_list.
  - intros g st why time Hrec <- <-. destruct (told_event _ _ _ Hrec) as (Hwf & (g0 & Hg0 & E1 & E2 & E3) & _).
    split; [|by apply (event_through g (nextNeededId g))]. exists g0. cbn. split; [|done].
    rewrite told_gaps in Hg0. apply elem_of_app in Hg0 as [Hg0|Hg0];
      apply elem_of_app; [left|by right].
    apply list_elem_of_fmap in Hg0 as ([k e] & -> & [Hk _]%open_lines_elem). apply list_elem_of_fmap_2.
    by apply elem_of_map_to_list.
  - intros row i e _ _ [Hg Hth] Hi. split; [exact Hg|]. right. cbn. lia.
Qed.

Lemma told_memory : memory_ok m1.
Proof.
  destruct (told_known (map_to_list (tm_gaps m))) as [Ha Hwf]; [apply NoDup_fst_map_to_list|intros []; apply elem_of_map_to_list|].
  rewrite Forall_forall in Hwf. destruct told_detect as (Ht & _ & Hf). rewrite Forall_forall in Hf. constructor.
  - rewrite told_ids. destruct Htold as [Hm (l & _ & [<- _ _]) Hi _ _ _]. destruct (detect t0 (live L)) as [g1 t1] eqn:E.
    by apply (detect_nonneg t0 (live L) g1); [apply mo_ids| |].
  - intros s f e He. destruct (told_lines s f e He) as [(g & Hg & <- & <- & E) Hth]. rewrite <-E, told_ids.
    split; [by apply Hwf|]. split; [done|]. apply elem_of_app in Hg as [Hg|Hg]; [|by apply Hf].
    apply list_elem_of_fmap in Hg as ([k e'] & -> & Hk%elem_of_map_to_list).
    destruct (told_line (k, e') Hk) as (_ & p & Hp & Hle). destruct (proj1 (proj2 (Ht _)) p Hp) as (w & Hw & ?).
    exists w. split; [done|lia].
  - intros s f e f' e' He He' Hlt. destruct (told_lines s f e He) as [(g & Hg & E1 & E2 & E3) _].
    destruct (told_lines s f' e' He') as [(g' & Hg' & E1' & E2' & E3') _]. rewrite <-E3.
    destruct (Z.lt_ge_cases (g_lastId g) f') as [|Hge]; [done|]. exfalso.
    assert (g = g') as <-; [|lia]. apply (apart_unique _ s f' _ _ Ha Hg Hg'); [split; [done|lia]|].
    split; [done|]. destruct (Hwf _ Hg'). lia.
Qed.
End told.

(** ** What a process hands over *)

Section hand_over.
Context (schema : TradeSchema).

(** The ids that must be accounted for between two states of TP's memory: those from
    the first one known to the last, and those in gaps that were open; and what
    accounts for them. *)
Definition owed (M0 : TradeMemory) (rows : list K) (M : TradeMemory) (sym : string) (x : Z) : Prop :=
  (exists lo last, first_known (tm_lastId M0) (live_trades schema rows) sym = Some lo /\
     tm_lastId M !! sym = Some last /\ lo < x <= last) \/
  (exists g, g ∈ gap_at <$> open_lines M0 /\ in_gap sym x g).
Definition accounted (rows : list K) (events : list (TradeGap * GapStatus * string)) (M : TradeMemory)
    (sym : string) (x : Z) : Prop :=
  (exists row backfilled, row ∈ rows /\ row_origin schema row = Some (sym, x, backfilled)) \/
  (exists g, g ∈ gap_at <$> open_lines M /\ in_gap sym x g) \/
  (exists g why, (g, Unrecoverable, why) ∈ events /\ in_gap sym x g).

Record hands_over (M0 : TradeMemory) (rows : list K) (events : list (TradeGap * GapStatus * string))
    (M : TradeMemory) : Prop := {
  ho_known sym : tm_lastId M !! sym = None <-> first_known (tm_lastId M0) (live_trades schema rows) sym = None;
  ho_accounted sym x : owed M0 rows M sym x -> accounted rows events M sym x
}.

Lemma live_trades_app rows rows' :
  live_trades schema (rows ++ rows') = live_trades schema rows ++ live_trades schema rows'.
Proof. unfold live_trades, live_origins. by rewrite !omap_app. Qed.

(** The first id known: from the rows so far if they have one, else from the next. *)
Lemma first_known_app t l l' sym :
  first_known t (l ++ l') sym =
    match first_known t l sym with Some lo => Some lo | None => first_known ∅ l' sym end.
Proof.
  unfold first_known. rewrite lookup_empty, find_app. destruct (t !! sym); [done|].
  by destruct (List.find _ l).
Qed.
Lemma first_known_none t l sym : t !! sym = None -> first_known ∅ l sym = first_known t l sym.
Proof. unfold first_known. rewrite lookup_empty. by intros ->. Qed.

Lemma hands_over_nothing M : hands_over M [] [] M.
Proof.
  constructor.
  - intros sym. unfold first_known. cbn. by destruct (tm_lastId M !! sym).
  - intros sym x [(lo & last & Hlo & Hlast & Hx)|Hg]; [|by right; left].
    unfold first_known in Hlo. rewrite Hlast in Hlo. injection Hlo as ->. lia.
Qed.

Lemma accounted_app rows rows' events events' M sym x :
  accounted rows events M sym x \/ accounted rows' events' M sym x ->
  accounted (rows ++ rows') (events ++ events') M sym x.
Proof.
  unfold accounted. setoid_rewrite elem_of_app.
  intros [[(row & b & ? & ?)|[?|(g & why & ? & ?)]]|[(row & b & ? & ?)|[?|(g & why & ? & ?)]]];
    eauto 8; right; right; eauto 8.
Qed.

(** Handing over composes. *)
Lemma hands_over_trans M0 M M' rows rows' events events' :
  hands_over M0 rows events M -> hands_over M rows' events' M' ->
  hands_over M0 (rows ++ rows') (events ++ events') M'.
Proof.
  intros [Hk Ha] [Hk' Ha']. constructor.
  - intros sym. rewrite Hk', live_trades_app, first_known_app. specialize (Hk sym).
    destruct (tm_lastId M !! sym) as [p|] eqn:E.
    + destruct (first_known (tm_lastId M0) _ sym); [|discriminate (proj2 Hk eq_refl)].
      unfold first_known. by rewrite E.
    + rewrite (proj1 Hk eq_refl). by rewrite (first_known_none (tm_lastId M)).
  - intros sym x Hx.
    assert (owed M0 rows M sym x \/ owed M rows' M' sym x) as [H1|H2].
    { destruct Hx as [(lo & last & Hlo & Hlast & Hx)|Hg]; [|by left; right].
      rewrite live_trades_app, first_known_app in Hlo. destruct (tm_lastId M !! sym) as [p|] eqn:E.
      - assert (first_known (tm_lastId M0) (live_trades schema rows) sym = Some lo) as Hlo'
          by (destruct (first_known (tm_lastId M0) _ sym) eqn:Ef; [congruence|]; apply Hk in Ef; congruence).
        destruct (Z.le_gt_cases x p); [left; left; exists lo, p; split; [done|]; split; [done|lia]|right; left].
        exists p, last. unfold first_known. rewrite E. split; [done|]. split; [done|lia].
      - rewrite (proj1 (Hk sym) E), (first_known_none (tm_lastId M)) in Hlo by done. right. left. eauto. }
    + apply accounted_app. destruct (Ha _ _ H1) as [?|[Hg|?]]; [by left; left| |by left; right; right].
      right. apply Ha'. by right.
    + apply accounted_app. right. by apply Ha'.
Qed.
End hand_over.

(** ** One process after the other *)

Section restart.
Context (m : MarketConfig) (tpHost : string) (tpPort : Z).
Context {W V : Type} `{Process W} `{TpLink W}
  `{Ses : !forall start, TpSession W (tradeTpConfigOf m tpHost tpPort start) row_seq}
  `{Host W} `{WebSocket W} `{HttpLib W} `{Background W} `{JsonLib V}
  `{Qui : !forall start, TpQuiet W (tradeTpConfigOf m tpHost tpPort start)}.
Hypothesis Htable : mc_tpTable m <> "health_feed_handler"%string.
Hypothesis Hfeed : forall w msg e,
  fst (ws_read w) = Some msg -> parse_trade_message (mc_schema m) msg = Some e -> trade_ok e.

Local Abbreviation tbl := (mc_tpTable m).
Local Abbreviation schema := (mc_schema m).
Local Abbreviation tpc start := (tradeTpConfigOf m tpHost tpPort start).
Local Abbreviation log_of start w := (t_log (cfg := tpc start) w).

(** The summary of a run, as what TP has been told of it. *)
Lemma summary_told M st ns L rows h log :
  memory_ok M -> tells M st -> summary W m st L rows h log ->
  rows_in ns = rows -> Forall2 (is_gap_row tbl) (events_in ns) (records L) ->
  told tbl schema M ns L (idTracker_ h) (j_gap <$> queue_ (backfill_ h)).
Proof.
  intros Hm Ht [_ Hi Hb Hn _ Ho _] <- He. rewrite (tells_seeded _ _ Ht) in Hb, Hn.
  constructor; [done| |done..]. exists (reopened st). split; [by apply tells_reopened|done].
Qed.

(** A tracker knows the symbols whose accounting has started. *)
Lemma summary_known st L rows h log sym :
  summary W m st L rows h log ->
  idTracker_ h !! sym = None <-> first_known (seeded st) (live_trades schema rows) sym = None.
Proof.
  intros Hs. rewrite (summary_live _ _ _ _ _ _ Hs). destruct Hs as [_ _ [<- _ _] _ _ _ _].
  destruct (detect (seeded st) (live L)) as [gs t] eqn:E. by apply (detect_known _ _ gs).
Qed.

(** A process that starts fresh in its session, is told [M], and runs to its end. *)
Definition process (M : TradeMemory) (start : Z) (h : TradeFeedHandler) (w : W) : Prop :=
  exists symbols fuel rounds frames w0,
    t_last (cfg := tpc start) w0 = None /\ log_of start w0 = [] /\ tells M (answer_at_start (tpc start) fuel w0) /\
    run fuel rounds frames (newTradeFeedHandler symbols m tpHost tpPort start) w0 = Some (tt, h, w).

Lemma process_hands_over M start h w :
  memory_ok M -> process M start h w ->
  exists rows events,
    published_trades W m rows h (log_of start w) /\ events_kept tbl (gapEvents_ h) events /\
    forall ns, rows_in ns = rows -> Forall2 (is_gap_row tbl) (events_in ns) events ->
      let M' := remember tbl schema M ns in
      memory_ok M' /\ tm_lastId M' = idTracker_ h /\ hands_over schema M rows events M'.
Proof.
  intros Hm (symbols & fuel & rounds & frames & w0 & Hl & Hlog & Ha & Hrun).
  destruct (run_summary m tpHost tpPort start fuel Htable Hfeed _ _ _ _ _ _ Hl Hlog (tells_ok _ _ Hm Ha) Hrun)
    as (L & rows & Hs). exists rows, (records L).
  split; [apply Hs|]. split; [apply Hs|]. intros ns Hrows Hev M'.
  pose proof (summary_told M _ ns L rows h _ Hm Ha Hs Hrows Hev) as Ht.
  split; [by eapply told_memory|]. assert (tm_lastId M' = idTracker_ h) as Hid by (by eapply told_ids).
  split; [done|]. constructor.
  - intros sym. rewrite Hid, <-(tells_seeded _ _ Ha). by eapply summary_known.
  - intros sym x. pose proof (summary_accounted m Htable _ L rows h _ sym x Hs) as Hacc.
    rewrite (tells_seeded _ _ Ha) in Hacc. setoid_rewrite (tells_reopened _ _ Ha) in Hacc. unfold owed. rewrite Hid.
    intros Hx. destruct (Hacc Hx) as [?|[(j & Hj & Hin)|?]]; [by left| |by right; right]. right. left.
    apply (told_open _ _ _ _ _ _ _ Ht (j_gap j)); [by apply list_elem_of_fmap_2|done].
Qed.

(** What holds after each of any number of processes in turn: rows and gap events
    so far, and TP's memory, to which the process's have come, in any order of the
    two streams. *)
Fixpoint restarts (n : nat) (M0 M : TradeMemory) (rows : list K) (events : list (TradeGap * GapStatus * string)) : Prop :=
  memory_ok M /\ hands_over schema M0 rows events M /\
  match n with
  | O => True
  | S n =>
      forall start h w, process M start h w ->
        exists rows' events',
          published_trades W m rows' h (log_of start w) /\ events_kept tbl (gapEvents_ h) events' /\
          forall ns, rows_in ns = rows' -> Forall2 (is_gap_row tbl) (events_in ns) events' ->
            restarts n M0 (remember tbl schema M ns) (rows ++ rows') (events ++ events')
  end.

End restart.
