(* ===== verification/TickerPlant.v ===== *)
(** * The tickerplant's session code (kdb/tick/tp.q)

    What TP does for one data table: registrations, rows, gap events, midnight, exit
    and restart, with the state it has in memory, in the daily logs and in the
    session file. Its contract is a specification without any of that: a session is
    a handler's process, and a registration is answered with the highest number
    logged in it. The q code keeps to it, and what [.tp.tradeState] tells is what the
    logs hold, over any sequence of operations and restarts but those the code does
    not provide for ([TpLine] gives two).

    Rows are kept without the two stamps TP appends. Files are written and read back
    without error. *)

From S2P Require Import Prelude Double CStdlib KObject TpPublisher TradeGap TradeBackfill TradeBackfillProps TradeLedger.
From S2P Require Import MarketConfig TpSession Rows TradeHandlerProps TpMemory Backoff.

Open Scope Z_scope.
Local Open Scope rec_scope.

(** ** State *)

(** One table's entries of [.tp.ctr]. *)
Record TpCounters := mkTpCounters {
  ctr_gaps : Z; ctr_missed : Z; ctr_restarts : Z; ctr_reconnects : Z; ctr_outOfOrder : Z;
  ctr_unregisteredRows : Z; ctr_schemaMismatch : Z
}.
#[export] Instance eta_TpCounters : Eta TpCounters := fun c =>
  mkTpCounters (ctr_gaps c) (ctr_missed c) (ctr_restarts c) (ctr_reconnects c) (ctr_outOfOrder c)
    (ctr_unregisteredRows c) (ctr_schemaMismatch c).
Definition no_counts : TpCounters := mkTpCounters 0 0 0 0 0 0 0.

(** One table's part of the session file; a null is [None]. *)
Record SessionFile := mkSessionFile { sf_id : option Z; sf_lastSeq : option Z; sf_memory : TradeMemory }.

(** [.tp.session.id], [.tp.seq.last], [.tp.session.handle], the handles of
    [.tp.handleTable] with this table, the trade state; today's log and the older
    ones; the session file. *)
Record TpTable := mkTpTable {
  session_id : option Z; seq_last : option Z; session_handle : option Z; handleTable : gset Z; memory : TradeMemory; ctr : TpCounters;
  rejectedRegistrations : Z;
  day_log : list note; old_logs : list note; session_file : option SessionFile
}.
#[export] Instance eta_TpTable : Eta TpTable := fun t =>
  mkTpTable (session_id t) (seq_last t) (session_handle t) (handleTable t) (memory t) (ctr t) (rejectedRegistrations t)
    (day_log t) (old_logs t) (session_file t).
Definition no_memory : TradeMemory := mkMemory ∅ ∅.
Definition newTpTable : TpTable := mkTpTable None None None ∅ no_memory no_counts 0 [] [] None.

(** ** Operations *)

Section table.
(** The table, its trade id column if it has one, and a handler's row width. *)
Context (tbl : string) (schema : option TradeSchema) (fhWidth : Z).

Definition session_save (t : TpTable) : TpTable :=
  t <| session_file := Some (mkSessionFile (session_id t) (seq_last t) (memory t)) |>.

Definition session_load (t : TpTable) : TpTable :=
  match session_file t with
  | None => t
  | Some f => t <| session_id := sf_id f |> <| seq_last := sf_lastSeq f |> <| memory := sf_memory f |>
  end.

Definition width_error (width : Z) : K :=
  KError ("schema width mismatch for " +:+ tbl +:+ ": handler sends " +:+ to_string width +:+
          " columns, schema expects " +:+ to_string fhWidth)%string.
Inductive RegKind := KNew | KReconnect | KRestart.
Definition registerSession (h sessionId nextSeq width : Z) (t : TpTable) : K * TpTable :=
  if negb (width =? fhWidth) then (width_error width, t <| rejectedRegistrations ::= Z.succ |>)
  else
    let lastSeq := seq_last t in
    let kind := match session_id t with
                | None => KNew
                | Some prevId => if sessionId =? prevId then KReconnect else KRestart
                end in
    let restarted t := t <| ctr ::= fun c => c <| ctr_restarts ::= Z.succ |> |> <| seq_last := Some (nextSeq - 1) |> in
    let '(reply, t) :=
      match kind with
      | KNew =>
          match lastSeq with
          | None => (-1, t <| seq_last := Some (nextSeq - 1) |>)
          | Some l => if nextSeq - 1 <? l then (-1, restarted t) else (l, t)
          end
      | KRestart => (-1, restarted t)
      | KReconnect =>
          let t := t <| ctr ::= fun c => c <| ctr_reconnects ::= Z.succ |> |> in
          match lastSeq with
          | None => (-1, t <| seq_last := Some (nextSeq - 1) |>)
          | Some l => (l, t)
          end
      end in
    (KLong reply,
     session_save (t <| session_id := Some sessionId |> <| session_handle := Some h |> <| handleTable ::= fun hs => {[h]} ∪ hs |>)).

Definition checkSeq (seq : Z) (t : TpTable) : TpTable :=
  match seq_last t with
  | None => t <| seq_last := Some seq |>
  | Some lastSeq =>
      if seq =? lastSeq + 1 then t <| seq_last := Some seq |>
      else if lastSeq + 1 <? seq then
        t <| ctr ::= fun c => c <| ctr_gaps ::= Z.succ |> <| ctr_missed ::= Z.add (seq - lastSeq - 1) |> |>
          <| seq_last := Some seq |>
      else t <| ctr ::= fun c => c <| ctr_outOfOrder ::= Z.succ |> |>
  end.

(** A row of the table in [upd]. *)
Definition note_row (row : K) (m : TradeMemory) : TradeMemory :=
  match schema with Some s => noteTradeId s row m | None => m end.
Definition upd (h : Z) (row : K) (t : TpTable) : TpTable :=
  if negb (k_n row =? fhWidth) then t <| ctr ::= fun c => c <| ctr_schemaMismatch ::= Z.succ |> |>
  else
    let t := if bool_decide (h ∈ handleTable t) then t
             else t <| ctr ::= fun c => c <| ctr_unregisteredRows ::= Z.succ |> |> in
    (checkSeq (row_seq row) t) <| memory ::= note_row row |> <| day_log ::= fun l => l ++ [RowNote row] |>.

(** What [upd] has done to the table when the row's number cannot be reserved or the
    log cannot be written ([TickerLog]): the error comes after the row was counted and
    noted. *)
Definition upd_refused (h : Z) (row : K) (t : TpTable) : TpTable := (upd h row t) <| day_log := day_log t |>.

(** [.tp.event] for [trade_gap]; false is the error thrown on a wrong width. *)
Definition event (row : K) (t : TpTable) : bool * TpTable :=
  if negb (k_n row =? GAP_ROW_WIDTH) then (false, t)
  else (true, session_save (t <| day_log ::= fun l => l ++ [GapNote row] |> <| memory ::= noteGap tbl row |>)).

(** [.z.pc]. *)
Definition closed (h : Z) (t : TpTable) : TpTable :=
  if negb (bool_decide (h ∈ handleTable t)) then t
  else
    t <| handleTable ::= fun hs => hs ∖ {[h]} |>
      <| session_handle := if bool_decide (session_handle t = Some h) then None else session_handle t |>.

(** The log is rotated, the session file saved, the counters and the closed gaps
    dropped. *)
Definition drop_closed (m : TradeMemory) : TradeMemory :=
  m <| tm_gaps ::= filter (fun ke => is_open (snd ke) = true) |>.
Definition endOfDay (t : TpTable) : TpTable :=
  let t := session_save (t <| old_logs := old_logs t ++ day_log t |> <| day_log := [] |>) in
  t <| ctr := no_counts |> <| memory ::= drop_closed |>.

(** [.z.exit]. *)
Definition exit (t : TpTable) : TpTable := session_save t.

(** [.tp.recoverFhSeq]: a scan of today's log, whose last row gives the number. *)
Definition scanUpd (m : TradeMemory) (n : note) : TradeMemory :=
  match n with RowNote row => note_row row m | GapNote row => noteGap tbl row m end.
Definition last_seq (ns : list note) : option Z := row_seq <$> last (rows_in ns).
Definition recoverFhSeq (t : TpTable) : TpTable :=
  t <| seq_last := match last_seq (day_log t) with Some n => Some n | None => seq_last t end |>
    <| memory ::= fun m => fold_left scanUpd (day_log t) m |>.

(** A new process, on the same day or on a later one: what was in memory is gone. *)
Definition restart (newDay : bool) (t : TpTable) : TpTable :=
  let t := mkTpTable None None None ∅ no_memory no_counts 0
             (if newDay then [] else day_log t) (if newDay then old_logs t ++ day_log t else old_logs t)
             (session_file t) in
  recoverFhSeq (session_load t).

Inductive tp_op :=
  | Register (h sessionId nextSeq width : Z)
  | Upd (h : Z) (row : K)
  | Event (row : K)
  | Closed (h : Z)
  | EndOfDay
  | Exit
  | Restart (newDay : bool).

(** One operation, with the registration's answer. *)
Definition tp_step (o : tp_op) (t : TpTable) : list K * TpTable :=
  match o with
  | Register h sid next w => let '(r, t) := registerSession h sid next w t in ([r], t)
  | Upd h row => ([], upd h row t)
  | Event row => ([], snd (event row t))
  | Closed h => ([], closed h t)
  | EndOfDay => ([], endOfDay t)
  | Exit => ([], exit t)
  | Restart newDay => ([], restart newDay t)
  end.
Fixpoint tp_run (os : list tp_op) (t : TpTable) : list K * TpTable :=
  match os with
  | [] => ([], t)
  | o :: os => let '(r, t) := tp_step o t in let '(rs, t) := tp_run os t in (r ++ rs, t)
  end.

(** All that was ever logged. *)
Definition all_logs (t : TpTable) : list note := old_logs t ++ day_log t.

(** ** The contract

    A handler's process is a session: its id, the number before its first one, the
    rows logged in it. A specification of the table keeps that, and, to tell which
    restarts are provided for, the number of the last row of today's log and whether
    anything was logged since the session file was saved. *)
Record Session := mkSession { ss_id : Z; ss_base : Z; ss_rows : list K }.
Definition highest (s : Session) : Z := fold_left (fun m row => Z.max (row_seq row) m) (ss_rows s) (ss_base s).
Record TpSpec := mkTpSpec { sp_session : option Session; sp_today : option Z; sp_saved : bool }.
#[export] Instance eta_TpSpec : Eta TpSpec := fun s => mkTpSpec (sp_session s) (sp_today s) (sp_saved s).
Definition newTpSpec : TpSpec := mkTpSpec None None true.

Definition log_row (row : K) (s : Session) : Session := mkSession (ss_id s) (ss_base s) (ss_rows s ++ [row]).

(** A handler that comes back is told the highest number logged in its session; a
    new one is told -1 and starts a session. *)
Definition spec_step (o : tp_op) (s : TpSpec) : list K * TpSpec :=
  match o with
  | Register _ sid next width =>
      if negb (width =? fhWidth) then ([width_error width], s)
      else
        let fresh := ([KLong (-1)], s <| sp_session := Some (mkSession sid (next - 1) []) |> <| sp_saved := true |>) in
        match sp_session s with
        | Some ss => if sid =? ss_id ss then ([KLong (highest ss)], s <| sp_saved := true |>) else fresh
        | None => fresh
        end
  | Upd _ row =>
      ([], if negb (k_n row =? fhWidth) then s
           else mkTpSpec (log_row row <$> sp_session s) (Some (row_seq row)) false)
  | Event row => ([], if negb (k_n row =? GAP_ROW_WIDTH) then s else s <| sp_saved := true |>)
  | Closed _ => ([], s)
  | EndOfDay => ([], mkTpSpec (sp_session s) None true)
  | Exit => ([], s <| sp_saved := true |>)
  | Restart newDay => ([], if newDay then s <| sp_today := None |> else s)
  end.
Fixpoint spec_run (os : list tp_op) (s : TpSpec) : list K * TpSpec :=
  match os with
  | [] => ([], s)
  | o :: os => let '(r, s) := spec_step o s in let '(rs, s) := spec_run os s in (r ++ rs, s)
  end.

(** What the code provides for: rows come from registered handlers; TP restarts on a
    later day only after it saved all it logged, and on the same day only if the
    last row of today's log, if any, is the highest of the session. *)
Definition provided (o : tp_op) (s : TpSpec) : bool :=
  match o with
  | Upd _ _ => bool_decide (is_Some (sp_session s))
  | Restart true => sp_saved s
  | Restart false =>
      match sp_today s with None => true | Some n => bool_decide (highest <$> sp_session s = Some n) end
  | _ => true
  end.
(** Of the trade state alone, less is asked. *)
Definition settled (o : tp_op) (s : TpSpec) : bool := match o with Restart true => sp_saved s | _ => true end.
Fixpoint all_ok (ok : tp_op -> TpSpec -> bool) (os : list tp_op) (s : TpSpec) : bool :=
  match os with [] => true | o :: os => ok o s && all_ok ok os (snd (spec_step o s)) end.

(** *** The simulation *)

#[local] Arguments highest : simpl never.
#[local] Arguments rows_in : simpl never.
#[local] Arguments last_seq : simpl never.

Definition file_of (t : TpTable) : SessionFile := default (mkSessionFile None None no_memory) (session_file t).

Record simulates (t : TpTable) (s : TpSpec) : Prop := {
  sm_id : session_id t = ss_id <$> sp_session s;
  sm_last : seq_last t = highest <$> sp_session s;
  sm_today : last_seq (day_log t) = sp_today s;
  sm_file_id : sf_id (file_of t) = ss_id <$> sp_session s;
  sm_file_last : sp_saved s = true \/ sp_today s = None -> sf_lastSeq (file_of t) = highest <$> sp_session s;
  sm_rows : forall ss, sp_session s = Some ss -> ss_rows ss `suffix_of` rows_in (all_logs t)
}.

Lemma checkSeq_frame seq t :
  exists c, checkSeq seq t = t <| seq_last := Some (Z.max seq (default seq (seq_last t))) |> <| ctr := c |>.
Proof.
  unfold checkSeq. destruct t as [id [l|] sh hs m c rj d o f]; cbn.
  - destruct (Z.eqb_spec seq (l + 1)); [|destruct (Z.ltb_spec (l + 1) seq)]; eexists;
      cbn; rewrite ?Z.max_l, ?Z.max_r by lia; reflexivity.
  - exists c. cbn. by rewrite Z.max_id.
Qed.

Lemma upd_frame h row t :
  k_n row = fhWidth ->
  exists c, upd h row t = t <| seq_last := Some (Z.max (row_seq row) (default (row_seq row) (seq_last t))) |>
    <| ctr := c |> <| memory ::= note_row row |> <| day_log ::= fun l => l ++ [RowNote row] |>.
Proof.
  intros Hw. unfold upd. rewrite Hw, Z.eqb_refl. cbn [negb].
  set (t1 := if bool_decide _ then t else _).
  assert (exists c, t1 = t <| ctr := c |>) as [c ->] by (subst t1; case_bool_decide; [exists (ctr t); by destruct t|by eexists]).
  destruct (checkSeq_frame (row_seq row) (t <| ctr := c |>)) as [c' ->]. by exists c'.
Qed.

Lemma closed_frame h t : exists hs sh, closed h t = t <| handleTable := hs |> <| session_handle := sh |>.
Proof. unfold closed. case_match; [exists (handleTable t), (session_handle t); by destruct t|by do 2 eexists]. Qed.

Lemma last_seq_snoc ns row : last_seq (ns ++ [RowNote row]) = Some (row_seq row).
Proof. unfold last_seq. by rewrite rows_in_snoc, last_snoc. Qed.

Lemma highest_log row s : highest (log_row row s) = Z.max (row_seq row) (highest s).
Proof. unfold highest. cbn. by rewrite fold_left_app. Qed.

Lemma restart_frame newDay t :
  restart newDay t =
    recoverFhSeq (mkTpTable (sf_id (file_of t)) (sf_lastSeq (file_of t)) None ∅ (sf_memory (file_of t)) no_counts 0
      (if newDay then [] else day_log t) (if newDay then old_logs t ++ day_log t else old_logs t) (session_file t)).
Proof. unfold restart, session_load, file_of. by destruct (session_file t). Qed.

Lemma event_rows row t : rows_in (all_logs (snd (event row t))) = rows_in (all_logs t).
Proof.
  unfold event, all_logs. case_match; [done|]. cbn. by rewrite app_assoc, rows_in_snoc, app_nil_r.
Qed.

Lemma last_seq_event ns row : last_seq (ns ++ [GapNote row]) = last_seq ns.
Proof. unfold last_seq. by rewrite rows_in_snoc, app_nil_r. Qed.

(** A registration. *)
Lemma register_simulated h sid next width t s :
  simulates t s ->
  fst (tp_step (Register h sid next width) t) = fst (spec_step (Register h sid next width) s) /\
  simulates (snd (tp_step (Register h sid next width) t)) (snd (spec_step (Register h sid next width) s)).
Proof.
  intros [Hid Hlast Htoday Hfid Hflast Hrows]. cbn. unfold registerSession.
  destruct (negb (width =? fhWidth)); [by split; [|constructor]|]. rewrite Hid, Hlast.
  destruct (sp_session s) as [ss|] eqn:Es; cbn in *.
  - destruct (Z.eqb_spec sid (ss_id ss)) as [->|_]; cbn; (split; [done|]); constructor; cbn; rewrite ?Es; try done.
    intros ss' [= <-]. apply suffix_nil.
  - split; [done|]. constructor; cbn; try done. intros ss' [= <-]. apply suffix_nil.
Qed.

(** A row. *)
Lemma upd_simulated h row t s :
  simulates t s -> is_Some (sp_session s) ->
  simulates (upd h row t) (snd (spec_step (Upd h row) s)).
Proof.
  intros [Hid Hlast Htoday Hfid Hflast Hrows] [ss Es]. cbn. destruct (Z.eqb_spec (k_n row) fhWidth) as [Hw|Hw]; cbn.
  - destruct (upd_frame h row t Hw) as [c ->]. rewrite Es in *. cbn in *. constructor; cbn; rewrite ?Es; cbn; try done.
    + by rewrite Hlast, highest_log.
    + by rewrite last_seq_snoc.
    + by intros [].
    + intros ss' [= <-]. unfold all_logs. cbn. destruct (Hrows ss eq_refl) as [k Hk]. exists k.
      unfold all_logs in Hk. by rewrite app_assoc, rows_in_snoc, Hk, app_assoc.
  - unfold upd. rewrite (proj2 (Z.eqb_neq _ _) Hw). by constructor.
Qed.

(** A restart. *)
Lemma restart_simulated newDay t s :
  simulates t s -> provided (Restart newDay) s = true ->
  simulates (restart newDay t) (snd (spec_step (Restart newDay) s)).
Proof.
  intros [Hid Hlast Htoday Hfid Hflast Hrows] Hok. rewrite restart_frame. destruct newDay; cbn in *.
  - constructor; cbn; try done; [by apply Hflast; left|by intros _; apply Hflast; left|].
    unfold all_logs in *. cbn. by rewrite app_nil_r.
  - constructor; cbn; try done. rewrite Htoday. destruct (sp_today s) as [n|]; [|by apply Hflast; right].
    by apply bool_decide_eq_true in Hok as ->.
Qed.

Lemma step_simulated o t s :
  simulates t s -> provided o s = true ->
  fst (tp_step o t) = fst (spec_step o s) /\ simulates (snd (tp_step o t)) (snd (spec_step o s)).
Proof.
  intros Hs Hok. destruct o as [h sid next width|h row|row|h| | |newDay].
  - by apply register_simulated.
  - split; [done|]. apply bool_decide_eq_true in Hok. by apply upd_simulated.
  - split; [done|]. pose proof (event_rows row t) as Hr. destruct Hs as [? ? ? ? ? Hrows].
    rewrite <-Hr in Hrows. cbn in *. unfold event in *.
    destruct (negb _); constructor; cbn in *; try done. by rewrite last_seq_event.
  - split; [done|]. cbn. destruct (closed_frame h t) as (hs & sh & ->). by destruct Hs; constructor.
  - split; [done|]. destruct Hs as [? ? ? ? ? Hrows]. constructor; cbn; try done.
    unfold all_logs in *. cbn. by rewrite app_nil_r.
  - split; [done|]. by destruct Hs; constructor.
  - split; [done|]. by apply restart_simulated.
Qed.

Lemma run_simulated os t s :
  simulates t s -> all_ok provided os s = true ->
  fst (tp_run os t) = fst (spec_run os s) /\ simulates (snd (tp_run os t)) (snd (spec_run os s)).
Proof.
  revert t s. induction os as [|o os IH]; intros t s Hs Hok; [done|]. cbn in *. apply andb_true_iff in Hok as [Ho Hok].
  destruct (step_simulated o t s Hs Ho) as [E1 Hs1].
  destruct (tp_step o t) as [r t1], (spec_step o s) as [r' s1]. cbn [fst snd] in *. subst r'.
  destruct (IH t1 s1 Hs1 Hok) as [E2 Hs2].
  destruct (tp_run os t1), (spec_run os s1). cbn [fst snd] in *. by subst.
Qed.

Lemma new_simulates : simulates newTpTable newTpSpec.
Proof. by constructor. Qed.

(** C8: what TP promises a handler at registration. Over any sequence of
    registrations, rows, gap events, closed connections, midnights, exits and
    restarts that the code provides for, every answer is the specification's: a
    handler that comes back is told the highest number logged in its session, a new
    one -1; and the rows logged since a session began are the last ones in the logs. *)
Theorem registrations_are_answered os :
  all_ok provided os newTpSpec = true ->
  let '(rs, t) := tp_run os newTpTable in let '(rs', s) := spec_run os newTpSpec in
  rs = rs' /\
  (forall ss, sp_session s = Some ss ->
     session_id t = Some (ss_id ss) /\ seq_last t = Some (highest ss) /\ ss_rows ss `suffix_of` rows_in (all_logs t)).
Proof.
  intros Hok. destruct (run_simulated os _ _ new_simulates Hok) as [E [Hid Hlast _ _ _ Hrows]].
  destruct (tp_run os newTpTable) as [rs t], (spec_run os newTpSpec) as [rs' s]. cbn [fst snd] in *.
  split; [done|]. intros ss Hss. rewrite Hid, Hlast, Hss. auto.
Qed.
End table.

(** ** What the trade state tells

    For a trade table: over any operations and restarts, the memory is what reading
    all the logs gives, but for closed gaps, which are not told. *)

Section logs.
Context (tbl : string) (schema : TradeSchema) (fhWidth : Z).
Local Abbreviation remember := (remember tbl schema).
Local Abbreviation step := (tp_step tbl (Some schema) fhWidth).

(** The session file knows the logs up to a point of today's. *)
Record remembers (t : TpTable) (saved : bool) : Prop := {
  rm_memory : memory t ≡ remember no_memory (all_logs t);
  rm_file : exists ns ns', day_log t = ns ++ ns' /\ (saved = true -> ns' = []) /\
    sf_memory (file_of t) ≡ remember no_memory (old_logs t ++ ns)
}.

Lemma drop_closed_same m : drop_closed m ≡ m.
Proof.
  split; [done|]. intros k. unfold open_at, drop_closed. cbn [tm_gaps modify eta_TradeMemory].
  destruct (tm_gaps m !! k) as [e|] eqn:E; cbn.
  - unfold only_open. destruct (is_open e) eqn:Eo.
    + rewrite (map_lookup_filter_Some_2 _ _ _ e); [cbn; by rewrite Eo|done|done].
    + rewrite map_lookup_filter_None_2; [done|]. right. intros e' ? He. cbn in He. congruence.
  - by rewrite map_lookup_filter_None_2 by (by left).
Qed.

Lemma scan_remember ns m : fold_left (scanUpd tbl (Some schema)) ns m = remember m ns.
Proof. done. Qed.

(** Any new state that logs [ns] and notes it. *)
Lemma remembers_note t n t' (saved saved' : bool) :
  remembers t saved -> day_log t' = day_log t ++ [n] -> old_logs t' = old_logs t ->
  memory t' = take_note tbl schema (memory t) n ->
  (session_file t' = session_file t /\ saved' = false) \/ sf_memory (file_of t') = memory t' ->
  remembers t' saved'.
Proof.
  intros [Hm (ns & ns' & Hd & _ & Hf)] Ed Eo Em Ef.
  assert (memory t' ≡ remember no_memory (all_logs t')) as Hm'.
  { unfold all_logs in *. by rewrite Ed, Eo, app_assoc, remember_snoc, Em, Hm. }
  constructor; [done|]. destruct Ef as [[Ef ->]|Ef].
  - exists ns, (ns' ++ [n]). rewrite Ed, Hd, Eo. unfold file_of. rewrite Ef. split; [by rewrite app_assoc|]. by split.
  - exists (day_log t'), []. rewrite app_nil_r, Ef. by split.
Qed.

Lemma remembers_saved t t' (saved saved' : bool) :
  remembers t saved -> all_logs t' = all_logs t -> memory t' ≡ memory t ->
  sf_memory (file_of t') ≡ memory t -> remembers t' saved'.
Proof.
  intros [Hm _] El Em Ef. constructor; [by rewrite El, Em|]. exists (day_log t'), [].
  rewrite app_nil_r. split; [done|]. split; [done|]. change (old_logs t' ++ day_log t') with (all_logs t'). by rewrite El, Ef.
Qed.

Lemma remembers_same t t' (saved : bool) :
  remembers t saved -> day_log t' = day_log t -> old_logs t' = old_logs t -> memory t' = memory t ->
  session_file t' = session_file t -> remembers t' saved.
Proof. intros [] E1 E2 E3 E4. constructor; unfold all_logs, file_of in *; by rewrite E1, E2, ?E3, ?E4. Qed.

Lemma restart_remembers newDay t s :
  remembers t (sp_saved s) -> settled (Restart newDay) s = true ->
  remembers (restart tbl (Some schema) newDay t) (sp_saved s).
Proof.
  intros [Hm (ns & ns' & Hd & Hs & Hf)] Hok. rewrite restart_frame. destruct newDay; cbn in Hok.
  - rewrite Hs, app_nil_r in Hd by done. rewrite <-Hd in Hf.
    constructor; unfold all_logs; cbn; rewrite ?app_nil_r; [done|]. exists [], []. by rewrite !app_nil_r.
  - constructor; unfold all_logs; cbn; [|by exists ns, ns'].
    change (fold_left (scanUpd tbl (Some schema)) (day_log t) (sf_memory (file_of t)) ≡
      remember no_memory (old_logs t ++ day_log t)).
    by rewrite scan_remember, Hf, Hd, (remember_app _ _ _ (old_logs t) ns), remember_again, <-remember_app.
Qed.

Lemma step_remembers o t s :
  remembers t (sp_saved s) -> settled o s = true ->
  remembers (snd (step o t)) (sp_saved (snd (spec_step tbl fhWidth o s))).
Proof.
  intros Hr Hok. destruct o as [h sid next width|h row|row|h| | |newDay]; cbn [tp_step spec_step snd].
  - unfold registerSession. destruct (negb (width =? fhWidth)); [by eapply remembers_same|].
    assert (forall t1, memory t1 = memory t -> all_logs t1 = all_logs t -> remembers (session_save t1) true) as Hsave.
    { intros t1 E1 E2. apply (remembers_saved t _ (sp_saved s)); cbn; by rewrite ?E1. }
    set (res := match _ with KNew => _ | _ => _ end).
    assert (memory (snd res) = memory t /\ all_logs (snd res) = all_logs t) as [E1 E2] by (subst res; by repeat case_match).
    destruct res as [reply t1]. cbn [snd fst] in *.
    destruct (sp_session s) as [ss|]; [destruct (sid =? ss_id ss)|]; by apply Hsave.
  - destruct (Z.eqb_spec (k_n row) fhWidth) as [Hw|Hw]; cbn [negb].
    + destruct (upd_frame (Some schema) fhWidth h row t Hw) as [c ->].
      eapply (remembers_note t (RowNote row)); [exact Hr|done..|by left].
    + unfold upd. rewrite (proj2 (Z.eqb_neq _ _) Hw). by eapply remembers_same.
  - unfold event. destruct (negb _); [done|]. cbn [snd]. eapply (remembers_note t (GapNote row)); [exact Hr|done..|by right].
  - destruct (closed_frame h t) as (hs & sh & ->). by eapply remembers_same.
  - apply (remembers_saved t _ (sp_saved s)); unfold all_logs; cbn; rewrite ?app_nil_r; done || apply drop_closed_same.
  - by apply (remembers_saved t _ (sp_saved s)).
  - pose proof (restart_remembers newDay t s Hr Hok). by destruct newDay.
Qed.

Lemma run_remembers os t s :
  remembers t (sp_saved s) -> all_ok tbl fhWidth settled os s = true ->
  exists saved, remembers (snd (tp_run tbl (Some schema) fhWidth os t)) saved.
Proof.
  revert t s. induction os as [|o os IH]; intros t s Hr Hok; [by exists (sp_saved s)|].
  cbn in *. apply andb_true_iff in Hok as [Ho Hok]. pose proof (step_remembers o t s Hr Ho) as Hr1.
  destruct (tp_step _ _ _ o t) as [r t1]. destruct (IH t1 _ Hr1 Hok) as [saved ?]. exists saved.
  cbn [snd]. by destruct (tp_run _ _ _ os t1).
Qed.

(** C9: what TP tells a trade handler that starts is what its logs hold, all of
    them, as if it had read them from the first day on: the last ids and the open
    gaps, over any operations, midnights and restarts, if TP saved what it logged
    before it restarts on a later day. It is the answer [TradeRestart] asks for. *)
Theorem tradeState_tells_the_logs os :
  all_ok tbl fhWidth settled os newTpSpec = true ->
  let t := snd (tp_run tbl (Some schema) fhWidth os newTpTable) in
  tm_lastId (memory t) = tm_lastId (remember no_memory (all_logs t)) /\
  open_lines (memory t) ≡ₚ open_lines (remember no_memory (all_logs t)) /\
  tells (remember no_memory (all_logs t)) (parseTradeState (tradeState_reply (memory t))).
Proof.
  intros Hok. destruct (run_remembers os newTpTable newTpSpec) as [saved [Hm _]]; [|done|].
  - constructor; [done|]. by exists [], [].
  - split; [apply Hm|]. split; [by rewrite Hm|]. by eexists.
Qed.
End logs.

(** ** A day

    A connection is lost after a TP restart, TP is stopped over midnight, a handler
    that would send the wrong width is refused, and a new process takes over. *)

Definition ex_tp_trade (n : Z) : K := buildTradeRow 0 0 "BTCUSDT" (100 + n) d0 d0 false 0 0 0 0 n 0.
Local Abbreviation ex_run := (tp_run "trade_binance" (Some SpotTrade) TRADE_ROW_WIDTH).
Definition ex_day : list tp_op :=
  [Register 5 1 1 12; Upd 5 (ex_tp_trade 1); Upd 5 (ex_tp_trade 2); Restart false; Register 6 1 4 12; Upd 6 (ex_tp_trade 3);
   EndOfDay; Register 7 1 4 13; Exit; Restart true; Register 5 1 4 12; Register 5 2 1 12; Upd 5 (ex_tp_trade 1); Restart false;
   Register 6 2 3 12].

Lemma registrations_are_answered_witness :
  all_ok "trade_binance" TRADE_ROW_WIDTH provided ex_day newTpSpec = true /\
  fst (ex_run ex_day newTpTable) =
    [KLong (-1); KLong 2; width_error "trade_binance" TRADE_ROW_WIDTH 13; KLong 3; KLong (-1); KLong 1].
Proof.
  assert (all_ok "trade_binance" TRADE_ROW_WIDTH provided ex_day newTpSpec = true) as Hok by (vm_compute; reflexivity).
  split; [exact Hok|].
  pose proof (registrations_are_answered "trade_binance" (Some SpotTrade) TRADE_ROW_WIDTH ex_day Hok) as H.
  destruct (ex_run ex_day newTpTable) as [rs t].
  destruct (spec_run "trade_binance" TRADE_ROW_WIDTH ex_day newTpSpec) as [rs' s] eqn:E.
  destruct H as [-> _]. cbn [fst]. vm_compute in E. injection E as <- _. vm_compute. reflexivity.
Defined.

Lemma tradeState_tells_the_logs_witness :
  all_ok "trade_binance" TRADE_ROW_WIDTH settled ex_day newTpSpec = true /\
  tm_lastId (memory (snd (ex_run ex_day newTpTable))) = {[ "BTCUSDT"%string := 103 ]}.
Proof.
  assert (all_ok "trade_binance" TRADE_ROW_WIDTH settled ex_day newTpSpec = true) as Hok by (vm_compute; reflexivity).
  split; [exact Hok|].
  destruct (tradeState_tells_the_logs "trade_binance" SpotTrade TRADE_ROW_WIDTH ex_day Hok) as [-> _].
  vm_compute. reflexivity.
Defined.

