(* ===== verification/TpLine.v ===== *)
(** * Handlers' connections to a tickerplant that runs tp.q

    A world for the witnesses whose tickerplant is the one of [TickerPlant], reached
    over one connection at a time. It discharges the interface of the handlers,
    [TpSession]; the witnesses about the publisher run on it, and [SimWorld] adds the
    rest of the outside. At the end, two restarts tp.q does not provide for. *)

From S2P Require Import Prelude Double CStdlib Backoff KObject TpPublisher TpSession TradeGap Rows.
From S2P Require Import MarketConfig TradeHandlerProps TpMemory TickerPlant.

Open Scope Z_scope.
Local Open Scope rec_scope.

(** The script says what happens at the next sends: a row is delivered, at once or
    just after midnight; it is lost with the connection; or TP dies instead of
    reading it and has restarted when the handler comes back, if the code provides
    for that. [ln_refuse] connections are refused; [ln_reads] times the flag is read
    as set. For the statements, [ln_rows] has the rows logged in the present session. *)
Inductive happening := Delivered | AfterMidnight | Lost | Died (newDay : bool).
Record TpLine := mkTpLine {
  ln_table : TpTable; ln_rows : list K; ln_up : option Z; ln_next : Z;
  ln_script : list happening; ln_refuse : nat; ln_reads : nat
}.
#[export] Instance eta_TpLine : Eta TpLine := fun s =>
  mkTpLine (ln_table s) (ln_rows s) (ln_up s) (ln_next s) (ln_script s) (ln_refuse s) (ln_reads s).
Definition line_to (t : TpTable) (script : list happening) (refuse reads : nat) : TpLine :=
  mkTpLine t [] None 1 script refuse reads.

#[export] Instance line_process : Process TpLine := {
  is_running s := match ln_reads s with O => (false, s) | S n => (true, s <| ln_reads := n |>) end;
  stop_running s := s <| ln_reads := O |>;
  sleep_ns _ s := s
}.
#[export] Instance line_shuts_down : ShutsDown TpLine.
Proof.
  refine {| reads_left := ln_reads |}; intros; cbn in *;
    try destruct (ln_reads w) eqn:E; cbn in *; try discriminate; try done; lia.
Defined.

Section line.
Context (tbl : string) (schema : option TradeSchema) (fhWidth : Z).

Definition die (newDay : bool) (t : TpTable) : TpTable :=
  let t' := restart tbl schema newDay t in
  if bool_decide (session_id t' = session_id t /\ seq_last t' = seq_last t) then t' else t.

Definition deliver (h : Z) (row : K) (s : TpLine) : TpLine :=
  s <| ln_table ::= upd schema fhWidth h row |>
    <| ln_rows ::= fun l => if k_n row =? fhWidth then l ++ [row] else l |>.

Definition line_send (h : Z) (f : string) (args : list K) (s : TpLine) : bool * TpLine :=
  if negb (bool_decide (ln_up s = Some h)) then (false, s)
  else
    match args with
    | [KSym tbl'; row] =>
        if negb (String.eqb f ".u.upd" && String.eqb tbl' tbl) then (true, s)
        else
          let s' := s <| ln_script := tail (ln_script s) |> in
          (true, match ln_script s with
                 | [] | Delivered :: _ => deliver h row s'
                 | AfterMidnight :: _ => deliver h row (s' <| ln_table ::= endOfDay |>)
                 | Lost :: _ => s' <| ln_up := None |>
                 | Died newDay :: _ => s' <| ln_up := None |> <| ln_table ::= die newDay |>
                 end)
    | _ => (true, s)
    end.

(** A new process starts a session. The answer to an event is its tpSeqNo, which is
    not kept here. *)
Definition line_call (h : Z) (f : string) (args : list K) (s : TpLine) : option K * TpLine :=
  if negb (bool_decide (ln_up s = Some h)) then (None, s)
  else
    match args with
    | [KSym tbl'; KLong sid; KLong next; KLong width] =>
        if negb (String.eqb f ".tp.registerSession") then (Some (KError "rank"), s)
        else if negb (String.eqb tbl' tbl) then (Some (KError "unknown table"), s)
        else
          let '(r, t) := registerSession tbl fhWidth h sid next width (ln_table s) in
          let same := bool_decide (session_id (ln_table s) = None \/ session_id t = session_id (ln_table s)) in
          (Some r, s <| ln_table := t |> <| ln_rows ::= fun l => if same then l else [] |>)
    | [KSym _; row] =>
        if negb (String.eqb f ".tp.event") then (Some (KLong 1), s)
        else let '(ok, t) := event tbl row (ln_table s) in
             (Some (if ok then KLong 1 else KError "event width mismatch"), s <| ln_table := t |>)
    | [KSym _] => (Some (if String.eqb f ".tp.tradeState" then tradeState_reply (memory (ln_table s)) else KLong 1), s)
    | _ => (Some (KLong 1), s)
    end.

Definition line_link : TpLink TpLine := {|
  khpu _ _ s :=
    match ln_refuse s with
    | S n => (0, s <| ln_refuse := n |>)
    | O => (ln_next s, s <| ln_up := Some (ln_next s) |> <| ln_next ::= Z.succ |>)
    end;
  k_call := line_call;
  k_send := line_send;
  kclose h s := if decide (ln_up s = Some h) then s <| ln_up := None |> <| ln_table ::= closed h |> else s
|}.

(** ** The laws *)

(** What TP has of the session of the process [sid]: its present session is this
    one, or nobody's yet. *)
Definition of_session {A} (sid : Z) (t : TpTable) (x other : A) : A :=
  match session_id t with Some i => if i =? sid then x else other | None => x end.
Definition last_of (sid : Z) (t : TpTable) : option Z := of_session sid t (seq_last t) None.

Lemma of_session_eq {A} sid t t' (x other : A) :
  session_id t' = session_id t -> of_session sid t' x other = of_session sid t x other.
Proof. unfold of_session. by intros ->. Qed.
Lemma last_of_eq sid t t' : session_id t' = session_id t -> seq_last t' = seq_last t -> last_of sid t' = last_of sid t.
Proof. unfold last_of, of_session. by intros -> ->. Qed.
Lemma last_of_mine {A} sid t l (x other : A) : last_of sid t = Some l -> of_session sid t x other = x.
Proof. unfold last_of, of_session. destruct (session_id t) as [i|]; [by destruct (i =? sid)|done]. Qed.

Lemma upd_last sid h row t l :
  k_n row = fhWidth -> last_of sid t = Some l ->
  session_id (upd schema fhWidth h row t) = session_id t /\
  last_of sid (upd schema fhWidth h row t) = Some (Z.max (row_seq row) l).
Proof.
  intros Hw. destruct (upd_frame schema fhWidth h row t Hw) as [c ->]. unfold last_of, of_session. cbn. intros Hl.
  split; [done|]. destruct (session_id t) as [i|]; [destruct (i =? sid)|]; by try rewrite Hl.
Qed.

Lemma die_same newDay t : session_id (die newDay t) = session_id t /\ seq_last (die newDay t) = seq_last t.
Proof. unfold die. case_bool_decide as H; [by destruct H|done]. Qed.

Lemma register_last h sid next t :
  default (next - 1) (last_of sid t) <= next - 1 ->
  let '(r, t') := registerSession tbl fhWidth h sid next fhWidth t in
  r = KLong (default (-1) (last_of sid t)) /\ session_id t' = Some sid /\
  seq_last t' = Some (default (next - 1) (last_of sid t)).
Proof.
  unfold registerSession, last_of, of_session. rewrite Z.eqb_refl. cbn [negb].
  destruct (session_id t) as [i|]; [destruct (Z.eqb_spec sid i) as [<-|Hi];
    [rewrite Z.eqb_refl|rewrite (proj2 (Z.eqb_neq i sid)) by done]|];
    destruct (seq_last t) as [l|] eqn:El; cbn; intros Hn; rewrite ?El; try done.
  rewrite (proj2 (Z.ltb_ge _ _)) by lia. cbn. by rewrite El.
Qed.

#[local] Existing Instance line_link.

(** The session of the process [sid] as the interface sees it. *)
Definition line_last (sid : Z) (w : TpLine) : option Z := last_of sid (ln_table w).
Definition line_log (sid : Z) (w : TpLine) : list K := of_session sid (ln_table w) (ln_rows w) [].

(** A delivered row, whatever happened before that leaves the session alone. *)
Lemma deliver_logged sid h row w v l :
  k_n row = fhWidth -> line_last sid w = Some l ->
  ln_rows v = ln_rows w -> session_id (ln_table v) = session_id (ln_table w) ->
  seq_last (ln_table v) = seq_last (ln_table w) ->
  line_log sid (deliver h row v) = line_log sid w ++ [row] /\
  line_last sid (deliver h row v) = Some (Z.max (row_seq row) l).
Proof.
  unfold line_last, line_log. intros Hw Hl E2 E3 E4. assert (last_of sid (ln_table v) = Some l) as Hv by (by rewrite (last_of_eq _ _ _ E3 E4)).
  destruct (upd_last sid h row _ l Hw Hv) as [Hid Hl']. cbn. split; [|done].
  by rewrite Hw, Z.eqb_refl, (last_of_mine _ _ _ _ _ Hl'), (last_of_mine _ _ _ _ _ Hl), E2.
Qed.

(** What a row on a live connection comes to. *)
Lemma line_send_logs sid h row w l :
  ln_up w = Some h -> k_n row = fhWidth -> line_last sid w = Some l ->
  let '(ok, w') := line_send h ".u.upd" [ks tbl; row] w in
  ok = true /\
  ((ln_up w' = Some h /\ line_log sid w' = line_log sid w ++ [row] /\ line_last sid w' = Some (Z.max (row_seq row) l)) \/
   (ln_up w' = None /\ line_log sid w' = line_log sid w /\ line_last sid w' = line_last sid w)).
Proof.
  intros Hup Hw Hl. unfold line_send, ks. rewrite !String.eqb_refl, bool_decide_true by done. cbn [andb negb].
  split; [done|]. destruct (ln_script w) as [|[| | |newDay] rest].
  1-3: left; split; [exact Hup|]; by eapply deliver_logged.
  - by right.
  - right. split; [done|]. destruct (die_same newDay (ln_table w)) as (E1 & E2).
    split; [by apply of_session_eq|by apply last_of_eq].
Qed.

Lemma line_register_tells sid h next w :
  ln_up w = Some h -> default (next - 1) (line_last sid w) <= next - 1 ->
  let '(r, w') := line_call h ".tp.registerSession" [ks tbl; kj sid; kj next; kj fhWidth] w in
  r = Some (KLong (default (-1) (line_last sid w))) /\ ln_up w' = Some h /\ line_log sid w' = line_log sid w /\
  line_last sid w' = Some (default (next - 1) (line_last sid w)).
Proof.
  intros Hup Hnext. unfold line_call, ks, kj. rewrite !String.eqb_refl, bool_decide_true by done. cbn [negb].
  pose proof (register_last h sid next (ln_table w) Hnext) as Hr.
  destruct (registerSession _ _ _ _ _ _ _) as [r t']. destruct Hr as (-> & Hid & Hl).
  split; [done|]. split; [exact Hup|]. unfold line_log, line_last, last_of, of_session in *.
  cbn [ln_table ln_rows modify eta_TpLine]. rewrite Hid, Z.eqb_refl, Hl. split; [|done].
  destruct (session_id (ln_table w)) as [i|]; [|by rewrite bool_decide_true by (by left)].
  destruct (Z.eqb_spec i sid) as [Hi|Hi]; [by rewrite bool_decide_true by (right; congruence)|].
  rewrite bool_decide_false; [done|]. intros [?|[=]]; congruence.
Qed.

Definition line_session cfg (Htbl : tc_table cfg = tbl) (Hw : tc_width cfg = fhWidth) : TpSession TpLine cfg row_seq.
Proof.
  refine {| t_last := line_last (tc_sessionId cfg); t_log := line_log (tc_sessionId cfg); t_up w h := ln_up w = Some h |}.
  - intros w. cbn. by destruct (ln_reads w).
  - done.
  - done.
  - intros h w. unfold kclose, line_link. case_decide; [|done].
    destruct (closed_frame h (ln_table w)) as (hs & sh & E).
    split; [apply last_of_eq; cbn; by rewrite E|]. split; [apply of_session_eq; cbn; by rewrite E|]. done.
  - intros host port w. cbn. destruct (ln_refuse w); cbn; split; auto.
    split; [done|]. intros h' [= <-]. by left.
  - intros h row w l Hl Hwidth. rewrite Htbl. rewrite Hw in Hwidth. cbn [k_send line_link].
    destruct (decide (ln_up w = Some h)) as [E|E].
    + pose proof (line_send_logs _ h row w l E Hwidth Hl) as Hs. destruct (line_send _ _ _ w) as [ok w'].
      destruct Hs as [-> [(Hup & ? & ?)|(Hup & ? & ?)]]; rewrite Hup; (split; [by intros h'; rewrite ?E|]); split; auto.
    + unfold line_send. rewrite bool_decide_false by done. split; [done|]. split; [done|]. by right.
  - intros h next w Hnext. rewrite Htbl, Hw. cbn [k_call line_link]. destruct (decide (ln_up w = Some h)) as [E|E].
    + pose proof (line_register_tells _ h next w E Hnext) as Hr. destruct (line_call _ _ _ w) as [r w'].
      destruct Hr as (-> & Hup & ? & ?). split; [done|]. split; [by rewrite Hup, E|done].
    + unfold line_call. rewrite bool_decide_false by done. split; [done|]. split; [done|]. by left.
Defined.

#[export] Instance line_link_reads : LinkReads TpLine.
Proof.
  constructor; intros; cbn.
  - by destruct (ln_refuse w).
  - unfold line_call. by repeat case_match.
  - unfold line_send, deliver. by repeat case_match.
  - by case_decide.
Qed.
End line.

(** ** Runs *)

Definition ex_tp_cfg : TpPublisherConfig :=
  mkTpConfig "localhost" 5010 "trade_binance" TRADE_ROW_WIDTH 77 16 1000 8000.
Definition ex_row (n : Z) : K := buildTradeRow 0 0 "BTCUSDT" (100 + n) d0 d0 false 0 0 0 0 n 0.
Definition ex_line_link : TpLink TpLine := line_link "trade_binance" (Some SpotTrade) TRADE_ROW_WIDTH.
#[local] Existing Instance ex_line_link.

Lemma connect_terminates_witness :
  exists r, connect_loop 8 0 1 (newTpPublisher ex_tp_cfg) (line_to newTpTable [] 100 7) = Some r.
Proof.
  apply (connect_terminates (H2 := line_link_reads "trade_binance" (Some SpotTrade) TRADE_ROW_WIDTH)
    8 0 1 (newTpPublisher ex_tp_cfg) (line_to newTpTable [] 100 7)). cbn. lia.
Defined.

Lemma flush_keeps_unanswered_events_witness :
  let q := gap_push (ex_row 2) (gap_push (ex_row 1) (newGapEventQueue "trade_gap")) in
  let p := (newTpPublisher ex_tp_cfg) <| handle_ := 1 |> in
  exists p' w', flush q p (line_to newTpTable [] 0 9) = (false, q, p', w') /\ handle_ p' <= 0 /\
    pending_ q = [ex_row 1; ex_row 2].
Proof.
  intros q p. destruct (flush q p (line_to newTpTable [] 0 9)) as [[[b q'] p'] w'] eqn:E.
  destruct (flush_keeps_unanswered_events q p _ b q' p' w' E) as (_ & _ & _ & _ & _ & _ & _ & Hh).
  vm_compute in E. injection E as <- <- <- <-. do 2 eexists. split; [reflexivity|].
  split; [exact (Hh eq_refl)|reflexivity].
Defined.

(** [rowsUnresendable] counts a missing row again at every reconnect that still
    finds it missing: here rows 1 and 2 are lost to a ring of one row and the
    counter says 3. *)
Theorem unresendable_counts_twice :
  let cfg := mkTpConfig "localhost" 5010 "trade_binance" TRADE_ROW_WIDTH 77 1 1000 8000 in
  match connect 5 1 (newTpPublisher cfg) (line_to newTpTable [Lost; Lost] 0 1000) with
  | Some (true, p1, w1) =>
      match publish_all 5 [ex_row 1; ex_row 2; ex_row 3] 1 p1 w1 with
      | Some (true, p2, w2) => rows_in (all_logs (ln_table w2)) = [ex_row 3] /\ rowsUnresendable_ p2 = 3
      | _ => False
      end
  | _ => False
  end.
Proof. vm_compute. split; reflexivity. Qed.

(** Six rows: the second is the first of a new day; the third is lost with its
    connection; TP dies instead of reading the fifth. *)
Definition ex_line : TpLine :=
  line_to newTpTable [Delivered; AfterMidnight; Lost; Delivered; Delivered; Died false; Delivered] 1 100.
Local Abbreviation ex_rows := (ex_row <$> [1; 2; 3; 4; 5; 6]).

Definition ex_line_outcome (p : TpPublisher) (w : TpLine) : Prop :=
  rowsUnresendable_ p = 0 /\ seq_last (ln_table w) = Some 6 /\ session_id (ln_table w) = Some 77 /\
  length (old_logs (ln_table w)) = 1%nat /\ ctr_reconnects (ctr (ln_table w)) = 1 /\
  reconnects_ p = 2 /\ rowsResent_ p = 4.
Lemma ex_line_runs :
  exists p1 w1 p2 w2, connect 5 1 (newTpPublisher ex_tp_cfg) ex_line = Some (true, p1, w1) /\
    publish_all 5 ex_rows 1 p1 w1 = Some (true, p2, w2) /\ ex_line_outcome p2 w2.
Proof.
  assert (match connect 5 1 (newTpPublisher ex_tp_cfg) ex_line with
    | Some (true, p1, w1) =>
        match publish_all 5 ex_rows 1 p1 w1 with Some (true, p2, w2) => ex_line_outcome p2 w2 | _ => False end
    | _ => False end) as Ho by (vm_compute; repeat split).
  destruct (connect _ _ _ _) as [[[[] p1] w1]|]; try done.
  destruct (publish_all _ _ _ _ _) as [[[[] p2] w2]|] eqn:E2; try done. by exists p1, w1, p2, w2.
Qed.

Lemma no_row_lost_witness :
  exists p1 w1 p2 w2, connect 5 1 (newTpPublisher ex_tp_cfg) ex_line = Some (true, p1, w1) /\
    publish_all 5 ex_rows 1 p1 w1 = Some (true, p2, w2) /\ ln_rows w2 = ex_rows /\ ex_line_outcome p2 w2.
Proof.
  destruct ex_line_runs as (p1 & w1 & p2 & w2 & E1 & E2 & Ho).
  assert (numbered ex_tp_cfg row_seq 0 ex_rows) as HP
    by (intros [|[|[|[|[|[|i]]]]]] row Hi; cbn in Hi; simplify_eq; split; reflexivity).
  destruct (no_row_lost (TpSession0 := line_session "trade_binance" (Some SpotTrade) TRADE_ROW_WIDTH ex_tp_cfg eq_refl eq_refl)
    ex_tp_cfg row_seq 0 (Z.le_refl 0) _ _ _ ex_line _ _ _ _ eq_refl eq_refl HP E1 E2)
    as (l & Hl & _ & _ & _ & Hz & _).
  exists p1, w1, p2, w2. split; [exact E1|]. split; [exact E2|]. split; [|exact Ho].
  destruct Ho as (Hu & H6 & Hid & _). specialize (Hz Hu). cbn in Hl, Hz. unfold line_last, line_log, last_of, of_session in Hl, Hz.
  rewrite Hid in Hl, Hz. cbn in Hl, Hz. rewrite H6 in Hl. injection Hl as <-. exact Hz.
Defined.

(** ** What tp.q does not provide for

    A restart on the same day, after a new handler registered and before its first
    row is logged: the handler comes back after rows 1 and 2 were lost on the way
    and is told 3, the number of the old handler's last row; it resends nothing and
    counts nothing. A crash and a restart on the next day: a handler at row 4 is
    told 0, so that it sends rows 1 to 3 again, and the last trade id is forgotten. *)
Lemma restarts_not_provided_for :
  let tp os := tp_run "trade_binance" (Some SpotTrade) TRADE_ROW_WIDTH os newTpTable in
  let spec os := fst (spec_run "trade_binance" TRADE_ROW_WIDTH os newTpSpec) in
  let day := [Register 5 1 1 12; Upd 5 (ex_row 1); Upd 5 (ex_row 2); Upd 5 (ex_row 3)] in
  let same := day ++ [Register 6 2 1 12; Restart false; Register 7 2 3 12] in
  let next := day ++ [Restart true; Register 6 1 4 12] in
  fst (tp same) = [KLong (-1); KLong (-1); KLong 3] /\ spec same = [KLong (-1); KLong (-1); KLong 0] /\
  (forall w, let p := (newTpPublisher ex_tp_cfg) <| ring_ := mkRing 16 [(1, ex_row 1); (2, ex_row 2)] |> in
     resend 7 3 p w = (true, p, w)) /\
  fst (tp next) = [KLong (-1); KLong 0] /\ spec next = [KLong (-1); KLong 3] /\
  tm_lastId (memory (snd (tp next))) = ∅ /\ rows_in (all_logs (snd (tp next))) = ex_row <$> [1; 2; 3].
Proof. repeat split; vm_compute; reflexivity. Qed.

(** ** A row TP could not write

    TP has logged row 1 and failed to write row 2. The handler loses its connection
    and comes back: it is told 2 and resends nothing; the row is in no log and in no
    count, and its trade id is taken as logged. *)
Lemma refused_row_is_taken_as_logged :
  let tp os t := tp_run "trade_binance" (Some SpotTrade) TRADE_ROW_WIDTH os t in
  let before := snd (tp [Register 5 1 1 12; Upd 5 (ex_row 1)] newTpTable) in
  let after := tp [Closed 5; Register 6 1 3 12] (upd_refused (Some SpotTrade) TRADE_ROW_WIDTH 5 (ex_row 2) before) in
  fst after = [KLong 2] /\ rows_in (all_logs (snd after)) = [ex_row 1] /\ ctr_missed (ctr (snd after)) = 0 /\
  tm_lastId (memory (snd after)) !! "BTCUSDT"%string = Some 102 /\
  (forall w, let p := (newTpPublisher ex_tp_cfg) <| ring_ := mkRing 16 [(1, ex_row 1); (2, ex_row 2)] |> in
     resend 6 2 p w = (true, p, w)).
Proof. repeat split; vm_compute; reflexivity. Qed.
