(* ===== verification/TickerLog.v ===== *)
(** * The tickerplant's numbers, daily logs and seek index (kdb/tick/tp.q, logreader.q)

    TP stamps every accepted row with [tpSeqNo], writes it to the day's log, and every
    so often notes in an index file where in the log it is. Numbers are reserved on
    disk before they are used, so that no crash makes TP use one twice; readers find
    their place through the index instead of reading the whole day.

    Any write can be refused, and TP can die in the middle of any of them: with the
    reservation renamed into place or not, with part of a row in the log. What a row
    is made of does not matter here: [Row] is any type, with the check of its width
    and the number of bytes that q's serialization gives it. *)

From S2P Require Import Prelude.
From stdpp Require Import sorting.
From Stdlib Require Import Sorted.

Open Scope Z_scope.
Local Open Scope rec_scope.

(** ** State *)

(** A message in a log ([(`upd;tbl;data)]) with its number, or the bytes that a write
    left behind when TP died in it. *)
Record Chunk {Row : Type} := mkChunk { c_table : string; c_row : Row; c_seq : Z }.
Arguments Chunk : clear implicits.
Arguments mkChunk {Row}.
Inductive Piece {Row : Type} := Whole (c : Chunk Row) | Torn (bytes : Z).
Arguments Piece : clear implicits.

(** A row of [.tp.idx.entries]. *)
Record IdxEntry := mkIdxEntry { ix_seq : Z; ix_offset : Z; ix_chunk : Z }.

(** The reservation file. *)
Inductive SeqFile := NoFile | Unreadable | Reserved (n : Z).

(** What a process has in memory ([tpSeqNo] to [currentDate]) and what is on disk: the
    reservation, each day's log and its index. *)
Record TpLog {Row : Type} := mkTpLog {
  up : bool; tpSeqNo : Z; seq_reserved : Z; logDate : Z; logCount : Z; idx_entries : list IdxEntry; forceNext : bool;
  currentDate : Z;
  seqFile : SeqFile; logs : gmap Z (list (Piece Row)); idxFiles : gmap Z (list IdxEntry)
}.
Arguments TpLog : clear implicits.
Arguments mkTpLog {Row}.
#[export] Instance eta_TpLog {Row} : Eta (TpLog Row) := fun s =>
  mkTpLog (up s) (tpSeqNo s) (seq_reserved s) (logDate s) (logCount s) (idx_entries s) (forceNext s) (currentDate s)
    (seqFile s) (logs s) (idxFiles s).
(** Before TP's first start. *)
Definition newTpLog {Row} : TpLog Row := mkTpLog false 0 0 0 0 [] false 0 NoFile ∅ ∅.

Definition log_at {Row} (s : TpLog Row) (d : Z) : list (Piece Row) := default [] (logs s !! d).
Definition idx_at {Row} (s : TpLog Row) (d : Z) : list IdxEntry := default [] (idxFiles s !! d).

(** What becomes of a write: done, refused (an error in q), or TP dies in it, the
    reservation being in place already; a refused row may leave some of its bytes in
    the log, as one TP dies in. *)
Inductive Write := WDone | WRefused | WDied.
Inductive Append := AWhole | ARefused (bytes : Z) | ADied (bytes : Z).
Record Disk := mkDisk { dk_reserve : Write; dk_index : bool; dk_append : Append }.

Definition seqReserve : Z := 10000.
Definition tables : list string := ["trade_binance"; "trade_binance_fut"; "quote_binance"; "quote_binance_fut"]%string.
Definition eventTables : list string := ["trade_gap"]%string.
Definition healthTable : string := "health_feed_handler".

Section tp.
Context {Row : Type} (fits : string -> Row -> bool) (chunkSize : string -> Row -> Z -> Z) (indexEvery : Z).

(** ** Operations of tp.q *)

(** [hcount]: a log begins with a header of 8 bytes. *)
Definition piece_size (p : Piece Row) : Z :=
  match p with Whole c => chunkSize (c_table c) (c_row c) (c_seq c) | Torn n => n end.
Definition bytes_of (ps : list (Piece Row)) : Z := foldr (fun p n => piece_size p + n) 0 ps.
Definition hcount (ps : list (Piece Row)) : Z := 8 + bytes_of ps.

Definition persist (w : Write) (reserved : Z) (s : TpLog Row) : bool * TpLog Row :=
  match w with
  | WDone => (true, s <| seqFile := Reserved reserved |> <| seq_reserved := reserved |>)
  | WRefused => (false, s)
  | WDied => (false, s <| seqFile := Reserved reserved |> <| up := false |>)
  end.

Definition nextSeqNo (w : Write) (s : TpLog Row) : option Z * TpLog Row :=
  let n := tpSeqNo s + 1 in
  let '(ok, s) := if seq_reserved s <? n then persist w (n + seqReserve) s else (true, s) in
  if ok then (Some n, s <| tpSeqNo := n |>) else (None, s).

(** [.tp.idx.save]: an error leaves the old file. *)
Definition idx_save (ok : bool) (s : TpLog Row) : TpLog Row :=
  if ok then s <| idxFiles ::= <[logDate s := idx_entries s]> |> else s.
Definition maybeRecord (ok : bool) (seq : Z) (s : TpLog Row) : TpLog Row :=
  if forceNext s || (logCount s mod indexEvery =? 0) then
    let s := s <| forceNext := false |> in
    idx_save ok (s <| idx_entries ::= fun es => es ++ [mkIdxEntry seq (hcount (log_at s (logDate s))) (logCount s)] |>)
  else s.

Definition append (p : Piece Row) (s : TpLog Row) : TpLog Row :=
  s <| logs ::= <[logDate s := log_at s (logDate s) ++ [p]]> |>.
Definition tear (n : Z) (s : TpLog Row) : TpLog Row := if 0 <? n then append (Torn n) s else s.
(** [.tp.log]. *)
Definition log (d : Disk) (tbl : string) (row : Row) (seq : Z) (s : TpLog Row) : TpLog Row :=
  if bool_decide (tbl = healthTable) then s
  else
    let s := maybeRecord (dk_index d) seq s in
    match dk_append d with
    | AWhole => (append (Whole (mkChunk tbl row seq)) s) <| logCount ::= Z.succ |>
    | ARefused n => tear n s
    | ADied n => (tear n s) <| up := false |>
    end.

(** The number of an accepted row, and the row in the log. *)
Definition number (d : Disk) (tbl : string) (row : Row) (s : TpLog Row) : option Z * TpLog Row :=
  match nextSeqNo (dk_reserve d) s with
  | (Some n, s) => (Some n, log d tbl row n s)
  | (None, s) => (None, s)
  end.
Definition event (d : Disk) (tbl : string) (row : Row) (s : TpLog Row) : option Z * TpLog Row :=
  if negb (bool_decide (tbl ∈ eventTables)) then (None, s)
  else if negb (fits tbl row) then (None, s)
  else number d tbl row s.
Definition upd (d : Disk) (tbl : string) (row : Row) (s : TpLog Row) : option Z * TpLog Row :=
  if bool_decide (tbl = healthTable) then (None, s)
  else if bool_decide (tbl ∈ eventTables) then event d tbl row s
  else if negb (bool_decide (tbl ∈ tables)) then number d tbl row s
  else if negb (fits tbl row) then (None, s)
  else number d tbl row s.

(** The chunks [-11!] reads, up to the first bad byte. *)
Fixpoint good_chunks (ps : list (Piece Row)) : list (Chunk Row) :=
  match ps with Whole c :: ps => c :: good_chunks ps | _ => [] end.

Definition openLog (today : Z) (s : TpLog Row) : TpLog Row :=
  let s := s <| logDate := today |> <| logs ::= <[today := log_at s today]> |> in
  s <| logCount := Z.of_nat (length (good_chunks (log_at s today))) |>
    <| idx_entries := idx_at s today |> <| forceNext := true |>.
(** Closing the old log has no effect on its content. *)
Definition rotate (today : Z) (s : TpLog Row) : TpLog Row := openLog today s.
Definition endOfDay (today : Z) (s : TpLog Row) : TpLog Row := (rotate today s) <| logCount := 0 |>.
Definition checkEOD (today : Z) (s : TpLog Row) : TpLog Row :=
  if currentDate s <? today then (endOfDay today s) <| currentDate := today |> else s.

(** [.tp.scanLog]'s first result: the highest number of the data rows that fit. *)
Definition scan_max (ps : list (Piece Row)) : Z :=
  foldl (fun m c => if bool_decide (c_table c ∈ tables) && fits (c_table c) (c_row c) then Z.max m (c_seq c) else m)
    0 (good_chunks ps).
(** The log with the latest date. *)
Definition newestLog (s : TpLog Row) : option Z :=
  foldr (fun d m => Some (match m with None => d | Some m => Z.max d m end)) None (map_to_list (logs s)).*1.

(** [.tp.seq.load] and the part of [.tp.recoverFhSeq] about the number; false when a
    reservation cannot be written. *)
Definition seq_load (w : Write) (s : TpLog Row) : bool * TpLog Row :=
  match seqFile s with
  | Reserved reserved =>
      persist w (reserved + seqReserve) (s <| tpSeqNo := reserved |> <| seq_reserved := reserved |>)
  | _ =>
      let seed := match newestLog s with Some d => scan_max (log_at s d) | None => 0 end in
      persist w (seed + seqReserve) (s <| tpSeqNo := seed |>)
  end.
Definition recoverFhSeq (today : Z) (w : Write) (s : TpLog Row) : bool * TpLog Row :=
  match logs s !! today with
  | None => (true, s)
  | Some ps =>
      if tpSeqNo s <? scan_max ps then
        persist w (scan_max ps + seqReserve) (s <| tpSeqNo := scan_max ps |>)
      else (true, s)
  end.
(** A new process. Its port is free only when no other one is up; an error ends it. *)
Definition start (today : Z) (w1 w2 : Write) (s : TpLog Row) : TpLog Row :=
  if up s then s
  else
    let s := mkTpLog true 0 0 0 0 [] true today (seqFile s) (logs s) (idxFiles s) in
    let '(ok, s) := seq_load w1 s in
    if ok then
      let '(ok, s) := recoverFhSeq today w2 s in
      if ok then openLog today s else s <| up := false |>
    else s <| up := false |>.

Inductive op :=
  | Upd (d : Disk) (tbl : string) (row : Row)
  | Event (d : Disk) (tbl : string) (row : Row)
  | Timer (today : Z)
  | Kill
  | Start (today : Z) (w1 w2 : Write).
(** One operation, with the number handed out. *)
Definition step (o : op) (s : TpLog Row) : list Z * TpLog Row :=
  match o with
  | Start today w1 w2 => ([], start today w1 w2 s)
  | Kill => ([], s <| up := false |>)
  | _ =>
      if negb (up s) then ([], s)
      else match o with
           | Upd d tbl row => let '(n, s) := upd d tbl row s in (option_list n, s)
           | Event d tbl row => let '(n, s) := event d tbl row s in (option_list n, s)
           | Timer today => ([], checkEOD today s)
           | _ => ([], s)
           end
  end.
Fixpoint run (os : list op) (s : TpLog Row) : list Z * TpLog Row :=
  match os with
  | [] => ([], s)
  | o :: os => let '(ns, s) := step o s in let '(ns', s) := run os s in (ns ++ ns', s)
  end.

(** ** Operations of logreader.q *)

(** The last index entry at or below a number. *)
Definition seek (es : list IdxEntry) (fromSeq : Z) : option IdxEntry :=
  last (filter (fun e => ix_seq e <= fromSeq) es).

(** A range of bytes must begin and end between pieces, and hold whole rows only. *)
Fixpoint drop_bytes (n : Z) (ps : list (Piece Row)) : option (list (Piece Row)) :=
  if n =? 0 then Some ps
  else match ps with
       | [] => None
       | p :: ps => if n <? 0 then None else drop_bytes (n - piece_size p) ps
       end.
Fixpoint take_bytes (n : Z) (ps : list (Piece Row)) : option (list (Piece Row)) :=
  if n =? 0 then Some []
  else match ps with
       | [] => None
       | p :: ps => if n <? 0 then None else cons p <$> take_bytes (n - piece_size p) ps
       end.
Fixpoint all_chunks (ps : list (Piece Row)) : option (list (Chunk Row)) :=
  match ps with
  | [] => Some []
  | Whole c :: ps => cons c <$> all_chunks ps
  | Torn _ :: _ => None
  end.
Definition replaySegment (ps : list (Piece Row)) (startOffset endOffset : Z) : option (list (Chunk Row)) :=
  let n := endOffset - startOffset in
  if n <? 0 then None
  else if n =? 0 then Some []
  else ps ← drop_bytes (startOffset - 8) ps; ps ← take_bytes n ps; all_chunks ps.

(** Segment after segment, each from the end of the one before. *)
Fixpoint replay_segments (ps : list (Piece Row)) (startOffset : Z) (bounds : list Z) : option (list (Chunk Row)) :=
  match bounds with
  | [] => Some []
  | b :: bounds => cs ← replaySegment ps startOffset b; cs' ← replay_segments ps b bounds; Some (cs ++ cs')
  end.
Definition bounds_of (es : list IdxEntry) (startOffset endOffset : Z) : list Z :=
  merge_sort Z.le
    (remove_dups (filter (fun b => startOffset < b /\ b < endOffset) (ix_offset <$> es) ++ [endOffset])).
(** The rows it gives its caller, or an error. *)
Definition replayFrom (ps : list (Piece Row)) (es : list IdxEntry) (fromSeq endOffset : Z) : option (list (Chunk Row)) :=
  let startOffset := match seek es fromSeq with Some e => ix_offset e | None => 8 end in
  replay_segments ps startOffset (bounds_of es startOffset endOffset).

(** ** Invariants *)

Definition chunks (ps : list (Piece Row)) : list (Chunk Row) :=
  omap (fun p => match p with Whole c => Some c | Torn _ => None end) ps.
Definition numbers (ps : list (Piece Row)) : list Z := c_seq <$> chunks ps.

(** No number above it was ever handed out; a new process goes on from it. *)
Definition floor (s : TpLog Row) : Z :=
  if up s then tpSeqNo s else match seqFile s with Reserved r => r | _ => 0 end.

Record good_log (top : Z) (ps : list (Piece Row)) : Prop := {
  gl_sorted : StronglySorted Z.lt (numbers ps);
  gl_below : Forall (fun n => n <= top) (numbers ps);
  gl_sizes : Forall (fun p => 0 < piece_size p) ps
}.
(** An index entry splits its log where it says, by position and by number. *)
Definition points (top : Z) (ps : list (Piece Row)) (e : IdxEntry) : Prop :=
  ix_seq e <= top /\ exists a b, ps = a ++ b /\ ix_offset e = hcount a /\
    Forall (fun n => n < ix_seq e) (numbers a) /\ Forall (fun n => ix_seq e <= n) (numbers b).

Record inv (handed : list Z) (s : TpLog Row) : Prop := {
  inv_file : match seqFile s with
             | Reserved r => up s = true -> seq_reserved s = r /\ tpSeqNo s <= r <= tpSeqNo s + seqReserve
             | NoFile => up s = false /\ logs s = ∅ /\ idxFiles s = ∅
             | Unreadable => False
             end;
  inv_handed : StronglySorted Z.lt handed /\ Forall (fun n => n <= floor s) handed;
  inv_logs d : good_log (floor s) (log_at s d) /\ numbers (log_at s d) ⊆ handed;
  inv_once d d' n : n ∈ numbers (log_at s d) -> n ∈ numbers (log_at s d') -> d = d';
  inv_idx d : Forall (points (floor s) (log_at s d)) (idx_at s d);
  inv_memory : up s = true -> Forall (points (floor s) (log_at s (logDate s))) (idx_entries s);
  inv_nonneg : 0 <= floor s
}.

Ltac disk_fields := cbn [up tpSeqNo seq_reserved logDate logCount idx_entries forceNext currentDate seqFile logs idxFiles
  modify eta_TpLog] in *.

Lemma chunks_app ps ps' : chunks (ps ++ ps') = chunks ps ++ chunks ps'.
Proof. apply omap_app. Qed.
Lemma numbers_app ps ps' : numbers (ps ++ ps') = numbers ps ++ numbers ps'.
Proof. unfold numbers. by rewrite chunks_app, fmap_app. Qed.
Lemma good_log_up top top' ps : top <= top' -> good_log top ps -> good_log top' ps.
Proof. intros Ht [? Hb ?]. constructor; try done. eapply Forall_impl; [exact Hb|]. cbn. lia. Qed.
Lemma points_up top top' ps e : top <= top' -> points top ps e -> points top' ps e.
Proof. intros Ht [? ?]. split; [lia|done]. Qed.

(** What does not touch the disk, and lowers no number, but for dying. *)
Lemma disk_same handed s s' :
  inv handed s -> logs s' = logs s -> idxFiles s' = idxFiles s -> floor s <= floor s' ->
  match seqFile s' with
  | Reserved r => up s' = true -> seq_reserved s' = r /\ tpSeqNo s' <= r <= tpSeqNo s' + seqReserve
  | NoFile => up s' = false /\ logs s' = ∅ /\ idxFiles s' = ∅
  | Unreadable => False
  end ->
  (up s' = true -> Forall (points (floor s') (log_at s' (logDate s'))) (idx_entries s')) ->
  inv handed s'.
Proof.
  intros [_ [Hs Hf] Hl Ho Hi _ H0] El Ei Ht Hr Hm.
  constructor; try done; unfold log_at, idx_at in *; rewrite ?El, ?Ei; try done.
  - split; [done|]. eapply Forall_impl; [exact Hf|]. cbn. lia.
  - intros d. destruct (Hl d) as [Hg ?]. split; [by eapply good_log_up|done].
  - intros d. eapply Forall_impl; [apply Hi|]. intros e. by apply points_up.
  - lia.
Qed.

Lemma inv_die handed s : inv handed s -> inv handed (s <| up := false |>).
Proof.
  intros Hi. apply (disk_same _ s); try done.
  - unfold floor. disk_fields. destruct (up s) eqn:E; [|done]. destruct Hi as [Hr _ _ _ _ _ _]. rewrite E in Hr.
    destruct (seqFile s); [by destruct Hr|done|]. specialize (Hr eq_refl). lia.
  - destruct Hi as [Hr _ _ _ _ _ _]. disk_fields. destruct (seqFile s); [by destruct Hr|done|done].
Qed.
(** What a process may still cost in numbers, should it die. *)
Definition reach (s : TpLog Row) : Z := floor s + if up s then seqReserve + 1 else 0.

Lemma snoc_sorted l n : StronglySorted Z.lt l -> Forall (fun m => m < n) l -> StronglySorted Z.lt (l ++ [n]).
Proof.
  intros Hs Hf. induction Hs as [|m l Hs IH Hm]; cbn; [by repeat constructor|].
  inversion_clear Hf. constructor; [by apply IH|]. apply Forall_app. by split; [|repeat constructor].
Qed.

Lemma inv_hand handed s n :
  inv handed s -> floor s = n -> Forall (fun m => m < n) handed -> inv (handed ++ [n]) s.
Proof.
  intros [Hr [Hs Hf] Hl Ho Hi Hm H0] <- Hn. constructor; try done.
  - split; [by apply snoc_sorted|]. apply Forall_app. by split; [|repeat constructor].
  - intros d. destruct (Hl d) as [Hg Hh]. split; [done|]. intros m Hm'. apply elem_of_app. left. by apply Hh.
Qed.

Lemma inv_reserved handed s :
  inv handed s -> up s = true ->
  exists r, seqFile s = Reserved r /\ seq_reserved s = r /\ tpSeqNo s <= r <= tpSeqNo s + seqReserve.
Proof.
  intros [Hr _ _ _ _ _ _] Hu. destruct (seqFile s) as [| |r]; [destruct Hr; congruence|done|].
  exists r. by destruct (Hr Hu).
Qed.

Lemma nextSeqNo_inv handed s w r s' :
  inv handed s -> up s = true -> nextSeqNo w s = (r, s') ->
  logs s' = logs s /\ reach s' <= reach s + Z.of_nat (length (option_list r)) /\
  match r with
  | Some n => up s' = true /\ tpSeqNo s' = n /\ inv (handed ++ [n]) s' /\
      forall d, Forall (fun m => m < n) (numbers (log_at s' d))
  | None => inv handed s'
  end.
Proof.
  intros Hi Hu. unfold nextSeqNo. pose proof Hi as [Hr [_ Hh] Hl _ _ Hm H0].
  destruct (inv_reserved _ _ Hi Hu) as (res & Er & Er' & Hres). assert (floor s = tpSeqNo s) as Ef by (unfold floor; by rewrite Hu).
  assert (forall q, logs q = logs s -> idxFiles q = idxFiles s -> idx_entries q = idx_entries s -> logDate q = logDate s ->
    up q = true -> tpSeqNo q = tpSeqNo s + 1 -> (exists r, seqFile q = Reserved r /\ seq_reserved q = r /\
      tpSeqNo q <= r <= tpSeqNo q + seqReserve) ->
    inv (handed ++ [tpSeqNo s + 1]) q /\ forall d, Forall (fun m => m < tpSeqNo s + 1) (numbers (log_at q d))) as Hgo.
  { intros q El Ei Ee Ed Eu Et (r' & Ers & Err & Hrr). assert (floor q = tpSeqNo s + 1) as Efq by (unfold floor; by rewrite Eu).
    split.
    - apply inv_hand; [|done|eapply Forall_impl; [exact Hh|]; cbn; lia]. apply (disk_same _ s); try done.
      + lia.
      + by rewrite Ers.
      + intros _. unfold log_at in *. rewrite Ee, Ed, El. eapply Forall_impl; [by apply Hm|]. intros e. apply points_up. lia.
    - intros d. unfold log_at in *. rewrite El. destruct (Hl d) as [[_ Hb _] _].
      eapply Forall_impl; [exact Hb|]. cbn. lia. }
  destruct (Z.ltb_spec (seq_reserved s) (tpSeqNo s + 1)); [destruct w|]; cbn [persist]; intros [= <- <-]; disk_fields.
  - split; [done|]. split; [unfold reach, floor; disk_fields; rewrite Hu; cbn; lia|]. split; [done|]. split; [done|].
    apply Hgo; try done. eexists. split; [done|]. disk_fields. unfold seqReserve. lia.
  - split; [done|]. split; [lia|done].
  - split; [done|]. split; [unfold reach, floor; disk_fields; rewrite Hu; unfold seqReserve; cbn; lia|].
    apply (disk_same _ s); try done. unfold floor. disk_fields. rewrite Hu. unfold seqReserve. lia.
  - split; [done|]. split; [unfold reach, floor; disk_fields; rewrite Hu; cbn; lia|]. split; [done|]. split; [done|].
    apply Hgo; try done. eexists. split; [done|]. disk_fields. lia.
Qed.

Lemma maybeRecord_inv handed s ok n :
  inv handed s -> up s = true -> tpSeqNo s = n -> (forall d, Forall (fun m => m < n) (numbers (log_at s d))) ->
  inv handed (maybeRecord ok n s) /\ up (maybeRecord ok n s) = true /\ tpSeqNo (maybeRecord ok n s) = n /\
  logs (maybeRecord ok n s) = logs s /\ logDate (maybeRecord ok n s) = logDate s.
Proof.
  intros Hi Hu Hn Hf. unfold maybeRecord. destruct (forceNext s || _); [|done].
  set (e := mkIdxEntry n _ _). pose proof Hi as [Hr Hh Hl Ho Hx Hm H0].
  assert (floor s = n) as Ef by (unfold floor; by rewrite Hu).
  assert (Forall (points n (log_at s (logDate s))) (idx_entries s ++ [e])) as Hes.
  { apply Forall_app. rewrite <-Ef. split; [by apply Hm|]. repeat constructor; [cbn; lia|].
    exists (log_at s (logDate s)), []. rewrite app_nil_r. split; [done|]. split; [done|]. split; [apply Hf|constructor]. }
  rewrite <-Ef in Hes.
  set (q := s <| forceNext := false |>). set (q' := q <| idx_entries ::= _ |>).
  assert (inv handed q') as Hq by (apply (disk_same _ s); [done..|reflexivity|exact Hr|intros _; exact Hes]).
  destruct ok; [|done]. unfold idx_save. split; [|done]. destruct Hq as [Hr' Hh' Hl' Ho' Hx' Hm' H0'].
  constructor; try done.
  - destruct (inv_reserved _ _ Hi Hu) as (res & Er & Er' & Hres). unfold q', q. disk_fields. by rewrite Er.
  - intros d. unfold idx_at. disk_fields. destruct (decide (d = logDate s)) as [->|Hd].
    + rewrite lookup_insert_eq. exact Hes.
    + rewrite lookup_insert_ne by done. apply Hx.
Qed.
(** q's serialization of a message is never empty. *)
Context (Hsize : forall tbl row n, 0 < chunkSize tbl row n).

Lemma log_at_append p s d :
  log_at (append p s) d = if decide (d = logDate s) then log_at s d ++ [p] else log_at s d.
Proof.
  unfold log_at, append. disk_fields. destruct (decide (d = logDate s)) as [->|Hd].
  - by rewrite lookup_insert_eq.
  - by rewrite lookup_insert_ne.
Qed.

Lemma points_snoc top ps e p :
  points top ps e -> match p with Whole c => top <= c_seq c | Torn _ => True end -> points top (ps ++ [p]) e.
Proof.
  intros (Ht & a & b & -> & Ho & Ha & Hb) Hp. split; [done|]. exists a, (b ++ [p]). rewrite app_assoc.
  repeat (split; [done|]). rewrite numbers_app. apply Forall_app. split; [done|].
  destruct p as [c|n]; cbn; [repeat constructor; lia|constructor].
Qed.

(** A piece with a new number, or a torn one, at the end of the open log. *)
Lemma append_inv handed s p :
  inv handed s -> up s = true -> 0 < piece_size p ->
  (forall n, n ∈ numbers [p] -> n = tpSeqNo s /\ n ∈ handed /\ forall d, Forall (fun m => m < n) (numbers (log_at s d))) ->
  inv handed (append p s).
Proof.
  intros [Hr Hh Hl Ho Hx Hm H0] Hu Hp Hn. assert (floor (append p s) = floor s) as Ef by done.
  assert (floor s = tpSeqNo s) as Et by (unfold floor; by rewrite Hu).
  assert (forall d n, n ∈ numbers (log_at s d) -> n ∈ numbers [p] -> False) as Hnew.
  { intros d n H1 H2. destruct (Hn n H2) as (_ & _ & Hf). specialize (Hf d). rewrite Forall_forall in Hf.
    specialize (Hf n H1). lia. }
  assert (match p with Whole c => floor s <= c_seq c | Torn _ => True end) as Hpt.
  { destruct p as [c|]; [|done]. destruct (Hn (c_seq c)) as [-> _]; [by left|lia]. }
  constructor; try done; rewrite ?Ef.
  - cbn. destruct (seqFile s); [|done|done]. destruct Hr as [Hr _]. congruence.
  - intros d. rewrite log_at_append. destruct (decide (d = logDate s)); [|done]. destruct (Hl d) as [[Hs Hb Hz] Hi].
    rewrite numbers_app. split.
    + constructor; rewrite ?numbers_app; [|apply Forall_app; split; [done|]|by apply Forall_app; split; [|repeat constructor]].
      * destruct p as [c|n]; [|by rewrite app_nil_r]. apply snoc_sorted; [done|].
        apply (Hn (c_seq c)). by left.
      * apply Forall_forall. intros n Hin. destruct (Hn n Hin) as [-> _]. lia.
    + intros n [Hin|Hin]%elem_of_app; [by apply Hi|by apply Hn].
  - intros d d' n. rewrite !log_at_append.
    destruct (decide (d = logDate s)) as [->|], (decide (d' = logDate s)) as [->|];
      rewrite ?numbers_app, ?elem_of_app; try done.
    + intros [H1|H1] H2; [by eapply Ho|by destruct (Hnew d' n)].
    + intros H1 [H2|H2]; [by eapply Ho|by destruct (Hnew d n)].
    + apply Ho.
  - intros d. eapply Forall_impl; [apply Hx|]. intros e He. rewrite log_at_append.
    destruct (decide _); [by apply points_snoc|done].
  - intros _. eapply Forall_impl; [by apply Hm|]. intros e He. cbn [logDate append modify eta_TpLog]. rewrite log_at_append.
    rewrite decide_True by done. by apply points_snoc.
Qed.

Lemma reach_die handed s : inv handed s -> reach (s <| up := false |>) <= reach s.
Proof.
  intros Hi. unfold reach, floor. disk_fields. destruct (up s) eqn:Hu; [|lia].
  destruct (inv_reserved _ _ Hi Hu) as (r & -> & _ & ?). lia.
Qed.

Lemma reach_tear k s : reach (tear k s) = reach s.
Proof. unfold tear. by destruct (0 <? k). Qed.

Lemma log_inv handed s d tbl row n :
  inv handed s -> up s = true -> tpSeqNo s = n -> n ∈ handed ->
  (forall d, Forall (fun m => m < n) (numbers (log_at s d))) ->
  inv handed (log d tbl row n s) /\ reach (log d tbl row n s) <= reach s.
Proof.
  intros Hi Hu Ht Hn Hf. unfold log. case_bool_decide; [by split; [|lia]|].
  destruct (maybeRecord_inv handed s (dk_index d) n Hi Hu Ht Hf) as (Hq & Hqu & Hqt & Hql & Hqd).
  set (q := maybeRecord _ _ _) in *. assert (reach q = reach s) as Eq by (unfold reach, floor; by rewrite Hu, Hqu, Hqt, Ht).
  assert (forall d, log_at q d = log_at s d) as Hqa by (intros ?; unfold log_at; by rewrite Hql).
  assert (forall k, inv handed (tear k q)) as Htear.
  { intros k. unfold tear. destruct (Z.ltb_spec 0 k); [|done]. apply append_inv; [done..|]. by intros m []%not_elem_of_nil. }
  destruct (dk_append d) as [|k|k].
  - assert (inv handed (append (Whole (mkChunk tbl row n)) q)) as Ha.
    { apply append_inv; [done|done|apply Hsize|]. intros m [->|[]%not_elem_of_nil]%elem_of_cons. cbn.
      split; [done|]. split; [done|]. intros ?. by rewrite Hqa. }
    split; [|change (reach q <= reach s); lia]. apply (disk_same _ _ _ Ha); [done..|reflexivity| |].
    + destruct (inv_reserved _ _ Ha Hqu) as (r & Er & ? & ?). cbn. cbn in Er. by rewrite Er.
    + intros _. apply (inv_memory _ _ Ha). done.
  - split; [done|]. rewrite reach_tear. lia.
  - split; [by apply inv_die|]. rewrite <-Eq, <-(reach_tear k q). by apply (reach_die handed).
Qed.

Lemma number_disk_inv handed s d tbl row r s' :
  inv handed s -> up s = true -> number d tbl row s = (r, s') ->
  inv (handed ++ option_list r) s' /\ reach s' <= reach s + Z.of_nat (length (option_list r)).
Proof.
  intros Hi Hu. unfold number. destruct (nextSeqNo _ s) as [r1 s1] eqn:E.
  apply (nextSeqNo_inv handed) in E as (_ & Hre & Hr1); [|done|done]. destruct r1 as [n|]; intros [= <- <-].
  - destruct Hr1 as (Hu1 & Ht & Hi1 & Hf). destruct (log_inv (handed ++ [n]) s1 d tbl row n) as [H1 H2]; try done.
    { apply elem_of_app. right. by left. }
    split; [done|]. lia.
  - cbn. by rewrite app_nil_r.
Qed.
Lemma openLog_inv handed s today :
  inv handed s -> up s = true -> inv handed (openLog today s) /\ reach (openLog today s) = reach s.
Proof.
  intros Hi Hu. split; [|done]. destruct (inv_reserved _ _ Hi Hu) as (r & Er & Hr). destruct Hi as [_ [Hs Hh] Hl Ho Hx _ H0].
  assert (forall d, log_at (openLog today s) d = log_at s d) as El.
  { intros d. unfold openLog, log_at. disk_fields. destruct (decide (d = today)) as [->|Hd].
    - rewrite lookup_insert_eq. by destruct (logs s !! today).
    - by rewrite lookup_insert_ne. }
  assert (floor (openLog today s) = floor s) as Ef by done.
  constructor; rewrite ?Ef; try done.
  - cbn. by rewrite Er.
  - intros d. by rewrite El.
  - intros d d' n. rewrite !El. apply Ho.
  - intros d. rewrite El. apply Hx.
  - intros _. rewrite El. apply Hx.
Qed.

Lemma checkEOD_inv handed s today :
  inv handed s -> up s = true -> inv handed (checkEOD today s) /\ reach (checkEOD today s) = reach s.
Proof.
  intros Hi Hu. unfold checkEOD, endOfDay, rotate. destruct (_ <? _); [|done].
  destruct (openLog_inv handed s today Hi Hu) as [Ho Hr]. split; [|done].
  apply (disk_same _ _ _ Ho); [done..|reflexivity| |].
  - destruct (inv_reserved _ _ Ho Hu) as (r & Er & ? & ?). cbn in Er |- *. by rewrite Er.
  - intros _. by apply (inv_memory _ _ Ho).
Qed.

Lemma scan_max_le top ps : 0 <= top -> Forall (fun n => n <= top) (numbers ps) -> scan_max ps <= top.
Proof.
  unfold scan_max. generalize 0. induction ps as [|[c|n] ps IH]; intros m Hm Hf; try done.
  inversion_clear Hf. cbn. apply IH; [|done]. destruct (_ && _); lia.
Qed.

(** A new process goes on from what was reserved. *)
Lemma seq_load_start handed s w today ok s' :
  inv handed s -> up s = false ->
  seq_load w (mkTpLog true 0 0 0 0 [] true today (seqFile s) (logs s) (idxFiles s)) = (ok, s') ->
  logs s' = logs s /\ idxFiles s' = idxFiles s /\ idx_entries s' = [] /\
  if ok then up s' = true /\ tpSeqNo s' = floor s /\ seqFile s' = Reserved (floor s + seqReserve) /\
             seq_reserved s' = floor s + seqReserve
  else seqFile s' = seqFile s \/ seqFile s' = Reserved (floor s + seqReserve).
Proof.
  intros [Hr _ _ _ _ _ _] Hu. unfold seq_load, floor. rewrite Hu. cbn [seqFile].
  destruct (seqFile s) as [| |r] eqn:Er; [|done|].
  - destruct Hr as (_ & El & _). unfold newestLog. cbn [logs]. rewrite El, map_to_list_empty.
    destruct w; cbn; intros [= <- <-]; disk_fields; repeat (split; [done|]); first [done|by left|by right].
  - destruct w; cbn; intros [= <- <-]; disk_fields; repeat (split; [done|]); first [done|by left|by right].
Qed.

Lemma start_cases handed s today w1 w2 :
  inv handed s -> up s = false ->
  exists s1, logs s1 = logs s /\ idxFiles s1 = idxFiles s /\ idx_entries s1 = [] /\ floor s <= floor s1 /\
    inv handed s1 /\ reach s1 <= reach s + (seqReserve + 1) /\
    start today w1 w2 s = if up s1 then openLog today s1 else s1.
Proof.
  intros Hi Hu. unfold start. rewrite Hu. destruct (seq_load w1 _) as [ok s1] eqn:E.
  destruct (seq_load_start _ _ _ _ _ _ Hi Hu E) as (El & Ei & Ee & H1).
  assert (floor s = reach s) as Ef by (unfold reach; rewrite Hu; lia). destruct ok.
  - destruct H1 as (Hu1 & Ht & Er & Err). assert (floor s1 = floor s) as Ef1 by (unfold floor at 1; by rewrite Hu1).
    assert (inv handed s1) as Hi1.
    { apply (disk_same _ s); [done|done|done|lia| |by rewrite Ee]. rewrite Er, Ht, Err. intros _. unfold seqReserve. lia. }
    assert (recoverFhSeq today w2 s1 = (true, s1)) as ->.
    { unfold recoverFhSeq. destruct (logs s1 !! today) as [ps|] eqn:Ep; [|done].
      destruct (Z.ltb_spec (tpSeqNo s1) (scan_max ps)) as [Hlt|]; [|done]. exfalso. apply (Z.lt_irrefl (tpSeqNo s1)).
      eapply Z.lt_le_trans; [exact Hlt|]. destruct (inv_logs _ _ Hi1 today) as [[_ Hb _] _].
      unfold log_at in Hb. rewrite Ep in Hb. rewrite Ht, <-Ef1. apply scan_max_le; [apply (inv_nonneg _ _ Hi1)|done]. }
    exists s1. rewrite Hu1. repeat (split; [done|]). split; [lia|]. split; [done|]. split; [|done]. unfold reach at 1.
    rewrite Hu1. lia.
  - set (s2 := s1 <| up := false |>). assert (floor s <= floor s2 <= floor s + seqReserve) as Hf.
    { unfold floor at 2 3. cbn. destruct H1 as [->| ->]; [|unfold seqReserve; lia]. unfold floor. rewrite Hu.
      unfold seqReserve. lia. }
    exists s2. repeat (split; [done|]). split; [lia|]. split; [|split; [unfold reach at 1; cbn [up s2 modify eta_TpLog]; lia|done]].
    apply (disk_same _ s); [done|done|done|lia| |done]. cbn. destruct H1 as [->| ->]; [|done].
    pose proof (inv_file _ _ Hi) as Hfile. destruct (seqFile s); [|done|done]. destruct Hfile as (_ & ? & ?).
    split; [done|]. by rewrite El, Ei.
Qed.

Lemma start_inv handed s today w1 w2 :
  inv handed s -> inv handed (start today w1 w2 s) /\ reach (start today w1 w2 s) <= reach s + (seqReserve + 1).
Proof.
  intros Hi. destruct (up s) eqn:Hu.
  - unfold start. rewrite Hu. split; [done|unfold seqReserve; lia].
  - destruct (start_cases handed s today w1 w2 Hi Hu) as (s1 & _ & _ & _ & _ & Hi1 & Hr & ->).
    destruct (up s1) eqn:Hu1; [|done]. by destruct (openLog_inv handed s1 today Hi1 Hu1) as [? ->].
Qed.

Definition is_start (o : op) : bool := match o with Start _ _ _ => true | _ => false end.
Definition starts (os : list op) : Z := Z.of_nat (length (filter (fun o => is_start o = true) os)).

Lemma upd_number d tbl row s : upd d tbl row s = number d tbl row s \/ upd d tbl row s = (None, s).
Proof. unfold upd, event. repeat case_match; tauto. Qed.
Lemma event_number d tbl row s : event d tbl row s = number d tbl row s \/ event d tbl row s = (None, s).
Proof. unfold event. repeat case_match; tauto. Qed.

Lemma step_inv handed o s ns s' :
  inv handed s -> step o s = (ns, s') ->
  inv (handed ++ ns) s' /\ reach s' <= reach s + Z.of_nat (length ns) + (seqReserve + 1) * starts [o].
Proof.
  intros Hi. assert (forall q, inv handed q /\ reach q <= reach s -> ([], q) = (ns, s') ->
    inv (handed ++ ns) s' /\ reach s' <= reach s + Z.of_nat (length ns)) as Hq.
  { intros q [? ?] [= <- <-]. rewrite app_nil_r. split; [done|]. cbn. lia. }
  assert (forall d tbl row r q, up s = true -> (r, q) = number d tbl row s \/ (r, q) = (None, s) ->
    (option_list r, q) = (ns, s') -> inv (handed ++ ns) s' /\ reach s' <= reach s + Z.of_nat (length ns)) as Hn.
  { intros d tbl row r q Hu [E|[= -> ->]] E'; [|apply (Hq s); [by split|done]].
    injection E' as <- <-. by eapply number_disk_inv. }
  destruct o as [d tbl row|d tbl row|today| |today w1 w2]; cbn [step].
  5: { intros [= <- <-]. rewrite app_nil_r. destruct (start_inv handed s today w1 w2 Hi). split; [done|].
       change (starts _) with 1. cbn [length]. lia. }
  4: { intros E. destruct (Hq (s <| up := false |>)) as [? ?]; [|done|split; [done|change (starts _) with 0; lia]].
       split; [by apply inv_die|by eapply reach_die]. }
  all: change (starts _) with 0; rewrite Z.mul_0_r, Z.add_0_r; destruct (up s) eqn:Hu; [|by apply Hq]; cbn [negb].
  - destruct (upd d tbl row s) as [r q] eqn:E. apply (Hn d tbl row r q eq_refl). rewrite <-E. apply upd_number.
  - destruct (event d tbl row s) as [r q] eqn:E. apply (Hn d tbl row r q eq_refl). rewrite <-E. apply event_number.
  - apply Hq. destruct (checkEOD_inv handed s today Hi Hu) as [? ->]. by split.
Qed.

Lemma run_inv os : forall handed s ns s',
  inv handed s -> run os s = (ns, s') ->
  inv (handed ++ ns) s' /\ reach s' <= reach s + Z.of_nat (length ns) + (seqReserve + 1) * starts os.
Proof.
  induction os as [|o os IH]; intros handed s ns s' Hi; cbn [run].
  - intros [= <- <-]. rewrite app_nil_r. split; [done|]. change (starts []) with 0. cbn [length]. lia.
  - destruct (step o s) as [n1 s1] eqn:E1. destruct (run os s1) as [n2 s2] eqn:E2. intros [= <- <-].
    destruct (step_inv _ _ _ _ _ Hi E1) as [Hi1 Hr1]. destruct (IH _ _ _ _ Hi1 E2) as [Hi2 Hr2].
    rewrite app_assoc. split; [done|]. rewrite length_app.
    assert (starts (o :: os) = starts [o] + starts os) as Es.
    { unfold starts. change (o :: os) with ([o] ++ os) at 1. rewrite filter_app, length_app. lia. }
    rewrite Es. lia.
Qed.

Lemma new_disk_inv : inv [] newTpLog.
Proof.
  assert (forall d, log_at (Row := Row) newTpLog d = []) as El by (intros d; unfold log_at; cbn [logs newTpLog]; by rewrite lookup_empty).
  constructor; try done.
  - split; [constructor|constructor].
  - intros d. rewrite El. by repeat constructor.
  - intros d d' n. rewrite El. by intros []%not_elem_of_nil.
Qed.

(** C10: no number is used twice. Over any number of processes, one after the other,
    each of which dies at any point of any of its writes, with writes refused at any
    point, at any dates: numbers are handed out in increasing order; a row in a log
    has a number of its own, the rows of a log are in their order, and each death
    costs at most the 10000 numbers of a reservation and one. *)
Theorem numbers_never_reused os :
  let '(handed, s) := run os newTpLog in
  StronglySorted Z.lt handed /\
  (forall n, n ∈ handed -> n <= Z.of_nat (length handed) + (seqReserve + 1) * starts os) /\
  (forall d, StronglySorted Z.lt (numbers (log_at s d)) /\ numbers (log_at s d) ⊆ handed) /\
  (forall d d' n, n ∈ numbers (log_at s d) -> n ∈ numbers (log_at s d') -> d = d').
Proof.
  destruct (run os newTpLog) as [handed s] eqn:E. destruct (run_inv _ _ _ _ _ new_disk_inv E) as [Hi Hr].
  destruct (inv_handed _ _ Hi) as [Hs Hf]. split; [done|]. split; [|split].
  - intros n Hn. rewrite Forall_forall in Hf. specialize (Hf n Hn). assert (floor s <= reach s) as Hle.
    { unfold reach, seqReserve. destruct (up s); lia. }
    change (reach newTpLog) with 0 in Hr. cbn [app] in *. lia.
  - intros d. destruct (inv_logs _ _ Hi d) as [[? _ _] ?]. done.
  - apply (inv_once _ _ Hi).
Qed.
(** ** Reading a log from a number on *)

Definition sized (ps : list (Piece Row)) : Prop := Forall (fun p => 0 < piece_size p) ps.

Lemma bytes_app a b : bytes_of (a ++ b) = bytes_of a + bytes_of b.
Proof. unfold bytes_of. induction a as [|p a IH]; cbn; lia. Qed.
Lemma bytes_pos ps : sized ps -> 0 <= bytes_of ps /\ (bytes_of ps = 0 -> ps = []).
Proof.
  induction 1 as [|p ps Hp _ [IH _]]; [done|]. unfold bytes_of in *. cbn. split; [lia|]. intros ?. lia.
Qed.
Lemma drop_bytes_app a b : sized a -> drop_bytes (bytes_of a) (a ++ b) = Some b.
Proof.
  induction 1 as [|p a Hp Ha IH]; [by destruct b|]. pose proof (proj1 (bytes_pos _ Ha)) as H0. unfold bytes_of in *. cbn.
  destruct (Z.eqb_spec (piece_size p + foldr (fun p n => piece_size p + n) 0 a) 0); [lia|].
  destruct (Z.ltb_spec (piece_size p + foldr (fun p n => piece_size p + n) 0 a) 0); [lia|].
  rewrite Z.add_simpl_l. exact IH.
Qed.
Lemma take_bytes_app a b : sized a -> take_bytes (bytes_of a) (a ++ b) = Some a.
Proof.
  induction 1 as [|p a Hp Ha IH]; [by destruct b|]. pose proof (proj1 (bytes_pos _ Ha)) as H0. unfold bytes_of in *. cbn.
  destruct (Z.eqb_spec (piece_size p + foldr (fun p n => piece_size p + n) 0 a) 0); [lia|].
  destruct (Z.ltb_spec (piece_size p + foldr (fun p n => piece_size p + n) 0 a) 0); [lia|].
  rewrite Z.add_simpl_l, IH. done.
Qed.

Lemma all_chunks_app a b : all_chunks (a ++ b) = (cs ← all_chunks a; cs' ← all_chunks b; Some (cs ++ cs')).
Proof.
  induction a as [|[c|n] a IH]; cbn; [by destruct (all_chunks b)| |done]. rewrite IH.
  destruct (all_chunks a), (all_chunks b); done.
Qed.
Lemma all_chunks_spec ps :
  match all_chunks ps with Some cs => cs = chunks ps | None => exists n, Torn n ∈ ps end.
Proof.
  induction ps as [|[c|n] ps IH]; cbn; [done| |exists n; by left].
  destruct (all_chunks ps); cbn; [by rewrite IH|]. destruct IH as [n ?]. exists n. by right.
Qed.

Lemma replaySegment_between a m b :
  sized (a ++ m ++ b) -> replaySegment (a ++ m ++ b) (hcount a) (hcount (a ++ m)) = all_chunks m.
Proof.
  intros Hs. apply Forall_app in Hs as [Ha Hmb]. pose proof Hmb as [Hm Hb]%Forall_app.
  unfold replaySegment, hcount. rewrite bytes_app. replace (8 + (bytes_of a + bytes_of m) - (8 + bytes_of a)) with (bytes_of m) by lia.
  replace (8 + bytes_of a - 8) with (bytes_of a) by lia. destruct (bytes_pos _ Hm) as [H0 Hnil].
  destruct (Z.ltb_spec (bytes_of m) 0); [lia|]. destruct (Z.eqb_spec (bytes_of m) 0) as [E|_]; [by rewrite (Hnil E)|].
  rewrite drop_bytes_app by done. cbn. by rewrite take_bytes_app.
Qed.

(** Positions between pieces are ordered as the prefixes they end. *)
Lemma prefix_by_bytes a a' ps : a `prefix_of` ps -> a' `prefix_of` ps -> sized ps -> hcount a <= hcount a' -> a `prefix_of` a'.
Proof.
  intros Ha Ha' Hs Hle. destruct (prefix_weak_total _ _ _ Ha Ha') as [|[k ->]]; [done|]. destruct Ha as [r ->].
  rewrite <-app_assoc in Hs. apply Forall_app in Hs as [_ [Hk _]%Forall_app]. destruct (bytes_pos _ Hk) as [H0 Hnil].
  unfold hcount in Hle. rewrite bytes_app in Hle. rewrite Hnil by lia. by rewrite app_nil_r.
Qed.

(** Any positions between pieces, in order, give what the whole range holds. *)
Lemma replay_segments_between ps bounds : forall a z,
  sized ps -> (a ++ z) `prefix_of` ps -> StronglySorted Z.le bounds -> hcount (a ++ z) ∈ bounds ->
  Forall (fun b => hcount a <= b <= hcount (a ++ z) /\ exists p, p `prefix_of` ps /\ b = hcount p) bounds ->
  replay_segments ps (hcount a) bounds = all_chunks z.
Proof.
  induction bounds as [|b bounds IH]; intros a z Hs Hz Hso Hin Hb; [by apply not_elem_of_nil in Hin|].
  apply Forall_cons in Hb as [[[Hab Hbz] (p & Hp & ->)] Hb].
  assert (a `prefix_of` ps) as Ha by (etrans; [by apply prefix_app_r|exact Hz]).
  destruct (prefix_by_bytes a p ps Ha Hp Hs Hab) as [m ->]. destruct (prefix_by_bytes _ _ ps Hp Hz Hs Hbz) as [m' E].
  rewrite <-app_assoc in E. apply app_inv_head in E as ->. cbn [replay_segments]. destruct Hz as [r Hr].
  rewrite all_chunks_app. rewrite Hr in Hs |- *. rewrite <-!app_assoc in Hs |- *.
  rewrite (replaySegment_between a m (m' ++ r)) by done. destruct (all_chunks m) as [cs|]; [|done]. cbn.
  destruct bounds as [|b bounds].
  { apply list_elem_of_singleton in Hin. unfold hcount in Hin. rewrite !bytes_app in Hin.
    assert (sized m') as Hm' by (unfold sized in Hs; rewrite !Forall_app in Hs; tauto).
    destruct (bytes_pos _ Hm') as [_ Hnil]. rewrite Hnil by lia. cbn. by rewrite app_nil_r. }
  inversion_clear Hso as [|? ? Hso' Hle]. specialize (IH (a ++ m) m'). rewrite <-!app_assoc in IH.
  rewrite Hr in IH. rewrite <-!app_assoc in IH. rewrite IH; [done|done|by exists r; rewrite <-!app_assoc|done| |].
  - apply elem_of_cons in Hin as [E|]; [|done]. apply Forall_cons in Hb as [[[_ Hb1] _] _].
    apply Forall_cons in Hle as [Hb2 _]. replace b with (hcount (a ++ m ++ m')) by lia. left.
  - rewrite Forall_forall in Hb, Hle |- *. intros x Hx. destruct (Hb x Hx) as [[_ H2] (q & Hq & Eq)].
    specialize (Hle x Hx). rewrite Hr, <-!app_assoc in Hq. split; [done|]. by exists q.
Qed.

Lemma bounds_sorted es startOffset endOffset : StronglySorted Z.le (bounds_of es startOffset endOffset).
Proof. apply (StronglySorted_merge_sort _). Qed.
Lemma elem_of_bounds es startOffset endOffset b :
  b ∈ bounds_of es startOffset endOffset <->
    b = endOffset \/ startOffset < b /\ b < endOffset /\ exists e, e ∈ es /\ b = ix_offset e.
Proof.
  unfold bounds_of. rewrite merge_sort_Permutation, elem_of_remove_dups, elem_of_app, list_elem_of_filter, list_elem_of_fmap, list_elem_of_singleton.
  split; [intros [[[? ?] (e & ? & ?)]|?]|intros [?|(? & ? & e & ? & ?)]]; eauto 10.
Qed.
(** What TP tells a reader ([.tp.replayInfo]) stays true while TP goes on, is killed
    and started again: the log only grows, and what the index says of the part that
    grew has higher numbers. *)
Definition beyond (c : Z) (a : list (Piece Row)) (e : IdxEntry) : Prop := hcount a < ix_offset e -> c < ix_seq e.
Record fence (c d : Z) (a : list (Piece Row)) (s : TpLog Row) : Prop := {
  fn_floor : c <= floor s;
  fn_prefix : a `prefix_of` log_at s d;
  fn_idx : Forall (beyond c a) (idx_at s d);
  fn_memory : up s = true -> logDate s = d -> Forall (beyond c a) (idx_entries s)
}.

Lemma fence_same c d a s s' :
  fence c d a s -> logs s' = logs s -> idxFiles s' = idxFiles s -> floor s <= floor s' ->
  (up s' = true -> logDate s' = d -> Forall (beyond c a) (idx_entries s')) -> fence c d a s'.
Proof.
  intros [Hf Hp Hi _] El Ei Hle Hm. constructor; unfold log_at, idx_at in *; rewrite ?El, ?Ei; try done. lia.
Qed.

Lemma floor_die handed s : inv handed s -> floor s <= floor (s <| up := false |>).
Proof.
  intros Hi. unfold floor. disk_fields. destruct (up s) eqn:Hu; [|done].
  destruct (inv_reserved _ _ Hi Hu) as (r & -> & _ & ?). lia.
Qed.
Lemma fence_die handed c d a s : inv handed s -> fence c d a s -> fence c d a (s <| up := false |>).
Proof. intros Hi Hf. apply (fence_same _ _ _ s); try done. by eapply floor_die. Qed.

Lemma nextSeqNo_fence handed c d a s w r s' :
  inv handed s -> up s = true -> fence c d a s -> nextSeqNo w s = (r, s') ->
  fence c d a s' /\ match r with Some n => c < n | None => True end.
Proof.
  intros Hi Hu Hf. destruct (inv_reserved _ _ Hi Hu) as (res & Er & Err & Hr). unfold nextSeqNo.
  assert (floor s = tpSeqNo s) as Ef by (unfold floor; by rewrite Hu). pose proof (fn_floor _ _ _ _ Hf) as Hc.
  destruct (Z.ltb_spec (seq_reserved s) (tpSeqNo s + 1)); [destruct w|]; cbn [persist]; intros [= <- <-];
    (split; [|lia || done]); (apply (fence_same _ _ _ s); [done|done|done| |first [done|cbn; by apply (fn_memory _ _ _ _ Hf)]]);
    rewrite ?Ef; unfold floor; disk_fields; rewrite ?Hu; unfold seqReserve in *; lia.
Qed.

Lemma maybeRecord_fence c d a s ok n :
  up s = true -> c < n -> fence c d a s -> fence c d a (maybeRecord ok n s).
Proof.
  intros Hu Hn Hf. unfold maybeRecord. destruct (forceNext s || _); [|done].
  set (e := mkIdxEntry n _ _). set (q := _ <| idx_entries ::= _ |>).
  assert (logDate s = d -> Forall (beyond c a) (idx_entries q)) as He.
  { intros Hd. apply Forall_app. split; [by apply (fn_memory _ _ _ _ Hf)|]. repeat constructor. intros _. exact Hn. }
  assert (fence c d a q) as Hq by (by apply (fence_same _ _ _ s)). destruct ok; [|done].
  destruct Hq as [H1 H2 H3 H4]. constructor; try done. unfold idx_at, idx_save in *. disk_fields.
  destruct (decide (d = logDate s)) as [->|Hd]; [|by rewrite lookup_insert_ne].
  rewrite lookup_insert_eq. by apply He.
Qed.

Lemma append_fence c d a s p : fence c d a s -> fence c d a (append p s).
Proof.
  intros [Hf Hp Hi Hm]. constructor; try done. rewrite log_at_append. destruct (decide _); [|done].
  etrans; [exact Hp|]. by apply prefix_app_r.
Qed.

Lemma tear_fence c d a s k : fence c d a s -> fence c d a (tear k s).
Proof. unfold tear. destruct (0 <? k); [apply append_fence|done]. Qed.

Lemma log_fence handed c d a s dk tbl row n :
  inv handed s -> up s = true -> tpSeqNo s = n -> n ∈ handed ->
  (forall d, Forall (fun m => m < n) (numbers (log_at s d))) -> c < n -> fence c d a s ->
  fence c d a (log dk tbl row n s).
Proof.
  intros Hi Hu Ht Hn Hl Hc Hf. pose proof (log_inv handed s dk tbl row n Hi Hu Ht Hn Hl) as [Hi' _].
  unfold log in *. case_bool_decide; [done|].
  destruct (maybeRecord_inv handed s (dk_index dk) n Hi Hu Ht Hl) as (Hq & Hqu & Hqt & Hql & Hqd).
  pose proof (maybeRecord_fence c d a s (dk_index dk) n Hu Hc Hf) as Hfq. set (q := maybeRecord _ _ _) in *.
  destruct (dk_append dk) as [|k|k].
  - apply (fence_same _ _ _ (append (Whole (mkChunk tbl row n)) q)); [by apply append_fence|done|done|reflexivity|].
    apply (fn_memory _ _ _ _ Hfq).
  - by apply tear_fence.
  - apply (fence_same _ _ _ (tear k q)); [by apply tear_fence|done|done| |done].
    unfold tear. destruct (0 <? k); exact (floor_die _ _ Hq).
Qed.

Lemma number_fence handed c d a s dk tbl row r s' :
  inv handed s -> up s = true -> fence c d a s -> number dk tbl row s = (r, s') -> fence c d a s'.
Proof.
  intros Hi Hu Hf. unfold number. destruct (nextSeqNo _ s) as [r1 s1] eqn:E.
  destruct (nextSeqNo_fence _ _ _ _ _ _ _ _ Hi Hu Hf E) as [Hf1 Hc]. destruct r1 as [n|]; intros [= <- <-]; [|done].
  apply (nextSeqNo_inv handed) in E as (_ & _ & Hu1 & Ht & Hi1 & Hl); [|done|done].
  apply (log_fence (handed ++ [n])); try done. apply elem_of_app. right. by left.
Qed.

Lemma openLog_fence c d a s today : fence c d a s -> fence c d a (openLog today s).
Proof.
  intros [Hf Hp Hi _]. constructor; try done.
  - unfold openLog, log_at in *. disk_fields. destruct (decide (d = today)) as [->|]; [|by rewrite lookup_insert_ne].
    rewrite lookup_insert_eq. by destruct (logs s !! today).
  - intros _ <-. exact Hi.
Qed.

Lemma start_fence handed c d a s today w1 w2 : inv handed s -> fence c d a s -> fence c d a (start today w1 w2 s).
Proof.
  intros Hi Hf. destruct (up s) eqn:Hu; [by unfold start; rewrite Hu|].
  destruct (start_cases handed s today w1 w2 Hi Hu) as (s1 & El & Ei & Ee & Hle & _ & _ & ->).
  assert (fence c d a s1) by (apply (fence_same _ _ _ s); [done..|by rewrite Ee]).
  destruct (up s1); [by apply openLog_fence|done].
Qed.

Lemma step_fence handed c d a o s ns s' :
  inv handed s -> fence c d a s -> step o s = (ns, s') -> fence c d a s'.
Proof.
  intros Hi Hf. destruct o as [dk tbl row|dk tbl row|today| |today w1 w2]; cbn [step].
  5: { intros [= _ <-]. by eapply start_fence. }
  4: { intros [= _ <-]. by eapply fence_die. }
  all: destruct (up s) eqn:Hu; [|by intros [= _ <-]]; cbn [negb].
  - destruct (upd dk tbl row s) as [r q] eqn:E. intros [= _ <-].
    destruct (upd_number dk tbl row s) as [E'|E']; rewrite E' in E; [by eapply number_fence|by injection E as _ <-].
  - destruct (event dk tbl row s) as [r q] eqn:E. intros [= _ <-].
    destruct (event_number dk tbl row s) as [E'|E']; rewrite E' in E; [by eapply number_fence|by injection E as _ <-].
  - intros [= _ <-]. unfold checkEOD. destruct (_ <? _); [|done].
    apply (fence_same _ _ _ (openLog today s)); [by apply openLog_fence|done|done|reflexivity|].
    by apply (fn_memory c d a (openLog today s)), openLog_fence.
Qed.

Lemma run_fence os : forall handed c d a s ns s',
  inv handed s -> fence c d a s -> run os s = (ns, s') -> fence c d a s'.
Proof.
  induction os as [|o os IH]; intros handed c d a s ns s' Hi Hf; cbn [run]; [by intros [= _ <-]|].
  destruct (step o s) as [n1 s1] eqn:E1. destruct (run os s1) as [n2 s2] eqn:E2. intros [= _ <-].
  destruct (step_inv _ _ _ _ _ Hi E1) as [Hi1 _]. eapply (IH (handed ++ n1)); [exact Hi1| |exact E2].
  exact (step_fence handed c d a o s n1 s1 Hi Hf E1).
Qed.

(** What holds of a log and its index when the reader comes. *)
Lemma points_inside top ps e : sized ps -> points top ps e -> hcount [] <= ix_offset e <= hcount ps.
Proof.
  intros Hs (_ & a & b & -> & -> & _). apply Forall_app in Hs as [[Ha _]%bytes_pos [Hb _]%bytes_pos].
  unfold hcount. rewrite bytes_app. cbn. lia.
Qed.
Lemma fence_now handed s d : inv handed s -> up s = true -> fence (tpSeqNo s) d (log_at s d) s.
Proof.
  intros [_ _ Hl _ Hi Hm _] Hu. destruct (Hl d) as [[_ _ Hs] _].
  assert (forall es, Forall (points (floor s) (log_at s d)) es -> Forall (beyond (tpSeqNo s) (log_at s d)) es) as Hb.
  { intros es He. eapply Forall_impl; [exact He|]. intros e [_ ?]%points_inside ?; [lia|done]. }
  constructor; [unfold floor; by rewrite Hu|done|by apply Hb|]. intros _ <-. by apply Hb, Hm.
Qed.

Lemma seek_spec es fromSeq e : seek es fromSeq = Some e -> e ∈ es /\ ix_seq e <= fromSeq.
Proof. unfold seek. intros [H1 H2]%last_Some_elem_of%list_elem_of_filter. by split. Qed.

Lemma filter_below (fromSeq : Z) (cs : list (Chunk Row)) :
  Forall (fun n => n < fromSeq) (c_seq <$> cs) -> filter (fun c => fromSeq <= c_seq c) cs = [].
Proof.
  induction cs as [|c cs IH]; [done|]. intros [Hc Hcs]%Forall_cons. rewrite filter_cons_False by lia. by apply IH.
Qed.

(** What the index leaves out has lower numbers. *)
Lemma replay_of_fence c top ps a es fromSeq :
  a `prefix_of` ps -> sized ps -> Forall (points top ps) es -> Forall (beyond c a) es -> fromSeq <= c ->
  match replayFrom ps es fromSeq (hcount a) with
  | Some cs => filter (fun c => fromSeq <= c_seq c) cs = filter (fun c => fromSeq <= c_seq c) (chunks a) /\
      cs `suffix_of` chunks a
  | None => exists n, Torn n ∈ a
  end.
Proof.
  intros Ha Hs Hpt Hx Hfrom. rewrite Forall_forall in Hpt, Hx.
  assert (exists k z, a = k ++ z /\ hcount k = match seek es fromSeq with Some e => ix_offset e | None => 8 end /\
    Forall (fun n => n < fromSeq) (numbers k)) as (k & z & -> & Ek & Hk).
  { destruct (seek es fromSeq) as [e|] eqn:Ee; [|by exists [], a]. apply seek_spec in Ee as [He Hle].
    specialize (Hx e He). destruct (Hpt e He) as (_ & k & r & Er & Eo & Hk & _).
    destruct (prefix_by_bytes k a ps) as [z ->]; [by exists r|done|done|rewrite <-Eo; unfold beyond in Hx; lia|].
    exists k, z. split; [done|]. split; [done|]. eapply Forall_impl; [exact Hk|]. cbn. lia. }
  unfold replayFrom. rewrite <-Ek, (replay_segments_between ps _ k z Hs Ha).
  - pose proof (all_chunks_spec z) as Hz. destruct (all_chunks z) as [cs|].
    + subst cs. rewrite chunks_app. split; [|by eexists]. rewrite filter_app.
      by rewrite (filter_below fromSeq (chunks k)).
    + destruct Hz as [n Hn]. exists n. apply elem_of_app. by right.
  - apply bounds_sorted.
  - apply elem_of_bounds. by left.
  - apply Forall_forall. intros b [->|(H1 & H2 & e & He & ->)]%elem_of_bounds.
    + split; [|by exists (k ++ z)]. split; [|done]. unfold hcount. rewrite bytes_app.
      destruct Ha as [r ->]. unfold sized in Hs. rewrite !Forall_app in Hs. destruct (bytes_pos z) as [? _]; [apply Hs|lia].
    + split; [lia|]. destruct (Hpt e He) as (_ & p & r & Er & Eo & _). exists p. split; [by exists r|done].
Qed.

End tp.

(** ** A run *)

(** Rows of 20 bytes, an index entry for every second row. *)
Definition ex_fits (tbl : string) (row : Z) : bool := 0 <=? row.
Definition ex_size (tbl : string) (row n : Z) : Z := 20.
Lemma ex_size_pos tbl row n : 0 < ex_size tbl row n.
Proof. reflexivity. Qed.
Definition ex_good : Disk := mkDisk WDone true AWhole.
Definition ex_trade (d : Disk) (row : Z) : op (Row := Z) := Upd d "trade_binance" row.
(** Three rows; TP dies with seven bytes of the fourth in the log; a new process logs
    three more, the second of which is refused; midnight. *)
Definition ex_before : list (op (Row := Z)) :=
  [Start 1 WDone WDone; ex_trade ex_good 1; ex_trade ex_good 2; ex_trade ex_good 3; ex_trade ex_good (-1);
   ex_trade (mkDisk WDone true (ADied 7)) 4; Start 1 WDone WDone; ex_trade ex_good 5;
   ex_trade (mkDisk WDone true (ARefused 0)) 6; Event ex_good "trade_gap" 7].
Definition ex_after : list (op (Row := Z)) := [ex_trade ex_good 8; Timer 2; ex_trade ex_good 9; Kill; Start 2 WDied WDone].

Lemma numbers_never_reused_witness :
  exists s, run ex_fits ex_size 2 (ex_before ++ ex_after) newTpLog = ([1; 2; 3; 4; 10001; 10002; 10003; 10004; 10005], s) /\
    seqFile s = Reserved 30000 /\ numbers (log_at s 1) = [1; 2; 3; 10001; 10003; 10004] /\
    StronglySorted Z.lt (numbers (log_at s 1)) /\ numbers (log_at s 1) ⊆ [1; 2; 3; 4; 10001; 10002; 10003; 10004; 10005].
Proof.
  pose proof (numbers_never_reused ex_fits ex_size 2 ex_size_pos (ex_before ++ ex_after)) as H.
  assert (exists s, run ex_fits ex_size 2 (ex_before ++ ex_after) newTpLog = ([1; 2; 3; 4; 10001; 10002; 10003; 10004; 10005], s) /\
    seqFile s = Reserved 30000 /\ numbers (log_at s 1) = [1; 2; 3; 10001; 10003; 10004]) as (s & E & Hf & Hn).
  { eexists. split; [vm_compute; reflexivity|]. split; vm_compute; reflexivity. }
  rewrite E in H. destruct H as (_ & _ & H & _). exists s. split; [exact E|]. split; [exact Hf|]. split; [exact Hn|]. apply H.
Defined.


(** Without its reservation file TP goes on from the newest log, but from the rows of
    the data tables only ([.tp.scanUpd] leaves gap events out): the number of a gap
    event at its end is used again. *)
Lemma lost_reservation_reuses_number :
  let '(handed, s) := run ex_fits ex_size 2 [Start 1 WDone WDone; ex_trade ex_good 1; Event ex_good "trade_gap" 2; Kill] newTpLog in
  let '(handed', s') := run ex_fits ex_size 2 [Start 1 WDone WDone; ex_trade ex_good 3] (s <| seqFile := NoFile |>) in
  handed = [1; 2] /\ handed' = [2] /\ numbers (log_at s' 1) = [1; 2; 2].
Proof. vm_compute. done. Qed.
