(* ===== verification/SimWorld.v ===== *)
(** * A scripted world

    A concrete outside for the witnesses: a connection to a tickerplant that runs
    tp.q ([TpLine]), a clock that ticks at every read, the messages the WebSocket gives
    before its connection breaks (an inner list per connection), how many steps
    the worker thread takes at each of its turns, and one answer to every GET. *)

From S2P Require Import Prelude Double CStdlib JsonReader Effects Backoff KObject TpPublisher.
From S2P Require Import TpSession RestClient Delivery Shutdown MarketConfig TickerPlant TpLine.

Open Scope Z_scope.
Local Open Scope rec_scope.

Record World := mkWorld {
  w_tp : TpLine; w_clock : Z; w_tick : Z; w_frames : list string; w_later : list (list string); w_steps : list nat
}.
#[export] Instance eta_World : Eta World := fun w =>
  mkWorld (w_tp w) (w_clock w) (w_tick w) (w_frames w) (w_later w) (w_steps w).

Section world.
(** The session's table, its trade id column if any, its width; the answer to a GET. *)
Context (own : string) (schema : option TradeSchema) (width : Z) (reply : HttpReply).

Instance own_link : TpLink TpLine := line_link own schema width.

(** An operation of the tickerplant's side. *)
Definition on_tp {A} (f : TpLine -> A * TpLine) (w : World) : A * World :=
  let '(x, s) := f (w_tp w) in (x, w <| w_tp := s |>).
(** A clock never reads before 1970. *)
Definition tick (w : World) : Z * World := (Z.max 0 (w_clock w), w <| w_clock ::= Z.add (w_tick w) |>).

Definition world_process : Process World := {|
  is_running := on_tp is_running;
  stop_running w := w <| w_tp ::= stop_running |>;
  sleep_ns ns w := w <| w_clock ::= Z.add ns |>
|}.
Definition world_link : TpLink World := {|
  khpu host port := on_tp (khpu host port);
  k_call h f args := on_tp (k_call h f args);
  k_send h f args := on_tp (k_send h f args);
  kclose h w := w <| w_tp ::= kclose h |>
|}.
Definition world_host : Host World := {|
  steady_now := tick; system_now := tick; draw_jitter w := (d0, w)
|}.
Definition world_websocket : WebSocket World := {|
  ws_connect _ _ _ w :=
    match w_later w with
    | fs :: rest => (true, w <| w_frames := fs |> <| w_later := rest |>)
    | [] => (false, w)
    end;
  ws_read w := match w_frames w with
               | f :: fs => (Some f, w <| w_frames := fs |>)
               | [] => (None, w)
               end;
  ws_close w := w <| w_frames := [] |>
|}.
Definition world_background : Background World := {|
  worker_steps w := match w_steps w with n :: ns => (n, w <| w_steps := ns |>) | [] => (O, w) end
|}.
Definition world_http : HttpLib World := {| http_get _ _ _ w := (reply, w) |}.
#[local] Existing Instances world_process world_link world_host world_websocket world_background world_http.

(** ** The laws *)

#[local] Ltac on_tp_law L f :=
  let E := fresh in pose proof L as E; cbn [is_running khpu k_send k_call world_process world_link];
  unfold on_tp; destruct f; exact E.

Definition world_session cfg (Hown : tc_table cfg = own) (Hwidth : tc_width cfg = width) : TpSession World cfg row_seq.
Proof.
  pose (S := line_session own schema width cfg Hown Hwidth).
  refine {| t_last w := t_last (w_tp w); t_log w := t_log (w_tp w); t_up w := t_up (w_tp w) |}.
  - intros w. on_tp_law (law_running (w_tp w)) (is_running (w_tp w)).
  - intros w. exact (law_stop (w_tp w)).
  - intros ns w. exact (law_sleep 0 (w_tp w)).
  - intros h w. exact (law_close h (w_tp w)).
  - intros host port w. on_tp_law (law_khpu host port (w_tp w)) (khpu host port (w_tp w)).
  - intros h row w l Hl Hw. on_tp_law (law_send h row (w_tp w) l Hl Hw) (k_send h ".u.upd" [ks (tc_table cfg); row] (w_tp w)).
  - intros h next w Hn. on_tp_law (law_register h next (w_tp w) Hn)
      (k_call h ".tp.registerSession" [ks (tc_table cfg); kj (tc_sessionId cfg); kj next; kj (tc_width cfg)] (w_tp w)).
Defined.

(** In the session of the configuration, all its rows count. *)
Lemma logged_of_session cfg Hown Hwidth (w : World) :
  session_id (ln_table (w_tp w)) = Some (tc_sessionId cfg) ->
  t_log (TpSession := world_session cfg Hown Hwidth) w = ln_rows (w_tp w).
Proof. intros Hid. cbn. unfold line_log, of_session. by rewrite Hid, Z.eqb_refl. Qed.

#[export] Instance world_shuts_down : ShutsDown World.
Proof.
  refine {| reads_left w := reads_left (w_tp w) |}.
  - intros w. on_tp_law (reads_read (w_tp w)) (is_running (w_tp w)).
  - intros w. on_tp_law (reads_read_le (w_tp w)) (is_running (w_tp w)).
  - done.
  - intros w. exact (reads_stop (w_tp w)).
Defined.

Instance world_link_reads : LinkReads World.
Proof.
  pose (S := line_link_reads own schema width).
  constructor.
  - intros host port w. on_tp_law (reads_khpu host port (w_tp w)) (khpu host port (w_tp w)).
  - intros h f args w. on_tp_law (reads_call h f args (w_tp w)) (k_call h f args (w_tp w)).
  - intros h f args w. on_tp_law (reads_send h f args (w_tp w)) (k_send h f args (w_tp w)).
  - intros h w. exact (reads_close h (w_tp w)).
Qed.

Instance world_reads : WorldReads World.
Proof.
  constructor; try done; intros; cbn.
  - by destruct (w_later w).
  - by destruct (w_frames w).
  - by destruct (w_steps w).
Qed.

(** Calls to the tickerplant do not touch the flag. *)
Lemma on_tp_reads {A} (f : TpLine -> A * TpLine) w :
  ln_reads (snd (f (w_tp w))) = ln_reads (w_tp w) -> ln_reads (w_tp (snd (on_tp f w))) = ln_reads (w_tp w).
Proof. unfold on_tp. by destruct (f (w_tp w)). Qed.

Instance world_flag : FlagStays World.
Proof.
  refine {| stopped w := ln_reads (w_tp w) = O |}; try done.
  - intros w. cbn. unfold on_tp, line_process. cbn. by destruct (ln_reads (w_tp w)) eqn:E.
  - intros w Hw. cbn. unfold on_tp. cbn. by rewrite Hw.
  - intros host port w <-. apply (on_tp_reads (khpu host port)). cbn. by destruct (ln_refuse (w_tp w)).
  - intros h f args w <-. apply (on_tp_reads (k_call h f args)). cbn. unfold line_call. by repeat case_match.
  - intros h f args w <-. apply (on_tp_reads (k_send h f args)). cbn. unfold line_send, deliver. by repeat case_match.
  - intros h w Hw. cbn. by case_decide.
  - intros host port path w Hw. cbn. by destruct (w_later w).
  - intros w Hw. cbn. by destruct (w_frames w).
  - intros w Hw. cbn. by destruct (w_steps w).
Defined.

(** Nothing but a row of the session's own table and a registration matters. *)
Definition same_session (s s' : TpLine) : Prop :=
  session_id (ln_table s') = session_id (ln_table s) /\ seq_last (ln_table s') = seq_last (ln_table s) /\
  ln_rows s' = ln_rows s /\ ln_up s' = ln_up s.

Lemma line_send_quiet h f args s :
  (f = ".u.upd"%string -> forall row, args <> [ks own; row]) -> same_session s (snd (line_send own schema width h f args s)).
Proof.
  intros Hf. unfold line_send. case_match; [done|].
  destruct args as [|a [|row [|]]]; try done; destruct a as [| | | |tbl| | | | | ]; try done.
  destruct (String.eqb_spec f ".u.upd") as [->|]; [|done].
  destruct (String.eqb_spec tbl own) as [->|]; [|done]. by destruct (Hf eq_refl row).
Qed.

Lemma line_call_quiet h f args s :
  f <> ".tp.registerSession"%string -> same_session s (snd (line_call own width h f args s)).
Proof.
  intros Hf%String.eqb_neq. unfold line_call, event. rewrite Hf. by repeat case_match; simplify_eq.
Qed.

Lemma on_tp_quiet {A} (f : TpLine -> A * TpLine) w :
  same_session (w_tp w) (snd (f (w_tp w))) -> same_session (w_tp w) (w_tp (snd (on_tp f w))).
Proof. unfold on_tp. by destruct (f (w_tp w)). Qed.

Lemma world_quiet cfg (Hown : tc_table cfg = own) (Hwidth : tc_width cfg = width) :
  TpQuiet (H1 := world_session cfg Hown Hwidth) World cfg.
Proof.
  assert (forall w w' : World, same_session (w_tp w) (w_tp w') ->
    t_same (TpSession := world_session cfg Hown Hwidth) w w') as Hs.
  { intros w w' (E1 & E2 & E3 & E4). unfold t_same. cbn. unfold line_last, line_log. rewrite E3, E4. split; [by apply last_of_eq|].
    split; [by apply of_session_eq|done]. }
  constructor; intros; apply Hs; cbn; try done.
  - by destruct (w_later w).
  - by destruct (w_frames w).
  - by destruct (w_steps w).
  - apply on_tp_quiet, line_send_quiet. intros Hf row. rewrite <-Hown. auto.
  - by apply on_tp_quiet, line_call_quiet.
Qed.
End world.
