(* ===== verification/QuoteExample.v ===== *)
(** * A run of the quote handler

    The theorems about whole runs, at a concrete one: spot BTCUSDT at depth 1,
    an event before the snapshot and one after it, then the exchange closes the
    connection; TP loses a row on the wire. *)

From S2P Require Import Prelude Double CStdlib JsonReader MarketConfig Effects Backoff RowClock.
From S2P Require Import KObject TpPublisher TpSession Scheduler BookSide RestClient SnapshotWorker.
From S2P Require Import OrderBook OrderBookSpec BookProps Rows Delivery Shutdown TickerPlant TpLine SimWorld.
From S2P Require Import BookRanges QuoteHandler QuoteHandlerProps QuoteShutdown QuoteChain QuoteLive.

Open Scope Z_scope.
Local Open Scope rec_scope.

Definition ex_level (p q : string) : json := JArray [JString p; JString q].
Definition ex_depth (U u E : Z) (b : list json) : json :=
  JObject [("stream", JString "btcusdt@depth");
           ("data", JObject [("e", JString "depthUpdate"); ("E", JInt E); ("s", JString "BTCUSDT");
                             ("U", JInt U); ("u", JInt u); ("b", JArray b); ("a", JArray [])])].
Definition ex_quote_docs : list (string * json) :=
  [("event 9", ex_depth 9 10 1690 []);
   ("event 11", ex_depth 11 12 1700 [ex_level "100.0" "7.0"]);
   ("snapshot", JObject [("lastUpdateId", JInt 10);
      ("bids", JArray [ex_level "100.0" "1.0"; ex_level "99.0" "2.0"]);
      ("asks", JArray [ex_level "101.0" "1.0"; ex_level "102.0" "2.0"])])]%string.

Definition ex_market : QuoteMarketConfig :=
  mkQuoteMarketConfig "stream.binance.com" "9443" "" "@depth@100ms" "api.binance.com" "443" "/api/v3/depth"
    2 50 6000 "quote_binance" "quote_fh" Spot 1 false 2000.
Definition ex_tpc : TpPublisherConfig := tpConfigOf ex_market "localhost" 5010 77.
Definition ex_reply : HttpReply := Response 200 (fun _ => None) "snapshot".

#[local] Instance ex_process : Process World := world_process.
#[local] Instance ex_wlink : TpLink World := world_link "quote_binance" None 14.
#[local] Instance ex_whost : Host World := world_host.
#[local] Instance ex_ws : WebSocket World := world_websocket.
#[local] Instance ex_bg : Background World := world_background.
#[local] Instance ex_http : HttpLib World := world_http ex_reply.
#[local] Instance ex_json : JsonLib json := json_lib ex_quote_docs.

Definition ex_world : World :=
  mkWorld (line_to newTpTable [Delivered; Lost] 1 150) 1700000000000000000 1000000 [] [["event 9"; "event 11"; "noise"]; ["event 9"; "event 11"; "noise"]]%string
    [0; 0; 3; 0; 0; 0; 0; 0; 0; 0; 3]%nat.
Definition ex_handler : QuoteFeedHandler := newQuoteFeedHandler ["btcusdt"] ex_market "localhost" 5010 77 0.

(** The exchange has the three levels of BookProps for every symbol. *)
Definition ex_exchange : Exchange :=
  mkExchange (fun _ => ex_bidT) (fun _ => ex_askT) (fun _ => proj1 ex_ok) (fun _ => proj2 ex_ok).
Definition ex_early : BufferedDelta := mkDelta 9 10 1690 [] [] 0 0.

Lemma ex_early_genuine : genuine Spot ex_bidT ex_askT ex_early.
Proof.
  constructor; [constructor|constructor| |done].
  intros n p Hc _. unfold covers in Hc. cbn [firstUpdateId finalUpdateId ex_early] in *.
  unfold ex_bidT. by replace (n <? 12) with true by lia.
Qed.

Lemma ex_docs_in s v : json_parse s = inl v -> In v (map snd ex_quote_docs).
Proof.
  unfold json_parse, ex_json, json_lib. destruct (List.find _ ex_quote_docs) as [d|] eqn:E; [|discriminate].
  intros [= <-]. apply List.find_some in E as [E _]. by apply in_map.
Qed.

(** What each of the documents is as an event, and as a snapshot. *)
Lemma ex_events :
  map (fun doc => snd <$> read_depth_event false doc) (map snd ex_quote_docs) = [Some ex_early; Some ex_delta; None].
Proof. vm_compute. reflexivity. Qed.

Lemma ex_messages msg sym d :
  parse_message false msg = Some (sym, d) -> d = ex_early \/ d = ex_delta.
Proof.
  unfold parse_message. destruct (json_parse msg) as [doc|] eqn:E; [|discriminate].
  apply ex_docs_in in E. intros Hd.
  apply (in_map (fun doc => snd <$> read_depth_event false doc)) in E. rewrite Hd, ex_events in E.
  destruct E as [E|[E|[E|[]]]]; simplify_eq/=; auto.
Qed.

Lemma ex_feed (w : World) msg sym d :
  fst (ws_read w) = Some msg -> parse_message false msg = Some (sym, d) -> sym ∈ uppers ["btcusdt"%string] ->
  event_ok ex_market ex_exchange sym d.
Proof. intros _ Hp _. destruct (ex_messages _ _ _ Hp) as [-> | ->]; [apply ex_early_genuine|apply ex_genuine]. Qed.

Lemma ex_fetch sym (w : World) :
  fst (fetchSnapshot (mkRestClient "api.binance.com" "443" "/api/v3/depth") sym 2 w) =
  mkSnapshotData 10 (take 2 ex_bids) (take 2 ex_asks) true "" 200 0 (-1).
Proof. vm_compute. reflexivity. Qed.

Lemma ex_rest (w : World) sym :
  sym ∈ uppers ["btcusdt"%string] ->
  snapshot_ok ["btcusdt"%string] ex_market ex_exchange sym
    (fst (fetchSnapshot (mkRestClient "api.binance.com" "443" "/api/v3/depth") sym 2 w)).
Proof. intros _ _. rewrite ex_fetch. exact ex_genuine_snapshot. Qed.

(** Whether a row's [isValid] column is set. *)
Definition row_valid (row : K) : bool :=
  match row with KList (_ :: _ :: _ :: _ :: _ :: _ :: KBool b :: _) => b | _ => false end.

(** What the run did: a valid row, the hole of the reconnect (lost on the wire
    and sent again), a valid row, a hole. *)
Definition ex_outcome (r : option (unit * QuoteFeedHandler * World)) : Prop :=
  match r with
  | Some (_, h, w) =>
      fhSeqNo_ h = 4 /\ reconnects_ (tp_ h) = 1 /\ rowsUnresendable_ (tp_ h) = 0 /\
      session_id (ln_table (w_tp w)) = Some 77 /\
      map row_seq (ln_rows (w_tp w)) = [1; 2; 3; 4] /\
      map row_valid (ln_rows (w_tp w)) = [true; false; true; false]
  | None => False
  end.
Lemma ex_runs : ex_outcome (run 200 200 200 ex_handler ex_world).
Proof. vm_compute. repeat split. Qed.

Lemma published_quotes_are_exact_witness :
  exists h w rows, run 200 200 200 ex_handler ex_world = Some (tt, h, w) /\ fhSeqNo_ h = Z.of_nat (length rows) /\ length rows = 4%nat /\
    Forall (good_row ["btcusdt"%string] ex_market ex_exchange) rows /\ ln_rows (w_tp w) = rows /\
    map row_valid rows = [true; false; true; false].
Proof.
  pose proof ex_runs as Ho. destruct (run 200 200 200 ex_handler ex_world) as [[[[] h] w]|] eqn:E; [|destruct Ho].
  destruct Ho as (Hn & _ & Hu & Hid & Hseq & Hv).
  pose proof (published_quotes_are_exact
    (H1 := world_session "quote_binance" None 14 ex_tpc eq_refl eq_refl)
    (TpQuiet0 := world_quiet "quote_binance" None 14 ex_reply ex_tpc eq_refl eq_refl)
    ["btcusdt"%string] ex_market "localhost" 5010 77 ex_exchange 200 200 200 0 ex_world w h
    ltac:(discriminate) eq_refl ltac:(discriminate) ex_feed ex_rest eq_refl eq_refl E)
    as (rows & Hlen & _ & Hg & _ & Hp).
  specialize (Hp Hu). pose proof (logged_of_session "quote_binance" None 14 ex_tpc eq_refl eq_refl w Hid) as El.
  change (t_log w) with (t_log (TpSession := world_session "quote_binance" None 14 ex_tpc eq_refl eq_refl) w) in Hp.
  rewrite El in Hp.
  assert (length rows = 4%nat) as Hl by lia.
  assert (length (ln_rows (w_tp w)) = 4%nat) as Hl' by (rewrite <-(length_map row_seq), Hseq; reflexivity).
  destruct Hp as [k Hk]. assert (k = []) as ->.
  { apply nil_length_inv. rewrite Hk, length_app in Hl. lia. }
  rewrite app_nil_r in Hk. exists h, w, rows. rewrite <-Hk in Hv. auto 7.
Defined.

Lemma quote_handler_terminates_witness :
  exists h' w', run 151 151 151 ex_handler ex_world = Some (tt, h', w') /\ (reads_left w' <= reads_left ex_world)%nat.
Proof.
  apply (quote_handler_terminates (H7 := world_reads "quote_binance" None 14 ex_reply) 151 151 151 ex_handler ex_world);
    vm_compute; lia.
Defined.

(** The valid rows of the two connections have the hole's mark between them. *)
Lemma every_hole_is_marked_witness :
  exists h w rows qs, run 200 200 200 ex_handler ex_world = Some (tt, h, w) /\ length rows = 4%nat /\
    Forall2 (row_of ex_market) rows qs /\ ln_rows (w_tp w) `sublist_of` rows /\
    adjacent (no_hole Spot) (quotes_of "BTCUSDT" qs).
Proof.
  pose proof ex_runs as Ho. destruct (run 200 200 200 ex_handler ex_world) as [[[[] h] w]|] eqn:E; [|destruct Ho].
  destruct Ho as (Hn & _ & _ & Hid & _).
  destruct (every_hole_is_marked
    (H1 := world_session "quote_binance" None 14 ex_tpc eq_refl eq_refl)
    (TpQuiet0 := world_quiet "quote_binance" None 14 ex_reply ex_tpc eq_refl eq_refl)
    (FlagStays0 := world_flag "quote_binance" None 14 ex_reply)
    ["btcusdt"%string] ex_market "localhost" 5010 77 200 200 200 0 ex_world w h
    ltac:(discriminate) ltac:(repeat constructor; apply not_elem_of_nil) ltac:(discriminate)
    ltac:(discriminate) eq_refl eq_refl E) as (rows & qs & Hrows & Hlen & Hlog & _ & Hadj).
  pose proof (logged_of_session "quote_binance" None 14 ex_tpc eq_refl eq_refl w Hid) as El.
  change (t_log w) with (t_log (TpSession := world_session "quote_binance" None 14 ex_tpc eq_refl eq_refl) w) in Hlog.
  rewrite El in Hlog.
  exists h, w, rows, qs. split; [exact eq_refl|]. split; [lia|]. split; [exact Hrows|]. split; [exact Hlog|].
  apply Hadj. vm_compute. left.
Defined.

(** A clock that is past its first millisecond. *)
#[local] Instance live_host : Host World := {|
  steady_now w := let '(t, w) := tick w in (Z.max 1000000 t, w); system_now := tick; draw_jitter w := (d0, w)
|}.
(** BTCUSDT is requested after 5 ms, and nobody answers in 40 s. *)
Definition early_world : World := mkWorld (line_to newTpTable [] 1 9) 5000000 1000000 [] [] [].
Definition late_world : World := mkWorld (line_to newTpTable [] 1 9) 40000000000 1000000 [] [] [].

Lemma ex_gives_up :
  match request_if_needed 0 ex_handler early_world with
  | Some (_, h1, _) =>
      since 0 h1 = 6 /\ match applySnapshotResults h1 late_world with Some _ => True | None => False end
  | None => False
  end.
Proof. vm_compute. repeat split. Qed.

