(* ===== verification/TradeShutdown.v ===== *)
(** * The trade handler ends when it is asked to

    As for the quote handler: every method returns, and the loops of [run] end
    once the shutdown flag is read as cleared. The driver of the backfill returns
    if its client's callbacks do: its loops are bounded by the queue, the page
    and the guard. *)

From S2P Require Import Prelude Double CStdlib JsonReader MarketConfig Effects Backoff RowClock.
From S2P Require Import KObject TpPublisher TpSession TradeGap Scheduler RestClient SnapshotWorker Rows Shutdown.
From S2P Require Import TradeBackfill TradeHandler.

Open Scope Z_scope.
Local Open Scope rec_scope.
Local Open Scope effect_scope.

(** ** The driver *)

Section driver.
Context {C : Type} (R : C -> Prop).
Context (publishRow : string -> BackfillTrade -> Z -> C -> option C).
Context (recordEvent : TradeGap -> GapStatus -> string -> C -> option C).
Context (fetcher : string -> Z -> Z -> C -> BackfillPage * C).
Context (jitter : C -> double * C).
Hypothesis Hpublish : forall sym t recv c, R c -> exists c', publishRow sym t recv c = Some c' /\ R c'.
Hypothesis Hrecord : forall g st why c, R c -> exists c', recordEvent g st why c = Some c' /\ R c'.
Hypothesis Hfetch : forall sym from limit c, R c -> R (snd (fetcher sym from limit c)).
Hypothesis Hjitter : forall c, R c -> R (snd (jitter c)).

Definition answers {A} (mm : M TradeBackfill C A) : Prop :=
  forall b c, R c -> exists x b' c', mm b c = Some (x, b', c') /\ R c'.

Lemma answers_ret {A} (x : A) : answers (ret x).
Proof. intros b c Hc. by eexists _, _, _. Qed.
Lemma answers_gets {A} (f : TradeBackfill -> A) : answers (gets f).
Proof. intros b c Hc. by eexists _, _, _. Qed.
Lemma answers_puts f : answers (puts f).
Proof. intros b c Hc. by eexists _, _, _. Qed.
Lemma answers_bind {A B} (mm : M TradeBackfill C A) (k : A -> M TradeBackfill C B) :
  answers mm -> (forall x, answers (k x)) -> answers (bind mm k).
Proof.
  intros Hm Hk b c Hc. unfold bind. destruct (Hm b c Hc) as (x & b1 & c1 & -> & Hc1). by apply Hk.
Qed.
Lemma answers_when p (mm : M TradeBackfill C unit) : answers mm -> answers (when p mm).
Proof. intros H. destruct p; [done|]. apply answers_ret. Qed.
Lemma answers_call (f : C -> option C) : (forall c, R c -> exists c', f c = Some c' /\ R c') -> answers (call f).
Proof. intros Hf b c Hc. unfold call. destruct (Hf c Hc) as (c' & -> & ?). by eexists _, _, _. Qed.
Lemma answers_world {A} (f : C -> A * C) : (forall c, R c -> R (snd (f c))) -> answers (world f).
Proof. intros Hf b c Hc. unfold world. specialize (Hf c Hc). destruct (f c). by eexists _, _, _. Qed.

Ltac answers_step :=
  lazymatch goal with
  | |- answers (bind _ _) => apply answers_bind; [|intros ?]
  | |- answers (ret _) => apply answers_ret
  | |- answers (gets _) => apply answers_gets
  | |- answers (puts _) => apply answers_puts
  | |- answers (when _ _) => apply answers_when
  | |- answers (call (publishRow _ _ _)) => apply answers_call; intros ?; apply Hpublish
  | |- answers (call (recordEvent _ _ _)) => apply answers_call; intros ?; apply Hrecord
  | |- answers (world jitter) => apply answers_world; intros ?; apply Hjitter
  | |- answers (world (fetcher _ _ _)) => apply answers_world; intros ?; apply Hfetch
  | |- answers (match ?x with _ => _ end) => destruct x
  end.

Lemma finish_answers st why : answers (finish recordEvent st why).
Proof. unfold finish, front. repeat answers_step. Qed.
Lemma fail_answers page nowMs why : answers (fail_page recordEvent jitter page nowMs why).
Proof. unfold fail_page, front, set_front. repeat first [apply finish_answers | answers_step]. Qed.
Lemma publish_run_answers sym last recv e n ts : answers (publish_run publishRow sym last recv e n ts).
Proof. revert e n. induction ts as [|t ts IH]; intros e n; cbn [publish_run]; repeat first [apply IH | answers_step]. Qed.
Lemma onPage_answers page nowMs : answers (onPage publishRow recordEvent jitter page nowMs).
Proof.
  unfold onPage, front, set_front.
  repeat first [apply finish_answers | apply fail_answers | apply publish_run_answers | answers_step].
Qed.
Lemma take_page_answers nowMs : answers (take_page publishRow recordEvent jitter nowMs).
Proof.
  unfold take_page. repeat first [apply onPage_answers | answers_step].
  intros b c Hc. case_match; [|destruct (try_pop (bf_results b))]; by eexists _, _, _.
Qed.
Lemma settle_answers n : answers (settle_loop recordEvent n).
Proof. induction n as [|n IH]; cbn [settle_loop]; repeat first [apply IH | apply finish_answers | answers_step]. Qed.
Lemma request_answers nowMs : answers (request_next fetcher nowMs).
Proof. unfold request_next. repeat answers_step. Qed.
Lemma pump_answers guard nowMs : answers (pump_loop publishRow recordEvent fetcher jitter guard nowMs).
Proof.
  induction guard as [|guard IH]; cbn [pump_loop]; [apply answers_ret|]. unfold settle.
  repeat first [apply IH | apply take_page_answers | apply settle_answers | apply request_answers | answers_step].
Qed.
End driver.

(** ** The handler *)

Section trade.
Context {W V : Type} `{WorldReads W} `{JsonLib V} (fuel : nat).

Local Abbreviation returns := (returns fuel).

Lemma flushGapEvents_returns : returns flushGapEvents.
Proof.
  intros h w _. unfold flushGapEvents. pose proof (flush_reads (gapEvents_ h) (tp_ h) w) as Hr.
  destruct (flush _ _ w) as [[[b q] p] w1]. by eexists _, _, _.
Qed.
Lemma flushIfPending_returns : returns flushIfPending.
Proof. unfold flushIfPending. repeat first [apply flushGapEvents_returns | returns_step]. Qed.
Lemma recordGap_returns g st why : returns (recordGap g st why).
Proof. unfold recordGap. repeat first [apply flushGapEvents_returns | returns_step]. Qed.
Lemma stampRow_returns recv own : returns (stampRow recv own).
Proof. intros h w _. unfold stampRow. destruct (stamp _ _ _). by eexists _, _, _. Qed.
Lemma publishRow_returns row : returns (publishRowToTp fuel row).
Proof.
  intros h w Hw. unfold publishRowToTp.
  destruct (publish_returns fuel row (fhSeqNo_ h) (tp_ h) w Hw) as (ok & p & w' & -> & ?). by eexists _, _, _.
Qed.

Ltac trade_step :=
  first [simple apply recordGap_returns | simple apply stampRow_returns | simple apply publishRow_returns
        | simple apply flushIfPending_returns | returns_step].

Lemma validate_returns sym id : returns (validateTradeId sym id).
Proof.
  unfold validateTradeId. repeat trade_step. intros h w _. destruct (onId _ _ _). by eexists _, _, _.
Qed.
Lemma publishBackfilled_returns sym t recv : returns (publishBackfilled fuel sym t recv).
Proof. unfold publishBackfilled. cbv zeta. repeat trade_step. Qed.
Lemma handle_trade_returns e recv start : returns (handle_trade fuel e recv start).
Proof. unfold handle_trade. cbv zeta. repeat first [simple apply validate_returns | trade_step]. Qed.
Lemma trade_processMessage_returns msg : returns (processMessage fuel msg).
Proof. unfold processMessage. repeat first [simple apply handle_trade_returns | trade_step]. Qed.
Lemma publishHealth_returns : returns publishHealth.
Proof. unfold publishHealth. repeat trade_step. Qed.

Lemma fetch_reads m sym from limit w : (reads_left (snd (fetcherOf m sym from limit w)) <= reads_left w)%nat.
Proof.
  unfold fetcherOf, fetch_page.
  match goal with |- context [get ?c ?target w] => pose proof (get_reads c target w) as Hq end.
  destruct (get _ _ w) as [r w1]. pose proof (reads_system w1). destruct (system_now w1) as [now w2].
  cbn [snd] in *. assert (reads_left w2 <= reads_left w)%nat by lia. repeat case_match; done.
Qed.

(** The callbacks return while the flag's reads are below the fuel. *)
Lemma callback_returns (mm : M TradeFeedHandler W unit) n c :
  returns mm -> (n < fuel)%nat -> (reads_left (snd c) <= n)%nat ->
  exists c', as_callback mm c = Some c' /\ (reads_left (snd c') <= n)%nat.
Proof.
  intros Hm Hn. destruct c as [h w]. cbn [snd]. intros Hw. destruct (Hm h w) as (x & h' & w' & E & Hw'); [lia|].
  exists (h', w'). unfold as_callback. rewrite E. split; [done|]. cbn. lia.
Qed.

Lemma pumpBackfill_returns : returns (pumpBackfill fuel).
Proof.
  unfold pumpBackfill. apply returns_bind; [returns_step|intros t].
  intros h w Hw. unfold pump.
  match goal with |- context [pump_loop ?p ?r ?f ?j PUMP_GUARD ?now ?bf (h, w)] =>
    assert (answers (fun c : TradeFeedHandler * W => (reads_left (snd c) <= reads_left w)%nat)
      (pump_loop p r f j PUMP_GUARD now)) as Hp; [apply pump_answers|
      destruct (Hp bf (h, w) (Nat.le_refl _)) as (u & b' & [h' w'] & -> & Hr); by eexists _, _, _]
  end.
  - intros sym tr recv c Hc. by apply (callback_returns _ (reads_left w)); [apply publishBackfilled_returns|..].
  - intros g st why c Hc. by apply (callback_returns _ (reads_left w)); [apply recordGap_returns|..].
  - intros sym from limit [h1 w1] Hc. cbn [snd] in *. pose proof (fetch_reads (cfg_ h1) sym from limit w1).
    destruct (fetcherOf _ _ _ _ w1). cbn [snd] in *. lia.
  - intros [h1 w1] Hc. cbn [snd] in *. pose proof (reads_draw w1). destruct (draw_jitter w1). cbn [snd] in *. lia.
Qed.

Lemma trade_on_message_returns msg last : returns (on_message fuel msg last).
Proof.
  unfold on_message.
  repeat first [simple apply trade_processMessage_returns | simple apply pumpBackfill_returns
               | simple apply publishHealth_returns | trade_step].
Qed.

Lemma backfill_turns_reads m n b w : (reads_left (snd (backfill_turns m n b w)) <= reads_left w)%nat.
Proof.
  revert b w. induction n as [|n IH]; intros b w; cbn [backfill_turns]; [done|].
  assert (reads_left (snd (backfill_turn m b w)) <= reads_left w)%nat as Hone.
  { unfold backfill_turn. destruct (bf_thread b) as [| |r|]; try done.
    pose proof (fetch_reads m (br_sym r) (br_fromId r) (br_limit r) w) as Hf. by destruct (fetcherOf _ _ _ _ w). }
  destruct (backfill_turn m b w) as [b1 w1]. etrans; [apply IH|done].
Qed.

Lemma trade_background_returns : returns background.
Proof.
  intros h w _. unfold background. pose proof (reads_steps w). destruct (worker_steps w) as [n w1]. cbn [snd] in *.
  pose proof (backfill_turns_reads (cfg_ h) n (backfill_ h) w1).
  destruct (backfill_turns _ n _ w1) as [b w2]. cbn [snd] in *. eexists _, _, _. split; [done|lia].
Qed.

(** ** The loops: every iteration reads the flag *)

(** [frames] iterations suffice if the flag is read as set fewer times. *)
Lemma trade_message_loop_returns frames last h w :
  (reads_left w < fuel)%nat -> (reads_left w < frames)%nat ->
  exists e h' w', message_loop fuel frames last h w = Some (e, h', w') /\ (reads_left w' <= reads_left w)%nat.
Proof.
  revert last h w. induction frames as [|frames IH]; intros last h w Hf Hr; [lia|].
  cbn [message_loop]. unfold bind at 1, world.
  pose proof (reads_read w) as Hdec. pose proof (reads_read_le w) as Hle.
  destruct (is_running w) as [r w1]. cbn [fst snd] in *. destruct r; cbn [negb]; [|by eexists _, _, _].
  specialize (Hdec eq_refl). unfold bind at 1. destruct (trade_background_returns h w1) as (x & h2 & w2 & -> & Hw2); [lia|].
  unfold bind at 1. pose proof (reads_wsread w2) as Hws. destruct (ws_read w2) as [[msg|] w3]; cbn [snd] in Hws;
    [|eexists _, _, _; split; [done|lia]].
  unfold bind at 1. pose proof (reads_read_le w3). destruct (is_running w3) as [r w4]. cbn [snd] in *.
  destruct r; cbn [negb]; [|eexists _, _, _; split; [done|lia]].
  unfold bind. destruct (trade_on_message_returns msg last h2 w4) as (l' & h5 & w5 & -> & ?); [lia|].
  destruct (IH l' h5 w5) as (e & h6 & w6 & -> & ?); [lia..|]. eexists _, _, _. split; [done|lia].
Qed.

Lemma trade_runWebSocketLoop_returns frames h w :
  (reads_left w < fuel)%nat -> (reads_left w < frames)%nat ->
  exists e h' w', runWebSocketLoop fuel frames h w = Some (e, h', w') /\ (reads_left w' <= reads_left w)%nat.
Proof.
  intros Hf Hr. unfold runWebSocketLoop, bind at 1, puts. set (h1 := h <| connState_ := "connecting" |>). clearbody h1.
  unfold bind at 1, gets. unfold bind at 1, world.
  pose proof (reads_connect (mc_host (cfg_ h1)) (mc_port (cfg_ h1)) (streamTarget h1) w) as Hc.
  destruct (ws_connect _ _ _ w) as [ok w2]. cbn [snd] in Hc. destruct ok; cbn [negb]; [|by eexists _, _, _].
  unfold bind at 1, puts. set (h2 := h1 <| connState_ := _ |> <| binanceReconnectAttempt_ := _ |>). clearbody h2.
  unfold bind at 1. pose proof (reads_steady w2) as Hs. destruct (steady_now w2) as [t w3]. cbn [snd] in Hs.
  unfold bind at 1. destruct (trade_message_loop_returns frames t h2 w3) as (e & h4 & w4 & -> & Hw4); [lia..|].
  destruct e; [eexists _, _, _; split; [done|lia]|].
  unfold bind, puts. pose proof (reads_read_le w4) as Hl. destruct (is_running w4) as [r w5]. cbn [snd] in Hl.
  pose proof (reads_wsclose w5). destruct r; cbn [negb]; eexists _, _, _; (split; [done|lia]).
Qed.

Lemma trade_run_loop_returns rounds frames h w :
  (reads_left w < fuel)%nat -> (reads_left w < frames)%nat -> (reads_left w < rounds)%nat ->
  exists h' w', run_loop fuel rounds frames h w = Some (tt, h', w') /\ (reads_left w' <= reads_left w)%nat.
Proof.
  revert h w. induction rounds as [|rounds IH]; intros h w Hf Hr Hn; [lia|].
  cbn [run_loop]. unfold bind at 1, world.
  pose proof (reads_read w) as Hdec. pose proof (reads_read_le w) as Hle.
  destruct (is_running w) as [r w1]. cbn [fst snd] in *. destruct r; cbn [negb]; [|by eexists _, _].
  specialize (Hdec eq_refl). unfold bind at 1.
  destruct (trade_runWebSocketLoop_returns frames h w1) as (e & h1 & w2 & -> & Hw2); [lia..|].
  destruct e.
  2: { destruct (IH h1 w2) as (h' & w' & E & ?); [lia..|]. exists h', w'. split; [exact E|lia]. }
  unfold bind at 1. pose proof (reads_read_le w2) as Hl2. destruct (is_running w2) as [r w3]. cbn [snd] in Hl2.
  destruct r; cbn [negb].
  2: { destruct (IH h1 w3) as (h' & w' & E & ?); [lia..|]. exists h', w'. split; [exact E|lia]. }
  unfold bind, puts, gets.
  pose proof (sleepWithBackoff_reads BACKOFF_MULTIPLIER INITIAL_BACKOFF_MS MAX_BACKOFF_MS
    (binanceReconnectAttempt_ (h1 <| ctrWsReconnects_ ::= Z.succ |>)) w3) as Hsl.
  destruct (sleepWithBackoff _ _ _ _ w3) as [ok w4]. cbn [snd] in Hsl.
  destruct ok; [|eexists _, _; split; [done|lia]].
  match goal with |- context [run_loop fuel rounds frames ?h2 w4] =>
    destruct (IH h2 w4) as (h' & w' & E & ?); [lia..|] end.
  exists h', w'. split; [exact E|lia].
Qed.

Lemma resume_returns : returns resume.
Proof.
  unfold resume. repeat trade_step. intros h w _. pose proof (tradeState_reads (tp_ h) w).
  destruct (tradeState (tp_ h) w) as [[st p] w1]. by eexists _, _, _.
Qed.
End trade.

(** C19: the trade handler ends. In any world where the shutdown flag is
    eventually read as cleared, [run] returns: fuel, rounds and frames beyond
    the number of reads suffice, whatever the exchange, the REST service and TP
    do. *)
Theorem trade_handler_terminates {W V : Type} `{WorldReads W} `{JsonLib V} fuel rounds frames
    (h : TradeFeedHandler) (w : W) :
  (reads_left w < fuel)%nat -> (reads_left w < rounds)%nat -> (reads_left w < frames)%nat ->
  exists h' w', run fuel rounds frames h w = Some (tt, h', w') /\ (reads_left w' <= reads_left w)%nat.
Proof.
  intros Hf Hr Hn. unfold run, bind at 1, connect.
  destruct (connect_loop_returns fuel 0 (fhSeqNo_ h + 1) (tp_ h) w Hf) as (ok & p & w1 & -> & Hw1).
  destruct ok; cbn [negb]; [|by eexists _, _].
  unfold bind at 1. destruct (resume_returns fuel (h <| tp_ := p |>) w1) as (x & h1 & w2 & -> & Hw2); [lia|].
  unfold bind at 1. destruct (trade_run_loop_returns fuel rounds frames h1 w2) as (h2 & w3 & -> & ?); [lia..|].
  unfold bind, puts. pose proof (close_reads (tp_ (h2 <| backfill_ ::= bf_stop |>)) w3).
  destruct (close _ w3) as [p3 w4]. cbn [snd] in *. eexists _, _. split; [done|lia].
Qed.
