(* ===== verification/TradeExample.v ===== *)
(** * A run of the trade handler

    The theorems about whole runs, at a concrete one: spot BTCUSDT after a
    restart. TP had logged ids up to 100 and still misses 95 and 96; the stream
    sends 101, then 104, and repeats ids; TP loses a row on the wire; the
    exchange's REST service serves the missing trades in two requests. *)

From S2P Require Import Prelude Double CStdlib JsonReader MarketConfig Effects Backoff RowClock.
From S2P Require Import KObject TpPublisher TpSession TradeGap Scheduler RestClient SnapshotWorker Rows.
From S2P Require Import Delivery Shutdown.
From S2P Require Import TradeBackfill TradeBackfillProps TradeLedger TradeHandler TradeHandlerProps TradeShutdown.
From S2P Require Import TpMemory TradeRestart TickerPlant TpLine SimWorld.

Open Scope Z_scope.
Local Open Scope rec_scope.

Definition ex_trade_doc (id E : Z) : json :=
  JObject [("stream", JString "btcusdt@trade");
           ("data", JObject [("e", JString "trade"); ("E", JInt E); ("s", JString "BTCUSDT"); ("t", JInt id);
                             ("p", JString "100.0"); ("q", JString "0.5"); ("T", JInt E); ("m", JBool true)])]%string.
Definition ex_rest_trade (id : Z) : json :=
  JObject [("id", JInt id); ("price", JString "99.5"); ("qty", JString "1.0"); ("time", JInt 1699);
           ("isBuyerMaker", JBool false)]%string.
Definition ex_trade_docs : list (string * json) :=
  [("t101", ex_trade_doc 101 1700); ("t104", ex_trade_doc 104 1701);
   ("trades", JArray (ex_rest_trade <$> [95; 96; 102; 103]))]%string.

Definition ex_spot : MarketConfig := default_MarketConfig <| mc_backfillEnabled := true |>.
Definition ex_trade_tpc : TpPublisherConfig := tradeTpConfigOf ex_spot "localhost" 5010 77.
Definition ex_trade_reply : HttpReply := Response 200 (fun _ => None) "trades".

#[local] Instance tr_process : Process World := world_process.
#[local] Instance tr_link : TpLink World := world_link "trade_binance" (Some SpotTrade) TRADE_ROW_WIDTH.
#[local] Instance tr_host : Host World := world_host.
#[local] Instance tr_ws : WebSocket World := world_websocket.
#[local] Instance tr_bg : Background World := world_background.
#[local] Instance tr_http : HttpLib World := world_http ex_trade_reply.
#[local] Instance tr_json : JsonLib json := json_lib ex_trade_docs.

(** TP has logged ids up to 100, and knows that 95 and 96 are missing. *)
Definition ex_memory : TradeMemory :=
  mkMemory {["BTCUSDT"%string := 100]} {[("BTCUSDT"%string, 95) := mkGapLine 96 "detected" 0 null_long "stream_gap" 0]}.
Definition ex_tp : TpTable := session_save (newTpTable <| memory := ex_memory |>).
Lemma ex_memory_ok : memory_ok ex_memory.
Proof.
  unfold ex_memory. constructor; cbn [tm_lastId tm_gaps].
  - intros s p [_ <-]%lookup_singleton_Some. lia.
  - intros s f e [[= <- <-] <-]%lookup_singleton_Some. cbn. split; [lia|]. split; [by left|]. exists 100. split; [done|lia].
  - intros s f e f' e' [[= <- <-] _]%lookup_singleton_Some [[= <-] _]%lookup_singleton_Some. lia.
Qed.

(** A clock read takes a second. *)
Definition ex_trade_world : World :=
  mkWorld (line_to ex_tp [Delivered; Lost] 1 60) 1700000000000000000 1000000000 []
    [["t101"; "t104"; "t104"]; ["noise"; "t101"; "t104"; "t104"; "t104"]]%string [0; 3; 3; 3; 3; 3; 3; 3; 3; 3]%nat.
Definition ex_trade_handler : TradeFeedHandler := newTradeFeedHandler ["btcusdt"%string] ex_spot "localhost" 5010 77.

(** What the documents are as trades. *)
Lemma ex_trade_docs_in s v : json_parse s = inl v -> In v (map snd ex_trade_docs).
Proof.
  unfold json_parse, tr_json, json_lib. destruct (List.find _ ex_trade_docs) as [d|] eqn:E; [|discriminate].
  intros [= <-]. apply List.find_some in E as [E _]. by apply in_map.
Qed.
Lemma ex_trade_events :
  map (fun doc => (fun e => (te_primaryId e, te_eventTimeMs e)) <$> read_trade_event SpotTrade doc) (map snd ex_trade_docs) =
    [Some (101, 1700); Some (104, 1701); None].
Proof. vm_compute. reflexivity. Qed.

Lemma ex_trade_feed (w : World) msg e :
  fst (ws_read w) = Some msg -> parse_trade_message (mc_schema ex_spot) msg = Some e -> trade_ok e.
Proof.
  intros _. unfold parse_trade_message. destruct (json_parse msg) as [doc|] eqn:E; [|discriminate].
  apply ex_trade_docs_in in E. intros Hd.
  apply (in_map (fun doc => (fun e => (te_primaryId e, te_eventTimeMs e)) <$> read_trade_event SpotTrade doc)) in E.
  change (mc_schema ex_spot) with SpotTrade in Hd. rewrite Hd, ex_trade_events in E. cbn in E. unfold trade_ok.
  destruct E as [E|[E|[E|[]]]]; [injection E as <- <-; split; [lia|discriminate]..|discriminate].
Qed.

Lemma ex_answer : answer_at_start ex_trade_tpc 70 ex_trade_world = parseTradeState (tradeState_reply ex_memory).
Proof. vm_compute. reflexivity. Qed.
Lemma ex_state : state_ok (answer_at_start ex_trade_tpc 70 ex_trade_world).
Proof. rewrite ex_answer. apply (tells_ok ex_memory), tells_itself. apply ex_memory_ok. Qed.

(** What a theorem says of TP's log is about the rows of the session. *)
Ltac in_session cfg w Hid H :=
  let S := constr:(world_session "trade_binance" (Some SpotTrade) TRADE_ROW_WIDTH cfg eq_refl eq_refl) in
  let E := fresh "E" in
  pose proof (logged_of_session "trade_binance" (Some SpotTrade) TRADE_ROW_WIDTH cfg eq_refl eq_refl w Hid) as E;
  change (t_log w) with (t_log (TpSession := S) w) in H; rewrite E in H; clear E.

(** What the run did: the gap TP knew of and the one of the stream are backfilled
    between the live trades; three gap events are acknowledged. *)
Definition ex_trade_outcome (r : option (unit * TradeFeedHandler * World)) : Prop :=
  match r with
  | Some (_, h, w) =>
      session_id (ln_table (w_tp w)) = Some 77 /\
      fhSeqNo_ h = 11 /\ reconnects_ (tp_ h) = 1 /\ rowsUnresendable_ (tp_ h) = 0 /\
      length (ln_rows (w_tp w)) = 11%nat /\
      omap (row_origin SpotTrade) (ln_rows (w_tp w)) =
        [("BTCUSDT", 101, false); ("BTCUSDT", 104, false); ("BTCUSDT", 95, true); ("BTCUSDT", 96, true);
         ("BTCUSDT", 104, false); ("BTCUSDT", 102, true); ("BTCUSDT", 103, true); ("BTCUSDT", 101, false);
         ("BTCUSDT", 104, false); ("BTCUSDT", 104, false); ("BTCUSDT", 104, false)]%string /\
      id_counters h = (1, 2, 1, 4) /\ acked_ (gapEvents_ h) = 3 /\ pending_ (gapEvents_ h) = [] /\
      queue_ (backfill_ h) = [] /\ idTracker_ h !! "BTCUSDT"%string = Some 104
  | None => False
  end.
Lemma ex_trade_runs : ex_trade_outcome (run 70 70 70 ex_trade_handler ex_trade_world).
Proof. vm_compute. repeat split. Qed.

(** The rows are all of TP's log. *)
Lemma ex_all_logged h w rows :
  ex_trade_outcome (Some (tt, h, w)) -> published_trades World ex_spot rows h (ln_rows (w_tp w)) ->
  ln_rows (w_tp w) = rows.
Proof.
  intros (_ & Hn & _ & Hu & Hl & _) [Hc _ _ _ _ Hp]. specialize (Hp Hu). destruct Hp as [k Hk]. rewrite Hk in Hc.
  rewrite length_app in Hc. assert (k = []) as -> by (apply nil_length_inv; lia). by rewrite app_nil_r in Hk.
Qed.


Lemma ex_live h w rows :
  ex_trade_outcome (Some (tt, h, w)) -> ln_rows (w_tp w) = rows ->
  live_trades SpotTrade rows =
    [("BTCUSDT", 101); ("BTCUSDT", 104); ("BTCUSDT", 104); ("BTCUSDT", 101); ("BTCUSDT", 104);
     ("BTCUSDT", 104); ("BTCUSDT", 104)]%string.
Proof. intros (_ & _ & _ & _ & _ & Ho & _) <-. unfold live_trades. rewrite Ho. vm_compute. reflexivity. Qed.

(** The run's answer, whatever names the instances go by. *)
Ltac known_answer :=
  match goal with |- context [@answer_at_start ?w ?p ?l ?c ?f ?w0] =>
    replace (@answer_at_start w p l c f w0) with (parseTradeState (tradeState_reply ex_memory)) by (symmetry; exact ex_answer)
  end.

(** Id 102, which the stream skipped. *)
Lemma every_trade_id_accounted_witness :
  exists h w rows events, run 70 70 70 ex_trade_handler ex_trade_world = Some (tt, h, w) /\
    published_trades World ex_spot rows h (ln_rows (w_tp w)) /\
    events_kept "trade_binance" (gapEvents_ h) events /\
    ((exists row backfilled, row ∈ rows /\ row_origin SpotTrade row = Some ("BTCUSDT"%string, 102, backfilled)) \/
     (exists j, j ∈ queue_ (backfill_ h) /\ in_gap "BTCUSDT" 102 (j_gap j)) \/
     (exists g why, (g, Unrecoverable, why) ∈ events /\ in_gap "BTCUSDT" 102 g)).
Proof.
  pose proof ex_trade_runs as Ho. destruct (run 70 70 70 ex_trade_handler ex_trade_world) as [[[[] h] w]|] eqn:E; [|destruct Ho].
  pose proof (every_trade_id_accounted ex_spot "localhost" 5010 77
    (H1 := world_session "trade_binance" (Some SpotTrade) TRADE_ROW_WIDTH ex_trade_tpc eq_refl eq_refl)
    (TpQuiet0 := world_quiet "trade_binance" (Some SpotTrade) TRADE_ROW_WIDTH ex_trade_reply ex_trade_tpc eq_refl eq_refl)
    70 ltac:(discriminate) ex_trade_feed ["btcusdt"%string] 70 70 ex_trade_world h w
    eq_refl eq_refl ex_state E) as (rows & events & Hp & He & Hids).
  in_session ex_trade_tpc w (proj1 Ho) Hp. exists h, w, rows, events. split; [exact eq_refl|].
  split; [exact Hp|]. split; [exact He|]. apply (Hids "BTCUSDT"%string 102). left. exists 100, 104.
  known_answer.
  change (mc_schema ex_spot) with SpotTrade. rewrite (ex_live h w rows Ho (ex_all_logged h w rows Ho Hp)).
  split; [vm_compute; reflexivity|]. split; [|lia]. exact (proj2 (proj2 (proj2 (proj2 (proj2 (proj2 (proj2 (proj2 (proj2 (proj2 Ho)))))))))).
Defined.

Lemma detected_gaps_are_recorded_witness :
  exists h w events, run 70 70 70 ex_trade_handler ex_trade_world = Some (tt, h, w) /\
    events_kept "trade_binance" (gapEvents_ h) events /\
    detections events = [mkTradeGap "BTCUSDT" 102 103 0 0].
Proof.
  pose proof ex_trade_runs as Ho. destruct (run 70 70 70 ex_trade_handler ex_trade_world) as [[[[] h] w]|] eqn:E; [|destruct Ho].
  pose proof (detected_gaps_are_recorded ex_spot "localhost" 5010 77
    (H1 := world_session "trade_binance" (Some SpotTrade) TRADE_ROW_WIDTH ex_trade_tpc eq_refl eq_refl)
    (TpQuiet0 := world_quiet "trade_binance" (Some SpotTrade) TRADE_ROW_WIDTH ex_trade_reply ex_trade_tpc eq_refl eq_refl)
    70 ltac:(discriminate) ex_trade_feed ["btcusdt"%string] 70 70 ex_trade_world h w
    eq_refl eq_refl ex_state E) as (rows & events & Hp & He & Hd).
  in_session ex_trade_tpc w (proj1 Ho) Hp. exists h, w, events. split; [exact eq_refl|]. split; [exact He|].
  rewrite Hd. known_answer.
  change (mc_schema ex_spot) with SpotTrade. rewrite (ex_live h w rows Ho (ex_all_logged h w rows Ho Hp)).
  vm_compute. reflexivity.
Defined.

Lemma trade_handler_terminates_witness :
  exists h' w', run 61 61 61 ex_trade_handler ex_trade_world = Some (tt, h', w') /\
    (reads_left w' <= reads_left ex_trade_world)%nat.
Proof.
  apply (trade_handler_terminates (H7 := world_reads "trade_binance" (Some SpotTrade) TRADE_ROW_WIDTH ex_trade_reply) 61 61 61 ex_trade_handler ex_trade_world);
    vm_compute; lia.
Defined.

(** A restart: the first process receives 101 and its backfill never gets a turn; then
    TP is restarted too; the second process receives 104 after 102 and 103 were
    traded, and backfills those and the two TP has been missing since before. *)
Definition ex_first_world : World :=
  mkWorld (line_to ex_tp [] 0 20) 1700000000000000000 1000000000 [] [["t101"]]%string [].
Definition ex_first_tp : TpTable :=
  match run 30 30 30 ex_trade_handler ex_first_world with Some (_, _, w) => ln_table (w_tp w) | None => ex_tp end.
Definition ex_second_world : World :=
  mkWorld (line_to (restart "trade_binance" (Some SpotTrade) false ex_first_tp) [] 0 60)
    1700000000000000000 1000000000 []
    [["t104"; "t104"; "t104"; "t104"; "t104"]]%string [3; 3; 3; 3; 3; 3; 3; 3; 3; 3]%nat.
Definition ex_handler2 : TradeFeedHandler := newTradeFeedHandler ["btcusdt"%string] ex_spot "localhost" 5010 78.

Definition ex_first_log : list K :=
  match run 30 30 30 ex_trade_handler ex_first_world with Some (_, _, w) => ln_rows (w_tp w) | None => [] end.
(** What TP remembers in between. *)
Local Abbreviation ex_after :=
  (remember (mc_tpTable ex_spot) (mc_schema ex_spot) ex_memory (RowNote <$> ex_first_log)).

Definition ex_first_outcome (h : TradeFeedHandler) (w : World) : Prop :=
  session_id (ln_table (w_tp w)) = Some 77 /\
  fhSeqNo_ h = 1 /\ rowsUnresendable_ (tp_ h) = 0 /\ length (ln_rows (w_tp w)) = 1%nat /\
  acked_ (gapEvents_ h) + rejected_ (gapEvents_ h) + Z.of_nat (length (pending_ (gapEvents_ h))) = 0 /\
  length (queue_ (backfill_ h)) = 1%nat.
Lemma ex_first_runs :
  exists h w, run 30 30 30 ex_trade_handler ex_first_world = Some (tt, h, w) /\ ln_rows (w_tp w) = ex_first_log /\
    ex_first_outcome h w.
Proof.
  unfold ex_first_log.
  assert (match run 30 30 30 ex_trade_handler ex_first_world with Some (_, h, w) => ex_first_outcome h w | None => False end) as Ho
    by (vm_compute; repeat split).
  destruct (run 30 30 30 ex_trade_handler ex_first_world) as [[[[] h] w]|]; [by exists h, w|done].
Qed.
Lemma ex_second_runs :
  exists h w, run 30 70 70 ex_handler2 ex_second_world = Some (tt, h, w) /\
    idTracker_ h !! "BTCUSDT"%string = Some 104 /\ queue_ (backfill_ h) = [].
Proof.
  assert (match run 30 70 70 ex_handler2 ex_second_world with
    | Some (_, h, w) => idTracker_ h !! "BTCUSDT"%string = Some 104 /\ queue_ (backfill_ h) = []
    | None => False end) as Ho by (vm_compute; repeat split).
  destruct (run 30 70 70 ex_handler2 _) as [[[[] h] w]|]; [by exists h, w|done].
Qed.
Lemma ex_first_answer : tells ex_memory (answer_at_start (tradeTpConfigOf ex_spot "localhost" 5010 77) 30 ex_first_world).
Proof.
  assert (answer_at_start (tradeTpConfigOf ex_spot "localhost" 5010 77) 30 ex_first_world = parseTradeState (tradeState_reply ex_memory)) as ->
    by (vm_compute; reflexivity). apply tells_itself.
Qed.
Lemma ex_second_answer : tells ex_after (answer_at_start (tradeTpConfigOf ex_spot "localhost" 5010 78) 30 ex_second_world).
Proof.
  assert (answer_at_start (tradeTpConfigOf ex_spot "localhost" 5010 78) 30 ex_second_world = parseTradeState (tradeState_reply ex_after)) as ->
    by (vm_compute; reflexivity). apply tells_itself.
Qed.
(** The sessions of all processes. *)
Definition ex_ses (start : Z) : TpSession World (tradeTpConfigOf ex_spot "localhost" 5010 start) row_seq :=
  world_session "trade_binance" (Some SpotTrade) TRADE_ROW_WIDTH (tradeTpConfigOf ex_spot "localhost" 5010 start) eq_refl eq_refl.
Definition ex_qui (start : Z) : TpQuiet (H1 := ex_ses start) World (tradeTpConfigOf ex_spot "localhost" 5010 start) :=
  world_quiet "trade_binance" (Some SpotTrade) TRADE_ROW_WIDTH ex_trade_reply (tradeTpConfigOf ex_spot "localhost" 5010 start) eq_refl eq_refl.

Lemma ex_first_fresh :
  t_last (TpSession := ex_ses 77) ex_first_world = None /\ t_log (TpSession := ex_ses 77) ex_first_world = [].
Proof. split; vm_compute; reflexivity. Qed.
Lemma ex_second_fresh :
  t_last (TpSession := ex_ses 78) ex_second_world = None /\ t_log (TpSession := ex_ses 78) ex_second_world = [].
Proof. split; vm_compute; reflexivity. Qed.
Lemma ex_first_session (w : World) :
  session_id (ln_table (w_tp w)) = Some 77 -> t_log (TpSession := ex_ses 77) w = ln_rows (w_tp w).
Proof. apply (logged_of_session "trade_binance" (Some SpotTrade) TRADE_ROW_WIDTH (tradeTpConfigOf ex_spot "localhost" 5010 77) eq_refl eq_refl). Qed.

#[local] Existing Instances ex_ses ex_qui.
Lemma ex_first_process h w :
  run 30 30 30 ex_trade_handler ex_first_world = Some (tt, h, w) -> process ex_spot "localhost" 5010 ex_memory 77 h w.
Proof.
  intros E. exists ["btcusdt"%string], 30%nat, 30%nat, 30%nat, ex_first_world.
  split; [exact (proj1 ex_first_fresh)|]. split; [exact (proj2 ex_first_fresh)|]. split; [exact ex_first_answer|exact E].
Qed.
Lemma ex_second_process h w :
  run 30 70 70 ex_handler2 ex_second_world = Some (tt, h, w) -> process ex_spot "localhost" 5010 ex_after 78 h w.
Proof.
  intros E. exists ["btcusdt"%string], 30%nat, 70%nat, 70%nat, ex_second_world.
  split; [exact (proj1 ex_second_fresh)|]. split; [exact (proj2 ex_second_fresh)|]. split; [exact ex_second_answer|exact E].
Qed.

Lemma only_rows l : rows_in (RowNote <$> l) = l /\ events_in (RowNote <$> l) = [].
Proof. induction l as [|x l [IH1 IH2]]; [done|]. unfold rows_in, events_in in *. cbn. by rewrite IH1, IH2. Qed.

Lemma ex_first_all rows events h w :
  ex_first_outcome h w -> published_trades World ex_spot rows h (ln_rows (w_tp w)) ->
  events_kept "trade_binance" (gapEvents_ h) events -> rows = ln_rows (w_tp w) /\ events = [].
Proof.
  intros (_ & Hn & Hu & Hl & He & _) [Hc _ _ _ _ Hp] (G & _ & _ & Hev). split; [|apply nil_length_inv; lia].
  destruct (Hp Hu) as [k Hk]. rewrite Hk, length_app in Hc.
  assert (k = []) as -> by (apply nil_length_inv; lia). by rewrite app_nil_r in Hk.
Qed.

Lemma ex_known l : first_known (tm_lastId ex_memory) l "BTCUSDT" = Some 100.
Proof. unfold first_known. by assert (tm_lastId ex_memory !! "BTCUSDT"%string = Some 100) as -> by (vm_compute; reflexivity). Qed.

