(* ===== verification/SimPublisher.v ===== *)
(** * The test publisher (tools/sim_trade_publisher.cpp)

    A trade handler without the exchange: synthetic trades, gaps on demand, the
    real publisher, tracker, gap events, row clock and backfill, the last against
    a fake exchange. Its [main] as a method on its local variables; what it
    prints is left out. [std::_Exit] ends the run: no state comes back. *)

From S2P Require Import Prelude Double CStdlib MarketConfig Effects Backoff RowClock.
From S2P Require Import KObject TpPublisher TradeGap Scheduler RestClient SnapshotWorker Rows.
From S2P Require Import TradeBackfill.

Open Scope Z_scope.
Local Open Scope rec_scope.
Local Open Scope effect_scope.

Definition SIM_KDB_EPOCH_OFFSET_NS : Z := kdb_epoch_offset_ns.

(** ** The command line *)

Record Options := mkOptions {
  port : Z; nRows : Z; rate : Z; firstId : Z; session : Z; ring : Z; sym : string;
  gapAt : Z; gapSize : Z; pendFirst : Z; pendLast : Z; seedFromTp : bool; doBackfill : bool;
  bfPage : Z; bfFail : Z; bfServedFrom : Z; bfMaxGap : Z; dieAfter : Z;
  lagMs : Z; lagAt : Z; lagRows : Z; lagThresholdMs : Z
}.
#[export] Instance eta_Options : Eta Options := fun o =>
  mkOptions (port o) (nRows o) (rate o) (firstId o) (session o) (ring o) (sym o)
    (gapAt o) (gapSize o) (pendFirst o) (pendLast o) (seedFromTp o) (doBackfill o)
    (bfPage o) (bfFail o) (bfServedFrom o) (bfMaxGap o) (dieAfter o)
    (lagMs o) (lagAt o) (lagRows o) (lagThresholdMs o).

Definition default_Options (nowNs : Z) : Options :=
  mkOptions 0 0 1000 1 nowNs 4096 "BTCUSDT" (-1) 0 0 0 false false 1000 0 1 500000 (-1)
    0 0 0 DEFAULT_CLOCK_LAG_MS.

(** One option and its value; [None] is the exit with code 1. *)
Definition set_option (a v : string) (o : Options) : option Options :=
  let opt := String.eqb a in
  let n := atoll v in
  if opt "--port" then Some (o <| port := atoi v |>)
  else if opt "--rows" then Some (o <| nRows := n |>)
  else if opt "--rate" then Some (o <| rate := n |>)
  else if opt "--ring" then Some (o <| ring := n |>)
  else if opt "--session" then Some (o <| session := n |>)
  else if opt "--first-id" then Some (o <| firstId := n |>)
  else if opt "--sym" then Some (o <| sym := v |>)
  else if opt "--seed-from-tp" then Some (o <| seedFromTp := negb (n =? 0) |>)
  else if opt "--backfill" then Some (o <| doBackfill := negb (n =? 0) |>)
  else if opt "--backfill-page" then Some (o <| bfPage := n |>)
  else if opt "--backfill-fail" then Some (o <| bfFail := n |>)
  else if opt "--backfill-served-from" then Some (o <| bfServedFrom := n |>)
  else if opt "--backfill-max-gap" then Some (o <| bfMaxGap := n |>)
  else if opt "--die-after-backfilled" then Some (o <| dieAfter := n |>)
  else if opt "--lag-ms" then Some (o <| lagMs := n |>)
  else if opt "--lag-at" then Some (o <| lagAt := n |>)
  else if opt "--lag-rows" then Some (o <| lagRows := n |>)
  else if opt "--lag-threshold-ms" then Some (o <| lagThresholdMs := n |>)
  else if opt "--gap-at" then Some (o <| gapAt := n |>)
  else if opt "--gap-size" then Some (o <| gapSize := n |>)
  else if opt "--pending-gap" then
    match String.index 0 ":" v with
    | None => None
    | Some i => Some (o <| pendFirst := n |>
                        <| pendLast := atoll (String.substring (S i) (String.length v) v) |>)
    end
  else None.

(** Pairs of arguments; a last one without a value is ignored. *)
Fixpoint parse_options (args : list string) (o : Options) : option Options :=
  match args with
  | a :: v :: rest => match set_option a v o with Some o => parse_options rest o | None => None end
  | _ => Some o
  end%string.

(** The options that [main] goes on with. *)
Definition usable (o : Options) : bool := negb ((port o <=? 0) || (nRows o <=? 0) || (rate o <=? 0)).

(** ** The local variables of main *)

Record Sim := mkSimulator {
  opts : Options;
  sim_tp : TpPublisher;
  tracker : TradeIdTracker;
  gapEvents : GapEventQueue;
  gaps : Z;
  failFirst : Z;
  backfill : TradeBackfill;
  seq : Z;
  backfilled : Z;
  rowClock : RowClock;
  clockLagNs : Z;
  seeded : Z;
  openGaps : Z;
  firstAfterSeed : bool;
  sent : Z;
  idShift : Z
}.
#[export] Instance eta_Sim : Eta Sim := fun s =>
  mkSimulator (opts s) (sim_tp s) (tracker s) (gapEvents s) (gaps s) (failFirst s) (backfill s) (seq s)
    (backfilled s) (rowClock s) (clockLagNs s) (seeded s) (openGaps s) (firstAfterSeed s) (sent s) (idShift s).

Definition sim_table : string := "trade_binance".

(** [static_cast<std::size_t>] of the ring size. *)
Definition sim_tpConfig (o : Options) : TpPublisherConfig :=
  mkTpConfig "localhost" (port o) sim_table TRADE_ROW_WIDTH (session o) (Z.to_nat (ring o mod 2 ^ 64)) 200 1000.

Definition sim_backfillConfig (o : Options) : TradeBackfillConfig :=
  mkBackfillConfig true (bfMaxGap o) (to_int (bfPage o)) 4 false
    (default_SnapshotSchedulerConfig <| weightPerRequest := 1 |> <| weightLimitPerMin := 600000 |>
       <| initialBackoffMs := 50 |> <| maxBackoffMs := 200 |>).

Definition newSim (o : Options) : Sim :=
  mkSimulator o (newTpPublisher (sim_tpConfig o)) ∅ (newGapEventQueue "trade_gap") 0 (bfFail o)
    (newBackfill (sim_backfillConfig o)) 0 0 (newRowClock (lagThresholdMs o)) 0 0 0 false 0 0.

Section sim.
Context {W : Type} `{Process W} `{TpLink W} `{Host W} `{Background W}.
Context (fuel : nat).

Local Abbreviation SM := (M Sim W).

(** The publisher's own clock, behind the true time while a lag is simulated. *)
Definition clockNs : SM Z :=
  t <- world system_now ;;
  lag <- gets clockLagNs ;;
  ret (t - lag).

Definition sim_flush : SM unit := fun s w =>
  let '(_, q, p, w) := flush (gapEvents s) (sim_tp s) w in
  Some (tt, s <| gapEvents := q |> <| sim_tp := p |>, w).

Definition sim_flush_pending : SM unit :=
  n <- gets (fun s => length (pending_ (gapEvents s))) ;;
  when (0 <? n)%nat sim_flush.

Definition sim_event (g : TradeGap) (st : GapStatus) (reason : string) : SM unit :=
  now <- world system_now ;;
  puts (fun s => s <| gapEvents ::= gap_push (buildGapRow now g sim_table st reason) |>) ;;;
  sim_flush.

(** The lambda [record]. *)
Definition record_gap (g : TradeGap) : SM unit :=
  puts (fun s => s <| gaps ::= Z.succ |>) ;;;
  sim_event g Detected "".

(** ** The fake exchange *)

(** The price of a row, [100.0 + 0.01 * (n % 100)]. *)
Definition sim_price (n : Z) : double := dadd (d_of_Z 100) (dmul (d_dec 1 2) (d_of_Z (Z.rem n 100))).

(** Every id from [id] on, [n] of them. *)
Fixpoint serve (n : nat) (id : Z) (trades : list BackfillTrade) : SM (list BackfillTrade) :=
  match n with
  | O => ret trades
  | S n =>
      now <- world system_now ;;
      serve n (id + 1)
        (trades ++ [mkBackfillTrade id (sim_price id) (d_dec 25 2) dnan 0 0 (Z.quot now 1000000 - 5000)
                      (Z.rem id 2 =? 0)])
  end.

(** [FakeExchange::fetch]. *)
Definition fake_fetch (fromId limit : Z) : SM BackfillPage :=
  world (fun w => (tt, sleep_ns 3000000 w)) ;;;
  recv <- clockNs ;;
  let p := empty_page <| pg_recvTimeUtcNs := recv |> in
  fails <- gets failFirst ;;
  if 0 <? fails then
    puts (fun s => s <| failFirst ::= Z.pred |>) ;;;
    ret (p <| pg_error := "simulated REST failure" |>)
  else
    from <- gets (fun s => Z.max fromId (bfServedFrom (opts s))) ;;
    trades <- serve (Z.to_nat limit) from [] ;;
    ret (p <| pg_ok := true |> <| pg_httpStatus := 200 |> <| pg_trades := trades |>).

(** The backfill's worker thread, one step and up to here. *)
Definition sim_turn : SM unit :=
  b <- gets backfill ;;
  match bf_thread b with
  | BfFetching r =>
      page <- fake_fetch (br_fromId r) (br_limit r) ;;
      puts (fun s => s <| backfill ::= fun b => default b (bf_fetched page b) |>)
  | _ => puts (fun s => s <| backfill ::= fun b => default b (bf_pop b) |>)
  end.
Fixpoint sim_turns (n : nat) : SM unit := match n with O => ret tt | S n => sim_turn ;;; sim_turns n end.
Definition sim_background : SM unit := n <- world worker_steps ;; sim_turns n.

(** ** The backfill's callbacks *)

Definition sim_stamp (recv own : Z) : SM RowStamp := fun s w =>
  let '(st, c) := stamp recv own (rowClock s) in Some (st, s <| rowClock := c |>, w).

Definition sim_publish (row : K) : SM bool := fun s w =>
  match publish fuel row (seq s) (sim_tp s) w with
  | Some (ok, p, w) => Some (ok, s <| sim_tp := p |>, w)
  | None => None
  end.

(** [k(tp.handle(), "1")]: TP has then read what was sent before. *)
Definition sim_sync : SM unit :=
  s <- gets (fun s => s) ;;
  when (connected (sim_tp s)) (world (k_call (handle_ (sim_tp s)) "1" []) ;;; ret tt).

Definition sim_backfilled (sym : string) (t : BackfillTrade) (recvNs : Z) : SM unit :=
  puts (fun s => s <| seq ::= Z.succ |>) ;;;
  st <- sim_stamp recvNs 0 ;;
  n <- gets seq ;;
  sim_publish (buildTradeRow (timeUtcNs st) recvNs sym (bt_id t) (bt_price t) (bt_qty t) (bt_buyerIsMaker t)
                 GAP_NULL_LONG (bt_tradeTimeMs t) 0 0 n SIM_KDB_EPOCH_OFFSET_NS) ;;;
  puts (fun s => s <| backfilled ::= Z.succ |>) ;;;
  dies <- gets (fun s => backfilled s =? dieAfter (opts s)) ;;
  when dies (sim_sync ;;; fun _ _ => None).

(** A method as the callback of [TradeBackfill::pump], which returns nothing. *)
Definition sim_callback (m : SM unit) : Sim * W -> option (Sim * W) := fun '(s, w) =>
  match m s w with Some (_, s, w) => Some (s, w) | None => None end.

(** The lambda [pump]. The fetcher is only called in place with
    [inlineFetch], which is off here. *)
Definition sim_pump : SM unit :=
  t <- world steady_now ;;
  fun s w =>
    match pump (fun sym t recv => sim_callback (sim_backfilled sym t recv))
               (fun g st reason => sim_callback (sim_event g st reason))
               (fun _ from limit '(s, w) =>
                  match fake_fetch from limit s w with
                  | Some (p, s, w) => (p, (s, w))
                  | None => (empty_page, (s, w))
                  end)
               (fun '(s, w) => let '(j, w) := draw_jitter w in (j, (s, w)))
               (Z.quot t 1000000) (backfill s) (s, w) with
    | Some (_, b, (s, w)) => Some (tt, s <| backfill := b |>, w)
    | None => None
    end.

(** ** main *)

(** The end of a downtime: last ids and open gaps from TP. *)
Definition seed_id (kv : string * Z) (s : Sim) : Sim :=
  s <| tracker ::= TradeGap.seed (fst kv) (snd kv) |> <| seeded ::= Z.succ |>
    <| firstAfterSeed := firstAfterSeed s || String.eqb (fst kv) (sym (opts s)) |>.
Definition reopen_gap (og : OpenGap) (s : Sim) : Sim :=
  if doBackfill (opts s)
  then s <| backfill ::= addGap (mkTradeGap (og_sym og) (og_firstId og) (og_lastId og)
                                   (og_recovered og) (og_recoveredThroughId og)) |>
  else s.
Definition sim_seed : SM unit :=
  st <- (fun s w => let '(st, p, w) := tradeState (sim_tp s) w in Some (st, s <| sim_tp := p |>, w)) ;;
  puts (fun s => fold_left (fun s kv => seed_id kv s) (ts_lastIds st) s) ;;;
  puts (fun s => s <| openGaps := Z.of_nat (length (ts_openGaps st)) |>) ;;;
  puts (fun s => fold_left (fun s og => reopen_gap og s) (ts_openGaps st) s).

Definition sim_onId (id : Z) : SM Result := fun s w =>
  let '(r, t) := onId (sym (opts s)) id (tracker s) in Some (r, s <| tracker := t |>, w).

(** A gap between the ids of two rows. *)
Definition sim_gap (r : Result) : SM unit :=
  s <- gets (fun s => s) ;;
  let g := mkTradeGap (sym (opts s)) (firstMissing r) (lastMissing r) 0 0 in
  puts (fun s => s <| gaps ::= Z.succ |>) ;;;
  sim_event g Detected (if firstAfterSeed s then "handlerRestart" else "") ;;;
  when (doBackfill (opts s)) (puts (fun s => s <| backfill ::= addGap g |>)).

(** Iteration [i] of the row loop; false is the [break]. *)
Definition send_row (i : Z) : SM bool :=
  puts (fun s => let o := opts s in
    s <| clockLagNs := if (0 <? lagMs o) && (lagAt o <=? i) && (i <? lagAt o + lagRows o)
                       then lagMs o * 1000000 else 0 |>) ;;;
  recv <- clockNs ;;
  now <- world system_now ;;
  let eventMs := Z.quot now 1000000 in
  puts (fun s => if i =? gapAt (opts s) then s <| idShift := gapSize (opts s) |> else s) ;;;
  id <- gets (fun s => firstId (opts s) + i + idShift s) ;;
  r <- sim_onId id ;;
  when (bool_decide (kind r = Gap)) (sim_gap r) ;;;
  puts (fun s => s <| firstAfterSeed := false |> <| seq ::= Z.succ |>) ;;;
  st <- sim_stamp recv eventMs ;;
  s <- gets (fun s => s) ;;
  ok <- sim_publish (buildTradeRow (timeUtcNs st) recv (sym (opts s)) id (sim_price i) (d_dec 5 1) (Z.rem i 2 =? 0)
                       eventMs eventMs 1 1 (seq s) SIM_KDB_EPOCH_OFFSET_NS) ;;
  if negb ok then ret false
  else
    puts (fun s => s <| sent ::= Z.succ |>) ;;;
    sim_flush_pending ;;;
    sim_background ;;;
    sim_pump ;;;
    gap <- gets (fun s => Z.quot 1000000000 (rate (opts s))) ;;
    world (fun w => (tt, sleep_ns gap w)) ;;;
    ret true.

(** [n] more rows from [i] on. *)
Fixpoint row_loop (n : nat) (i : Z) : SM unit :=
  match n with
  | O => ret tt
  | S n =>
      r <- world is_running ;;
      if negb r then ret tt
      else
        ok <- send_row i ;;
        if negb ok then ret tt else row_loop n (i + 1)
  end.

(** The bounded wait for the backfill; [rounds] bounds its iterations. *)
Fixpoint drain_loop (rounds : nat) (t0 : Z) : SM unit :=
  match rounds with
  | O => fun _ _ => None
  | S rounds =>
      n <- gets (fun s => length (queue_ (backfill s))) ;;
      if (n =? 0)%nat then ret tt
      else
        t <- world steady_now ;;
        if negb (Z.quot t 1000000 - t0 <? 15000) then ret tt
        else
          r <- world is_running ;;
          if negb r then ret tt
          else
            sim_background ;;;
            sim_pump ;;;
            world (fun w => (tt, sleep_ns 2000000 w)) ;;;
            drain_loop rounds t0
  end.

(** [main] once connected; the exit code. *)
Definition sim_connected (o : Options) (rounds : nat) : SM Z :=
  puts (fun s => s <| backfill ::= bf_start |>) ;;;
  when (seedFromTp o) sim_seed ;;;
  row_loop (Z.to_nat (nRows o)) 0 ;;;
  puts (fun s => s <| clockLagNs := 0 |>) ;;;
  t0 <- world steady_now ;;
  drain_loop rounds (Z.quot t0 1000000) ;;;
  puts (fun s => s <| backfill ::= bf_stop |>) ;;;
  sim_flush_pending ;;;
  s <- gets (fun s => s) ;;
  when (connected (sim_tp s))
    (match sendFhStats (handle_ (sim_tp s)) sim_table [("clockLagRows"%string, correctedRows_ (rowClock s))] with
     | Some (_, f, args) => world (k_send (handle_ (sim_tp s)) f args) ;;; ret tt
     | None => ret tt
     end) ;;;
  sim_sync ;;;
  gets (fun s => if negb (String.eqb (fatalError_ (sim_tp s)) "") then 2
                 else if sent s =? nRows o then 0 else 1).

(** [main] from the publisher on. *)
Definition sim_run (rounds : nat) : SM Z :=
  o <- gets opts ;;
  when ((pendFirst o <=? pendLast o) && (0 <? pendFirst o))
    (record_gap (mkTradeGap (sym o) (pendFirst o) (pendLast o) 0 0)) ;;;
  ok <- (fun s w =>
    match connect fuel 1 (sim_tp s) w with
    | Some (ok, p, w) => Some (ok, s <| sim_tp := p |>, w)
    | None => None
    end) ;;
  if negb ok then gets (fun s => if String.eqb (fatalError_ (sim_tp s)) "" then 1 else 2)
  else sim_connected o rounds.

(** The command line, then the run. *)
Definition sim_main (rounds : nat) (args : list string) (w : W) : option (Z * W) :=
  let '(now, w) := system_now w in
  match parse_options args (default_Options now) with
  | None => Some (1, w)
  | Some o =>
      if negb (usable o) then Some (1, w)
      else match sim_run rounds (newSim o) w with
           | Some (code, _, w) => Some (code, w)
           | None => None
           end
  end.
End sim.
