(* ===== verification/SimPublisherProps.v ===== *)
(** * What the test publisher sends

    The sandbox tests compare TP's log with the ids the test publisher was asked
    for. The theorem says that this is what it publishes. *)

From S2P Require Import Prelude Double CStdlib MarketConfig Effects Backoff RowClock.
From S2P Require Import KObject TpPublisher TpSession TradeGap Scheduler RestClient SnapshotWorker Rows Delivery.
From S2P Require Import TradeBackfill TradeBackfillProps TradeLedger TradeHandlerProps SimPublisher.
From S2P Require Import Shutdown TickerPlant TpLine SimWorld.

Open Scope Z_scope.
Local Open Scope rec_scope.
Local Open Scope effect_scope.

(** The id of row [i], and the ids of the first [n] rows. *)
Definition shift_at (o : Options) (i : Z) : Z := if (0 <=? gapAt o) && (gapAt o <=? i) then gapSize o else 0.
Definition row_id (o : Options) (i : Z) : Z := firstId o + i + shift_at o i.
Definition row_ids (o : Options) (n : Z) : list (string * Z) := (fun i => (sym o, row_id o i)) <$> seqZ 0 n.

Definition sim_good (row : K) : Prop := k_types row = trade_schema SpotTrade.

Section sim.
Context (o : Options).
Context {W : Type} `{TpSession W (sim_tpConfig o) row_seq} `{Host W} `{WebSocket W} `{HttpLib W} `{Background W}
  `{!TpQuiet W (sim_tpConfig o)}.
Context (fuel : nat).
(** The clock is past 1970. *)
Hypothesis Hclock : forall w, 0 <= fst (system_now w).

Local Abbreviation tpc := (sim_tpConfig o).

(** The live rows published so far are [live], and [m] of them are counted as
    sent; [k] rows have a number and are not published yet. *)
Definition sim_inv (k : Z) (live : list (string * Z)) (m shift : Z) (s : Sim) (w : W) : Prop :=
  opts s = o /\ idShift s = shift /\ sent s = m /\
  exists rows, published_rows tpc sim_good (seq s - k) rows (sim_tp s) w /\
    live_trades SpotTrade rows = live.

Lemma sim_inv_same k l m sh s s' w :
  opts s' = opts s -> idShift s' = idShift s -> sent s' = sent s -> seq s' = seq s -> sim_tp s' = sim_tp s ->
  sim_inv k l m sh s w -> sim_inv k l m sh s' w.
Proof. unfold sim_inv. intros -> -> -> -> ->. done. Qed.

Lemma sim_inv_quiet k l m sh s w w' : t_same w w' -> sim_inv k l m sh s w -> sim_inv k l m sh s w'.
Proof.
  intros Hs (H1' & H2' & H3' & rows & Hp & Hl). repeat (split; [done|]). exists rows. split; [|done].
  by apply (published_same _ _ _ _ _ w).
Qed.

Lemma sim_world {A} k l m sh (f : W -> A * W) :
  (forall w, t_same w (snd (f w))) -> ensures (sim_inv k l m sh) (world f) anything.
Proof. intros Hf. apply ensures_world. intros s w. apply sim_inv_quiet, Hf. Qed.

Lemma sim_puts k l m sh f :
  (forall s, opts (f s) = opts s /\ idShift (f s) = idShift s /\ sent (f s) = sent s /\ seq (f s) = seq s /\
     sim_tp (f s) = sim_tp s) -> ensures (sim_inv k l m sh) (puts f) anything.
Proof. intros Hf. apply ensures_puts. intros s w. destruct (Hf s) as (?&?&?&?&?). by apply sim_inv_same. Qed.

(** One step of a method. *)
Ltac sim_step :=
  lazymatch goal with
  | |- ensures _ (world steady_now) _ => apply sim_world, quiet_steady
  | |- ensures _ (world system_now) _ => apply sim_world, quiet_system
  | |- ensures _ (world (fun w => (tt, sleep_ns _ w))) _ => apply sim_world; intros ?; apply law_sleep
  | |- ensures _ (world is_running) _ => apply sim_world, law_running
  | |- ensures _ (puts _) _ => apply sim_puts; intros ?; first [done | by case_match]
  | |- _ => ensures_step
  end.

Lemma clockNs_inv k l m sh : ensures (sim_inv k l m sh) clockNs anything.
Proof. unfold clockNs. repeat sim_step. Qed.

Lemma sim_flush_inv k l m sh : ensures (sim_inv k l m sh) sim_flush anything.
Proof.
  intros s w y s' w' (H1' & H2' & H3' & rows & Hp & Hl). unfold sim_flush.
  destruct (flush (gapEvents s) (sim_tp s) w) as [[[b q] p] w1] eqn:E. intros [= <- <- <-]. split; [|done].
  repeat (split; [done|]). exists rows. split; [|done]. exact (flush_published tpc sim_good _ _ _ _ _ _ _ _ _ Hp E).
Qed.
Lemma sim_flush_pending_inv k l m sh : ensures (sim_inv k l m sh) sim_flush_pending anything.
Proof. unfold sim_flush_pending. repeat first [apply sim_flush_inv | sim_step]. Qed.
Lemma sim_event_inv k l m sh g st why : ensures (sim_inv k l m sh) (sim_event g st why) anything.
Proof. unfold sim_event. repeat first [apply sim_flush_inv | sim_step]. Qed.

(** ** The worker thread *)

Lemma serve_inv k l m sh c id ts : ensures (sim_inv k l m sh) (serve c id ts) anything.
Proof. revert id ts. induction c as [|c IH]; intros id ts; cbn [serve]; repeat first [apply IH | sim_step]. Qed.
Lemma fake_fetch_inv k l m sh from limit : ensures (sim_inv k l m sh) (fake_fetch from limit) anything.
Proof. unfold fake_fetch. repeat first [apply clockNs_inv | apply serve_inv | sim_step]. Qed.
Lemma sim_turn_inv k l m sh : ensures (sim_inv k l m sh) sim_turn anything.
Proof. unfold sim_turn. repeat first [apply fake_fetch_inv | sim_step]. Qed.
Lemma sim_background_inv k l m sh : ensures (sim_inv k l m sh) sim_background anything.
Proof.
  unfold sim_background. ensures_step; [apply sim_world, quiet_steps|].
  induction x as [|c IH]; cbn [sim_turns]; repeat first [apply IH | apply sim_turn_inv | sim_step].
Qed.

(** ** Rows *)

Lemma sim_stamp_inv k l m sh recv own : ensures (sim_inv k l m sh) (sim_stamp recv own) anything.
Proof.
  intros s w y s' w' Hi. unfold sim_stamp. destruct (stamp _ _ _) as [st c]. intros [= <- <- <-].
  split; [|done]. by apply (sim_inv_same _ _ _ _ s).
Qed.

Lemma live_trades_snoc rows row :
  live_trades SpotTrade (rows ++ [row]) = live_trades SpotTrade rows ++ live_trades SpotTrade [row].
Proof. unfold live_trades, live_origins. by rewrite !omap_app. Qed.

Lemma sim_publish_inv l m sh row s w ok s' w' :
  sim_inv 1 l m sh s w -> sim_good row -> row_seq row = seq s -> sim_publish fuel row s w = Some (ok, s', w') ->
  sim_inv 0 (l ++ live_trades SpotTrade [row]) m sh s' w'.
Proof.
  intros (H1' & H2' & H3' & rows & Hp & Hl) Hg Hn. unfold sim_publish.
  destruct (publish fuel row (seq s) (sim_tp s) w) as [[[b p] w1]|] eqn:E; [|done]. intros [= <- <- <-].
  repeat (split; [done|]). exists (rows ++ [row]). rewrite live_trades_snoc, Hl. split; [|done].
  cbn [seq sim_tp modify eta_Sim]. rewrite Z.sub_0_r.
  replace (seq s) with (seq s - 1 + 1) in E, Hn |- * by lia.
  exact (publish_published _ _ _ _ _ _ _ _ _ _ _ Hp Hg Hn (k_types_n row (trade_schema SpotTrade) ltac:(done) Hg) E).
Qed.

(** The row about to be sent has the number [n]. *)
Definition sim_sending (l : list (string * Z)) (m sh n : Z) (s : Sim) (w : W) : Prop :=
  sim_inv 1 l m sh s w /\ seq s = n.

Lemma sim_stamp_sending l m sh n recv own : ensures (sim_sending l m sh n) (sim_stamp recv own) anything.
Proof.
  intros s w y s' w' [Hi Hn] E. pose proof (sim_stamp_inv _ _ _ _ _ _ _ _ _ _ _ Hi E) as [Hi' _].
  split; [split; [done|]|done]. revert E. unfold sim_stamp. destruct (stamp _ _ _). by intros [= _ <- _].
Qed.

Lemma sim_number l m sh f :
  (forall s, opts (f s) = opts s /\ idShift (f s) = idShift s /\ sent (f s) = sent s /\
     seq (f s) = Z.succ (seq s) /\ sim_tp (f s) = sim_tp s) ->
  triple (sim_inv 0 l m sh) (puts f) (fun _ => sim_inv 1 l m sh).
Proof.
  intros Hf. apply triple_puts. intros s w (H1' & H2' & H3' & rows & Hp & Hl).
  destruct (Hf s) as (E1 & E2 & E3 & E4 & E5). unfold sim_inv. rewrite E1, E2, E3, E4, E5.
  repeat (split; [done|]). exists rows. split; [|done]. by replace (Z.succ (seq s) - 1) with (seq s - 0) by lia.
Qed.

Lemma sim_backfilled_inv l m sh sy t recv : ensures (sim_inv 0 l m sh) (sim_backfilled fuel sy t recv) anything.
Proof.
  unfold sim_backfilled.
  apply (triple_bind _ _ _ (fun _ => sim_inv 1 l m sh)); [by apply sim_number|intros _].
  eapply ensures_triple; [apply sim_stamp_inv|intros st _].
  apply (triple_bind _ _ _ (fun n => sim_sending l m sh n)); [by apply triple_gets|intros n].
  apply (triple_bind _ _ _ (fun _ => sim_inv 0 l m sh)).
  - intros s w ok s' w' [Hi Hn] E.
    apply (sim_publish_inv l m sh) in E; [|done|done|by rewrite Hn]. by rewrite app_nil_r in E.
  - intros _. change (ensures (sim_inv 0 l m sh) (puts (fun s => s <| backfilled ::= Z.succ |>) ;;;
      dies <- gets (fun s => backfilled s =? dieAfter (opts s)) ;; when dies (sim_sync ;;; fun _ _ => None)) anything).
    ensures_step; [by sim_step|]. ensures_step; [by ensures_step|]. ensures_step.
    intros s w y s' w' _. unfold bind. by destruct (sim_sync s w) as [[[]]|].
Qed.

Lemma sim_pump_inv l m sh : ensures (sim_inv 0 l m sh) (sim_pump fuel) anything.
Proof.
  unfold sim_pump. ensures_step; [by sim_step|].
  intros s w y s' w' Hi. unfold pump.
  match goal with |- match pump_loop ?p ?r ?f ?j _ ?now ?b (s, w) with _ => _ end = _ -> _ =>
    set (pub := p); set (rec := r); set (fet := f); set (jit := j);
    destruct (pump_loop pub rec fet jit PUMP_GUARD now b (s, w)) as [[[u b'] [s1 w1]]|] eqn:E; [|done]
  end.
  intros [= <- <- <-]. split; [|done].
  apply (pump_client (fun c => sim_inv 0 l m sh (fst c) (snd c))) in E as [Hi1 _];
    [by apply (sim_inv_same _ _ _ _ s1)| | | | |exact Hi].
  - intros sy t recv [s2 w2] c' Hc. unfold pub, sim_callback.
    destruct (sim_backfilled fuel sy t recv s2 w2) as [[[v s3] w3]|] eqn:Ec; [|done]. intros [= <-].
    by apply (sim_backfilled_inv l m sh) in Ec as [? _].
  - intros g st why [s2 w2] c' Hc. unfold rec, sim_callback.
    destruct (sim_event g st why s2 w2) as [[[v s3] w3]|] eqn:Ec; [|done]. intros [= <-].
    by apply (sim_event_inv 0 l m sh) in Ec as [? _].
  - intros sy from limit [s2 w2] Hc. unfold fet.
    destruct (fake_fetch from limit s2 w2) as [[[v s3] w3]|] eqn:Ec; [|done].
    by apply (fake_fetch_inv 0 l m sh) in Ec as [? _].
  - intros [s2 w2] Hc. unfold jit. cbn [fst snd] in *. pose proof (quiet_draw w2) as Hq.
    destruct (draw_jitter w2) as [jv w3]. by apply (sim_inv_quiet _ _ _ _ _ w2).
Qed.

(** ** The row loop *)

Lemma sim_gap_inv l m sh r : ensures (sim_inv 0 l m sh) (sim_gap r) anything.
Proof. unfold sim_gap. repeat first [apply sim_event_inv | sim_step]. Qed.

Lemma shift_next i :
  0 <= i -> shift_at o i = if i =? gapAt o then gapSize o else shift_at o (i - 1).
Proof.
  intros Hi. unfold shift_at. destruct (Z.eqb_spec i (gapAt o)), (Z.leb_spec 0 (gapAt o)),
    (Z.leb_spec (gapAt o) i), (Z.leb_spec (gapAt o) (i - 1)); cbn; lia.
Qed.

(** Before row [i]: its predecessors are published. *)
Definition before_row (i m : Z) : Sim -> W -> Prop := sim_inv 0 (row_ids o i) m (shift_at o (i - 1)).

Lemma row_ids_snoc i : 0 <= i -> row_ids o (i + 1) = row_ids o i ++ [(sym o, row_id o i)].
Proof. intros Hi. unfold row_ids. rewrite seqZ_app by lia. rewrite fmap_app. cbn. by rewrite Z.add_0_l. Qed.

(** The row of iteration [i] as it goes out. *)
Lemma live_row_of i t recv m eventMs n :
  0 <= eventMs ->
  live_trades SpotTrade [buildTradeRow t recv (sym o) (row_id o i) (sim_price i) (d_dec 5 1) m eventMs eventMs 1 1 n
    SIM_KDB_EPOCH_OFFSET_NS] = [(sym o, row_id o i)].
Proof.
  intros He. unfold live_trades, live_origins. cbn. replace (eventMs =? GAP_NULL_LONG) with false; [done|].
  symmetry. apply Z.eqb_neq. intros ->. by apply He.
Qed.

Lemma row_sent_inv rows m sh :
  triple (sim_inv 0 rows m sh)
    (puts (fun s => s <| sent ::= Z.succ |>) ;;;
     sim_flush_pending ;;;
     sim_background ;;;
     sim_pump fuel ;;;
     gap <- gets (fun s => Z.quot 1000000000 (rate (opts s))) ;;
     world (fun w => (tt, sleep_ns gap w)) ;;;
     ret true)
    (fun ok => sim_inv 0 rows (if ok then m + 1 else m) sh).
Proof.
  apply (triple_bind _ _ _ (fun _ => sim_inv 0 rows (m + 1) sh)).
  { apply triple_puts. intros s w (H1' & H2' & H3' & Hr). repeat (split; [done|]). split; [cbn; lia|done]. }
  intros _. eapply ensures_triple; [apply sim_flush_pending_inv|intros _ _].
  eapply ensures_triple; [apply sim_background_inv|intros _ _].
  eapply ensures_triple; [apply sim_pump_inv|intros _ _].
  eapply ensures_triple with (R := anything); [by apply ensures_gets|intros gap _].
  eapply ensures_triple; [by sim_step|intros _ _]. by apply triple_ret.
Qed.

Lemma send_row_inv i m :
  0 <= i -> triple (before_row i m) (send_row fuel i)
    (fun ok => sim_inv 0 (row_ids o (i + 1)) (if ok then m + 1 else m) (shift_at o i)).
Proof.
  intros Hi. unfold send_row, before_row.
  eapply ensures_triple; [by sim_step|intros _ _].
  eapply ensures_triple; [apply clockNs_inv|intros recv _].
  apply (triple_bind _ _ _ (fun now s w => before_row i m s w /\ 0 <= now)).
  { intros s w now s' w' Hs. unfold world. pose proof (quiet_system w) as Hq. pose proof (Hclock w) as Hc.
    destruct (system_now w) as [t w1]. cbn [fst snd] in *. intros [= <- <- <-].
    split; [by apply (sim_inv_quiet _ _ _ _ _ w)|done]. }
  intros now. apply triple_pure with (phi := 0 <= now); [by intros ?? []|intros Hnow].
  apply triple_pre with (P' := before_row i m); [|by intros ?? []].
  assert (0 <= Z.quot now 1000000) as Hev by (apply Z.quot_pos; lia).
  revert Hev. generalize (Z.quot now 1000000). intros eventMs Hev.
  apply (triple_bind _ _ _ (fun _ => sim_inv 0 (row_ids o i) m (shift_at o i))).
  { apply triple_puts. intros s w (H1' & H2' & H3' & Hr). rewrite shift_next, H1' by lia.
    by destruct (i =? gapAt o). }
  intros _.
  apply (triple_bind _ _ _ (fun id s w => sim_inv 0 (row_ids o i) m (shift_at o i) s w /\ id = row_id o i)).
  { apply triple_gets. intros s w Hs. split; [done|]. destruct Hs as (-> & -> & _). done. }
  intros id. apply triple_pure with (phi := id = row_id o i); [by intros ?? []|intros ->].
  apply triple_pre with (P' := sim_inv 0 (row_ids o i) m (shift_at o i)); [|by intros ?? []].
  eapply ensures_triple with (R := anything); [|intros r _].
  { intros s w r s' w' Hs. unfold sim_onId. destruct (onId _ _ _) as [r1 t]. intros [= <- <- <-].
    split; [by apply (sim_inv_same _ _ _ _ s)|done]. }
  eapply ensures_triple; [apply ensures_when, sim_gap_inv|intros _ _].
  apply (triple_bind _ _ _ (fun _ => sim_inv 1 (row_ids o i) m (shift_at o i))); [by apply sim_number|intros _].
  eapply ensures_triple; [apply sim_stamp_inv|intros st _].
  apply (triple_bind _ _ _ (fun s0 s w => sim_sending (row_ids o i) m (shift_at o i) (seq s0) s w /\ opts s0 = o)).
  { apply triple_gets. intros s w Hs. split; [done|]. by destruct Hs. }
  intros s0. apply triple_pure with (phi := opts s0 = o); [by intros ?? []|intros Ho].
  apply triple_pre with (P' := sim_sending (row_ids o i) m (shift_at o i) (seq s0)); [|by intros ?? []].
  rewrite Ho.
  apply (triple_bind _ _ _ (fun _ => sim_inv 0 (row_ids o (i + 1)) m (shift_at o i))).
  { intros s w ok s' w' [Hs Hn] E. apply (sim_publish_inv (row_ids o i) m (shift_at o i)) in E; [|done|done|by rewrite Hn].
    rewrite live_row_of in E by done. by rewrite row_ids_snoc. }
  intros ok. destruct ok; cbn [negb]; [apply row_sent_inv|by apply triple_ret].
Qed.

(** Between rows: [n] live rows, all but possibly the last one counted. *)
Definition rows_out (top : Z) (s : Sim) (w : W) : Prop :=
  exists n m sh, sim_inv 0 (row_ids o n) m sh s w /\ 0 <= m <= n /\ n <= m + 1 /\ n <= top.

Lemma row_loop_inv c i :
  0 <= i -> triple (before_row i i) (row_loop fuel c i) (fun _ => rows_out (i + Z.of_nat c)).
Proof.
  revert i. induction c as [|c IH]; intros i Hi; cbn [row_loop].
  { apply triple_ret. intros s w Hs. exists i, i, (shift_at o (i - 1)). split; [exact Hs|lia]. }
  eapply ensures_triple; [by sim_step|intros r _]. destruct r; cbn [negb].
  2: { apply triple_ret. intros s w Hs. exists i, i, (shift_at o (i - 1)). split; [exact Hs|lia]. }
  apply (triple_bind _ _ _ (fun ok : bool => sim_inv 0 (row_ids o (i + 1)) (if ok then i + 1 else i) (shift_at o i)));
    [by apply send_row_inv|intros ok]. destruct ok; cbn [negb].
  - eapply triple_conseq; [apply (IH (i + 1)); lia| |].
    + intros s w. unfold before_row. by replace (i + 1 - 1) with i by lia.
    + intros ? s w. by replace (i + 1 + Z.of_nat c) with (i + Z.of_nat (S c)) by lia.
  - apply triple_ret. intros s w Hs. exists (i + 1), i, (shift_at o i). split; [exact Hs|lia].
Qed.

(** What keeps the rows, whatever they are. *)
Lemma rows_out_keep {A} top (mm : M Sim W A) (Q : A -> Prop) :
  (forall n m sh, ensures (sim_inv 0 (row_ids o n) m sh) mm Q) -> ensures (rows_out top) mm Q.
Proof.
  intros Hm s w x s' w' (n & m & sh & Hi & Hb) E. destruct (Hm n m sh s w x s' w' Hi E) as [Hi' HQ].
  split; [by exists n, m, sh|done].
Qed.

Lemma drain_loop_inv l m sh rounds t0 : ensures (sim_inv 0 l m sh) (drain_loop fuel rounds t0) anything.
Proof.
  induction rounds as [|rounds IH]; cbn [drain_loop]; [by intros ? ? ? ? ?|].
  repeat first [apply IH | apply sim_background_inv | apply sim_pump_inv | sim_step].
Qed.

Lemma sim_sync_inv l m sh : ensures (sim_inv 0 l m sh) sim_sync anything.
Proof.
  unfold sim_sync. ensures_step; [by ensures_step|]. ensures_step. ensures_step; [|by ensures_step].
  apply sim_world. intros w. by apply quiet_call.
Qed.

Lemma sim_seed_inv l m sh : ensures (sim_inv 0 l m sh) sim_seed anything.
Proof.
  unfold sim_seed. ensures_step.
  { intros s w st s' w' (H1' & H2' & H3' & rows & Hp & Hl). destruct (tradeState (sim_tp s) w) as [[st1 p] w1] eqn:E.
    intros [= <- <- <-]. split; [|done]. repeat (split; [done|]). exists rows. split; [|done].
    exact (tradeState_published tpc sim_good _ _ _ _ _ _ _ Hp E). }
  assert (forall A (f : A -> Sim -> Sim) (xs : list A) s,
    (forall x s, opts (f x s) = opts s /\ idShift (f x s) = idShift s /\ sent (f x s) = sent s /\ seq (f x s) = seq s /\
       sim_tp (f x s) = sim_tp s) ->
    let s' := fold_left (fun s x => f x s) xs s in
    opts s' = opts s /\ idShift s' = idShift s /\ sent s' = sent s /\ seq s' = seq s /\ sim_tp s' = sim_tp s) as Hfold.
  { intros A f xs s Hf. revert s. induction xs as [|y ys IH]; intros s; cbn [fold_left]; [done|].
    destruct (IH (f y s)) as (-> & -> & -> & -> & ->). apply Hf. }
  ensures_step; [apply sim_puts; intros s; by apply Hfold|]. ensures_step; [by sim_step|].
  apply sim_puts. intros s. apply Hfold. intros og s'. unfold reopen_gap. by case_match.
Qed.

(** ** main *)

(** Before the first connection a gap event only waits. *)
Lemma flush_unconnected q w : exists b, flush q (newTpPublisher tpc) w = (b, q, newTpPublisher tpc, w).
Proof. unfold flush. destruct (pending_ q) as [|row rest] eqn:Eq; cbn [flush_rows]; [by exists true|]. by exists false. Qed.

Lemma pending_gap_start b g (s : Sim) w y s' w' :
  sim_tp s = newTpPublisher tpc -> when b (record_gap g) s w = Some (y, s', w') ->
  opts s' = opts s /\ idShift s' = idShift s /\ sent s' = sent s /\ seq s' = seq s /\
  sim_tp s' = newTpPublisher tpc /\ t_same w w'.
Proof.
  intros Htp. destruct b; cbn [when]; [|by intros [= <- <- <-]].
  unfold record_gap, sim_event, sim_flush, bind, puts, world. pose proof (quiet_system w) as Hq.
  destruct (system_now w) as [now w1]. cbn [snd] in Hq.
  cbn [gapEvents sim_tp modify eta_Sim]. rewrite Htp.
  match goal with |- context [flush ?q (newTpPublisher tpc) w1] => destruct (flush_unconnected q w1) as [b ->] end.
  by intros [= <- <- <-].
Qed.

Lemma stats_inv l m sh (s0 : Sim) :
  ensures (sim_inv 0 l m sh)
    (when (connected (sim_tp s0))
       (match sendFhStats (handle_ (sim_tp s0)) sim_table [("clockLagRows"%string, correctedRows_ (rowClock s0))] with
        | Some (_, f, args) => world (k_send (handle_ (sim_tp s0)) f args) ;;; ret tt
        | None => ret tt
        end)) anything.
Proof.
  ensures_step. unfold sendFhStats. destruct (handle_ (sim_tp s0) <=? 0); [by ensures_step|].
  ensures_step; [|by ensures_step]. apply sim_world. intros w. by apply quiet_send.
Qed.

Lemma before_first : shift_at o (0 - 1) = 0.
Proof. unfold shift_at. destruct (Z.leb_spec 0 (gapAt o)), (Z.leb_spec (gapAt o) (0 - 1)); cbn; lia. Qed.

(** The outcome: an exit code of 0 says that all rows were sent. *)
Definition sim_done (code : Z) (s : Sim) (w : W) : Prop :=
  rows_out (nRows o) s w /\ (code = 0 -> sent s = nRows o).

Ltac keep tac := eapply ensures_triple with (R := anything); [apply rows_out_keep; intros ? ? ?; tac|intros ? _].

Lemma sim_connected_inv rounds :
  usable o = true -> triple (before_row 0 0) (sim_connected fuel o rounds) sim_done.
Proof.
  intros Hu. assert (0 < nRows o) as Hpos.
  { unfold usable in Hu. destruct (Z.leb_spec (nRows o) 0); [|lia]. by rewrite orb_true_r in Hu. }
  unfold sim_connected.
  eapply ensures_triple; [by sim_step|intros _ _].
  eapply ensures_triple; [apply ensures_when, sim_seed_inv|intros _ _].
  apply (triple_bind _ _ _ (fun _ => rows_out (nRows o))).
  { eapply triple_conseq; [by apply row_loop_inv|done|]. intros ? s w. by replace (0 + Z.of_nat (Z.to_nat (nRows o))) with (nRows o) by lia. }
  intros _. keep ltac:(by sim_step). keep ltac:(by sim_step). keep ltac:(apply drain_loop_inv). keep ltac:(by sim_step).
  keep ltac:(apply sim_flush_pending_inv). keep ltac:(by ensures_step). keep ltac:(apply stats_inv). keep ltac:(apply sim_sync_inv).
  apply triple_gets. intros s w Hs. split; [exact Hs|].
  destruct (negb _); [done|]. by destruct (Z.eqb_spec (sent s) (nRows o)).
Qed.

Lemma sim_run_rows rounds w0 code s w :
  usable o = true -> t_last w0 = None -> t_log w0 = [] ->
  sim_run fuel rounds (newSim o) w0 = Some (code, s, w) ->
  (rows_out (nRows o) s w /\ (code = 0 -> sent s = nRows o)) \/ (code <> 0 /\ seq s = 0 /\ sent s = 0 /\ t_log w = []).
Proof.
  intros Hu Hl Hlog. unfold sim_run, bind at 1, gets at 1. cbn [opts newSim].
  unfold bind at 1. destruct (when _ _ (newSim o) w0) as [[[[] s1] w1]|] eqn:Ep; [|done].
  apply pending_gap_start in Ep as (E1 & E2 & E3 & E4 & E5 & Hsame); [|done].
  destruct Hsame as (Hl1 & Hlog1 & _). rewrite <-Hl1 in Hl. rewrite <-Hlog1 in Hlog.
  unfold bind at 1. rewrite E5.
  destruct (connect fuel 1 (newTpPublisher tpc) w1) as [[[ok p] w2]|] eqn:Ec; [|done].
  destruct (connect_published tpc sim_good _ _ _ _ _ Hl Hlog Ec) as [Hp Hlog2].
  destruct ok; cbn [negb].
  - specialize (Hp eq_refl). intros Er. left. apply (sim_connected_inv rounds Hu) in Er; [exact Er|].
    unfold before_row. rewrite before_first. split; [by cbn; rewrite E1|]. split; [by cbn; rewrite E2|].
    split; [by cbn; rewrite E3|]. exists []. split; [|done]. cbn [seq sim_tp modify eta_Sim]. by rewrite E4.
  - intros [= <- <- <-]. right. cbn. rewrite E3, E4. split; [by case_match|done].
Qed.
End sim.


(** ** A run: four rows with two ids missing before the second one, backfilled *)

#[local] Instance sp_process : Process World := world_process.
#[local] Instance sp_link : TpLink World := world_link "trade_binance" (Some SpotTrade) TRADE_ROW_WIDTH.
#[local] Instance sp_host : Host World := world_host.
#[local] Instance sp_ws : WebSocket World := world_websocket.
#[local] Instance sp_bg : Background World := world_background.
#[local] Instance sp_http : HttpLib World := world_http (Exception "not used").

Definition ex_args : list string :=
  ["--port"; "5010"; "--rows"; "4"; "--first-id"; "7"; "--gap-at"; "1"; "--gap-size"; "2"; "--backfill"; "1"]%string.
Definition ex_options : Options := default (default_Options 77) (parse_options ex_args (default_Options 77)).
Definition ex_sim_world : World :=
  mkWorld (line_to newTpTable [Delivered; Lost] 0 100) 1700000000000000000 1000000000 [] [] [3; 3; 3; 3; 3; 3]%nat.

Definition ex_sim_outcome (r : option (Z * Sim * World)) : Prop :=
  match r with
  | Some (code, s, w) =>
      session_id (ln_table (w_tp w)) = Some (session ex_options) /\
      code = 0 /\ sent s = 4 /\ rowsUnresendable_ (sim_tp s) = 0 /\ reconnects_ (sim_tp s) = 1 /\
      omap (row_origin SpotTrade) (ln_rows (w_tp w)) =
        [("BTCUSDT", 7, false); ("BTCUSDT", 10, false); ("BTCUSDT", 11, false);
         ("BTCUSDT", 8, true); ("BTCUSDT", 9, true); ("BTCUSDT", 12, false)]%string
  | None => False
  end.
Lemma ex_sim_runs : ex_sim_outcome (sim_run 110 20 (newSim ex_options) ex_sim_world).
Proof. vm_compute. repeat split. Qed.

